(* ===== verification/_CoqProject ===== *)
-Q . S2P
Prelude.v
GoStrings.v
NotificationEvent.v
WorkSchedule.v
NotificationPolicy.v
Workspace.v
Ownership.v
Meeting.v
Message.v
Presence.v
Breaker.v
UrlSafety.v
Envelope.v
AttachmentRange.v
LinkFetch.v
Transactions.v
Calls.v
CallsProtocol.v
CallsRuns.v
Outbox.v
NotificationWorker.v
Utf8.v
Codec.v
Paths.v
ByteSearch.v
DocumentGuard.v
FilePolicy.v
PolicyStreams.v
ZipPolicy.v
ZipFacts.v
FileDomain.v
Cursors.v
Uploads.v
UploadFacts.v
Signatures.v
Attachments.v
AttachmentRows.v
AttachmentReads.v
AttachmentList.v
AttachmentObjects.v
HubEvents.v
Hub.v
HubFacts.v
HubRuns.v
HubExample.v
HubCalm.v
HubWorkers.v
HubDelivery.v
HubOrder.v
HubGaps.v
