(* ===== verification/Prelude.v ===== *)
(** * NChat: a verification library for the Go services

    NChat is a self-hosted team chat.  Its Go code is a set of services (chat, file,
    notification, auth, admin and others under [services/]) over one PostgreSQL
    database, Redis and an object store, and the libraries they share
    ([libs/go/platform/]).  This development models the parts that decide something
    and proves what makes them right.  Paths are relative to [src/].

    ** How the program is put together, and the files that model it

    - [Prelude], [GoStrings]: what the source uses of Go - errors with [errors.Is] and
      [errors.As], [time.Time] and [time.Duration] as 64-bit nanoseconds with the
      saturation of [Time.Sub], integers that wrap, strings as bytes with the runes a
      [range] loop decodes - and the lemmas shared by all files.
    - [NotificationEvent] (libs/go/platform/notificationevent): the vocabulary of
      notifications, the life cycle of one delivery, the key that makes it unique.
    - [WorkSchedule] (libs/go/platform/workschedule): the weekly hours of a person and
      whether an instant falls in them.
    - [NotificationPolicy] (libs/go/platform/notificationpolicy): twelve rules that
      decide through which channels a person hears of an event; it asks
      [WorkSchedule].
    - [Outbox] (services/notification-service/internal/storage): the statements on the
      table of notifications, with its trigger and its checks.
    - [NotificationWorker] (services/notification-service/internal/config and worker):
      the worker that evaluates, claims, delivers and retires notifications with the
      statements of [Outbox] and the engine of [NotificationPolicy], and the
      interleaving of its replicas.
    - [Workspace], [Ownership], [Meeting], [Message], [Presence]
      (services/chat-service/internal/domain, libs/go/platform/conversationownership,
      antispampolicy and uploadpolicy): the rules of the chat service about members,
      owners and their succession, meetings, messages and presence.
    - [Transactions]: what a store relies on of PostgreSQL at READ COMMITTED, as a
      class of schemas ([Store]), a step relation over any number of transactions, a
      logic of assertions kept by locks ([Protocol], [safe]), a discipline of
      acquisition ([ordered]) and the length of an operation ([bounded]).
    - [Calls], [CallsProtocol], [CallsRuns] (services/chat-service/internal/domain/
      call.go, storage/call_store.go, service/call_service.go): calls.  [Calls] is the
      code, an instance of [Store]; [CallsProtocol] what its locks protect, an instance
      of [Protocol], with every operation shown to respect it; [CallsRuns] the
      theorems about every run, and runs that can be evaluated.
    - [Breaker], [UrlSafety] (libs/go/platform/urlsafety): the verdict on a link, its
      cache and the circuit breaker around the providers.
    - [LinkFetch] (libs/go/platform/linkfetch): the fetch of a link somebody posted,
      and the addresses it may reach.
    - [Envelope], [AttachmentRange] (services/file-service/internal/crypto/envelope.go,
      service/attachment_range.go and attachment_service.go): the encrypted form of an
      attachment, its key ring, and seekable reads of it.
    - [Utf8], [Codec], [Paths], [ByteSearch]: what the file service uses of the Go
      library - UTF-8, unpadded base64, RFC 3339 times, slash paths, byte search - as
      functions, with the lemmas that invert them.
    - [DocumentGuard] (libs/go/platform/documentguard): references, relationships and
      XML parts of an office document, and the archive that holds them.
    - [FilePolicy], [PolicyStreams], [ZipPolicy], [ZipFacts] (services/file-service/
      internal/filepolicy): the catalog of formats and their inspectors.  [FilePolicy]
      is catalog.go, inspect.go, text.go and email.go, with streams as the pieces their
      reads give; [ZipPolicy] is zip.go and office.go and asks [DocumentGuard];
      [PolicyStreams] and [ZipFacts] hold their theorems.
    - [FileDomain], [Cursors] (services/file-service/internal/domain, and the cursors of
      the chat, admin and search services): names, types, statuses and listing tokens.
    - [Uploads], [UploadFacts] (services/file-service/internal/service/
      attachment_service.go and attachment_policy.go): an upload from the client's
      stream to the finalized row, over [Envelope], the inspection of [ZipPolicy] and
      the reader of [AttachmentRange]; its calls to the stores are listed in order.
    - [Signatures] (services/file-service/internal/signatures and scanner, and
      [files.require_fresh_scan]): the evidence a clean verdict must come with.
    - [Attachments], [AttachmentRows], [AttachmentObjects] (services/file-service/
      internal/storage): every statement on the rows of stored files, their preview
      pages and the queue of objects to remove, with the triggers of the schema; what a
      row can become, and what becomes of the objects of a preview.
    - [AttachmentReads], [AttachmentList] (storage/authorizer.go, attachment_store.go,
      service/attachment_service.go, libs/go/platform/authsession): who may read a
      stored file and what is opened for a reader; the listing of a destination, page
      after page.
    - [HubEvents] (services/chat-service/internal/ws: event.go, the publishers and the
      canonicalization of hub.go, call_validation.go, typing.go; the publisher of
      file-service): the events of the realtime gateway, what each publisher sends
      over the bus and what a replica accepts from it.
    - [Hub], [HubFacts] (ws/hub.go, sync_recovery.go, client.go, typing.go): the state
      of the hub and every operation on it, one function per critical section of
      [h.mu], and the invariant of the registry ([hub_wf]).
    - [HubRuns], [HubCalm], [HubWorkers], [HubDelivery], [HubOrder], [HubGaps],
      [HubExample]: the goroutines of the hub as one step relation - the loop of
      [run], the broadcast workers, the recovery of gaps, connections that come, go
      and fill up - over whatever the authorizer answers; what one step can change;
      and the theorems about every run, with runs that can be evaluated.

    Names are the source's.  A field of a struct carries a prefix ([call_Status]), a
    method or a name that two packages share is told apart by one
    ([MeetingStatus_CanTransitionTo]).  A function that returns an error is a
    [result], a mutation a new state, a struct behind a mutex a state replaced whole,
    a statement of SQL a function of the table.

    ** What the theorems show

    - attachments: encryption and decryption are inverse, what decrypts is exactly an
      envelope of what is delivered, one reader never repeats a nonce, keys survive
      rotation, and an opened object behaves as a file of the plaintext; what a client
      uploads is what is stored, inspected and served, and whatever fails an upload ends
      accepted or with its object deleted;
    - file policy: what an allowed file is, format by format: an archive is tiled by the
      entries its directory names, a text is clean however its reads fall, a document
      part is passive and refers to nothing outside its package; archives are entered
      one level deep; stored names are safe;
    - stored files: rows move along their machine only and an approval is backed by
      fresh evidence; content is opened only where it is approved, not withdrawn and
      open to the reader at that moment; listings end and miss nothing that stayed;
      the object of a published preview is served or queued for removal;
    - the hub: an event is queued for a subscription only on the last answer of the
      authorizer, in the order of its target; a subscription ends only for a cause of
      its own; an event that was withheld is owed until the client is told, and
      somebody always attends to that debt; what one replica publishes another
      accepts unchanged, and what is accepted was vetted field by field;
    - listing tokens: they decode to the position they were minted for, and a search
      token serves only its own query;
    - fetches: every connection goes to a public address of the very resolution that
      was checked, at most three requests are made, and the filter is one table of
      refused blocks;
    - calls: over every interleaving, failure and lost acknowledgement, nobody is in
      two calls, no target has two, calls only move forward, leases are only given in
      live calls; the transactions never deadlock and always end;
    - link safety: a verdict served from the cache rests on an answer of the last
      fifteen minutes, the breaker admits one caller at most while it is not closed;
    - notifications: claims are fenced between replicas, every row follows its
      machine and settles in a fair run, leases outlive batches, delays and reminders
      are bounded;
    - policy, schedules, ownership and meetings: the functional content of each
      decision, that no operation leaves a conversation without an owner, and that
      what is offered is what is enforced.

    ** What is a parameter

    The decoders behind the file policy (MIME sniffing, JSON, CSV, mail, XML tokens, the
    central directory and DEFLATE of archives, URL parsing, Unicode case), classes of
    functions with the few laws a theorem needs; the zone database (as offsets of instants), [uuid.Parse], AES-GCM (with its
    functional laws, nothing about secrecy), SHA-256 and base64, random bytes and
    identifiers, clocks, the reputation providers, the delivery channel, the object
    store, the resolver and the servers of a fetch, the parsers of URLs, addresses and
    media types, the number an advisory lock is taken on ([hashtextextended]), and
    what a query reads of tables outside the model.  Where a theorem needs something
    of a parameter it is a hypothesis, and its witness gives a concrete one.

    ** Fuel and bounds

    Recursion is structural except where a loop of the source has no bound in sight:
    the loop of [Read], the drain of a reader, the prefix a seek discards, the chunks
    of a plaintext and the exchanges of a fetch take fuel.  Reads are shown to make
    progress, so that the length of the stream is enough; an upload counts its turns by
    the pieces and bytes of the client's stream ([chain_turns]), and an archive inside an
    archive is refused, so two turns of [inspectZIP] are as good as any ([Inspect_depth]);
    a fetch makes at most three
    exchanges, which [net/http] enforces.  The twelve statements of the longest call
    operation are counted by [bounded].  A run of the hub is as long as one likes up to
    2^64 steps, where the counter of generations would wrap.

    ** What is not modelled, and why

    - HTTP handlers, the gateway's sockets, Redis, metrics and logs: glue over what is
      modelled, or I/O.  The web clients are TypeScript.
    - The presence of the gateway beyond its events: the directory shared through
      Valkey and the fan-out of changes, whose content is a protocol over that store.
    - Message services and stores of the chat service, the administration's
      configuration, web push and SMTP: their decisions that are pure are in the domain
      files above, the rest is SQL over tables of their own or delivery to other
      systems.
    - Locks of the database on tables other than those of calls, and collisions of
      advisory locks, which only delay: freedom from deadlock assumes there are none.
    - Payload encodings (JSON) of notifications and conversation events. *)

From stdpp Require Import prelude gmap strings sorting.
From Stdlib Require Import ZArith Lia.

(** ** Notation *)

Declare Scope go_scope.
Delimit Scope go_scope with go.

(** Go's [==] and [!=] on comparable values, and membership in the key set of a
    [map[K]struct{}] that is never written after initialisation (a list here). *)
Notation "x '==' y" := (bool_decide (x = y)) (at level 70, no associativity) : go_scope.
Notation "x '!=' y" := (negb (bool_decide (x = y))) (at level 70, no associativity) : go_scope.
Notation "x '∈?' l" := (bool_decide (x ∈ l)) (at level 70, no associativity) : go_scope.
#[global] Open Scope go_scope.

(** ** Errors *)

(** A Go error value, reduced to what [errors.Is] and [errors.As] can see of
    it: a sentinel ([errors.New]), an error that wraps another
    ([fmt.Errorf("%w: ...")]), or a value of a struct type carrying a text and
    an integer and unwrapping to another error. *)
Inductive error : Type :=
| ErrNew (id : string)
| ErrWrap (id : string) (inner : error)
| ErrStruct (type : string) (text : string) (num : Z) (inner : error).

#[export] Instance error_eq_dec : EqDecision error.
Proof. solve_decision. Defined.

(** [errors.Unwrap]. *)
Definition errors_Unwrap (err : error) : option error :=
  match err with
  | ErrNew _ => None
  | ErrWrap _ inner => Some inner
  | ErrStruct _ _ _ inner => Some inner
  end.

(** [errors.Is]: the error itself or anything it unwraps to. *)
Fixpoint errors_Is (err target : error) : bool :=
  (err == target) ||
  match err with
  | ErrNew _ => false
  | ErrWrap _ inner => errors_Is inner target
  | ErrStruct _ _ _ inner => errors_Is inner target
  end.

(** [errors.As] for a struct type: the first value of that type in the chain. *)
Fixpoint errors_As (err : error) (type : string) : option (string * Z) :=
  match err with
  | ErrNew _ => None
  | ErrWrap _ inner => errors_As inner type
  | ErrStruct type' text num inner =>
      if type' == type then Some (text, num) else errors_As inner type
  end.

(** The same two on a possibly nil error value: [errors.Is(nil, target)] is
    false for every non-nil target. *)
Definition errors_Is_nil (err : option error) (target : error) : bool :=
  match err with None => false | Some e => errors_Is e target end.

Definition errors_As_nil (err : option error) (type : string) : option (string * Z) :=
  match err with None => None | Some e => errors_As e type end.

(** The errors of Go's context package. *)
Definition context_Canceled : error := ErrNew "context.Canceled".
Definition context_DeadlineExceeded : error := ErrNew "context.DeadlineExceeded".

Lemma errors_Is_refl e : errors_Is e e = true.
Proof. destruct e; simpl; rewrite bool_decide_eq_true_2; done. Qed.

Lemma errors_Is_wrap id e t : errors_Is e t = true → errors_Is (ErrWrap id e) t = true.
Proof. intros H. simpl. rewrite H. apply orb_true_r. Qed.

Create HintDb go.
#[export] Hint Resolve errors_Is_refl errors_Is_wrap : go.

(** ** Results *)

(** The [(T, error)] of a Go function whose value is meaningless on error. *)
Inductive result (A : Type) : Type :=
| Ok (a : A)
| Fail (e : error).
Arguments Ok {A} _.
Arguments Fail {A} _.

#[export] Instance result_ret : MRet result := @Ok.
#[export] Instance result_bind : MBind result := λ A B f r,
  match r with Ok a => f a | Fail e => Fail e end.
#[export] Instance result_fmap : FMap result := λ A B f r,
  match r with Ok a => Ok (f a) | Fail e => Fail e end.

#[export] Instance result_eq_dec {A} `{!EqDecision A} : EqDecision (result A).
Proof. solve_decision. Defined.

Definition is_ok {A} (r : result A) : bool :=
  match r with Ok _ => true | Fail _ => false end.

Definition result_err {A} (r : result A) : option error :=
  match r with Ok _ => None | Fail e => Some e end.

(** [if cond { return err }] in front of the rest of a function. *)
Notation "'guard!' c 'else' e ';;' k" :=
  (if c then k else Fail e)
  (at level 100, c at level 99, e at level 99, k at level 200, right associativity) : go_scope.

Lemma bind_Ok {A B} (f : A → result B) r b :
  (r ≫= f) = Ok b ↔ ∃ a, r = Ok a ∧ f a = Ok b.
Proof.
  destruct r as [a|e]; split.
  - intros Hf. by exists a.
  - intros (a' & [= ->] & Hf). done.
  - done.
  - intros (a' & ? & _). done.
Qed.

Lemma guard_Ok {A} (c : bool) e (k : result A) a :
  (guard! c else e ;; k) = Ok a ↔ c = true ∧ k = Ok a.
Proof. destruct c; split; [done|by intros [_ ?]|done|by intros [? _]]. Qed.

(** ** Time *)

(** A [time.Time] is the number of nanoseconds since Go's zero time (1 January
    of year 1, UTC), so the zero value is [0]; a [time.Duration] is a signed
    64-bit count of nanoseconds.  Locations only matter to code that reads a
    civil date, and appear there. *)
Abbreviation Time := Z (only parsing).
Abbreviation Duration := Z (only parsing).

Definition time_zero : Time := 0%Z.
Definition time_IsZero (t : Time) : bool := t == time_zero.
Definition time_Before (t u : Time) : bool := (t <? u)%Z.
Definition time_After (t u : Time) : bool := (u <? t)%Z.
Definition time_Equal (t u : Time) : bool := (t =? u)%Z.
Definition time_Add (t : Time) (d : Duration) : Time := (t + d)%Z.

Definition Microsecond : Duration := 1000%Z.
Definition Second : Duration := 1000000000%Z.
Definition Minute : Duration := (60 * Second)%Z.
Definition Hour : Duration := (60 * Minute)%Z.

(** ** Machine integers *)

Definition MaxInt64 : Z := (2 ^ 63 - 1)%Z.
Definition MinInt64 : Z := (- 2 ^ 63)%Z.
Definition MaxUint32 : Z := (2 ^ 32 - 1)%Z.

(** Two's complement wrap-around of a 64-bit signed result. *)
Definition int64 (z : Z) : Z := ((z + 2 ^ 63) mod 2 ^ 64 - 2 ^ 63)%Z.

Definition in_int64 (z : Z) : Prop := (MinInt64 ≤ z ≤ MaxInt64)%Z.
#[export] Instance in_int64_dec z : Decision (in_int64 z).
Proof. unfold in_int64. apply _. Defined.

Lemma int64_id z : in_int64 z → int64 z = z.
Proof.
  unfold in_int64, MinInt64, MaxInt64, int64. intros H.
  rewrite Z.mod_small; lia.
Qed.

Lemma int64_range z : in_int64 (int64 z).
Proof.
  unfold in_int64, MinInt64, MaxInt64, int64.
  pose proof (Z.mod_pos_bound (z + 2 ^ 63) (2 ^ 64)). lia.
Qed.

#[export] Hint Resolve int64_range : go.

(** [time.Time.Sub]: the difference, saturated to the range of a Duration. *)
Definition time_Sub (t u : Time) : Duration :=
  Z.max MinInt64 (Z.min MaxInt64 (t - u)).

Lemma time_Sub_lt t u d :
  in_int64 d → (time_Sub t u <? d)%Z = (t - u <? d)%Z ∨ d = MinInt64.
Proof. unfold time_Sub, in_int64, MinInt64, MaxInt64. intros H. lia. Qed.

(** ** Tactics *)

(** Case analysis on every boolean test and match the code makes, closing the
    branches the context contradicts. *)
Ltac go_step :=
  match goal with
  | H : Ok _ = Ok _ |- _ => injection H as H
  | H : Fail _ = Fail _ |- _ => injection H as H
  | H : Ok _ = Fail _ |- _ => discriminate H
  | H : Fail _ = Ok _ |- _ => discriminate H
  | H : true = false |- _ => discriminate H
  | H : false = true |- _ => discriminate H
  | H : _ && _ = true |- _ => apply andb_true_iff in H as [? ?]
  | H : _ || _ = false |- _ => apply orb_false_iff in H as [? ?]
  | H : negb _ = true |- _ => apply negb_true_iff in H
  | H : negb _ = false |- _ => apply negb_false_iff in H
  | H : bool_decide _ = true |- _ => apply bool_decide_eq_true_1 in H
  | H : bool_decide _ = false |- _ => apply bool_decide_eq_false_1 in H
  end.

Ltac go_simpl := repeat (progress (repeat go_step; simplify_eq/=)).

Ltac go_cases :=
  repeat (go_simpl; first [case_bool_decide | case_match]; go_simpl).

(** Reflect the comparisons of the time and integer primitives into [Z]. *)
Ltac go_time :=
  unfold time_Before, time_After, time_Equal, time_Add, time_IsZero, time_zero in *;
  repeat match goal with
  | H : (_ <? _)%Z = true |- _ => apply Z.ltb_lt in H
  | H : (_ <? _)%Z = false |- _ => apply Z.ltb_ge in H
  | H : (Z.leb _ _) = true |- _ => apply Z.leb_le in H
  | H : (Z.leb _ _) = false |- _ => apply Z.leb_gt in H
  | H : (_ =? _)%Z = true |- _ => apply Z.eqb_eq in H
  | H : (_ =? _)%Z = false |- _ => apply Z.eqb_neq in H
  end.

(** ** Read-only maps *)

(** Indexing a Go map literal that is never written after initialisation. *)
Fixpoint map_get {V} (m : list (string * V)) (k : string) : option V :=
  match m with
  | [] => None
  | (k', v) :: m => if k == k' then Some v else map_get m k
  end.

Lemma map_get_elem_of {V} (m : list (string * V)) k v : map_get m k = Some v → (k, v) ∈ m.
Proof.
  induction m as [|[k' v'] m IH]; simpl; [done|]. case_bool_decide; intros; simplify_eq.
  - left.
  - right. auto.
Qed.

(** ** Lists *)

Lemma head_elem_of {A} (l : list A) x : head l = Some x → x ∈ l.
Proof. destruct l; intros; simplify_eq/=; left. Qed.

Lemma existsb_false_Forall {A} (f : A → bool) l :
  existsb f l = false ↔ Forall (λ x, f x = false) l.
Proof.
  induction l as [|x l IH]; simpl; [split; done|].
  rewrite orb_false_iff, Forall_cons, IH. done.
Qed.

Lemma existsb_true_Exists {A} (f : A → bool) l :
  existsb f l = true ↔ ∃ x, x ∈ l ∧ f x = true.
Proof.
  rewrite existsb_exists. split; intros (x & Hx & Hf); exists x; split; try done;
    by apply list_elem_of_In.
Qed.

(** A relation that holds between any two elements at different positions is
    kept by permutation when it is symmetric. *)
Lemma StronglySorted_perm {A} (R : relation A) `{!Symmetric R} (l1 l2 : list A) :
  l1 ≡ₚ l2 → StronglySorted R l1 → StronglySorted R l2.
Proof.
  induction 1 as [|x l1 l2 Hp IH|x y l|l1 l2 l3 _ IH1 _ IH2]; intros Hs; auto.
  - inversion Hs; subst. constructor; [auto|]. by rewrite <-Hp.
  - inversion Hs as [|?? Hs' Hy]; subst. inversion Hs' as [|?? Hs'' Hx]; subst.
    inversion Hy; subst. repeat constructor; auto.
Qed.

Lemma StronglySorted_impl {A} (R R' : relation A) (l : list A) :
  (∀ x y, x ∈ l → y ∈ l → R x y → R' x y) → StronglySorted R l → StronglySorted R' l.
Proof.
  induction l as [|x l IH]; intros HR Hs; [constructor|].
  inversion Hs as [|?? Hs' Hx]; subst. constructor.
  - apply IH; [|done]. intros; apply HR; [by right..|done].
  - rewrite Forall_forall in Hx |- *. intros y Hy. apply HR; [by left|by right|auto].
Qed.

(** [mapM] in the result monad: the first error wins, otherwise every call
    succeeded. *)
Lemma mapM_Ok {A B} (f : A → result B) l k :
  mapM f l = Ok k ↔ Forall2 (λ x y, f x = Ok y) l k.
Proof.
  revert k. induction l as [|x l IH]; intros k; simpl.
  - split; [intros [= <-]; constructor|by intros ->%Forall2_nil_inv_l].
  - rewrite bind_Ok. split.
    + intros (y & Hy & Hk). apply bind_Ok in Hk as (k' & Hk & [= <-]).
      constructor; [done|]. by apply IH.
    + intros (y & k' & Hy & Hk & ->)%Forall2_cons_inv_l. exists y. split; [done|].
      apply bind_Ok. exists k'. split; [by apply IH|done].
Qed.

Lemma filter_nil_iff {A} (P : A → Prop) `{!∀ x, Decision (P x)} l :
  filter P l = [] ↔ ∀ x, x ∈ l → ¬ P x.
Proof.
  split.
  - intros He x Hx HP. assert (Hin : x ∈ filter P l) by (by apply list_elem_of_filter).
    rewrite He in Hin. by apply elem_of_nil in Hin.
  - intros Hno. destruct (filter P l) as [|x k] eqn:E; [done|].
    assert (Hin : x ∈ x :: k) by left. rewrite <-E in Hin.
    apply list_elem_of_filter in Hin as [HP Hx]. by destruct (Hno x).
Qed.

Lemma NoDup_fmap_unique {A B} (f : A → B) l x y :
  NoDup (f <$> l) → x ∈ l → y ∈ l → f x = f y → x = y.
Proof.
  intros Hnd [i Hi]%list_elem_of_lookup [j Hj]%list_elem_of_lookup Heq.
  assert (i = j) as ->; [|congruence].
  apply (NoDup_lookup _ i j (f x) Hnd); rewrite list_lookup_fmap; [rewrite Hi|rewrite Hj]; simpl; congruence.
Qed.
