(* ===== verification/GoStrings.v ===== *)
(** * Go strings: bytes, runes and the [strings]/[unicode] functions the
    services use.

    A Go string is a sequence of bytes, here [String.string].  [runes] decodes
    it the way a [range] loop or [utf8.DecodeRuneInString] does: an invalid
    byte is the rune U+FFFD of width one.  The classes of [unicode] are the
    ones the code asks for ([IsControl], [IsSpace]). *)

From stdpp Require Import prelude gmap strings sorting.
From Stdlib Require Import ZArith Lia Ascii String.
From S2P Require Import Prelude.
Local Open Scope Z_scope.

(** ** Bytes *)

Definition byte_of (c : ascii) : Z := Z.of_N (N_of_ascii c).
Definition of_byte (b : Z) : ascii := ascii_of_N (Z.to_N b).

Definition str_bytes (s : string) : list Z := byte_of <$> list_ascii_of_string s.
Definition bytes_str (bs : list Z) : string := string_of_list_ascii (of_byte <$> bs).

(** Go's [len(s)]. *)
Definition len (s : string) : Z := Z.of_nat (String.length s).

(** ** Runes *)

Definition RuneError : Z := 0xFFFD.

Definition cont (b : Z) : bool := (0x80 <=? b) && (b <=? 0xBF).

(** [utf8.DecodeRune]: the first rune and the number of bytes it takes. *)
Definition decode_rune (bs : list Z) : Z * nat :=
  let bad := (RuneError, 1%nat) in
  match bs with
  | [] => (RuneError, 0%nat)
  | b0 :: rest =>
    if b0 <? 0x80 then (b0, 1%nat)
    else if (0xC2 <=? b0) && (b0 <=? 0xDF) then
      match rest with
      | b1 :: _ =>
          if cont b1 then ((b0 - 0xC0) * 0x40 + (b1 - 0x80), 2%nat) else bad
      | _ => bad
      end
    else if (0xE0 <=? b0) && (b0 <=? 0xEF) then
      match rest with
      | b1 :: b2 :: _ =>
          let lo := if b0 =? 0xE0 then 0xA0 else 0x80 in
          let hi := if b0 =? 0xED then 0x9F else 0xBF in
          if (lo <=? b1) && (b1 <=? hi) && cont b2
          then ((b0 - 0xE0) * 0x1000 + (b1 - 0x80) * 0x40 + (b2 - 0x80), 3%nat)
          else bad
      | _ => bad
      end
    else if (0xF0 <=? b0) && (b0 <=? 0xF4) then
      match rest with
      | b1 :: b2 :: b3 :: _ =>
          let lo := if b0 =? 0xF0 then 0x90 else 0x80 in
          let hi := if b0 =? 0xF4 then 0x8F else 0xBF in
          if (lo <=? b1) && (b1 <=? hi) && cont b2 && cont b3
          then ((b0 - 0xF0) * 0x40000 + (b1 - 0x80) * 0x1000 +
                (b2 - 0x80) * 0x40 + (b3 - 0x80), 4%nat)
          else bad
      | _ => bad
      end
    else bad
  end.

Arguments decode_rune : simpl never.

(** The runes of a byte sequence with their widths; [skip] counts the bytes of
    the current rune still to be passed over. *)
Fixpoint decode_runes (skip : nat) (bs : list Z) : list (Z * nat) :=
  match bs with
  | [] => []
  | b :: rest =>
      match skip with
      | S k => decode_runes k rest
      | O => let '(r, n) := decode_rune (b :: rest) in
             (r, n) :: decode_runes (n - 1) rest
      end
  end.

Definition runes (s : string) : list (Z * nat) := decode_runes 0 (str_bytes s).

(** [utf8.RuneCountInString], [utf8.ValidString], [strings.ContainsFunc]. *)
Definition RuneCount (s : string) : Z := Z.of_nat (List.length (runes s)).
Definition ValidString (s : string) : bool :=
  forallb (λ '(r, n), negb ((r =? RuneError) && (n =? 1)%nat)) (runes s).
Definition ContainsFunc (s : string) (f : Z → bool) : bool :=
  existsb (λ '(r, _), f r) (runes s).

(** [unicode.IsControl] (category Cc) and [unicode.IsSpace]. *)
Definition IsControl (r : Z) : bool :=
  ((0 <=? r) && (r <=? 0x1F)) || ((0x7F <=? r) && (r <=? 0x9F)).
Definition IsSpace (r : Z) : bool :=
  (r ∈? [0x09; 0x0A; 0x0B; 0x0C; 0x0D; 0x20; 0x85; 0xA0; 0x1680; 0x2028; 0x2029;
         0x202F; 0x205F; 0x3000]) || ((0x2000 <=? r) && (r <=? 0x200A)).

(** ** Functions of package strings *)

(** The number of bytes of the longest prefix of space runes. *)
Fixpoint space_prefix (rs : list (Z * nat)) : nat :=
  match rs with
  | (r, n) :: rest => if IsSpace r then (n + space_prefix rest)%nat else O
  | [] => O
  end.

(** [strings.TrimSpace]. *)
Definition TrimSpace (s : string) : string :=
  let rs := runes s in
  let front := space_prefix rs in
  let back := space_prefix (rev rs) in
  String.substring front (String.length s - front - back) s.

(** ASCII lower case; what [strings.EqualFold] compares when one side is made
    of ASCII letters with no other fold ([Geral] is). *)
Definition ascii_lower (c : ascii) : ascii :=
  let b := byte_of c in
  if (65 <=? b) && (b <=? 90) then of_byte (b + 32) else c.
Fixpoint lower (s : string) : string :=
  match s with
  | EmptyString => EmptyString
  | String c s => String (ascii_lower c) (lower s)
  end.

(** [strings.Join]. *)
Fixpoint join (sep : string) (parts : list string) : string :=
  match parts with
  | [] => ""
  | [p] => p
  | p :: rest => p +:+ sep +:+ join sep rest
  end.

(** ** Lemmas *)

Lemma length_string_app s t :
  String.length (s +:+ t) = (String.length s + String.length t)%nat.
Proof. induction s; simpl; [done|]. by f_equal. Qed.

Lemma string_app_assoc (s t u : string) : (s +:+ t) +:+ u = s +:+ t +:+ u.
Proof. induction s as [|c s IH]; [done|]. change ((String c s +:+ t) +:+ u) with (String c ((s +:+ t) +:+ u)). by rewrite IH. Qed.

Lemma string_app_nil_r (s : string) : s +:+ "" = s.
Proof. induction s as [|c s IH]; [done|]. change (String c (s +:+ "") = String c s). by rewrite IH. Qed.

Lemma str_bytes_app s t : str_bytes (s +:+ t) = str_bytes s ++ str_bytes t.
Proof.
  unfold str_bytes. rewrite <-fmap_app. f_equal.
  induction s as [|c s IH]; [done|]. simpl. by rewrite IH.
Qed.

Lemma length_str_bytes s : List.length (str_bytes s) = String.length s.
Proof.
  unfold str_bytes. rewrite length_fmap.
  induction s as [|c s IH]; simpl; [done|]. by rewrite IH.
Qed.

Lemma byte_of_range c : 0 <= byte_of c < 256.
Proof. unfold byte_of. pose proof (N_ascii_bounded c). lia. Qed.

Lemma of_byte_of c : of_byte (byte_of c) = c.
Proof. unfold of_byte, byte_of. by rewrite N2Z.id, ascii_N_embedding. Qed.

Lemma bytes_str_bytes s : bytes_str (str_bytes s) = s.
Proof.
  unfold bytes_str, str_bytes. rewrite <-list_fmap_compose.
  rewrite (list_fmap_ext _ id); [|intros; apply of_byte_of].
  rewrite list_fmap_id. apply string_of_list_ascii_of_string.
Qed.

#[export] Instance str_bytes_inj : Inj (=) (=) str_bytes.
Proof. intros s t H. by rewrite <-(bytes_str_bytes s), H, bytes_str_bytes. Qed.

(** An ASCII byte of a string is always one of its runes: a multi-byte rune is
    made of bytes above 0x7F only. *)
Lemma decode_rune_width b bs :
  (1 <= snd (decode_rune (b :: bs)) <= 4)%nat.
Proof.
  unfold decode_rune. repeat case_match; simpl; lia.
Qed.

Lemma decode_rune_ascii b bs : b < 0x80 → decode_rune (b :: bs) = (b, 1%nat).
Proof. intros H. unfold decode_rune. destruct (Z.ltb_spec b 0x80); [done|lia]. Qed.

Lemma decode_rune_skipped b bs i x :
  bs !! i = Some x → (S i < snd (decode_rune (b :: bs)))%nat → 0x80 <= x.
Proof.
  unfold decode_rune, cont. intros Hx.
  repeat case_match; simpl; intros Hi; try lia;
    repeat match goal with
    | H : _ && _ = true |- _ => apply andb_true_iff in H as [? ?]
    | H : (_ <=? _) = true |- _ => apply Z.leb_le in H
    end;
    destruct i as [|[|[|i]]]; simplify_eq/=; try lia.
  all: repeat case_match; lia.
Qed.

Lemma decode_runes_ascii skip bs x :
  x < 0x80 → x ∈ bs → (∀ i y, bs !! i = Some y → (i < skip)%nat → 0x80 <= y) →
  ∃ n, (x, n) ∈ decode_runes skip bs.
Proof.
  intros Hx. revert skip. induction bs as [|b bs IH]; intros skip Hin Hskip.
  { by apply elem_of_nil in Hin. }
  destruct skip as [|k]; simpl.
  - destruct (decode_rune (b :: bs)) as [r n] eqn:E.
    apply elem_of_cons in Hin as [<-|Hin].
    + rewrite decode_rune_ascii in E by done. simplify_eq. exists 1%nat. left.
    + destruct (IH (n - 1)%nat Hin) as [m Hm].
      * intros i y Hy Hi. eapply (decode_rune_skipped b); [done|]. rewrite E. simpl. lia.
      * exists m. by right.
  - apply elem_of_cons in Hin as [<-|Hin].
    + specialize (Hskip 0%nat x eq_refl). lia.
    + apply IH; [done|]. intros i y Hy Hi. apply (Hskip (S i) y); [done|lia].
Qed.

Lemma ContainsFunc_false_ascii s f x :
  ContainsFunc s f = false → x < 0x80 → f x = true → x ∉ str_bytes s.
Proof.
  unfold ContainsFunc. intros Hc Hx Hf Hin.
  destruct (decode_runes_ascii 0 (str_bytes s) x Hx Hin) as [n Hn]; [intros; lia|].
  apply existsb_false_Forall in Hc. rewrite Forall_forall in Hc.
  specialize (Hc _ Hn). simpl in Hc. congruence.
Qed.

(** Splitting at the first separator is unambiguous when neither head contains
    it; [x = ':'] in the dedupe keys. *)
Lemma split_at_sep (x : Z) (a a' b b' : list Z) :
  x ∉ a → x ∉ a' → a ++ x :: b = a' ++ x :: b' → a = a' ∧ b = b'.
Proof.
  revert a'. induction a as [|c a IH]; intros [|c' a'] H1 H2 Heq; simplify_eq/=.
  - done.
  - exfalso. apply H2. left.
  - exfalso. apply H1. left.
  - destruct (IH a') as [-> ->]; [set_solver..|done|done].
Qed.

Lemma join_length sep parts :
  (String.length (join sep parts) <=
   sum_list ((λ p, String.length p + String.length sep)%nat <$> parts))%nat.
Proof.
  induction parts as [|p [|q rest] IH]; simpl in *; [lia|lia|].
  rewrite !length_string_app. lia.
Qed.

Example TrimSpace_example : TrimSpace "  a b " = "a b".
Proof. reflexivity. Qed.
Example ValidString_example : ValidString (bytes_str [0xC3; 0x28]) = false.
Proof. reflexivity. Qed.

(** ** Order *)

(** Go's [<] on strings: byte-wise lexicographic. *)
Definition string_lt (a b : string) : bool := String.ltb a b.

Lemma string_lt_leb a b : string_lt a b = negb (String.leb b a).
Proof.
  unfold string_lt, String.ltb, String.leb. rewrite (String.compare_antisym b a).
  by destruct (String.compare a b).
Qed.

Lemma string_lt_false a b : string_lt b a = false ↔ String.le a b.
Proof.
  rewrite string_lt_leb, negb_false_iff. symmetry. apply Is_true_true.
Qed.

(** ** Splitting at a byte *)

(** [strings.Cut] at a one-byte separator: the text before and after it. *)
Fixpoint Cut (sep : ascii) (s : string) : option (string * string) :=
  match s with
  | EmptyString => None
  | String c s =>
      if decide (c = sep) then Some ("", s)
      else match Cut sep s with
           | Some (before, after) => Some (String c before, after)
           | None => None
           end
  end.

(** [strings.Split] at a one-byte separator. *)
Fixpoint Split (sep : ascii) (s : string) : list string :=
  match s with
  | EmptyString => [""]
  | String c s =>
      if decide (c = sep) then "" :: Split sep s
      else match Split sep s with
           | part :: rest => String c part :: rest
           | [] => [String c ""]
           end
  end.

(** ** Counting runes *)

Lemma decode_runes_length skip bs : (List.length (decode_runes skip bs) <= List.length bs)%nat.
Proof.
  revert skip. induction bs as [|b bs IH]; intros skip; simpl; [lia|].
  destruct skip as [|k]; [|specialize (IH k); lia].
  destruct (decode_rune (b :: bs)) as [r n]. simpl. specialize (IH (n - 1)%nat). lia.
Qed.

Lemma RuneCount_bounds s : 0 <= RuneCount s <= len s ∧ (s ≠ "" → 1 <= RuneCount s).
Proof.
  unfold RuneCount, runes, len. pose proof (decode_runes_length 0 (str_bytes s)) as Hl.
  assert (Hb : List.length (str_bytes s) = String.length s).
  { unfold str_bytes. rewrite length_fmap. clear. induction s; simpl; congruence. }
  split; [lia|]. intros Hne. destruct s as [|c s]; [done|].
  unfold str_bytes. cbn [list_ascii_of_string fmap list_fmap decode_runes].
  destruct (decode_rune _) as [r n]. simpl. lia.
Qed.
