(* ===== verification/NotificationEvent.v ===== *)
(** * The notification event contract

    [libs/go/platform/notificationevent/notificationevent.go]: the closed
    vocabularies of an event, the life cycle of its delivery, the dedupe key
    and the contract between a state and its suppression reason. *)

From stdpp Require Import prelude gmap strings sorting.
From Stdlib Require Import ZArith Lia.
From S2P Require Import Prelude GoStrings.

(** ** Vocabularies

    The Go types are open string types; a value outside the closed set is
    representable (a row of a newer release), so they are strings here too. *)

Abbreviation EventType := string (only parsing).
Abbreviation SourceType := string (only parsing).
Abbreviation Priority := string (only parsing).
Abbreviation Origin := string (only parsing).
Abbreviation State := string (only parsing).

Definition ErrInvalidIdentity : error := ErrNew "notificationevent.ErrInvalidIdentity".
Definition ErrInvalidSuppressedReason : error := ErrNew "notificationevent.ErrInvalidSuppressedReason".

Definition EventTypeDirectMessage : EventType := "direct_message".
Definition EventTypeMention : EventType := "mention".
Definition EventTypeReply : EventType := "reply".
Definition EventTypeChannelMessage : EventType := "channel_message".
Definition EventTypeReaction : EventType := "reaction".
Definition EventTypeCall : EventType := "call".
Definition EventTypeUrgentReminder : EventType := "urgent_reminder".

Definition eventTypes : list EventType :=
  [EventTypeDirectMessage; EventTypeMention; EventTypeReply; EventTypeChannelMessage;
   EventTypeReaction; EventTypeCall; EventTypeUrgentReminder].

Definition EventType_Valid (e : EventType) : bool := e ∈? eventTypes.

Definition SourceTypeMessage : SourceType := "message".
Definition SourceTypeReaction : SourceType := "reaction".
Definition SourceTypeCall : SourceType := "call".

Definition sourceTypes : list SourceType :=
  [SourceTypeMessage; SourceTypeReaction; SourceTypeCall].

Definition SourceType_Valid (s : SourceType) : bool := s ∈? sourceTypes.

Definition PriorityHigh : Priority := "high".
Definition PriorityNormal : Priority := "normal".
Definition PriorityLow : Priority := "low".

Definition priorities : list Priority := [PriorityHigh; PriorityNormal; PriorityLow].

Definition Priority_Valid (p : Priority) : bool := p ∈? priorities.

Definition OriginLive : Origin := "live".
Definition OriginImport : Origin := "import".
Definition OriginReplay : Origin := "replay".
Definition OriginResync : Origin := "resync".

Definition origins : list Origin := [OriginLive; OriginImport; OriginReplay; OriginResync].

Definition Origin_Valid (o : Origin) : bool := o ∈? origins.

Definition Origin_IsHistorical (o : Origin) : bool := Origin_Valid o && (o != OriginLive).

(** ** The delivery life cycle *)

Definition StatePending : State := "pending".
Definition StateEligible : State := "eligible".
Definition StateSuppressed : State := "suppressed".
Definition StateProcessing : State := "processing".
Definition StateSent : State := "sent".
Definition StateRetrying : State := "retrying".
Definition StateFailed : State := "failed".

(** The Go map; [State_targets] is its indexing, nil for an absent key. *)
Definition stateTransitions : list (State * list State) :=
  [(StatePending, [StateEligible; StateSuppressed]);
   (StateEligible, [StateProcessing; StateSuppressed]);
   (StateProcessing, [StateSent; StateRetrying; StateFailed]);
   (StateRetrying, [StateProcessing; StateFailed]);
   (StateSuppressed, []);
   (StateSent, []);
   (StateFailed, [])].

Definition State_targets (s : State) : option (list State) := map_get stateTransitions s.

Definition State_Valid (s : State) : bool :=
  match State_targets s with Some _ => true | None => false end.

Definition State_IsTerminal (s : State) : bool :=
  match State_targets s with Some targets => length targets == 0 | None => false end.

Definition State_CanTransitionTo (s next : State) : bool :=
  if negb (State_Valid next) then false
  else existsb (λ allowed, allowed == next) (default [] (State_targets s)).

(** ** The dedupe key *)

Record Identity : Type := {
  Identity_WorkspaceID : string;
  Identity_RecipientID : string;
  Identity_EventType : EventType;
  Identity_SourceType : SourceType;
  Identity_SourceID : string;
  Identity_Discriminator : string
}.

Definition dedupeSegmentMaxLen : Z := 64.

Definition isUnsafeSegmentRune (r : Z) : bool :=
  (r =? 0x3A)%Z || (r <=? 0x20)%Z || (r =? 0x7F)%Z.

Definition invalid_identity (detail : string) : error := ErrWrap detail ErrInvalidIdentity.

(** [validateSegment]; nil is [None]. *)
Definition validateSegment (name value : string) (optional : bool) : option error :=
  if value == "" then
    if optional then None else Some (invalid_identity (name +:+ " is required"))
  else if (len value >? dedupeSegmentMaxLen)%Z then
    Some (invalid_identity (name +:+ " is longer than 64 bytes"))
  else if ContainsFunc value isUnsafeSegmentRune then
    Some (invalid_identity (name +:+ " contains a reserved character"))
  else None.

Definition validateScope (i : Identity) : option error :=
  if Identity_WorkspaceID i == "" then Some (invalid_identity "workspace id is required")
  else if Identity_RecipientID i == "" then Some (invalid_identity "recipient id is required")
  else None.

Definition DedupeKey (i : Identity) : result string :=
  match validateScope i with
  | Some err => Fail err
  | None =>
    if negb (EventType_Valid (Identity_EventType i)) then
      Fail (invalid_identity "unknown event type")
    else if negb (SourceType_Valid (Identity_SourceType i)) then
      Fail (invalid_identity "unknown source type")
    else
      match validateSegment "source id" (Identity_SourceID i) false with
      | Some err => Fail err
      | None =>
        match validateSegment "discriminator" (Identity_Discriminator i) true with
        | Some err => Fail err
        | None =>
          let key := Identity_SourceType i +:+ ":" +:+ Identity_SourceID i +:+
                     ":" +:+ Identity_EventType i in
          if Identity_Discriminator i == "" then Ok key
          else Ok (key +:+ ":" +:+ Identity_Discriminator i)
        end
      end
  end.

(** ** The suppression reason *)

Definition SuppressedReasonMaxLen : Z := 200.

Definition ValidateSuppressedReason (state : State) (reason : string) : option error :=
  if (state == StateSuppressed) != (reason != "") then
    Some (ErrWrap "state carries reason" ErrInvalidSuppressedReason)
  else if (len reason >? SuppressedReasonMaxLen)%Z then
    Some (ErrWrap "longer than 200 bytes" ErrInvalidSuppressedReason)
  else None.

(** ** The life cycle as a step relation *)

(** One recorded transition of an outbox row. *)
Definition state_step (s s' : State) : Prop := State_CanTransitionTo s s' = true.

Lemma state_step_inv s s' :
  state_step s s' →
  (s = StatePending ∧ (s' = StateEligible ∨ s' = StateSuppressed)) ∨
  (s = StateEligible ∧ (s' = StateProcessing ∨ s' = StateSuppressed)) ∨
  (s = StateProcessing ∧ (s' = StateSent ∨ s' = StateRetrying ∨ s' = StateFailed)) ∨
  (s = StateRetrying ∧ (s' = StateProcessing ∨ s' = StateFailed)).
Proof.
  unfold state_step, State_CanTransitionTo, State_targets. intros H.
  destruct (State_Valid s'); simpl negb in H; cbn iota in H; [|done].
  destruct (map_get stateTransitions s) as [ts|] eqn:E; [|done].
  apply map_get_elem_of in E. apply existsb_true_Exists in H as (x & Hx & ->%bool_decide_eq_true_1).
  unfold stateTransitions in E. rewrite !elem_of_cons, elem_of_nil in E. simpl in Hx.
  destruct_or! E; simplify_eq; rewrite ?elem_of_cons, ?elem_of_nil in Hx; naive_solver.
Qed.

(** The states a delivery attempt has been made from. *)
Definition attempted (s : State) : Prop :=
  s ∈ [StateProcessing; StateSent; StateRetrying; StateFailed].

Lemma attempted_step s s' : state_step s s' → attempted s → attempted s'.
Proof.
  unfold attempted. intros H%state_step_inv Ha.
  destruct H as [[-> H]|[[-> H]|[[-> H]|[-> H]]]]; destruct_or! H; subst; set_solver.
Qed.

(** ** Lemmas on the dedupe key *)

(** The byte [':'] that separates the segments. *)
Definition colon : Z := 0x3A.

Lemma vocabulary_no_colon s :
  s ∈ eventTypes ∨ s ∈ sourceTypes → colon ∉ str_bytes s.
Proof.
  intros H. assert (s ∈ eventTypes ++ sourceTypes) as Hs by (apply elem_of_app; tauto).
  assert (Forall (λ s, colon ∉ str_bytes s) (eventTypes ++ sourceTypes)) as HF.
  { by apply (bool_decide_eq_true_1 _); vm_compute. }
  rewrite Forall_forall in HF. auto.
Qed.

Lemma validateSegment_no_colon name value optional :
  validateSegment name value optional = None → colon ∉ str_bytes value.
Proof.
  unfold validateSegment. intros H. go_cases.
  - set_solver.
  - eapply ContainsFunc_false_ascii; [done|unfold colon; lia|done].
Qed.

(** The bytes of a key after the source id. *)
Definition dedupe_tail (et d : string) : list Z :=
  str_bytes et ++ (if d == "" then [] else colon :: str_bytes d).

Definition dedupe_key (i : Identity) : string :=
  Identity_SourceType i +:+ ":" +:+ Identity_SourceID i +:+ ":" +:+ Identity_EventType i +:+
  (if Identity_Discriminator i == "" then "" else ":" +:+ Identity_Discriminator i).

Lemma dedupe_key_bytes i :
  str_bytes (dedupe_key i) =
  str_bytes (Identity_SourceType i) ++ (colon :: (str_bytes (Identity_SourceID i) ++
  (colon :: dedupe_tail (Identity_EventType i) (Identity_Discriminator i)))).
Proof.
  unfold dedupe_key, dedupe_tail. rewrite !str_bytes_app. by case_bool_decide.
Qed.

Lemma DedupeKey_inv i key :
  DedupeKey i = Ok key →
  Identity_EventType i ∈ eventTypes ∧ Identity_SourceType i ∈ sourceTypes ∧
  colon ∉ str_bytes (Identity_SourceID i) ∧ colon ∉ str_bytes (Identity_Discriminator i) ∧
  key = dedupe_key i.
Proof.
  unfold DedupeKey, EventType_Valid, SourceType_Valid, dedupe_key. intros H. go_cases;
    repeat split; eauto using validateSegment_no_colon; subst.
  - by rewrite string_app_nil_r.
  - by rewrite !string_app_assoc.
Qed.

Lemma tail_bytes_inj et et' d d' :
  colon ∉ str_bytes et → colon ∉ str_bytes et' →
  dedupe_tail et d = dedupe_tail et' d' → et = et' ∧ d = d'.
Proof.
  unfold dedupe_tail. intros H1 H2 Heq. repeat case_bool_decide; subst.
  - rewrite !app_nil_r in Heq. by apply str_bytes_inj in Heq as ->.
  - rewrite app_nil_r in Heq. rewrite Heq in H1. set_solver.
  - rewrite app_nil_r in Heq. rewrite <-Heq in H2. set_solver.
  - apply split_at_sep in Heq as [Ha Hb]; [|done..]. by apply str_bytes_inj in Ha, Hb.
Qed.

(** ** Properties *)

(** Two events with valid identities get the same dedupe key only when
    they agree on source type, source id, event type and discriminator: no
    user-derived segment can be shaped into the key of another event. *)
Theorem DedupeKey_injective i j key :
  DedupeKey i = Ok key → DedupeKey j = Ok key →
  Identity_SourceType i = Identity_SourceType j ∧
  Identity_SourceID i = Identity_SourceID j ∧
  Identity_EventType i = Identity_EventType j ∧
  Identity_Discriminator i = Identity_Discriminator j.
Proof.
  intros Hi Hj. apply DedupeKey_inv in Hi as (Hi1 & Hi2 & Hi3 & Hi4 & ->).
  apply DedupeKey_inv in Hj as (Hj1 & Hj2 & Hj3 & Hj4 & Heq).
  apply (f_equal str_bytes) in Heq. revert Heq. rewrite !dedupe_key_bytes. intros Heq.
  apply split_at_sep in Heq as [Hst Heq]; [|by apply vocabulary_no_colon; auto..].
  apply split_at_sep in Heq as [Hsid Heq]; [|done..].
  apply str_bytes_inj in Hst, Hsid.
  assert (Identity_EventType i = Identity_EventType j ∧
          Identity_Discriminator i = Identity_Discriminator j) as [? ?]; [|done].
  apply tail_bytes_inj in Heq; auto using vocabulary_no_colon.
Qed.

Definition identity_example : Identity :=
  {| Identity_WorkspaceID := "w"; Identity_RecipientID := "r";
     Identity_EventType := "reaction"; Identity_SourceType := "reaction";
     Identity_SourceID := "5f0c"; Identity_Discriminator := "u1" |}.

Lemma DedupeKey_injective_witness :
  DedupeKey identity_example = Ok "reaction:5f0c:reaction:u1" ∧
  Identity_Discriminator identity_example = Identity_Discriminator identity_example.
Proof.
  split; [vm_compute; reflexivity|].
  apply (DedupeKey_injective identity_example identity_example "reaction:5f0c:reaction:u1");
    vm_compute; reflexivity.
Defined.

(** Once an attempt to deliver has begun, no sequence of recorded
    transitions makes the row suppressed, eligible or pending again; and the
    three terminal states admit no further transition at all. *)
Theorem delivery_never_undone s s' :
  rtc state_step s s' →
  (attempted s → attempted s') ∧
  (State_IsTerminal s = true → s' = s).
Proof.
  intros Hr. split.
  - induction Hr; eauto using attempted_step.
  - intros Ht. destruct Hr as [|s s2 s3 Hs _]; [done|].
    apply state_step_inv in Hs.
    destruct Hs as [[-> _]|[[-> _]|[[-> _]|[-> _]]]]; discriminate Ht.
Qed.

Lemma delivery_never_undone_witness :
  rtc state_step StateProcessing StateSent ∧ attempted StateSent.
Proof.
  assert (Hr : rtc state_step StateProcessing StateSent).
  { eapply rtc_l; [|apply rtc_refl]. vm_compute. reflexivity. }
  split; [exact Hr|].
  apply (delivery_never_undone StateProcessing StateSent Hr). unfold attempted. left.
Defined.
