(* ===== verification/WorkSchedule.v ===== *)
(** * Work schedules

    [libs/go/platform/workschedule]: building a weekly schedule ([New] and the
    validation under it, workschedule.go) and evaluating it at an instant in
    its own zone (evaluate.go).

    A civil date is the number of days since 1 January of year 1 (a Monday), so
    [time.Date(y, m, d+k, ...)], which normalises an out-of-range day, is plain
    addition.  The IANA database is not part of the repository: a [Location] is
    what [time.Location] answers about an instant, and loading one by name is a
    parameter. *)

From stdpp Require Import prelude gmap strings sorting.
From Stdlib Require Import ZArith Lia.
From S2P Require Import Prelude GoStrings.
Local Open Scope Z_scope.

(** ** Data *)

Definition ErrInvalidSchedule : error := ErrNew "workschedule.ErrInvalidSchedule".
Definition invalid_schedule (detail : string) : error := ErrWrap detail ErrInvalidSchedule.

Abbreviation Source := string (only parsing).
Definition SourceOrganization : Source := "organization".
Definition SourcePersonal : Source := "personal".
Definition sources : list Source := [SourceOrganization; SourcePersonal].
Definition Source_Valid (s : Source) : bool := s ∈? sources.
Definition Source_ReadOnly (s : Source) : bool := s != SourcePersonal.

Abbreviation Minutes := Z (only parsing).
Definition MinutesPerDay : Minutes := 24 * 60.

(** [At]: minutes since local midnight, uncorrected. *)
Definition At (hour minute : Z) : Minutes := hour * 60 + minute.

Record Interval : Type := MkInterval { Interval_Start : Minutes; Interval_End : Minutes }.

#[export] Instance Interval_eq_dec : EqDecision Interval.
Proof. solve_decision. Defined.

(** The seven weekdays, indexed by [time.Weekday] (Sunday is 0). *)
Abbreviation Days := (list (list Interval)) (only parsing).

(** What [time.Location] answers about an instant: the bounds of the stretch
    around it with one offset (zero where unbounded) and the offset in
    seconds east of UTC. *)
Record ZoneInfo : Type := { zone_start : Time; zone_end : Time; zone_offset : Z }.
Record Location : Type := { loc_name : string; loc_zone : Time → ZoneInfo }.

Record Schedule : Type := {
  Schedule_source : Source;
  Schedule_location : option Location;
  Schedule_days : Days
}.

(** ** Construction *)

Definition validateInterval (interval : Interval) : option error :=
  if (Interval_Start interval <? 0) || (MinutesPerDay <=? Interval_Start interval) then
    Some (invalid_schedule "start minute is outside 00:00-24:00")
  else if (Interval_End interval <=? Interval_Start interval) ||
          (MinutesPerDay <? Interval_End interval) then
    Some (invalid_schedule "interval is empty, reversed or runs past midnight")
  else None.

(** The loop of [validateDay], with [previousEnd] as its accumulator. *)
Fixpoint validateDay_from (previousEnd : Minutes) (intervals : list Interval) : option error :=
  match intervals with
  | [] => None
  | interval :: rest =>
      match validateInterval interval with
      | Some err => Some err
      | None =>
          if Interval_Start interval <=? previousEnd then
            Some (invalid_schedule "intervals overlap or touch")
          else validateDay_from (Interval_End interval) rest
      end
  end.

Definition validateDay (intervals : list Interval) : option error :=
  validateDay_from (-1) intervals.

Definition maxIntervalsPerDay : Z := MinutesPerDay / 2.

Definition start_le (a b : Interval) : Prop := Interval_Start a <= Interval_Start b.
#[export] Instance start_le_dec : RelDecision start_le.
Proof. intros a b. unfold start_le. apply _. Defined.

(** One iteration of the loop of [normalizeDays]. *)
Definition normalizeDay (intervals : list Interval) : result (list Interval) :=
  if (length intervals == 0%nat) then Ok []
  else if (maxIntervalsPerDay <? Z.of_nat (length intervals)) then
    Fail (invalid_schedule "carries more intervals than a day can hold")
  else
    let sorted := merge_sort start_le intervals in
    match validateDay sorted with
    | Some err => Fail err
    | None => Ok sorted
    end.

Definition normalizeDays (days : Days) : result Days := mapM normalizeDay days.

Section Load.
(** [time.LoadLocation]: the IANA database. *)
Context (LoadLocation : string → option Location).

Definition loadLocation (timezone : string) : result Location :=
  let name := TrimSpace timezone in
  if name == "" then Fail (invalid_schedule "timezone is required")
  else if name == "Local" then Fail (invalid_schedule "names the server's own zone")
  else match LoadLocation name with
       | None => Fail (invalid_schedule "is not an IANA time zone")
       | Some location => Ok location
       end.

Definition New (source : Source) (timezone : string) (days : Days) : result Schedule :=
  if negb (Source_Valid source) then Fail (invalid_schedule "unknown source")
  else
    location ← loadLocation timezone;
    normalized ← normalizeDays days;
    Ok {| Schedule_source := source; Schedule_location := Some location;
          Schedule_days := normalized |}.
End Load.

Definition IsConfigured (s : Schedule) : bool :=
  match Schedule_location s with Some _ => true | None => false end.

Definition Schedule_Source (s : Schedule) : Source := Schedule_source s.

Definition Timezone (s : Schedule) : string :=
  match Schedule_location s with None => "" | Some loc => loc_name loc end.

(** ** Evaluation *)

Abbreviation WorkState := string (only parsing).
Definition StateNotConfigured : WorkState := "not_configured".
Definition StateWithinWorkHours : WorkState := "within_work_hours".
Definition StateOutsideWorkHours : WorkState := "outside_work_hours".

Record Evaluation : Type := {
  Eval_State : WorkState;
  Eval_Interval : Interval;
  Eval_NextTransition : Time
}.

Definition zero_interval : Interval := MkInterval 0 0.
Definition searchHorizonDays : nat := 15.

Record window : Type := { w_interval : Interval; w_start : Time; w_end : Time }.

Definition contains (w : window) (instant : Time) : bool :=
  negb (time_Before instant (w_start w)) && time_Before instant (w_end w).

Record zonePeriod : Type := { zp_start : Time; zp_end : Time; zp_offset : Duration }.

Definition zoneProbeMargin : Duration := 24 * Hour.
Definition maxZonePeriods : nat := 8.
Definition Day : Duration := 24 * Hour.

(** Civil dates: the day of an instant read in UTC, its midnight and weekday. *)
Definition civil_day (local : Time) : Z := local / Day.
Definition civil_midnight (day : Z) : Time := day * Day.
Definition Weekday (day : Z) : nat := Z.to_nat ((day + 1) mod 7).

Definition absolute (civilMidnight : Time) (minute : Minutes) (offset : Duration) : Time :=
  time_Add civilMidnight (minute * Minute - offset).

(** [resolve], with the Go [(window, bool)] as an option. *)
Definition resolve (interval : Interval) (civilMidnight : Time) (lived : zonePeriod) : option window :=
  let start := absolute civilMidnight (Interval_Start interval) (zp_offset lived) in
  let fin := absolute civilMidnight (Interval_End interval) (zp_offset lived) in
  let start := if negb (time_IsZero (zp_start lived)) && time_Before start (zp_start lived)
               then zp_start lived else start in
  let fin := if negb (time_IsZero (zp_end lived)) && time_After fin (zp_end lived)
             then zp_end lived else fin in
  if negb (time_Before start fin) then None
  else Some {| w_interval := interval; w_start := start; w_end := fin |}.

Definition window_le (a b : window) : Prop := w_start a <= w_start b.
#[export] Instance window_le_dec : RelDecision window_le.
Proof. intros a b. unfold window_le. apply _. Defined.

Section Evaluate.
Context (loc : Location) (days : Days).

(** The loop of [periodsAround], for at most [fuel] zone periods. *)
Fixpoint periods_from (fuel : nat) (cursor last : Time) : list zonePeriod :=
  match fuel with
  | O => []
  | S fuel =>
      let zone := loc_zone loc cursor in
      {| zp_start := zone_start zone; zp_end := zone_end zone;
         zp_offset := zone_offset zone * Second |} ::
      if time_IsZero (zone_end zone) || time_After (zone_end zone) last then []
      else periods_from fuel (zone_end zone) last
  end.

Definition periodsAround (civilMidnight : Time) : list zonePeriod :=
  periods_from maxZonePeriods (time_Add civilMidnight (- zoneProbeMargin))
    (time_Add civilMidnight (zoneProbeMargin + zoneProbeMargin)).

Definition windowsOn (day : Z) : list window :=
  let civilMidnight := civil_midnight day in
  let intervals := default [] (days !! Weekday day) in
  if length intervals == 0%nat then []
  else
    merge_sort window_le
      (lived ← periodsAround civilMidnight;
       omap (λ interval, resolve interval civilMidnight lived) intervals).

Definition local_reading (instant : Time) : Time :=
  instant + zone_offset (loc_zone loc instant) * Second.

Definition upcomingWindows (instant : Time) : list window :=
  let day := civil_day (local_reading instant) in
  offset ← seq 0 searchHorizonDays; windowsOn (day + Z.of_nat offset).
End Evaluate.

(** The walk of [Evaluate] over the windows, with the evaluation built so far
    and [runEnd]. *)
Fixpoint evaluate_walk (instant : Time) (ws : list window)
    (state : WorkState) (interval : Interval) (runEnd : Time) : Evaluation :=
  let done next := {| Eval_State := state; Eval_Interval := interval;
                      Eval_NextTransition := next |} in
  match ws with
  | [] => done runEnd
  | current :: rest =>
      if negb (time_IsZero runEnd) && negb (time_Equal (w_start current) runEnd) then done runEnd
      else if negb (time_IsZero runEnd) then
        evaluate_walk instant rest state interval (w_end current)
      else if contains current instant then
        evaluate_walk instant rest StateWithinWorkHours (w_interval current) (w_end current)
      else if time_After (w_start current) instant then done (w_start current)
      else evaluate_walk instant rest state interval runEnd
  end.

Definition Evaluate (s : Schedule) (instant : Time) : Evaluation :=
  match Schedule_location s with
  | None => {| Eval_State := StateNotConfigured; Eval_Interval := zero_interval;
               Eval_NextTransition := time_zero |}
  | Some loc =>
      evaluate_walk instant (upcomingWindows loc (Schedule_days s) instant)
        StateOutsideWorkHours zero_interval time_zero
  end.

(** ** Valid days *)

Definition valid_interval (iv : Interval) : Prop :=
  0 <= Interval_Start iv < MinutesPerDay ∧ Interval_Start iv < Interval_End iv <= MinutesPerDay.

(** Two intervals neither overlap nor touch; [before] is the ordered form. *)
Definition apart (a b : Interval) : Prop :=
  Interval_End a < Interval_Start b ∨ Interval_End b < Interval_Start a.
Definition before (a b : Interval) : Prop := Interval_End a < Interval_Start b.

#[export] Instance apart_symm : Symmetric apart.
Proof. unfold apart. intros a b [H|H]; auto. Qed.

#[export] Instance start_le_total : Total start_le.
Proof. intros a b. unfold start_le. lia. Qed.
#[export] Instance start_le_trans : Transitive start_le.
Proof. intros a b c. unfold start_le. lia. Qed.

(** What [New] documents a legal day to be, in any order. *)
Definition valid_day (l : list Interval) : Prop :=
  Forall valid_interval l ∧ StronglySorted apart l.

Lemma validateInterval_None iv : validateInterval iv = None ↔ valid_interval iv.
Proof. unfold validateInterval, valid_interval. repeat case_match; split; intros; try done; lia. Qed.

Lemma validateDay_from_None p l :
  validateDay_from p l = None ↔
  Forall valid_interval l ∧ Forall (λ a, p < Interval_Start a) l ∧ StronglySorted before l.
Proof.
  revert p. induction l as [|a l IH]; intros p; simpl.
  { split; [|done]. repeat constructor. }
  destruct (validateInterval a) eqn:Ha.
  { split; [done|]. intros [Hv _]. inversion Hv as [|?? Hva]; subst.
    apply validateInterval_None in Hva. congruence. }
  apply validateInterval_None in Ha.
  destruct (Z.leb_spec (Interval_Start a) p) as [Hle|Hlt].
  { split; [done|]. intros (_ & Hp & _). inversion Hp; subst. lia. }
  rewrite IH, !Forall_cons. split.
  - intros (Hv & Hf & Hs). split; [done|]. split; [|by constructor]. split; [done|].
    eapply Forall_impl; [exact Hf|]. unfold valid_interval in *. intros; simpl in *; lia.
  - intros ([_ Hv] & _ & Hs). inversion Hs; subst. auto.
Qed.

(** A valid day never holds more than [maxIntervalsPerDay] intervals. *)
Lemma sorted_day_length p l :
  Forall valid_interval l → Forall (λ a, p <= Interval_Start a) l → StronglySorted before l →
  0 <= p <= MinutesPerDay + 1 → 2 * Z.of_nat (length l) <= MinutesPerDay + 1 - p.
Proof.
  revert p. induction l as [|a l IH]; intros p Hv Hp Hs Hr; [simpl; lia|].
  inversion Hv as [|?? Ha Hv']; inversion Hp as [|?? Hpa Hp']; inversion Hs as [|?? Hs' Hb]; subst.
  unfold valid_interval in Ha.
  assert (2 * Z.of_nat (length l) <= MinutesPerDay + 1 - (Interval_End a + 1)).
  { apply IH; [done| |done|lia]. eapply Forall_impl; [exact Hb|]. unfold before. intros; simpl in *; lia. }
  simpl length. lia.
Qed.

Lemma valid_day_sorted l :
  valid_day l → StronglySorted before (merge_sort start_le l).
Proof.
  intros [Hv Hs].
  assert (Hp : merge_sort start_le l ≡ₚ l) by apply merge_sort_Permutation.
  apply (StronglySorted_perm apart l (merge_sort start_le l)) in Hs; [|done].
  pose proof (StronglySorted_merge_sort start_le l) as Hs'.
  assert (Hv' : Forall valid_interval (merge_sort start_le l)) by (by rewrite Hp).
  clear Hp. revert Hs Hs' Hv'. generalize (merge_sort start_le l) as k.
  induction k as [|a k IH]; intros Hs Hs' Hv'; [constructor|].
  inversion Hs as [|?? Hs1 Ha]; inversion Hs' as [|?? Hs2 Hle]; inversion Hv' as [|?? Hva Hvk]; subst.
  constructor; [auto|]. rewrite Forall_forall in *. intros b Hb.
  specialize (Ha _ Hb). specialize (Hle _ Hb). specialize (Hvk _ Hb).
  unfold apart, start_le, before, valid_interval in *. lia.
Qed.

Lemma before_sorted_unique l l1 l2 :
  valid_day l → StronglySorted before l1 → StronglySorted before l2 →
  l1 ≡ₚ l → l2 ≡ₚ l → l1 = l2.
Proof.
  intros [Hv _] H1 H2 Hp1 Hp2. rewrite Forall_forall in Hv.
  apply (StronglySorted_unique_strong before); [|done|done|by rewrite Hp1, Hp2].
  intros x y Hx Hy Hxy Hyx. rewrite Hp1 in Hx. rewrite Hp2 in Hy.
  apply Hv in Hx, Hy. unfold before, valid_interval in *. lia.
Qed.

Lemma valid_day_length l :
  valid_day l → Z.of_nat (length l) <= maxIntervalsPerDay.
Proof.
  intros Hd. assert (Hp : merge_sort start_le l ≡ₚ l) by apply merge_sort_Permutation.
  rewrite <-Hp. pose proof (valid_day_sorted l Hd) as Hs. destruct Hd as [Hv _].
  rewrite <-Hp in Hv.
  assert (2 * Z.of_nat (length (merge_sort start_le l)) <= MinutesPerDay + 1 - 0).
  { apply sorted_day_length; [done| |done|unfold MinutesPerDay; lia].
    eapply Forall_impl; [exact Hv|]. unfold valid_interval. intros; simpl in *; lia. }
  unfold maxIntervalsPerDay, MinutesPerDay in *. change (24 * 60 / 2) with 720. lia.
Qed.

Lemma validateDay_None l :
  validateDay l = None ↔ Forall valid_interval l ∧ StronglySorted before l.
Proof.
  unfold validateDay. rewrite validateDay_from_None. split; [tauto|].
  intros [Hv Hs]. split; [done|]. split; [|done].
  eapply Forall_impl; [exact Hv|]. unfold valid_interval. intros; simpl in *; lia.
Qed.

(** A day is accepted exactly when its intervals are in range and pairwise
    neither overlap nor touch, in whatever order the caller listed them, and
    the accepted day is the same intervals in order.  In particular the early
    refusal of more than [maxIntervalsPerDay] intervals refuses no valid day. *)
Theorem normalizeDay_Ok l l' :
  normalizeDay l = Ok l' ↔ valid_day l ∧ l' ≡ₚ l ∧ StronglySorted before l'.
Proof.
  assert (Hp : merge_sort start_le l ≡ₚ l) by apply merge_sort_Permutation.
  unfold normalizeDay. split.
  - intros H. case_bool_decide as Hl.
    { injection H as <-. apply nil_length_inv in Hl as ->. repeat constructor. }
    destruct (maxIntervalsPerDay <? _); [done|].
    destruct (validateDay _) eqn:E; [done|injection H as <-].
    apply validateDay_None in E as (Hv & Hs). rewrite Hp in Hv. repeat split; try done.
    eapply StronglySorted_perm; [apply _|exact Hp|].
    eapply StronglySorted_impl; [|exact Hs]. intros x y _ _ ?. by left.
  - intros (Hd & Hp' & Hs). case_bool_decide as Hl.
    { apply nil_length_inv in Hl as ->. symmetry in Hp'. by apply Permutation_nil_l in Hp' as ->. }
    apply valid_day_length in Hd as Hlen. rewrite (proj2 (Z.ltb_ge _ _)) by done.
    assert (merge_sort start_le l = l') as ->
      by (apply (before_sorted_unique l); auto using valid_day_sorted).
    rewrite (proj2 (validateDay_None l')); [done|].
    destruct Hd as [Hv _]. split; [by rewrite Hp'|done].
Qed.

(** A schedule is built exactly when the source is declared, the zone
    loads and every day is valid; it then carries that zone and the same
    intervals of each weekday in order. *)
Theorem New_Ok LoadLocation source timezone days s :
  New LoadLocation source timezone days = Ok s ↔
  Source_Valid source = true ∧
  Schedule_source s = source ∧
  Forall2 (λ l l', valid_day l ∧ l' ≡ₚ l ∧ StronglySorted before l') days (Schedule_days s) ∧
  (∃ loc, loadLocation LoadLocation timezone = Ok loc ∧ Schedule_location s = Some loc).
Proof.
  unfold New. destruct (Source_Valid source) eqn:Hs; simpl; [|split; [done|by intros [? _]]].
  rewrite bind_Ok. split.
  - intros (loc & Hloc & H). apply bind_Ok in H as (nd & Hnd & [= <-]). simpl.
    split; [done|]. split; [done|]. split; [|eauto].
    apply mapM_Ok in Hnd. eapply Forall2_impl; [exact Hnd|]. intros. by apply normalizeDay_Ok.
  - intros (_ & Hsrc & Hd & loc & Hloc & Hl). exists loc. split; [done|].
    apply bind_Ok. exists (Schedule_days s). split.
    + apply mapM_Ok. eapply Forall2_impl; [exact Hd|]. intros. by apply normalizeDay_Ok.
    + destruct s; simpl in *. by subst.
Qed.

#[export] Instance window_le_total : Total window_le.
Proof. intros a b. unfold window_le. lia. Qed.
#[export] Instance window_le_trans : Transitive window_le.
Proof. intros a b c. unfold window_le. lia. Qed.

(** ** The walk over resolved windows *)

(** Windows as [upcomingWindows] yields them: non-empty, after the zero time,
    in order and disjoint (they may meet). *)
Definition ordered (ws : list window) : Prop :=
  Forall (λ w, 0 < w_start w < w_end w) ws ∧
  StronglySorted (λ a b, w_end a <= w_start b) ws.

Definition in_windows (ws : list window) (t : Time) : bool := existsb (λ w, contains w t) ws.

Arguments in_windows : simpl never.

Lemma contains_true w t : contains w t = true ↔ w_start w <= t < w_end w.
Proof.
  unfold contains, time_Before. rewrite andb_true_iff, negb_true_iff, Z.ltb_ge, Z.ltb_lt. lia.
Qed.

Lemma in_windows_true ws t :
  in_windows ws t = true ↔ ∃ w, w ∈ ws ∧ w_start w <= t < w_end w.
Proof.
  unfold in_windows. rewrite existsb_true_Exists.
  split; intros (w & Hw & Hc); exists w; split; try done; by apply contains_true.
Qed.

Lemma in_windows_cons w ws t :
  in_windows (w :: ws) t = contains w t || in_windows ws t.
Proof. done. Qed.

Lemma ordered_cons w ws :
  ordered (w :: ws) ↔
  0 < w_start w < w_end w ∧ Forall (λ v, w_end w <= w_start v) ws ∧ ordered ws.
Proof.
  unfold ordered. rewrite Forall_cons. split.
  - intros [[Hw Hf] Hs]. inversion Hs; subst. auto.
  - intros (Hw & Hl & Hf & Hs). split; [done|]. by constructor.
Qed.

Lemma in_windows_before ws b t :
  Forall (λ v, b <= w_start v) ws → t < b → in_windows ws t = false.
Proof.
  intros Hf Ht. apply not_true_is_false. intros (w & Hw & Hc)%in_windows_true.
  rewrite Forall_forall in Hf. specialize (Hf _ Hw). simpl in Hf. lia.
Qed.

Lemma contains_false w t : t < w_start w ∨ w_end w <= t → contains w t = false.
Proof. intros H. apply not_true_is_false. intros Hc%contains_true. lia. Qed.

(** What an evaluation of [t] over the stretch [ws] must say about the future. *)
Record transition_ok (ws : list window) (t next : Time) : Prop := {
  tr_after : t < next;
  tr_same : ∀ u, t <= u < next → in_windows ws u = in_windows ws t;
  tr_flips : in_windows ws next = negb (in_windows ws t)
}.

(** Following the uninterrupted stretch that ends at [runEnd]. *)
Lemma walk_run t ws st iv r :
  0 < r → ordered ws → Forall (λ v, r <= w_start v) ws →
  ∃ next, evaluate_walk t ws st iv r =
      {| Eval_State := st; Eval_Interval := iv; Eval_NextTransition := next |} ∧
    r <= next ∧ (∀ u, r <= u < next → in_windows ws u = true) ∧
    in_windows ws next = false.
Proof.
  intros Hr. revert r Hr. induction ws as [|w ws IH]; intros r Hr Ho Hf; simpl.
  { exists r. split_and!; [done|lia|intros u Hu; lia|done]. }
  apply ordered_cons in Ho as (Hw & Hl & Ho). inversion Hf as [|?? Hrw _]; subst.
  unfold time_IsZero, time_zero, time_Equal. rewrite bool_decide_eq_false_2 by lia. simpl.
  destruct (Z.eqb_spec (w_start w) r) as [Heq|Hne]; simpl.
  - destruct (IH (w_end w)) as (next & He & Hle & Hin & Hout); [lia|done|done|].
    exists next. rewrite He. split_and!; [done|lia| |].
    + intros u Hu. rewrite in_windows_cons. destruct (Z.lt_ge_cases u (w_end w)).
      * by rewrite (proj2 (contains_true w u)) by lia.
      * rewrite Hin by lia. apply orb_true_r.
    + rewrite in_windows_cons, Hout, contains_false by lia. done.
  - exists r. split_and!; [done|lia|intros u Hu; lia|].
    rewrite in_windows_cons, contains_false by lia. simpl.
    eapply in_windows_before; [exact Hl|lia].
Qed.

Lemma evaluate_walk_spec t ws iv0 :
  ordered ws →
  let e := evaluate_walk t ws StateOutsideWorkHours iv0 time_zero in
  Eval_State e = (if in_windows ws t then StateWithinWorkHours else StateOutsideWorkHours) ∧
  ((Eval_NextTransition e = time_zero ∧ ∀ u, t <= u → in_windows ws u = false) ∨
   transition_ok ws t (Eval_NextTransition e)).
Proof.
  induction ws as [|w ws IH]; intros Ho; simpl.
  { split; [done|]. by left. }
  apply ordered_cons in Ho as (Hw & Hl & Ho).
  destruct (contains w t) eqn:Hc.
  - apply contains_true in Hc as Hc'. simpl.
    destruct (walk_run t ws StateWithinWorkHours (w_interval w) (w_end w))
      as (next & -> & Hle & Hin & Hout); [lia|done|done|]. simpl.
    split; [by rewrite in_windows_cons, Hc|]. right. constructor; [lia| |].
    + intros u Hu. rewrite !in_windows_cons, Hc. destruct (Z.lt_ge_cases u (w_end w)).
      * by rewrite (proj2 (contains_true w u)) by lia.
      * rewrite Hin by lia. apply orb_true_r.
    + rewrite !in_windows_cons, Hout, Hc, contains_false by lia. done.
  - cbn [negb andb time_IsZero]. unfold time_After.
    destruct (Z.ltb_spec t (w_start w)) as [Hlt|Hge].
    + assert (Hno : ∀ u, u < w_start w → in_windows (w :: ws) u = false).
      { intros u Hu. rewrite in_windows_cons, contains_false by lia. simpl.
        eapply in_windows_before; [exact Hl|lia]. }
      pose proof (Hno t Hlt) as Hnt. rewrite in_windows_cons, Hc in Hnt. simpl in Hnt.
      rewrite in_windows_cons, Hc, Hnt. simpl. split; [done|]. right.
      constructor; [done| |]; rewrite (in_windows_cons w ws t), Hc, Hnt.
      * intros u Hu. by rewrite Hno by lia.
      * by rewrite in_windows_cons, (proj2 (contains_true w _)) by lia.
    + assert (w_end w <= t).
      { destruct (Z.lt_ge_cases t (w_end w)); [|done].
        rewrite (proj2 (contains_true w t)) in Hc by lia. done. }
      assert (Heq : ∀ u, t <= u → in_windows (w :: ws) u = in_windows ws u).
      { intros u Hu. by rewrite in_windows_cons, contains_false by lia. }
      destruct (IH Ho) as [Hs Hn]. rewrite (Heq t) by lia. split; [done|].
      destruct Hn as [[Hz Hnone]|[Ha Hsame Hflip]]; [left|right].
      * split; [done|]. intros u Hu. by rewrite Heq, Hnone by lia.
      * constructor; [done| |]; rewrite (Heq t) by lia.
        -- intros u Hu. rewrite Heq by lia. by apply Hsame.
        -- by rewrite Heq by lia.
Qed.

(** ** Zones with one offset

    For a zone without transitions the resolved windows are the civil
    intervals, so the evaluation can be compared with the civil definition of
    being at work. *)

Definition fixed_zone (loc : Location) (off : Z) : Prop :=
  ∀ t, loc_zone loc t = {| zone_start := time_zero; zone_end := time_zero; zone_offset := off |}.

(** The civil definition: the local time of day is inside an interval of the
    local weekday. *)
Definition works (days : Days) (off : Z) (u : Time) : bool :=
  let local := u + off * Second in
  existsb (λ iv, (Interval_Start iv * Minute <=? local mod Day) &&
                 (local mod Day <? Interval_End iv * Minute))
    (default [] (days !! Weekday (civil_day local))).

Definition normalized (l : list Interval) : Prop :=
  Forall valid_interval l ∧ StronglySorted before l.

Definition civil_window (off : Z) (day : Z) (iv : Interval) : window :=
  {| w_interval := iv;
     w_start := day * Day + Interval_Start iv * Minute - off * Second;
     w_end := day * Day + Interval_End iv * Minute - off * Second |}.

Lemma normalized_day days day :
  Forall normalized days → normalized (default [] (days !! Weekday day)).
Proof.
  intros Hn. destruct (days !! Weekday day) eqn:E; simpl.
  - rewrite Forall_forall in Hn. apply Hn. by eapply list_elem_of_lookup_2.
  - repeat constructor.
Qed.

Lemma normalized_start_inj l a b :
  normalized l → a ∈ l → b ∈ l → Interval_Start a = Interval_Start b → a = b.
Proof.
  intros [Hv Hs]. induction Hs as [|c l Hs IH Hc]; [by intros ?%elem_of_nil|].
  inversion Hv as [|?? Hvc Hvl]; subst. rewrite Forall_forall in Hc. unfold before, valid_interval in *.
  intros [->|Ha]%elem_of_cons [->|Hb]%elem_of_cons Heq; auto.
  - specialize (Hc _ Hb). lia.
  - specialize (Hc _ Ha). lia.
Qed.

Lemma windows_sorted off day l :
  normalized l → StronglySorted window_le (civil_window off day <$> l).
Proof.
  intros [Hv Hs]. induction Hs as [|a l Hs IH Ha]; simpl; [constructor|].
  inversion Hv as [|?? Hva Hvl]; subst. constructor; [auto|].
  apply Forall_forall. intros w (b & -> & Hb)%list_elem_of_fmap.
  pose proof (proj1 (Forall_forall _ _) Ha _ Hb). pose proof (proj1 (Forall_forall _ _) Hvl _ Hb).
  unfold window_le, before, valid_interval in *. simpl. unfold Minute, Second. lia.
Qed.

Section FixedZone.
Context (loc : Location) (off : Z) (days : Days).
Context (Hfixed : fixed_zone loc off) (Hdays : Forall normalized days).

Lemma resolve_fixed iv day :
  valid_interval iv →
  resolve iv (civil_midnight day) {| zp_start := 0; zp_end := 0; zp_offset := off * Second |}
  = Some (civil_window off day iv).
Proof.
  intros Hv. unfold resolve, absolute, civil_midnight, civil_window, time_IsZero, time_zero, time_Add.
  rewrite bool_decide_eq_true_2 by done. simpl. unfold time_Before.
  unfold valid_interval in Hv.
  rewrite (proj2 (Z.ltb_lt _ _)) by (unfold Minute, Second; lia). simpl.
  do 2 f_equal; lia.
Qed.

Lemma omap_resolve_fixed day l :
  Forall valid_interval l →
  omap (λ iv, resolve iv (civil_midnight day)
                {| zp_start := 0; zp_end := 0; zp_offset := off * Second |}) l
  = civil_window off day <$> l.
Proof.
  induction 1 as [|iv l Hv Hl IH]; [done|].
  change (omap ?f (iv :: l)) with (match f iv with Some w => w :: omap f l | None => omap f l end).
  cbv beta. by rewrite resolve_fixed, IH.
Qed.

Lemma windowsOn_fixed day :
  windowsOn loc days day = civil_window off day <$> default [] (days !! Weekday day).
Proof.
  pose proof (normalized_day days day Hdays) as Hn. unfold windowsOn.
  destruct (default [] (days !! Weekday day)) as [|iv l] eqn:E; [done|].
  rewrite bool_decide_eq_false_2 by done.
  assert (Hp : periodsAround loc (civil_midnight day) =
    [{| zp_start := 0; zp_end := 0; zp_offset := off * Second |}]).
  { unfold periodsAround, maxZonePeriods. simpl. by rewrite Hfixed. }
  rewrite Hp, bind_singleton, omap_resolve_fixed by apply Hn.
  apply (StronglySorted_unique_strong window_le).
  - intros x y Hx Hy Hxy Hyx. rewrite merge_sort_Permutation in Hx.
    apply list_elem_of_fmap in Hx as (a & -> & Ha). apply list_elem_of_fmap in Hy as (b & -> & Hb).
    unfold window_le in *. simpl in *.
    assert (a = b) as ->; [|done].
    eapply normalized_start_inj; [exact Hn|done|done|]. unfold Minute, Second in *. lia.
  - apply (StronglySorted_merge_sort window_le).
  - by apply windows_sorted.
  - apply merge_sort_Permutation.
Qed.

Lemma day_window_civil day w u :
  w ∈ windowsOn loc days day → w_start w <= u < w_end w →
  civil_day (u + off * Second) = day ∧ works days off u = true.
Proof.
  rewrite windowsOn_fixed. intros (iv & -> & Hiv)%list_elem_of_fmap Hu. simpl in Hu.
  pose proof (normalized_day days day Hdays) as [Hv _].
  pose proof (proj1 (Forall_forall _ _) Hv _ Hiv) as Hvi. unfold valid_interval, MinutesPerDay in Hvi.
  set (m := u + off * Second - day * Day).
  assert (Hm : Interval_Start iv * Minute <= m < Interval_End iv * Minute) by (subst m; lia).
  assert (0 <= m < Day) by (unfold Day, Hour, Minute, Second in *; lia).
  assert (Hlocal : u + off * Second = m + day * Day) by (subst m; lia).
  assert (Hday : civil_day (u + off * Second) = day).
  { unfold civil_day. rewrite Hlocal, Z.div_add, Z.div_small by first [lia|done]. lia. }
  split; [done|]. unfold works. rewrite Hday.
  apply existsb_true_Exists. exists iv. split; [done|].
  rewrite Hlocal, Z.mod_add, Z.mod_small by first [lia|done].
  apply andb_true_iff. rewrite Z.leb_le, Z.ltb_lt. lia.
Qed.

Lemma works_window u :
  works days off u = true →
  ∃ w, w ∈ windowsOn loc days (civil_day (u + off * Second)) ∧ w_start w <= u < w_end w.
Proof.
  unfold works. intros (iv & Hiv & Hb)%existsb_true_Exists.
  apply andb_true_iff in Hb as [H1%Z.leb_le H2%Z.ltb_lt].
  exists (civil_window off (civil_day (u + off * Second)) iv). rewrite windowsOn_fixed.
  split; [by apply list_elem_of_fmap_2|].
  pose proof (Z.div_mod (u + off * Second) Day ltac:(done)). unfold civil_day. simpl. lia.
Qed.

Definition local_midnight (t : Time) : Time :=
  civil_midnight (civil_day (t + off * Second)) - off * Second.

Definition horizon (t : Time) : Time := local_midnight t + Z.of_nat searchHorizonDays * Day.

Lemma local_midnight_bound t : local_midnight t <= t < local_midnight t + Day.
Proof.
  unfold local_midnight, civil_midnight, civil_day.
  pose proof (Z.div_mod (t + off * Second) Day ltac:(done)).
  pose proof (Z.mod_pos_bound (t + off * Second) Day ltac:(done)). lia.
Qed.

Lemma upcomingWindows_fixed t w :
  w ∈ upcomingWindows loc days t ↔
  ∃ k, (k < searchHorizonDays)%nat ∧
       w ∈ windowsOn loc days (civil_day (t + off * Second) + Z.of_nat k).
Proof.
  unfold upcomingWindows, local_reading. rewrite Hfixed. simpl zone_offset.
  rewrite list_elem_of_bind. split.
  - intros (k & Hw & Hk%elem_of_seq). exists k. split; [lia|done].
  - intros (k & Hk & Hw). exists k. split; [done|]. apply elem_of_seq. lia.
Qed.

Lemma in_upcoming t u :
  local_midnight t <= u < horizon t →
  in_windows (upcomingWindows loc days t) u = works days off u.
Proof.
  intros Hu. apply eq_true_iff_eq. rewrite in_windows_true. split.
  - intros (w & (k & _ & Hw)%upcomingWindows_fixed & Hc). by apply (day_window_civil _ w u) in Hw as [_ ?].
  - intros (w & Hw & Hc)%works_window. exists w. split; [|done].
    apply upcomingWindows_fixed.
    set (d := civil_day (t + off * Second)) in *.
    assert (d <= civil_day (u + off * Second) < d + 15) as Hd.
    { unfold horizon, local_midnight, civil_midnight, searchHorizonDays in Hu. fold d in Hu.
      unfold civil_day. split; [apply Z.div_le_lower_bound; [done|lia]|apply Z.div_lt_upper_bound; [done|lia]]. }
    exists (Z.to_nat (civil_day (u + off * Second) - d)). unfold searchHorizonDays. split; [lia|].
    rewrite Z2Nat.id by lia. by rewrite Z.add_sub_assoc, Z.add_simpl_l.
Qed.

Lemma ordered_app l1 l2 :
  ordered l1 → ordered l2 → (∀ a b, a ∈ l1 → b ∈ l2 → w_end a <= w_start b) →
  ordered (l1 ++ l2).
Proof.
  induction l1 as [|a l1 IH]; intros H1 H2 Hab; [done|].
  apply ordered_cons in H1 as (Ha & Hl & H1). simpl. apply ordered_cons.
  split; [done|]. split.
  - apply Forall_app. split; [done|]. apply Forall_forall. intros b Hb. apply Hab; [left|done].
  - apply IH; [done|done|]. intros x y Hx. apply Hab. by right.
Qed.

(** The windows of one date lie inside that date. *)
Lemma day_windows_bound day w :
  w ∈ windowsOn loc days day →
  day * Day - off * Second <= w_start w ∧ w_start w < w_end w ∧
  w_end w <= (day + 1) * Day - off * Second.
Proof.
  rewrite windowsOn_fixed. intros (iv & -> & Hiv)%list_elem_of_fmap.
  pose proof (normalized_day days day Hdays) as [Hv _].
  pose proof (proj1 (Forall_forall _ _) Hv _ Hiv) as Hvi. unfold valid_interval, MinutesPerDay in Hvi.
  simpl. unfold Day, Hour, Minute, Second. lia.
Qed.

Lemma day_windows_ordered day :
  0 < day * Day - off * Second → ordered (windowsOn loc days day).
Proof.
  intros Hpos. split.
  { apply Forall_forall. intros w Hw%day_windows_bound. lia. }
  rewrite windowsOn_fixed. destruct (normalized_day days day Hdays) as [Hv Hs].
  induction Hs as [|a l Hs IH Ha]; simpl; [constructor|]. apply Forall_cons in Hv as [Hva Hvl].
  constructor; [auto|]. apply Forall_forall. intros w (b & -> & Hb)%list_elem_of_fmap.
  pose proof (proj1 (Forall_forall _ _) Ha _ Hb) as Hab. unfold before in Hab.
  simpl. unfold Minute, Second. lia.
Qed.

Lemma dates_ordered day k n :
  0 < (day + Z.of_nat k) * Day - off * Second →
  ordered (seq k n ≫= λ j, windowsOn loc days (day + Z.of_nat j)) ∧
  ∀ w, w ∈ (seq k n ≫= λ j, windowsOn loc days (day + Z.of_nat j)) →
    (day + Z.of_nat k) * Day - off * Second <= w_start w ∧
    w_end w <= (day + Z.of_nat (k + n)) * Day - off * Second.
Proof.
  revert k. induction n as [|n IH]; intros k Hpos.
  { split; [repeat constructor|]. by intros w ?%elem_of_nil. }
  assert (HD : 0 < Day) by done.
  destruct (IH (S k)) as [Ho Hb]; [nia|].
  change (seq k (S n)) with (k :: seq (S k) n). rewrite bind_cons. split.
  - apply ordered_app; [by apply day_windows_ordered|done|].
    intros a b Ha%day_windows_bound Hb'%Hb. lia.
  - intros w [Hw%day_windows_bound|Hw%Hb]%elem_of_app; nia.
Qed.

Lemma upcomingWindows_ordered t :
  Day <= t → ordered (upcomingWindows loc days t) ∧
  ∀ w, w ∈ upcomingWindows loc days t → w_end w <= horizon t.
Proof.
  intros Ht. pose proof (local_midnight_bound t) as Hm.
  unfold horizon, local_midnight, civil_midnight in *.
  unfold upcomingWindows, local_reading. rewrite Hfixed. simpl zone_offset.
  set (d := civil_day (t + off * Second)) in *.
  destruct (dates_ordered d 0 searchHorizonDays) as [Ho Hb]; [lia|].
  split; [done|]. intros w Hw%Hb. lia.
Qed.

Lemma works_weekly u k : works days off (u + k * (7 * Day)) = works days off u.
Proof.
  unfold works. replace (u + k * (7 * Day) + off * Second)
    with (u + off * Second + (k * 7) * Day) by lia.
  unfold civil_day. rewrite Z.mod_add, Z.div_add by done.
  replace (Weekday ((u + off * Second) / Day + k * 7)) with (Weekday ((u + off * Second) / Day)); [done|].
  unfold Weekday. f_equal.
  replace ((u + off * Second) / Day + k * 7 + 1) with ((u + off * Second) / Day + 1 + k * 7) by lia.
  by rewrite Z.mod_add.
Qed.

End FixedZone.

(** ** Concrete schedules *)

Definition utc : Location :=
  {| loc_name := "UTC";
     loc_zone := λ _, {| zone_start := time_zero; zone_end := time_zero; zone_offset := 0 |} |}.

(** Monday to Friday, 07:00-12:00 and 13:00-16:00. *)
Definition office : Schedule :=
  let blocks := [MkInterval (At 7 0) (At 12 0); MkInterval (At 13 0) (At 16 0)] in
  {| Schedule_source := SourceOrganization; Schedule_location := Some utc;
     Schedule_days := [[]; blocks; blocks; blocks; blocks; blocks; []] |}.

Lemma utc_fixed : fixed_zone utc 0.
Proof. done. Qed.

Lemma office_normalized : Forall normalized (Schedule_days office).
Proof. repeat constructor; simpl; done. Qed.

(** Monday 3 January of year 1 plus 52 weeks is a Monday; at 11:30 the answer is
    "within" until noon. *)
Definition monday_1130 : Time := 364 * Day + 11 * Hour + 30 * Minute.


(** Every minute of every day. *)
Definition round_the_clock : Schedule :=
  {| Schedule_source := SourceOrganization; Schedule_location := Some utc;
     Schedule_days := replicate 7 [MkInterval 0 MinutesPerDay] |}.

(** For a schedule that never stops, [Evaluate] reports the end of its
    15-day horizon as the next transition, although the state does not change
    there: the documentation of [NextTransition] promises the first instant
    where a further call would answer differently. *)
Theorem round_the_clock_transition :
  let e := Evaluate round_the_clock monday_1130 in
  (∃ s, normalizeDays (Schedule_days round_the_clock) = Ok s ∧ s = Schedule_days round_the_clock) ∧
  Eval_State e = StateWithinWorkHours ∧
  Eval_NextTransition e = horizon 0 monday_1130 ∧
  Eval_State (Evaluate round_the_clock (Eval_NextTransition e)) = StateWithinWorkHours.
Proof.
  split; [|vm_compute; done]. eexists. split; [vm_compute; reflexivity|vm_compute; reflexivity].
Qed.
