(* ===== verification/NotificationPolicy.v ===== *)
(** * The notification policy engine

    [libs/go/platform/notificationpolicy]: the vocabulary of a decision
    (notificationpolicy.go) and its evaluation (evaluate.go).  The plan starts
    from the channels the recipient's presence could use and every rule may
    only subtract from it. *)

From stdpp Require Import prelude gmap strings sorting.
From Stdlib Require Import ZArith Lia.
From S2P Require Import Prelude GoStrings NotificationEvent.
From S2P Require WorkSchedule.
Local Open Scope Z_scope.

(** ** Vocabulary *)

Definition Version : Z := 3.

Abbreviation ConversationKind := string (only parsing).
Definition ConversationDirect : ConversationKind := "direct".
Definition ConversationGroup : ConversationKind := "group".
Definition ConversationChannel : ConversationKind := "channel".
Definition conversationKinds : list ConversationKind :=
  [ConversationDirect; ConversationGroup; ConversationChannel].
Definition ConversationKind_Valid (k : ConversationKind) : bool := k ∈? conversationKinds.
Definition ConversationKind_isDM (k : ConversationKind) : bool :=
  (k == ConversationDirect) || (k == ConversationGroup).

Abbreviation Presence := string (only parsing).
Definition PresenceUnknown : Presence := "".
Definition PresenceForeground : Presence := "foreground".
Definition PresenceConnected : Presence := "connected".
Definition PresenceBackground : Presence := "background".
Definition PresenceOffline : Presence := "offline".
Definition presences : list Presence :=
  [PresenceForeground; PresenceConnected; PresenceBackground; PresenceOffline].
Definition Presence_Valid (p : Presence) : bool := p ∈? presences.

Abbreviation SoundMode := string (only parsing).
Definition SoundModeAll : SoundMode := "all".
Definition SoundModeOff : SoundMode := "off".
Definition SoundModeMentions : SoundMode := "mentions".
Definition SoundModeMentionsAndDMs : SoundMode := "mentions_and_dms".
Definition soundModes : list SoundMode :=
  [SoundModeAll; SoundModeOff; SoundModeMentions; SoundModeMentionsAndDMs].
Definition SoundMode_Valid (m : SoundMode) : bool := m ∈? soundModes.
Definition SoundMode_Effective (m : SoundMode) : SoundMode :=
  if SoundMode_Valid m then m else SoundModeAll.

Abbreviation ConversationLevel := string (only parsing).
Definition ConversationLevelAll : ConversationLevel := "all".
Definition ConversationLevelMentionsReplies : ConversationLevel := "mentions_replies".
Definition conversationLevels : list ConversationLevel :=
  [ConversationLevelAll; ConversationLevelMentionsReplies].
Definition ConversationLevel_Valid (l : ConversationLevel) : bool := l ∈? conversationLevels.
Definition ConversationLevel_Effective (l : ConversationLevel) : ConversationLevel :=
  if ConversationLevel_Valid l then l else ConversationLevelAll.

Abbreviation PreferenceStatus := string (only parsing).
Definition PreferenceStatusResolved : PreferenceStatus := "".
Definition PreferenceStatusUnavailable : PreferenceStatus := "unavailable".

Record Preferences : Type := {
  p_Status : PreferenceStatus;
  p_Disabled : bool;
  p_DoNotDisturb : bool;
  p_Muted : bool;
  p_ConversationLevel : ConversationLevel;
  p_SoundMode : SoundMode
}.

Record Context : Type := {
  c_EventID : string;
  c_WorkspaceID : string;
  c_RecipientID : string;
  c_EventType : string;
  c_Priority : string;
  c_Origin : string;
  c_Conversation : ConversationKind;
  c_WorkSchedule : string;
  c_Presence : Presence;
  c_ConversationOpen : bool;
  c_Preferences : Preferences;
  c_WebPushAvailable : bool;
  c_Duplicate : bool;
  c_BurstCooldown : bool
}.

Abbreviation Reason := string (only parsing).
Definition ReasonOutsideWorkHours : Reason := "outside_work_hours".
Definition ReasonHistoricalOrImported : Reason := "historical_or_imported".
Definition ReasonSilentEventType : Reason := "silent_event_type".
Definition ReasonConversationOpen : Reason := "conversation_open".
Definition ReasonPreferencesUnavailable : Reason := "preferences_unavailable".
Definition ReasonDoNotDisturb : Reason := "do_not_disturb".
Definition ReasonMuted : Reason := "muted".
Definition ReasonConversationLevel : Reason := "conversation_level".
Definition ReasonUserPreference : Reason := "user_preference".
Definition ReasonUnsupportedChannel : Reason := "unsupported_or_unavailable_channel".
Definition ReasonDuplicate : Reason := "duplicate".
Definition ReasonBurstCooldown : Reason := "burst_cooldown".

Record Channels : Type := { InApp : bool; Sound : bool; WebPush : bool }.

Record Decision : Type := {
  d_EventID : string;
  d_PolicyVersion : Z;
  d_Channels : Channels;
  d_Reasons : list Reason
}.

Definition Eligible (d : Decision) : bool :=
  InApp (d_Channels d) || Sound (d_Channels d) || WebPush (d_Channels d).

Definition Suppressed (d : Decision) : bool := negb (Eligible d).

Definition SuppressedReason (d : Decision) : string :=
  if Eligible d then "" else join "," (d_Reasons d).

(** ** The rules

    A [channelSet] is a [uint8] used as a bit set. *)

Abbreviation channelSet := Z (only parsing).
Definition setInApp : channelSet := Z.shiftl 1 0.
Definition setSound : channelSet := Z.shiftl 1 1.
Definition setWebPush : channelSet := Z.shiftl 1 2.
Definition setAll : channelSet := Z.lor (Z.lor setInApp setSound) setWebPush.

Definition surface (presence : Presence) : channelSet :=
  if (presence == PresenceForeground) || (presence == PresenceConnected)
  then Z.lor setInApp setSound else setWebPush.

Definition channelsFrom (allowed : channelSet) : Channels :=
  {| InApp := Z.land allowed setInApp != 0;
     Sound := Z.land allowed setSound != 0;
     WebPush := Z.land allowed setWebPush != 0 |}.

Definition denyOutsideWorkHours (c : Context) : channelSet :=
  if (c_WorkSchedule c == WorkSchedule.StateWithinWorkHours) || (c_WorkSchedule c == WorkSchedule.StateNotConfigured)
  then 0 else setAll.

Definition denyHistorical (c : Context) : channelSet :=
  if c_Origin c == OriginLive then 0 else setAll.

Definition denySilentEventType (c : Context) : channelSet :=
  if c_EventType c == EventTypeReaction then setAll else 0.

Definition denyConversationOpen (c : Context) : channelSet :=
  if c_ConversationOpen c && (c_Presence c == PresenceForeground) then setAll else 0.

Definition denyUnresolvedPreferences (c : Context) : channelSet :=
  if p_Status (c_Preferences c) == PreferenceStatusUnavailable then setAll else 0.

Definition denyDoNotDisturb (c : Context) : channelSet :=
  if p_DoNotDisturb (c_Preferences c) then setAll else 0.

Definition denyMuted (c : Context) : channelSet :=
  if p_Muted (c_Preferences c) then setAll else 0.

Definition denyConversationLevel (c : Context) : channelSet :=
  if ConversationLevel_Effective (p_ConversationLevel (c_Preferences c))
       != ConversationLevelMentionsReplies then 0
  else if (c_EventType c == EventTypeChannelMessage) || (c_EventType c == EventTypeDirectMessage)
  then setAll else 0.

Definition soundWanted (c : Context) : bool :=
  let mode := SoundMode_Effective (p_SoundMode (c_Preferences c)) in
  if mode == SoundModeOff then false
  else if mode == SoundModeMentions then c_EventType c == EventTypeMention
  else if mode == SoundModeMentionsAndDMs then
    (c_EventType c == EventTypeMention) || ConversationKind_isDM (c_Conversation c)
  else true.

Definition denyUserPreference (c : Context) : channelSet :=
  if p_Disabled (c_Preferences c) then setAll
  else if soundWanted c then 0
  else setSound.

Definition denyUnavailablePush (c : Context) : channelSet :=
  if c_WebPushAvailable c then 0 else setWebPush.

Definition denyDuplicate (c : Context) : channelSet :=
  if c_Duplicate c then setAll else 0.

Definition denyBurstCooldown (c : Context) : channelSet :=
  if c_BurstCooldown c then setAll else 0.

Record rule : Type := { r_reason : Reason; r_denies : Context → channelSet }.

Definition rules : list rule :=
  [{| r_reason := ReasonOutsideWorkHours; r_denies := denyOutsideWorkHours |};
   {| r_reason := ReasonHistoricalOrImported; r_denies := denyHistorical |};
   {| r_reason := ReasonSilentEventType; r_denies := denySilentEventType |};
   {| r_reason := ReasonConversationOpen; r_denies := denyConversationOpen |};
   {| r_reason := ReasonPreferencesUnavailable; r_denies := denyUnresolvedPreferences |};
   {| r_reason := ReasonDoNotDisturb; r_denies := denyDoNotDisturb |};
   {| r_reason := ReasonMuted; r_denies := denyMuted |};
   {| r_reason := ReasonConversationLevel; r_denies := denyConversationLevel |};
   {| r_reason := ReasonUserPreference; r_denies := denyUserPreference |};
   {| r_reason := ReasonUnsupportedChannel; r_denies := denyUnavailablePush |};
   {| r_reason := ReasonDuplicate; r_denies := denyDuplicate |};
   {| r_reason := ReasonBurstCooldown; r_denies := denyBurstCooldown |}].

(** The loop of [Evaluate] over [rs], from [allowed]: the surviving channels and
    the reasons recorded. *)
Fixpoint apply_rules (c : Context) (rs : list rule) (allowed : channelSet)
    : channelSet * list Reason :=
  match rs with
  | [] => (allowed, [])
  | r :: rs =>
      let denied := Z.land allowed (r_denies r c) in
      if denied == 0 then apply_rules c rs allowed
      else
        let '(final, reasons) := apply_rules c rs (Z.ldiff allowed denied) in
        (final, r_reason r :: reasons)
  end.

Definition Evaluate (c : Context) : Decision :=
  let '(allowed, reasons) := apply_rules c rules (surface (c_Presence c)) in
  {| d_EventID := c_EventID c;
     d_PolicyVersion := Version;
     d_Channels := channelsFrom allowed;
     d_Reasons := reasons |}.

(** ** Lemmas: the loop is a set difference *)

Lemma ldiff_land_r a d : Z.ldiff a (Z.land a d) = Z.ldiff a d.
Proof.
  apply Z.bits_inj'. intros n _. rewrite !Z.ldiff_spec, Z.land_spec.
  by destruct (Z.testbit a n), (Z.testbit d n).
Qed.

Lemma ldiff_disjoint a d : Z.land a d = 0 → Z.ldiff a d = a.
Proof.
  intros H. apply Z.bits_inj'. intros n _.
  assert (Hn : Z.testbit (Z.land a d) n = false) by (rewrite H; apply Z.bits_0).
  rewrite Z.land_spec in Hn. rewrite Z.ldiff_spec.
  by destruct (Z.testbit a n), (Z.testbit d n).
Qed.

(** Everything some rule of [rs] takes away. *)
Definition denied_by (c : Context) (rs : list rule) : channelSet :=
  foldr (λ r acc, Z.lor (r_denies r c) acc) 0 rs.

Lemma apply_rules_allowed c rs allowed :
  fst (apply_rules c rs allowed) = Z.ldiff allowed (denied_by c rs).
Proof.
  revert allowed. induction rs as [|r rs IH]; intros allowed; simpl.
  { by rewrite Z.ldiff_0_r. }
  case_bool_decide as Hd.
  - rewrite IH. apply ldiff_disjoint in Hd. rewrite <-Hd at 1.
    by rewrite Z.ldiff_ldiff_l.
  - destruct (apply_rules c rs _) as [f rsn] eqn:E. simpl.
    replace f with (fst (apply_rules c rs (Z.ldiff allowed (Z.land allowed (r_denies r c))))) by (by rewrite E).
    by rewrite IH, ldiff_land_r, Z.ldiff_ldiff_l.
Qed.

#[export] Instance denied_by_perm c : Proper ((≡ₚ) ==> (=)) (denied_by c).
Proof.
  intros l1 l2. induction 1 as [|r l1 l2 _ IH|r r' l|l1 l2 l3 _ IH1 _ IH2]; simpl; [done|congruence| |congruence].
  by rewrite !Z.lor_assoc, (Z.lor_comm (r_denies r' c)).
Qed.

Lemma denied_by_testbit c rs n :
  Z.testbit (denied_by c rs) n = existsb (λ r, Z.testbit (r_denies r c) n) rs.
Proof. induction rs as [|r rs IH]; simpl; [apply Z.bits_0|]. by rewrite Z.lor_spec, IH. Qed.


(** Every rule denies one of four sets. *)
Definition rule_sets : list channelSet := [0; setSound; setWebPush; setAll].

Lemma rules_sets c : Forall (λ r, r_denies r c ∈ rule_sets) rules.
Proof.
  unfold rules. repeat (apply Forall_cons_2; [simpl|]); [..|by apply Forall_nil_2];
    unfold denyOutsideWorkHours, denyHistorical, denySilentEventType, denyConversationOpen,
      denyUnresolvedPreferences, denyDoNotDisturb, denyMuted, denyConversationLevel,
      denyUserPreference, denyUnavailablePush, denyDuplicate, denyBurstCooldown, rule_sets;
    repeat case_match; rewrite !elem_of_cons; auto.
Qed.

(** How many denials a set of the plan can still record. *)
Definition budget (allowed : channelSet) : nat :=
  if allowed =? 0 then 0 else if allowed =? Z.lor setInApp setSound then 2 else 1.

Lemma apply_rules_budget c rs allowed :
  Forall (λ r, r_denies r c ∈ rule_sets) rs →
  allowed ∈ [0; setInApp; setWebPush; Z.lor setInApp setSound] →
  (length (snd (apply_rules c rs allowed)) <= budget allowed)%nat.
Proof.
  intros Hrs. revert allowed. induction Hrs as [|r rs Hr Hrs IH]; intros allowed Ha; simpl; [lia|].
  case_bool_decide as Hd; [by apply IH|].
  destruct (apply_rules c rs _) as [f rsn] eqn:E. simpl.
  specialize (IH (Z.ldiff allowed (Z.land allowed (r_denies r c)))). rewrite E in IH. simpl in IH.
  rewrite !elem_of_cons, elem_of_nil in Ha. unfold rule_sets in Hr. rewrite !elem_of_cons, elem_of_nil in Hr.
  destruct_or! Ha; destruct_or! Hr; subst allowed; rewrite Hr in IH, Hd;
    first [by destruct Hd | etransitivity; [apply le_n_S, IH; vm_compute; set_solver|vm_compute; lia]].
Qed.

Lemma apply_rules_reasons c rs allowed x :
  x ∈ snd (apply_rules c rs allowed) → ∃ r, r ∈ rs ∧ r_reason r = x ∧ Z.land allowed (r_denies r c) ≠ 0.
Proof.
  revert allowed. induction rs as [|r rs IH]; intros allowed; simpl; [by intros ?%elem_of_nil|].
  case_bool_decide as Hd.
  - intros (r' & ? & ? & ?)%IH. exists r'. split; [by right|done].
  - destruct (apply_rules c rs _) as [f rsn] eqn:E. simpl.
    intros [->|Hx]%elem_of_cons; [exists r; split; [left|done]|].
    specialize (IH (Z.ldiff allowed (Z.land allowed (r_denies r c)))). rewrite E in IH.
    destruct (IH Hx) as (r' & ? & ? & Hn). exists r'. split; [by right|]. split; [done|].
    intros Hz. apply Hn. apply Z.bits_inj'. intros n _.
    assert (Hb : Z.testbit (Z.land allowed (r_denies r' c)) n = false) by (by rewrite Hz, Z.bits_0).
    rewrite Z.bits_0. rewrite Z.land_spec in Hb. rewrite Z.land_spec, Z.ldiff_spec, Z.land_spec.
    by destruct (Z.testbit allowed n), (Z.testbit (r_denies r c) n), (Z.testbit (r_denies r' c) n).
Qed.

Lemma apply_rules_nil c rs allowed :
  snd (apply_rules c rs allowed) = [] ↔ fst (apply_rules c rs allowed) = allowed.
Proof.
  revert allowed. induction rs as [|r rs IH]; intros allowed; simpl; [done|].
  case_bool_decide as Hd; [apply IH|].
  pose proof (apply_rules_allowed c rs (Z.ldiff allowed (Z.land allowed (r_denies r c)))) as Ha.
  destruct (apply_rules c rs _) as [f rsn] eqn:E. simpl in *. split; [done|]. intros ->.
  exfalso. apply Hd. apply Z.bits_inj'. intros n _. rewrite Z.bits_0.
  apply (f_equal (λ z, Z.testbit z n)) in Ha.
  rewrite !Z.ldiff_spec, Z.land_spec in Ha. rewrite Z.land_spec.
  by destruct (Z.testbit allowed n), (Z.testbit (r_denies r c) n), (Z.testbit (denied_by c rs) n).
Qed.

Lemma Evaluate_channels c :
  d_Channels (Evaluate c) = channelsFrom (Z.ldiff (surface (c_Presence c)) (denied_by c rules)).
Proof.
  unfold Evaluate. rewrite <-apply_rules_allowed.
  by destruct (apply_rules c rules (surface (c_Presence c))).
Qed.

Lemma Evaluate_reasons c :
  d_Reasons (Evaluate c) = snd (apply_rules c rules (surface (c_Presence c))).
Proof.
  unfold Evaluate. by destruct (apply_rules c rules (surface (c_Presence c))).
Qed.

Lemma land_bit a k : 0 <= k → (Z.land a (Z.shiftl 1 k) != 0) = Z.testbit a k.
Proof.
  intros Hk.
  assert (Hone : ∀ n, Z.testbit (Z.shiftl 1 k) n = (n =? k)).
  { intros n. rewrite Z.shiftl_1_l, Z.pow2_bits_eqb, Z.eqb_sym by done. done. }
  case_bool_decide as H; symmetry.
  - apply (f_equal (λ z, Z.testbit z k)) in H.
    rewrite Z.land_spec, Z.bits_0, Hone, Z.eqb_refl, andb_true_r in H. done.
  - apply not_false_is_true. intros Hb. apply H. apply Z.bits_inj'. intros n _.
    rewrite Z.land_spec, Z.bits_0, Hone. destruct (Z.eqb_spec n k) as [->|]; [by rewrite Hb|].
    apply andb_false_r.
Qed.

(** Membership of one channel in a plan, by its bit. *)
Definition channel_bit (ch : Channels) (n : Z) : bool :=
  if n =? 0 then InApp ch else if n =? 1 then Sound ch else WebPush ch.

Lemma InApp_bit ch : InApp ch = channel_bit ch 0.
Proof. done. Qed.
Lemma Sound_bit ch : Sound ch = channel_bit ch 1.
Proof. done. Qed.
Lemma WebPush_bit ch : WebPush ch = channel_bit ch 2.
Proof. done. Qed.

Lemma channel_bit_from allowed n :
  0 <= n <= 2 → channel_bit (channelsFrom allowed) n = Z.testbit allowed n.
Proof.
  intros Hn. unfold channel_bit, channelsFrom, setInApp, setSound, setWebPush.
  assert (n = 0 ∨ n = 1 ∨ n = 2) as [-> | [-> | ->] ] by lia; cbn [InApp Sound WebPush Z.eqb];
    by apply land_bit.
Qed.


Lemma Evaluate_bit c n :
  0 <= n <= 2 →
  channel_bit (d_Channels (Evaluate c)) n =
  Z.testbit (surface (c_Presence c)) n && forallb (λ r, negb (Z.testbit (r_denies r c) n)) rules.
Proof.
  intros Hn. rewrite Evaluate_channels, channel_bit_from, Z.ldiff_spec, denied_by_testbit by done.
  f_equal. generalize rules. intros rs. induction rs as [|r rs IH]; simpl; [done|].
  by rewrite negb_orb, IH.
Qed.

(** Lifts a statement about the three channel bits. *)
Lemma channels_bits ch ch' :
  (∀ n, 0 <= n <= 2 → channel_bit ch n = true → channel_bit ch' n = true) →
  (InApp ch = true → InApp ch' = true) ∧ (Sound ch = true → Sound ch' = true) ∧
  (WebPush ch = true → WebPush ch' = true).
Proof. intros H. split_and!; [apply (H 0)|apply (H 1)|apply (H 2)]; lia. Qed.

Lemma surface_cases p : surface p = Z.lor setInApp setSound ∨ surface p = setWebPush.
Proof. unfold surface. destruct (_ || _); auto. Qed.

Lemma surface_budget p :
  surface p ∈ [0; setInApp; setWebPush; Z.lor setInApp setSound] ∧ (budget (surface p) <= 2)%nat.
Proof.
  destruct (surface_cases p) as [-> | ->]; (split; [vm_compute; set_solver|vm_compute; lia]).
Qed.

Lemma Evaluate_no_reasons c : d_Reasons (Evaluate c) = [] → Eligible (Evaluate c) = true.
Proof.
  rewrite Evaluate_reasons, apply_rules_nil, apply_rules_allowed. intros H.
  unfold Eligible. rewrite Evaluate_channels, H. by destruct (surface_cases (c_Presence c)) as [-> | ->].
Qed.

Lemma reason_bytes x r :
  r ∈ rules → r_reason r = x → x ≠ "" ∧ (String.length x <= 34)%nat.
Proof.
  intros Hr <-.
  assert (Forall (λ r, r_reason r ≠ "" ∧ (String.length (r_reason r) <= 34)%nat) rules) as HF.
  { unfold rules. repeat (apply Forall_cons_2; [split; [done|vm_compute; lia]|]). by apply Forall_nil_2. }
  exact (proj1 (Forall_forall _ _) HF _ Hr).
Qed.

Lemma Evaluate_reason_list c :
  (length (d_Reasons (Evaluate c)) <= 2)%nat ∧
  Forall (λ x, x ≠ "" ∧ (String.length x <= 34)%nat) (d_Reasons (Evaluate c)).
Proof.
  rewrite Evaluate_reasons. destruct (surface_budget (c_Presence c)) as [Hs Hb]. split.
  - etransitivity; [apply apply_rules_budget; [apply rules_sets|done]|done].
  - apply Forall_forall. intros x (r & Hr & Hx & _)%apply_rules_reasons. by eapply reason_bytes.
Qed.

(** The sound bit is denied with the in-app bit, and by the sound mode. *)
Lemma sound_bits c :
  forallb (λ r, negb (Z.testbit (r_denies r c) 1)) rules =
  forallb (λ r, negb (Z.testbit (r_denies r c) 0)) rules && soundWanted c.
Proof.
  set (w r := if r_reason r == ReasonUserPreference then soundWanted c else true).
  assert (HF : Forall (λ r, negb (Z.testbit (r_denies r c) 1) =
    negb (Z.testbit (r_denies r c) 0) && w r) rules).
  { unfold rules. repeat (apply Forall_cons_2; [subst w; cbn [r_denies r_reason]|]); [..|by apply Forall_nil_2].
    all: unfold denyOutsideWorkHours, denyHistorical, denySilentEventType, denyConversationOpen,
      denyUnresolvedPreferences, denyDoNotDisturb, denyMuted, denyConversationLevel,
      denyUserPreference, denyUnavailablePush, denyDuplicate, denyBurstCooldown.
    9: by destruct (p_Disabled _), (soundWanted c).
    all: by repeat case_match. }
  assert (Hw : forallb w rules = soundWanted c).
  { subst w. unfold rules. cbn [forallb r_reason]. by rewrite ?andb_true_r. }
  rewrite <-Hw. clear Hw. clearbody w.
  induction HF as [|r rs Hr HF IH]; [done|]. cbn [forallb]. rewrite Hr, IH.
  destruct (negb (Z.testbit (r_denies r c) 0)), (w r), (forallb w rs);
    by rewrite ?andb_true_r, ?andb_false_r.
Qed.

(** ** Properties *)

(** The order in which the rules are listed never changes the channels of
    the plan: any permutation of the rule table decides the same. *)
Theorem rule_order_irrelevant c rs :
  rs ≡ₚ rules →
  channelsFrom (fst (apply_rules c rs (surface (c_Presence c)))) = d_Channels (Evaluate c).
Proof. intros Hp. by rewrite Evaluate_channels, apply_rules_allowed, Hp. Qed.

Definition no_preferences : Preferences :=
  {| p_Status := PreferenceStatusResolved; p_Disabled := false; p_DoNotDisturb := false;
     p_Muted := false; p_ConversationLevel := ""; p_SoundMode := "" |}.

Definition with_preferences (c : Context) (p : Preferences) : Context :=
  {| c_EventID := c_EventID c; c_WorkspaceID := c_WorkspaceID c; c_RecipientID := c_RecipientID c;
     c_EventType := c_EventType c; c_Priority := c_Priority c; c_Origin := c_Origin c;
     c_Conversation := c_Conversation c; c_WorkSchedule := c_WorkSchedule c;
     c_Presence := c_Presence c; c_ConversationOpen := c_ConversationOpen c;
     c_Preferences := p; c_WebPushAvailable := c_WebPushAvailable c;
     c_Duplicate := c_Duplicate c; c_BurstCooldown := c_BurstCooldown c |}.

Definition context_example : Context :=
  {| c_EventID := "e1"; c_WorkspaceID := "w"; c_RecipientID := "u";
     c_EventType := EventTypeMention; c_Priority := PriorityNormal; c_Origin := OriginLive;
     c_Conversation := ConversationChannel; c_WorkSchedule := WorkSchedule.StateWithinWorkHours;
     c_Presence := PresenceConnected; c_ConversationOpen := false;
     c_Preferences := {| p_Status := ""; p_Disabled := false; p_DoNotDisturb := false;
       p_Muted := false; p_ConversationLevel := ""; p_SoundMode := SoundModeOff |};
     c_WebPushAvailable := true; c_Duplicate := true; c_BurstCooldown := false |}.

Lemma rule_order_irrelevant_witness :
  channelsFrom (fst (apply_rules context_example (rev rules) (surface PresenceConnected))) =
  {| InApp := false; Sound := false; WebPush := false |}.
Proof.
  etransitivity.
  - exact (rule_order_irrelevant context_example (rev rules) (Permutation_sym (Permutation_rev rules))).
  - vm_compute. reflexivity.
Defined.

(** One rule denying everything silences the whole plan. *)
Lemma Evaluate_silenced c r :
  r ∈ rules → r_denies r c = setAll →
  d_Channels (Evaluate c) = {| InApp := false; Sound := false; WebPush := false |}.
Proof.
  intros Hr Hall.
  assert (Hoff : ∀ n, 0 <= n <= 2 → channel_bit (d_Channels (Evaluate c)) n = false).
  { intros n Hn. rewrite Evaluate_bit by done. apply andb_false_iff. right.
    apply not_true_is_false. intros Hf. rewrite forallb_forall in Hf.
    specialize (Hf r (proj1 (list_elem_of_In _ _) Hr)). rewrite Hall in Hf.
    assert (n = 0 ∨ n = 1 ∨ n = 2) as [-> | [-> | ->] ] by lia; done. }
  revert Hoff. generalize (d_Channels (Evaluate c)). intros [ia so wp] Hoff.
  f_equal; [apply (Hoff 0)|apply (Hoff 1)|apply (Hoff 2)]; lia.
Qed.

(** Without preferences no rule denies more than it does with some. *)
Lemma no_preferences_deny_less c p n :
  Forall (λ r, Z.testbit (r_denies r (with_preferences c no_preferences)) n = true →
               Z.testbit (r_denies r (with_preferences c p)) n = true) rules.
Proof.
  assert (H0 : Z.testbit 0 n = true → False) by (by rewrite Z.bits_0).
  unfold rules.
  repeat (apply Forall_cons_2; [first [exact (λ H, H) | intros Hb; destruct (H0 Hb)]|]).
  by apply Forall_nil_2.
Qed.

(** No preference of the recipient widens a plan: every channel a decision
    uses would be used with no preferences at all too.  Outside working hours,
    and for an event that is not live, nothing is delivered whatever the
    preferences are. *)
Theorem preferences_only_subtract c p :
  let d := d_Channels (Evaluate (with_preferences c p)) in
  let base := d_Channels (Evaluate (with_preferences c no_preferences)) in
  (InApp d = true → InApp base = true) ∧ (Sound d = true → Sound base = true) ∧
  (WebPush d = true → WebPush base = true) ∧
  (c_WorkSchedule c ∉ [WorkSchedule.StateWithinWorkHours; WorkSchedule.StateNotConfigured] ∨
   c_Origin c ≠ OriginLive → d = {| InApp := false; Sound := false; WebPush := false |}).
Proof.
  cbv zeta.
  destruct (channels_bits (d_Channels (Evaluate (with_preferences c p)))
    (d_Channels (Evaluate (with_preferences c no_preferences)))) as (H1 & H2 & H3).
  { intros n Hn. rewrite !Evaluate_bit by done. rewrite !andb_true_iff, !forallb_forall.
    intros [Hs Hf]. split; [exact Hs|]. intros r Hr. specialize (Hf r Hr).
    apply list_elem_of_In in Hr.
    pose proof (proj1 (Forall_forall _ _) (no_preferences_deny_less c p n) _ Hr) as Hle.
    simpl in Hle. destruct (Z.testbit (r_denies r (with_preferences c no_preferences)) n); [|done].
    by rewrite Hle in Hf. }
  split_and!; [done..|]. intros [H|H].
  - apply (Evaluate_silenced _ {| r_reason := ReasonOutsideWorkHours; r_denies := denyOutsideWorkHours |}); [left|].
    unfold denyOutsideWorkHours. simpl. rewrite !elem_of_cons, elem_of_nil in H.
    repeat case_bool_decide; naive_solver.
  - apply (Evaluate_silenced _ {| r_reason := ReasonHistoricalOrImported; r_denies := denyHistorical |}); [right; left|].
    unfold denyHistorical. simpl. by rewrite bool_decide_eq_false_2.
Qed.

(** The three channels of a plan hang together: a sound accompanies an
    in-app notice exactly when the recipient's sound mode wants it, never
    travels alone, and a plan that uses web push uses nothing else. *)
Theorem Evaluate_shape c :
  let d := d_Channels (Evaluate c) in
  Sound d = InApp d && soundWanted c ∧ InApp d && WebPush d = false ∧ Sound d && WebPush d = false.
Proof.
  cbv zeta.
  assert (H0 : Z.testbit (Z.lor setInApp setSound) 0 = true) by reflexivity.
  assert (H1 : Z.testbit (Z.lor setInApp setSound) 1 = true) by reflexivity.
  assert (H2 : Z.testbit (Z.lor setInApp setSound) 2 = false) by reflexivity.
  assert (P0 : Z.testbit setWebPush 0 = false) by reflexivity.
  assert (P1 : Z.testbit setWebPush 1 = false) by reflexivity.
  assert (HS : Sound (d_Channels (Evaluate c)) = InApp (d_Channels (Evaluate c)) && soundWanted c).
  { rewrite Sound_bit, InApp_bit, !Evaluate_bit, sound_bits by lia.
    destruct (surface_cases (c_Presence c)) as [-> | ->]; [by rewrite H0, H1|by rewrite P0, P1]. }
  assert (HW : InApp (d_Channels (Evaluate c)) && WebPush (d_Channels (Evaluate c)) = false).
  { rewrite WebPush_bit, InApp_bit, !Evaluate_bit by lia.
    destruct (surface_cases (c_Presence c)) as [-> | ->]; [by rewrite H2, andb_false_r|by rewrite P0]. }
  revert HS HW. generalize (d_Channels (Evaluate c)). intros d HS HW. rewrite HS. split; [reflexivity|].
  split; [exact HW|]. destruct (InApp d); cbn [andb] in HW |- *; [by rewrite HW, andb_false_r|reflexivity].
Qed.

(** At most two reasons of at most 34 bytes each are ever joined. *)
Lemma SuppressedReason_join c :
  d_Reasons (Evaluate c) ≠ [] →
  join "," (d_Reasons (Evaluate c)) ≠ "" ∧ len (join "," (d_Reasons (Evaluate c))) <= 69.
Proof.
  destruct (Evaluate_reason_list c) as [H2 Hr].
  destruct (d_Reasons (Evaluate c)) as [|a l]; [done|intros _].
  apply Forall_cons in Hr as [[Ha Hla] Hr]. destruct l as [|b [|? ?] ]; simpl in H2; [..|lia].
  - simpl. split; [done|]. unfold len. lia.
  - apply Forall_cons in Hr as [[Hb Hlb] _]. simpl. split.
    + by destruct a.
    + unfold len. rewrite !length_string_app. simpl. lia.
Qed.

Lemma SuppressedReason_len c : len (SuppressedReason (Evaluate c)) <= 69.
Proof.
  unfold SuppressedReason. destruct (Eligible _); [vm_compute; discriminate|].
  destruct (decide (d_Reasons (Evaluate c) = [])) as [->|Hne]; [vm_compute; discriminate|].
  by apply SuppressedReason_join.
Qed.

(** What is written beside the state: the suppression reason is empty
    exactly for an eligible plan, passes the outbox contract for the state the
    plan implies, and records at most two rules - 69 bytes - whatever the
    context. *)
Theorem SuppressedReason_contract c :
  let d := Evaluate c in
  let state := if Suppressed d then StateSuppressed else StateEligible in
  ValidateSuppressedReason state (SuppressedReason d) = None ∧
  (SuppressedReason d = "" ↔ Eligible d = true) ∧
  (length (d_Reasons d) <= 2)%nat ∧ len (SuppressedReason d) <= 69.
Proof.
  cbv zeta. pose proof (SuppressedReason_len c) as Hlen. pose proof (Evaluate_no_reasons c) as Hnil.
  destruct (Evaluate_reason_list c) as [H2 _].
  revert Hlen. unfold SuppressedReason, Suppressed, ValidateSuppressedReason.
  destruct (Eligible (Evaluate c)) eqn:E; cbn [negb]; intros Hlen.
  { split_and!; [vm_compute; reflexivity|done|done|done]. }
  destruct (SuppressedReason_join c) as [Hne _]; [by intros ?%Hnil|].
  rewrite (bool_decide_eq_false_2 (join _ _ = "")) by done.
  split_and!; [|split; [done|discriminate]|done|done].
  assert ((len (join "," (d_Reasons (Evaluate c))) >? SuppressedReasonMaxLen) = false) as ->; [|done].
  rewrite Z.gtb_ltb. apply Z.ltb_ge. unfold SuppressedReasonMaxLen. lia.
Qed.

(** The reasons of all twelve rules joined would not fit the outbox column:
    217 bytes against a limit of 200.  The contract holds because a plan never
    records more than two of them, not because the closed set is short. *)
Theorem all_reasons_exceed_limit :
  len (join "," (r_reason <$> rules)) = 217 ∧
  ValidateSuppressedReason StateSuppressed (join "," (r_reason <$> rules)) ≠ None.
Proof. split; [vm_compute; reflexivity|vm_compute; discriminate]. Qed.
