(* ===== verification/Workspace.v ===== *)
(** * Workspaces, channels and who may reach them

    [services/chat-service/internal/domain/workspace.go]: the records of a
    workspace and the permission predicates every handler asks, with the
    bounded settings they delegate to [libs/go/platform/antispampolicy] and
    [libs/go/platform/uploadpolicy].  A [*WorkspaceMember] that may be nil is an
    [option]. *)

From stdpp Require Import prelude gmap strings sorting.
From Stdlib Require Import ZArith Lia.
From S2P Require Import Prelude GoStrings.
Local Open Scope Z_scope.

(** ** Vocabularies *)

Abbreviation WorkspaceStatus := string (only parsing).
Definition WorkspaceStatusActive : WorkspaceStatus := "active".
Definition WorkspaceStatusDisabled : WorkspaceStatus := "disabled".

Abbreviation ChannelType := string (only parsing).
Definition ChannelTypePublic : ChannelType := "public".
Definition ChannelTypePrivate : ChannelType := "private".

Abbreviation ChannelStatus := string (only parsing).
Definition ChannelStatusActive : ChannelStatus := "active".
Definition ChannelStatusArchived : ChannelStatus := "archived".

Abbreviation WorkspaceRole := string (only parsing).
Definition WorkspaceRoleOwner : WorkspaceRole := "owner".
Definition WorkspaceRoleAdmin : WorkspaceRole := "admin".
Definition WorkspaceRoleModerator : WorkspaceRole := "moderator".
Definition WorkspaceRoleMember : WorkspaceRole := "member".
Definition WorkspaceRoleGuest : WorkspaceRole := "guest".

Abbreviation MemberStatus := string (only parsing).
Definition MemberStatusActive : MemberStatus := "active".
Definition MemberStatusSuspended : MemberStatus := "suspended".
Definition MemberStatusLeft : MemberStatus := "left".

Abbreviation ChannelRole := string (only parsing).
Definition ChannelRoleMember : ChannelRole := "member".
Definition ChannelRoleModerator : ChannelRole := "moderator".

(** ** Records *)

Record Workspace : Type := {
  Workspace_ID : string;
  Workspace_Slug : string;
  Workspace_Name : string;
  Workspace_Status : WorkspaceStatus;
  Workspace_EditWindowSeconds : option Z;
  Workspace_MessageRateLimitPerMinute : Z;
  Workspace_MaxUploadBytes : Z;
  Workspace_CreatedAt : Time;
  Workspace_UpdatedAt : Time
}.

Record Channel : Type := {
  Channel_ID : string;
  Channel_WorkspaceID : string;
  Channel_CategoryID : string;
  Channel_Slug : string;
  Channel_DisplayName : string;
  Channel_Type : ChannelType;
  Channel_Status : ChannelStatus;
  Channel_IsGeneral : bool;
  Channel_Position : Z;
  Channel_CreatedBy : string;
  Channel_CreatedAt : Time;
  Channel_UpdatedAt : Time
}.

Record WorkspaceMember : Type := {
  WorkspaceMember_WorkspaceID : string;
  WorkspaceMember_UserID : string;
  WorkspaceMember_Role : WorkspaceRole;
  WorkspaceMember_Status : MemberStatus;
  WorkspaceMember_JoinedAt : Time
}.

Record ChannelMember : Type := {
  ChannelMember_ChannelID : string;
  ChannelMember_UserID : string;
  ChannelMember_Role : ChannelRole;
  ChannelMember_JoinedAt : Time
}.

(** ** Errors and names *)

Definition ErrNotFound : error := ErrNew "domain.ErrNotFound".
Definition ErrForbidden : error := ErrNew "domain.ErrForbidden".
Definition ErrInvalidInput : error := ErrNew "domain.ErrInvalidInput".
Definition ErrConflict : error := ErrNew "domain.ErrConflict".

Definition ErrChannelDisplayNameRequired : error := ErrWrap "display_name is required" ErrInvalidInput.
Definition ErrChannelDisplayNameTooLong : error := ErrWrap "display_name must be 100 characters or fewer" ErrInvalidInput.

Definition MaxChannelDisplayNameCodePoints : Z := 100.

Definition NormalizeChannelDisplayName (value : string) : result string :=
  let normalized := TrimSpace value in
  if normalized == "" then Fail ErrChannelDisplayNameRequired
  else if RuneCount normalized >? MaxChannelDisplayNameCodePoints
  then Fail ErrChannelDisplayNameTooLong
  else Ok normalized.

(** ** Permissions *)

(** [default] is the answer for a role outside the closed set. *)
Definition CanReachPublicChannels (wm : option WorkspaceMember) : bool :=
  match wm with
  | None => false
  | Some wm =>
      if WorkspaceMember_Status wm != MemberStatusActive then false
      else WorkspaceMember_Role wm ∈?
        [WorkspaceRoleOwner; WorkspaceRoleAdmin; WorkspaceRoleModerator; WorkspaceRoleMember]
  end.

Definition CanReadChannel (wm : option WorkspaceMember) (cm : option ChannelMember) (ch : Channel)
    : bool :=
  match wm with
  | None => false
  | Some w =>
      if (WorkspaceMember_Status w != MemberStatusActive) ||
         (WorkspaceMember_WorkspaceID w != Channel_WorkspaceID ch) then false
      else if Channel_Status ch != ChannelStatusActive then false
      else if (match cm with
               | Some cm => (ChannelMember_ChannelID cm == Channel_ID ch) &&
                            (ChannelMember_UserID cm == WorkspaceMember_UserID w)
               | None => false
               end) then true
      else if negb (CanReachPublicChannels wm) then false
      else Channel_Type ch == ChannelTypePublic
  end.

Definition CanWriteChannel (wm : option WorkspaceMember) (cm : option ChannelMember) (ch : Channel)
    : bool := CanReadChannel wm cm ch.

Definition CanManageWorkspace (wm : option WorkspaceMember) : bool :=
  match wm with
  | None => false
  | Some wm =>
      if WorkspaceMember_Status wm != MemberStatusActive then false
      else (WorkspaceMember_Role wm == WorkspaceRoleOwner) ||
           (WorkspaceMember_Role wm == WorkspaceRoleAdmin)
  end.

Definition CanModerateWorkspace (wm : option WorkspaceMember) : bool :=
  if CanManageWorkspace wm then true
  else match wm with
       | None => false
       | Some wm => (WorkspaceMember_Status wm == MemberStatusActive) &&
                    (WorkspaceMember_Role wm == WorkspaceRoleModerator)
       end.

Definition CanCreateChannel (wm : option WorkspaceMember) : bool := CanReachPublicChannels wm.

Definition CanRenameChannel (wm : option WorkspaceMember) (ch : Channel) : bool :=
  negb (Channel_IsGeneral ch) && CanManageWorkspace wm.

Definition CanMuteChannel (ch : Channel) : bool := negb (Channel_IsGeneral ch).
Definition CanLeaveChannel (ch : Channel) : bool := negb (Channel_IsGeneral ch).

Definition CanAddChannelMembers (wm : option WorkspaceMember) (cm : option ChannelMember)
    (ch : Channel) : bool := CanReadChannel wm cm ch.

Definition CanManageChannelMembers (wm : option WorkspaceMember) : bool := CanModerateWorkspace wm.

(** ** The predicates as sets of roles *)

Definition active_with (roles : list WorkspaceRole) (wm : option WorkspaceMember) : Prop :=
  ∃ w, wm = Some w ∧ WorkspaceMember_Status w = MemberStatusActive ∧
       WorkspaceMember_Role w ∈ roles.

Lemma active_with_mono roles roles' wm :
  roles ⊆ roles' → active_with roles wm → active_with roles' wm.
Proof. intros Hs (w & ? & ? & ?). exists w. auto. Qed.

Lemma active_with_Some roles w :
  active_with roles (Some w) ↔
  WorkspaceMember_Status w = MemberStatusActive ∧ WorkspaceMember_Role w ∈ roles.
Proof. unfold active_with. naive_solver. Qed.

Lemma active_with_None roles : ¬ active_with roles None.
Proof. intros (? & ? & _). done. Qed.

Ltac roles_solver :=
  match goal with
  | |- context [active_with _ ?wm] =>
      destruct wm as [w|]; simpl; rewrite ?active_with_Some;
      [repeat case_bool_decide; set_solver
      |split; [done|intros Hn; by apply active_with_None in Hn]]
  end.

Lemma CanReachPublicChannels_iff wm :
  CanReachPublicChannels wm = true ↔
  active_with [WorkspaceRoleOwner; WorkspaceRoleAdmin; WorkspaceRoleModerator; WorkspaceRoleMember] wm.
Proof. unfold CanReachPublicChannels. roles_solver. Qed.

Lemma CanManageWorkspace_iff wm :
  CanManageWorkspace wm = true ↔ active_with [WorkspaceRoleOwner; WorkspaceRoleAdmin] wm.
Proof. unfold CanManageWorkspace. roles_solver. Qed.

Lemma CanModerateWorkspace_iff wm :
  CanModerateWorkspace wm = true ↔
  active_with [WorkspaceRoleOwner; WorkspaceRoleAdmin; WorkspaceRoleModerator] wm.
Proof. unfold CanModerateWorkspace, CanManageWorkspace. roles_solver. Qed.

Lemma CanReadChannel_iff wm cm ch :
  CanReadChannel wm cm ch = true ↔ ∃ w, wm = Some w ∧
     WorkspaceMember_Status w = MemberStatusActive ∧
     WorkspaceMember_WorkspaceID w = Channel_WorkspaceID ch ∧
     Channel_Status ch = ChannelStatusActive ∧
     ((∃ m, cm = Some m ∧ ChannelMember_ChannelID m = Channel_ID ch ∧
            ChannelMember_UserID m = WorkspaceMember_UserID w) ∨
      (Channel_Type ch = ChannelTypePublic ∧ CanReachPublicChannels wm = true)).
Proof.
  unfold CanReadChannel. destruct wm as [w|]; [|naive_solver].
  destruct cm as [m|], (CanReachPublicChannels (Some w)) eqn:E;
    repeat case_bool_decide; simpl; naive_solver.
Qed.

(** ** Properties *)

(** The permissions form a hierarchy that a suspended or departed member
    is always outside of: managing implies moderating, moderating implies
    creating channels and reading every active public channel of the
    workspace, and without a channel membership of their own nobody reads a
    private channel, whatever their workspace role. *)
Theorem workspace_permission_hierarchy wm cm ch :
  (CanManageWorkspace wm = true → CanManageChannelMembers wm = true) ∧
  (CanManageChannelMembers wm = true → CanCreateChannel wm = true) ∧
  (CanCreateChannel wm = true → ∃ w, wm = Some w ∧
     WorkspaceMember_Status w = MemberStatusActive ∧ WorkspaceMember_Role w ≠ WorkspaceRoleGuest) ∧
  (CanReadChannel wm cm ch = true ↔ ∃ w, wm = Some w ∧
     WorkspaceMember_Status w = MemberStatusActive ∧
     WorkspaceMember_WorkspaceID w = Channel_WorkspaceID ch ∧
     Channel_Status ch = ChannelStatusActive ∧
     ((∃ m, cm = Some m ∧ ChannelMember_ChannelID m = Channel_ID ch ∧
            ChannelMember_UserID m = WorkspaceMember_UserID w) ∨
      (Channel_Type ch = ChannelTypePublic ∧ CanReachPublicChannels wm = true))).
Proof.
  unfold CanManageChannelMembers, CanCreateChannel.
  pose proof (CanReadChannel_iff wm cm ch) as Hread.
  rewrite CanManageWorkspace_iff, CanModerateWorkspace_iff, CanReachPublicChannels_iff in *.
  split_and!.
  - apply active_with_mono. set_solver.
  - apply active_with_mono. set_solver.
  - intros (w & -> & ? & Hr). exists w. split_and!; [done..|].
    intros Heq. rewrite Heq in Hr. by apply (bool_decide_eq_true_2 _) in Hr.
  - done.
Qed.

(** ** Bounded settings *)

(** Package [antispampolicy]. *)
Definition antispampolicy_Default : Z := 60.
Definition antispampolicy_Min : Z := 1.
Definition antispampolicy_Max : Z := 600.
Definition antispampolicy_Valid (value : Z) : bool :=
  (antispampolicy_Min <=? value) && (value <=? antispampolicy_Max).
Definition antispampolicy_Effective (value : Z) : Z :=
  if negb (antispampolicy_Valid value) then antispampolicy_Default else value.

(** Package [uploadpolicy].  Go's [%] truncates; [Z.rem] does too. *)
Definition BytesPerMiB : Z := Z.shiftl 1 20.
Definition uploadpolicy_DefaultMaxUploadBytes : Z := Z.shiftl 250 20.
Definition uploadpolicy_MinMaxUploadBytes : Z := Z.shiftl 1 20.
Definition uploadpolicy_MaxMaxUploadBytes : Z := Z.shiftl 512 20.
Definition MultipartOverheadBytes : Z := Z.shiftl 8 10.
Definition GatewayHardCapBytes : Z := uploadpolicy_MaxMaxUploadBytes + MultipartOverheadBytes.
Definition uploadpolicy_Valid (value : Z) : bool :=
  (uploadpolicy_MinMaxUploadBytes <=? value) && (value <=? uploadpolicy_MaxMaxUploadBytes) &&
  (Z.rem value BytesPerMiB =? 0).
Definition uploadpolicy_Effective (value : Z) : Z :=
  if negb (uploadpolicy_Valid value) then uploadpolicy_DefaultMaxUploadBytes else value.
Definition EffectiveUnder (value ceiling : Z) : Z :=
  let effective := uploadpolicy_Effective value in
  if (0 <? ceiling) && (ceiling <? effective) then ceiling else effective.

(** [ValidMaxUploadBytes] and its three siblings delegate. *)
Definition ValidMaxUploadBytes (value : Z) : bool := uploadpolicy_Valid value.
Definition EffectiveMaxUploadBytes (value : Z) : Z := uploadpolicy_Effective value.
Definition ValidMessageRateLimitPerMinute (value : Z) : bool := antispampolicy_Valid value.
Definition EffectiveMessageRateLimitPerMinute (value : Z) : Z := antispampolicy_Effective value.

(** Whatever integer a configuration row holds, the limits in force are
    inside their bounds: the rate between 1 and 600, the upload size between one
    and 512 MiB in whole MiB when no ceiling applies, never above a positive
    ceiling, and small enough for the gateway's cap to hold the multipart
    framing too.  A limit already inside its bounds is kept as it is. *)
Theorem effective_limits_bounded value ceiling :
  ValidMessageRateLimitPerMinute (EffectiveMessageRateLimitPerMinute value) = true ∧
  ValidMaxUploadBytes (EffectiveMaxUploadBytes value) = true ∧
  (ValidMaxUploadBytes value = true → EffectiveMaxUploadBytes value = value) ∧
  (0 < ceiling → 0 < EffectiveUnder value ceiling <= ceiling) ∧
  EffectiveUnder value ceiling + MultipartOverheadBytes
    <= GatewayHardCapBytes.
Proof.
  unfold ValidMessageRateLimitPerMinute, EffectiveMessageRateLimitPerMinute, ValidMaxUploadBytes,
    EffectiveMaxUploadBytes, EffectiveUnder, GatewayHardCapBytes.
  assert (Hv : uploadpolicy_Valid (uploadpolicy_Effective value) = true).
  { unfold uploadpolicy_Effective. destruct (uploadpolicy_Valid value) eqn:E; [done|reflexivity]. }
  assert (Hb : uploadpolicy_MinMaxUploadBytes <= uploadpolicy_Effective value
               <= uploadpolicy_MaxMaxUploadBytes).
  { unfold uploadpolicy_Valid in Hv. lia. }
  split_and!.
  - unfold antispampolicy_Effective. destruct (antispampolicy_Valid value) eqn:E; [done|reflexivity].
  - done.
  - unfold uploadpolicy_Effective. by intros ->.
  - intros Hc. change uploadpolicy_MinMaxUploadBytes with 1048576 in Hb.
    destruct (Z.ltb_spec 0 ceiling), (Z.ltb_spec ceiling (uploadpolicy_Effective value)); simpl; lia.
  - destruct ((0 <? ceiling) && (ceiling <? uploadpolicy_Effective value)) eqn:E; lia.
Qed.
