(* ===== verification/Ownership.v ===== *)
(** * Ownership of private conversations

    [services/chat-service/internal/domain/ownership.go] (who may do what to
    whom, who succeeds a leaving owner) and conversation_policy.go (the same
    decisions on a full authorisation snapshot), with
    [libs/go/platform/conversationownership] (the succession transaction and
    its bounded retry). *)

From stdpp Require Import prelude gmap strings sorting.
From Stdlib Require Import ZArith Lia.
From S2P Require Import Prelude GoStrings Workspace.
Local Open Scope Z_scope.

(** ** Roles and participants *)

Abbreviation ConversationRole := string (only parsing).
Definition ConversationOwner : ConversationRole := "owner".
Definition ConversationAdmin : ConversationRole := "admin".
Definition ConversationMember : ConversationRole := "member".
Definition ConversationRole_Valid (r : ConversationRole) : bool :=
  (r == ConversationOwner) || (r == ConversationAdmin) || (r == ConversationMember).

Record OwnershipParticipant : Type := {
  op_UserID : string;
  op_Role : ConversationRole;
  op_JoinedAt : Time;
  op_HasAccess : bool;
  op_Guest : bool
}.

Record ParticipantActions : Type := { Remove : bool; AssignRole : bool; Transfer : bool }.

Record OwnershipCapabilities : Type :=
  { AddMembers : bool; ManageRoles : bool; EditMetadata : bool; Leave : bool }.

Definition PrivateConversationCapabilities (actor : OwnershipParticipant) (canAdd : bool)
    : OwnershipCapabilities :=
  if negb (op_HasAccess actor) || negb (ConversationRole_Valid (op_Role actor))
  then {| AddMembers := false; ManageRoles := false; EditMetadata := false; Leave := false |}
  else {| AddMembers := canAdd;
          ManageRoles := op_Role actor == ConversationOwner;
          EditMetadata := (op_Role actor == ConversationOwner) || (op_Role actor == ConversationAdmin);
          Leave := true |}.

Definition PrivateParticipantActions (actor target : OwnershipParticipant) : ParticipantActions :=
  if negb (op_HasAccess actor) || negb (op_HasAccess target) ||
     negb (ConversationRole_Valid (op_Role actor)) || negb (ConversationRole_Valid (op_Role target))
  then {| Remove := false; AssignRole := false; Transfer := false |}
  else
    let owner := op_Role actor == ConversationOwner in
    let other := op_UserID actor != op_UserID target in
    {| Remove := other && (op_Role target != ConversationOwner) &&
                 (owner || (op_Role actor == ConversationAdmin) && (op_Role target == ConversationMember));
       AssignRole := owner;
       Transfer := owner && other |}.

(** ** Succession *)

(** Who may inherit a conversation. *)
Definition candidate (p : OwnershipParticipant) : bool :=
  op_HasAccess p && negb (op_Guest p) &&
  ((op_Role p == ConversationAdmin) || (op_Role p == ConversationMember)).

(** The comparison given to [sort.Slice]. *)
Definition successor_less (a b : OwnershipParticipant) : bool :=
  if op_Role a != op_Role b then op_Role a == ConversationAdmin
  else if negb (time_Equal (op_JoinedAt a) (op_JoinedAt b))
  then time_Before (op_JoinedAt a) (op_JoinedAt b)
  else string_lt (op_UserID a) (op_UserID b).

Definition successor_le (a b : OwnershipParticipant) : Prop := successor_less b a = false.
#[export] Instance successor_le_dec : RelDecision successor_le.
Proof. intros a b. unfold successor_le. apply _. Defined.

Definition SelectOwnershipSuccessor (participants : list OwnershipParticipant) : string :=
  let candidates := filter (λ p, candidate p = true) participants in
  match merge_sort successor_le candidates with
  | [] => ""
  | first :: _ => op_UserID first
  end.

Record OwnershipLeavePreview : Type :=
  { LastOwner : bool; SuccessorUserID : string; Blocked : bool }.

(** The loop of [PreviewOwnershipLeave]: the participants that remain, whether
    the leaver is an owner and whether an owner remains. *)
Fixpoint preview_walk (leavingUserID : string) (participants remaining : list OwnershipParticipant)
    (leavingOwner remainingOwner : bool) : list OwnershipParticipant * bool * bool :=
  match participants with
  | [] => (remaining, leavingOwner, remainingOwner)
  | p :: rest =>
      if negb (op_HasAccess p)
      then preview_walk leavingUserID rest remaining leavingOwner remainingOwner
      else if op_UserID p == leavingUserID
      then preview_walk leavingUserID rest remaining (op_Role p == ConversationOwner) remainingOwner
      else preview_walk leavingUserID rest (remaining ++ [p]) leavingOwner
             (remainingOwner || (op_Role p == ConversationOwner))
  end.

Definition PreviewOwnershipLeave (participants : list OwnershipParticipant) (leavingUserID : string)
    : OwnershipLeavePreview :=
  let '(remaining, leavingOwner, remainingOwner) :=
    preview_walk leavingUserID participants [] false false in
  let lastOwner := leavingOwner && negb remainingOwner in
  if negb lastOwner || (length remaining == 0%nat)
  then {| LastOwner := lastOwner; SuccessorUserID := ""; Blocked := false |}
  else
    let successor := SelectOwnershipSuccessor remaining in
    {| LastOwner := lastOwner; SuccessorUserID := successor; Blocked := successor == "" |}.

Definition CanDemoteConversationOwner (participants : list OwnershipParticipant)
    (targetUserID : string) : bool :=
  existsb (λ p, (op_UserID p != targetUserID) && op_HasAccess p && (op_Role p == ConversationOwner))
    participants.

(** ** The order of succession *)

(** Administrators first, then by seniority, then by identifier. *)
Definition precedes (a b : OwnershipParticipant) : Prop :=
  (op_Role a = ConversationAdmin ∧ op_Role b ≠ ConversationAdmin) ∨
  ((op_Role a = ConversationAdmin ↔ op_Role b = ConversationAdmin) ∧
   (op_JoinedAt a < op_JoinedAt b ∨
    (op_JoinedAt a = op_JoinedAt b ∧ String.le (op_UserID a) (op_UserID b)))).

#[export] Instance precedes_trans : Transitive precedes.
Proof.
  intros a b c. unfold precedes. intros [H1|[H1 H1']] [H2|[H2 H2']]; [naive_solver..|].
  right. split; [tauto|].
  destruct H1' as [?|[? ?]], H2' as [?|[? ?]]; [left; lia..|].
  right. split; [congruence|]. by etransitivity.
Qed.

Lemma precedes_antisymm a b : precedes a b → precedes b a → op_UserID a = op_UserID b.
Proof.
  unfold precedes. intros [H1|[H1 [H1'|[H1' Ha]]]] [H2|[H2 [H2'|[H2' Hb]]]]; [tauto..|lia|lia|tauto|lia|].
  by apply (anti_symm String.le).
Qed.

Lemma candidate_role p :
  candidate p = true → op_Role p = ConversationAdmin ∨ op_Role p = ConversationMember.
Proof. unfold candidate. rewrite !andb_true_iff, orb_true_iff, !bool_decide_eq_true. tauto. Qed.

Lemma successor_le_precedes a b :
  candidate a = true → candidate b = true → successor_le a b → precedes a b.
Proof.
  intros Ha%candidate_role Hb%candidate_role.
  assert (Hne : ConversationAdmin ≠ ConversationMember) by done.
  unfold successor_le, successor_less, precedes, time_Equal, time_Before.
  assert (Hr : (op_Role b != op_Role a) = true →
    (op_Role b == ConversationAdmin) = false → op_Role a = ConversationAdmin ∧ op_Role b ≠ ConversationAdmin).
  { intros H1%negb_true_iff%bool_decide_eq_false_1 H2%bool_decide_eq_false_1.
    destruct Ha, Hb; split; congruence. }
  destruct (op_Role b != op_Role a) eqn:E; [auto|].
  apply negb_false_iff, bool_decide_eq_true_1 in E. clear Hr. rewrite E.
  destruct (Z.eqb_spec (op_JoinedAt b) (op_JoinedAt a)) as [Heq|Hn]; cbn [negb]; intros Hf; right.
  - apply string_lt_false in Hf. auto.
  - apply Z.ltb_ge in Hf. split; [done|]. left. lia.
Qed.

#[export] Instance successor_le_total : Total successor_le.
Proof.
  intros a b. unfold successor_le, successor_less, time_Equal, time_Before.
  rewrite (bool_decide_ext (op_Role a = op_Role b) (op_Role b = op_Role a)) by (split; congruence).
  rewrite (Z.eqb_sym (op_JoinedAt a)).
  case_bool_decide as Hr; simpl.
  - destruct (Z.eqb_spec (op_JoinedAt b) (op_JoinedAt a)); simpl.
    + rewrite !string_lt_false. apply total. apply _.
    + rewrite !Z.ltb_ge. lia.
  - repeat case_bool_decide; auto; congruence.
Qed.

Lemma sorted_candidates_head p l :
  Sorted successor_le (p :: l) → Forall (λ p, candidate p = true) (p :: l) →
  ∀ q, q ∈ p :: l → precedes p q.
Proof.
  intros Hs Hc.
  assert (Hs' : StronglySorted precedes (p :: l)).
  { apply Sorted_StronglySorted; [apply _|]. clear -Hs Hc.
    induction Hs as [|a k Hs IH Hhd]; [constructor|]. apply Forall_cons in Hc as [Ha Hk].
    constructor; [auto|]. destruct Hhd; constructor. apply Forall_cons in Hk as [Hb _].
    by apply successor_le_precedes. }
  intros q [->|Hq]%elem_of_cons.
  - right. split; [done|]. right. split; [done|]. reflexivity.
  - inversion Hs' as [|?? _ Hp]; subst. exact (proj1 (Forall_forall _ _) Hp _ Hq).
Qed.

(** Whichever ordering of the candidates a sort produces, the same user leads. *)
Lemma sorted_head_unique l l' p p' k k' :
  l ≡ₚ l' → l = p :: k → l' = p' :: k' →
  Forall (λ p, candidate p = true) l → Sorted successor_le l → Sorted successor_le l' →
  op_UserID p = op_UserID p'.
Proof.
  intros Hp -> -> Hc Hs Hs'.
  assert (Hc' : Forall (λ p, candidate p = true) (p' :: k')) by (by rewrite <-Hp).
  apply precedes_antisymm.
  - apply (sorted_candidates_head p k Hs Hc). rewrite Hp. left.
  - apply (sorted_candidates_head p' k' Hs' Hc'). rewrite <-Hp. left.
Qed.

Lemma candidates_Forall ps : Forall (λ p, candidate p = true) (filter (λ p, candidate p = true) ps).
Proof. apply Forall_forall. by intros p [? _]%list_elem_of_filter. Qed.

Lemma SelectOwnershipSuccessor_cases ps :
  (filter (λ p, candidate p = true) ps = [] ∧ SelectOwnershipSuccessor ps = "") ∨
  ∃ p, p ∈ ps ∧ candidate p = true ∧ SelectOwnershipSuccessor ps = op_UserID p ∧
       ∀ q, q ∈ ps → candidate q = true → precedes p q.
Proof.
  unfold SelectOwnershipSuccessor.
  pose proof (merge_sort_Permutation successor_le (filter (λ p, candidate p = true) ps)) as Hp.
  pose proof (Sorted_merge_sort successor_le (filter (λ p, candidate p = true) ps)) as Hs.
  destruct (merge_sort successor_le _) as [|p k].
  - left. split; [|done]. by apply Permutation_nil.
  - right. exists p.
    assert (Hin : p ∈ filter (λ p, candidate p = true) ps) by (rewrite <-Hp; left).
    pose proof (candidates_Forall ps) as Hc. rewrite <-Hp in Hc.
    apply list_elem_of_filter in Hin as [Hcp Hin]. split_and!; [done..|].
    intros q Hq Hcq. apply (sorted_candidates_head p k Hs Hc).
    rewrite Hp. by apply list_elem_of_filter.
Qed.

Definition remains (u : string) (p : OwnershipParticipant) : Prop :=
  op_HasAccess p = true ∧ op_UserID p ≠ u.
#[export] Instance remains_dec u p : Decision (remains u p).
Proof. unfold remains. apply _. Defined.

Lemma preview_walk_spec u ps rem lo ro :
  NoDup (op_UserID <$> ps) →
  preview_walk u ps rem lo ro =
  (rem ++ filter (remains u) ps,
   match filter (λ p, op_HasAccess p = true ∧ op_UserID p = u) ps with
   | [] => lo | p :: _ => op_Role p == ConversationOwner end,
   ro || existsb (λ p, (op_UserID p != u) && op_HasAccess p && (op_Role p == ConversationOwner)) ps).
Proof.
  revert rem lo ro. induction ps as [|p ps IH]; intros rem lo ro Hnd; simpl.
  { by rewrite app_nil_r, orb_false_r. }
  rewrite fmap_cons, NoDup_cons in Hnd. destruct Hnd as [Hp Hnd].
  destruct (op_HasAccess p) eqn:Ha; simpl.
  - destruct (decide (op_UserID p = u)) as [Hu|Hu].
    + rewrite bool_decide_eq_true_2 by done.
      rewrite (filter_cons_False (remains u)) by (unfold remains; naive_solver).
      rewrite (filter_cons_True (λ p, op_HasAccess p = true ∧ op_UserID p = u)) by done. simpl.
      rewrite IH by done. f_equal. f_equal.
      assert (filter (λ p, op_HasAccess p = true ∧ op_UserID p = u) ps = []) as ->; [|done].
      apply filter_nil_iff. intros q Hq [_ Hqu]. apply Hp.
      apply list_elem_of_fmap. exists q. split; [congruence|done].
    + rewrite bool_decide_eq_false_2 by done.
      rewrite (filter_cons_True (remains u)) by done.
      rewrite (filter_cons_False (λ p, op_HasAccess p = true ∧ op_UserID p = u)) by naive_solver. simpl.
      rewrite IH by done. by rewrite <-app_assoc, orb_assoc.
  - rewrite (filter_cons_False (remains u)) by (unfold remains; intros [? ?]; congruence).
    rewrite (filter_cons_False (λ p, op_HasAccess p = true ∧ op_UserID p = u)) by (intros [? ?]; congruence).
    rewrite andb_false_r. simpl. by apply IH.
Qed.

Lemma CanDemote_iff ps u :
  CanDemoteConversationOwner ps u = true ↔
  ∃ p, p ∈ ps ∧ remains u p ∧ op_Role p = ConversationOwner.
Proof.
  unfold CanDemoteConversationOwner, remains. rewrite existsb_true_Exists.
  split; intros (p & Hp & Hb); exists p; revert Hb;
    rewrite !andb_true_iff, negb_true_iff, bool_decide_eq_true, bool_decide_eq_false; tauto.
Qed.

(** Succession is deterministic: the chosen successor is the candidate that
    precedes every other - administrators before members, then the longest
    standing, then the smallest identifier - and it does not depend on the order
    the participants are listed in, nor on how an unstable sort orders equals. *)
Theorem SelectOwnershipSuccessor_minimal ps :
  (∀ sorted, sorted ≡ₚ filter (λ p, candidate p = true) ps → Sorted successor_le sorted →
     SelectOwnershipSuccessor ps = default "" (op_UserID <$> head sorted)) ∧
  ((∀ p, p ∈ ps → candidate p = false) ∧ SelectOwnershipSuccessor ps = "" ∨
   ∃ p, p ∈ ps ∧ candidate p = true ∧ SelectOwnershipSuccessor ps = op_UserID p ∧
        ∀ q, q ∈ ps → candidate q = true → precedes p q).
Proof.
  split.
  - intros sorted Hp Hs. unfold SelectOwnershipSuccessor.
    pose proof (merge_sort_Permutation successor_le (filter (λ p, candidate p = true) ps)) as Hp'.
    pose proof (Sorted_merge_sort successor_le (filter (λ p, candidate p = true) ps)) as Hs'.
    pose proof (candidates_Forall ps) as Hc. rewrite <-Hp in Hc.
    rewrite <-Hp in Hp' at 2.
    destruct (merge_sort successor_le _) as [|p k], sorted as [|p' k']; simpl.
    + done.
    + by apply Permutation_nil_cons in Hp'.
    + symmetry in Hp'. by apply Permutation_nil_cons in Hp'.
    + symmetry. symmetry in Hp'. by eapply sorted_head_unique.
  - destruct (SelectOwnershipSuccessor_cases ps) as [[He ->]|?]; [left|by right]. split; [|done].
    intros p Hp. apply not_true_is_false. intros Hc.
    by apply (proj1 (filter_nil_iff _ _) He p Hp).
Qed.

(** What a leaving participant is told.  They are the last owner exactly
    when they own and nobody who stays does; a proposed successor is somebody
    else who stays, has access and is no guest, and precedes every other
    candidate; and the departure is blocked exactly when somebody stays but only
    guests do. *)
Theorem PreviewOwnershipLeave_spec ps u :
  NoDup (op_UserID <$> ps) → Forall (λ p, op_UserID p ≠ "") ps →
  let pv := PreviewOwnershipLeave ps u in
  (LastOwner pv = true ↔
   (∃ p, p ∈ ps ∧ op_HasAccess p = true ∧ op_UserID p = u ∧ op_Role p = ConversationOwner) ∧
   CanDemoteConversationOwner ps u = false) ∧
  (SuccessorUserID pv ≠ "" →
   ∃ p, p ∈ ps ∧ op_UserID p = SuccessorUserID pv ∧ remains u p ∧ candidate p = true ∧
        ∀ q, q ∈ ps → remains u q → candidate q = true → precedes p q) ∧
  (Blocked pv = true ↔
   LastOwner pv = true ∧ (∃ p, p ∈ ps ∧ remains u p) ∧
   ∀ p, p ∈ ps → remains u p → candidate p = false).
Proof.
  intros Hnd Hids. cbv zeta. unfold PreviewOwnershipLeave. rewrite preview_walk_spec by done.
  cbn [app orb]. fold (CanDemoteConversationOwner ps u).
  set (lo := match filter _ ps with [] => false | p :: _ => _ end).
  assert (Hlo : lo = true ↔
    ∃ p, p ∈ ps ∧ op_HasAccess p = true ∧ op_UserID p = u ∧ op_Role p = ConversationOwner).
  { subst lo. destruct (filter _ ps) as [|p k] eqn:E; split.
    - done.
    - intros (p & Hp & Ha & Hu & _). exfalso.
      by apply (proj1 (filter_nil_iff _ _) E _ Hp).
    - intros Hr%bool_decide_eq_true_1. exists p.
      assert (Hin : p ∈ p :: k) by left. rewrite <-E in Hin.
      apply list_elem_of_filter in Hin. naive_solver.
    - intros (q & Hq & Ha & Hu & Hr). apply bool_decide_eq_true_2.
      assert (Hin : p ∈ p :: k) by left. rewrite <-E in Hin.
      apply list_elem_of_filter in Hin as [[_ Hpu] Hp].
      assert (p = q) as ->; [|done]. eapply (NoDup_fmap_unique op_UserID ps); [done..|congruence]. }
  clearbody lo.
  assert (Hlast : lo && negb (CanDemoteConversationOwner ps u) = true ↔
    lo = true ∧ CanDemoteConversationOwner ps u = false) by (rewrite andb_true_iff, negb_true_iff; done).
  destruct (lo && negb (CanDemoteConversationOwner ps u)) eqn:El; simpl; last first.
  { split_and!; [rewrite <-Hlo; intuition congruence|done|]. split; [done|]. by intros [? _]. }
  rewrite <-Hlo. rewrite <-Hlast. clear Hlast Hlo El.
  case_bool_decide as Hlen; simpl.
  { apply length_zero_iff_nil in Hlen. split_and!; [done..|]. split; [done|].
    intros (_ & (p & Hp & Hr) & _). exfalso. by apply (proj1 (filter_nil_iff _ _) Hlen p Hp). }
  split; [done|].
  destruct (SelectOwnershipSuccessor_cases (filter (remains u) ps)) as [[He ->]|(p & Hp & Hc & -> & Hmin)].
  - split; [done|]. rewrite bool_decide_eq_true_2 by done. split; [intros _|done].
    destruct (filter (remains u) ps) as [|p k] eqn:E; [done|]. split; [done|]. split.
    + exists p. assert (Hin : p ∈ p :: k) by left. rewrite <-E in Hin.
      by apply list_elem_of_filter in Hin as [? ?].
    + intros q Hq Hr. apply not_true_is_false.
      apply (proj1 (filter_nil_iff _ _) He q). rewrite <-E. by apply list_elem_of_filter.
  - apply list_elem_of_filter in Hp as [Hr Hp].
    pose proof (proj1 (Forall_forall _ _) Hids _ Hp) as Hne. simpl in Hne. split.
    + intros _. exists p. split_and!; [done..|]. intros q Hq Hrq Hcq. apply Hmin; [|done].
      by apply list_elem_of_filter.
    + rewrite bool_decide_eq_false_2 by done. split; [done|].
      intros (_ & _ & Hno). specialize (Hno p Hp Hr). congruence.
Qed.

Definition people : list OwnershipParticipant :=
  [{| op_UserID := "ann"; op_Role := ConversationOwner; op_JoinedAt := 10; op_HasAccess := true; op_Guest := false |};
   {| op_UserID := "bob"; op_Role := ConversationMember; op_JoinedAt := 20; op_HasAccess := true; op_Guest := false |};
   {| op_UserID := "cyd"; op_Role := ConversationAdmin; op_JoinedAt := 30; op_HasAccess := true; op_Guest := false |};
   {| op_UserID := "dan"; op_Role := ConversationAdmin; op_JoinedAt := 5; op_HasAccess := true; op_Guest := true |}].

Lemma PreviewOwnershipLeave_spec_witness :
  NoDup (op_UserID <$> people) ∧ Forall (λ p, op_UserID p ≠ "") people ∧
  SuccessorUserID (PreviewOwnershipLeave people "ann") = "cyd" ∧
  Blocked (PreviewOwnershipLeave people "ann") = false.
Proof.
  assert (Hnd : NoDup (op_UserID <$> people)) by (apply (bool_decide_unpack _); vm_compute; exact I).
  assert (Hid : Forall (λ p, op_UserID p ≠ "") people) by (repeat constructor; done).
  destruct (PreviewOwnershipLeave_spec people "ann" Hnd Hid) as (_ & _ & Hb).
  split; [exact Hnd|]. split; [exact Hid|]. split; [vm_compute; reflexivity|].
  apply not_true_is_false. intros Ht. apply (proj1 Hb) in Ht as (_ & _ & Hall).
  assert (Hc : candidate (nth 1 people (nth 0 people
    {| op_UserID := ""; op_Role := ""; op_JoinedAt := 0; op_HasAccess := false; op_Guest := false |})) = false).
  { apply Hall; [right; left|]. split; [reflexivity|vm_compute; discriminate]. }
  vm_compute in Hc. discriminate.
Defined.

(** ** Decisions on a full snapshot (conversation_policy.go) *)

Abbreviation ConversationKind := string (only parsing).
Definition ConversationKindGroup : ConversationKind := "group".
Definition ConversationKindPrivateChannel : ConversationKind := "private_channel".

Record ConversationPolicyParticipant : Type := {
  cp_ConversationID : string;
  cp_Membership : WorkspaceMember;
  cp_Role : ConversationRole;
  cp_HasAccess : bool
}.

Record ConversationPolicyContext : Type := {
  cc_Workspace : Workspace;
  cc_ID : string;
  cc_Kind : ConversationKind;
  cc_Active : bool;
  cc_Participants : list ConversationPolicyParticipant
}.

(** [p.Membership.UserID]. *)
Definition cp_UserID (p : ConversationPolicyParticipant) : string :=
  WorkspaceMember_UserID (cp_Membership p).

Definition valid (c : ConversationPolicyContext) : bool :=
  (cc_ID c != "") && (Workspace_ID (cc_Workspace c) != "") && cc_Active c &&
  (Workspace_Status (cc_Workspace c) == WorkspaceStatusActive) &&
  ((cc_Kind c == ConversationKindGroup) || (cc_Kind c == ConversationKindPrivateChannel)).

Definition eligibleConversationWorkspaceMember (wm : WorkspaceMember) : bool :=
  if WorkspaceMember_Status wm != MemberStatusActive then false
  else WorkspaceMember_Role wm ∈?
    [WorkspaceRoleOwner; WorkspaceRoleAdmin; WorkspaceRoleModerator; WorkspaceRoleMember;
     WorkspaceRoleGuest].

Definition accessible (c : ConversationPolicyContext) (p : ConversationPolicyParticipant) : bool :=
  cp_HasAccess p && ConversationRole_Valid (cp_Role p) && (cp_ConversationID p == cc_ID c) &&
  (cp_UserID p != "") && (WorkspaceMember_WorkspaceID (cp_Membership p) == Workspace_ID (cc_Workspace c)) &&
  eligibleConversationWorkspaceMember (cp_Membership p).

Definition zero_participant : ConversationPolicyParticipant :=
  {| cp_ConversationID := "";
     cp_Membership := {| WorkspaceMember_WorkspaceID := ""; WorkspaceMember_UserID := "";
       WorkspaceMember_Role := ""; WorkspaceMember_Status := ""; WorkspaceMember_JoinedAt := 0 |};
     cp_Role := ""; cp_HasAccess := false |}.

(** The loop of [participant]: [None] is its early return. *)
Fixpoint participant_walk (c : ConversationPolicyContext) (userID : string)
    (ps : list ConversationPolicyParticipant) (seen : gset string)
    (found : ConversationPolicyParticipant) : option ConversationPolicyParticipant :=
  match ps with
  | [] => Some found
  | p :: rest =>
      if bool_decide (cp_UserID p ∈ seen) then None
      else if cp_HasAccess p && negb (accessible c p) then None
      else participant_walk c userID rest ({[cp_UserID p]} ∪ seen)
             (if cp_UserID p == userID then p else found)
  end.

Definition participant (c : ConversationPolicyContext) (userID : string)
    : ConversationPolicyParticipant * bool :=
  if negb (valid c) || (userID == "") then (zero_participant, false)
  else match participant_walk c userID (cc_Participants c) ∅ zero_participant with
       | None => (zero_participant, false)
       | Some found => (found, accessible c found)
       end.

Definition remaining (c : ConversationPolicyContext) (userID : string) : Z * Z :=
  foldl (λ '(members, owners) p,
    if (cp_UserID p == userID) || negb (accessible c p) then (members, owners)
    else (members + 1, if cp_Role p == ConversationOwner then owners + 1 else owners))
    (0, 0) (cc_Participants c).

Definition CanManageConversationRoles (c : ConversationPolicyContext) (actorID targetID : string) : bool :=
  let '(actor, actorOK) := participant c actorID in
  let '(_, targetOK) := participant c targetID in
  actorOK && targetOK && (cp_Role actor == ConversationOwner).

Definition CanAssignConversationRole (c : ConversationPolicyContext) (actorID targetID : string)
    (role : ConversationRole) : bool :=
  let '(target, _) := participant c targetID in
  if negb (CanManageConversationRoles c actorID targetID) || negb (ConversationRole_Valid role) ||
     (cp_Role target == role) then false
  else if cp_Role target == ConversationOwner then
    let '(_, owners) := remaining c targetID in 0 <? owners
  else true.

Definition CanRemoveConversationMember (c : ConversationPolicyContext) (actorID targetID : string) : bool :=
  let '(actor, actorOK) := participant c actorID in
  let '(target, targetOK) := participant c targetID in
  if negb actorOK || negb targetOK || (actorID == targetID) || (cp_Role target == ConversationOwner)
  then false
  else (cp_Role actor == ConversationOwner) ||
       ((cp_Role actor == ConversationAdmin) && (cp_Role target == ConversationMember)).

Definition CanAddConversationMember (c : ConversationPolicyContext) (actorID : string) : bool :=
  let '(_, ok) := participant c actorID in ok.

Definition CanTransferConversationOwnership (c : ConversationPolicyContext) (actorID targetID : string) : bool :=
  let '(actor, actorOK) := participant c actorID in
  let '(_, targetOK) := participant c targetID in
  actorOK && targetOK && (cp_Role actor == ConversationOwner) && (actorID != targetID).

Definition CanLeaveConversation (c : ConversationPolicyContext) (actorID : string) : bool :=
  let '(_, ok) := participant c actorID in
  if negb ok then false
  else let '(members, owners) := remaining c actorID in
       (members =? 0) || (0 <? owners).

Definition CanEditConversationMetadata (c : ConversationPolicyContext) (actorID : string)
    (operationAllowed : bool) : bool :=
  let '(_, ok) := participant c actorID in ok && operationAllowed.

Arguments accessible : simpl never.

(** *** Lemmas on the snapshot *)

Lemma participant_walk_Some c u ps seen found p :
  participant_walk c u ps seen found = Some p →
  NoDup (cp_UserID <$> ps) ∧ (p ∈ ps ∧ cp_UserID p = u ∨ p = found).
Proof.
  revert seen found. 
  assert (Hgen : ∀ seen found, participant_walk c u ps seen found = Some p →
    NoDup (cp_UserID <$> ps) ∧ (∀ q, q ∈ ps → cp_UserID q ∉ seen) ∧
    (p ∈ ps ∧ cp_UserID p = u ∨ p = found)).
  { induction ps as [|q ps IH]; intros seen found; simpl.
    { intros [= ->]. split; [constructor|]. split; [by intros ? ?%elem_of_nil|]. by right. }
    case_bool_decide as Hseen; [done|]. destruct (cp_HasAccess q && negb (accessible c q)); [done|].
    intros (Hnd & Hns & Hp)%IH. split.
    { apply NoDup_cons. split; [|done].
      intros (q' & Heq & Hq')%list_elem_of_fmap. apply (Hns q' Hq'). set_solver. }
    split.
    { intros q' [->|Hq']%elem_of_cons; [done|]. specialize (Hns q' Hq'). set_solver. }
    destruct Hp as [[Hp Hu]|Hp]; [left; split; [by right|done]|].
    case_bool_decide; subst; [left; split; [left|done]|by right]. }
  intros seen found H. apply Hgen in H as (? & _ & ?). done.
Qed.

Lemma participant_true c u p :
  participant c u = (p, true) →
  p ∈ cc_Participants c ∧ cp_UserID p = u ∧ accessible c p = true ∧
  NoDup (cp_UserID <$> cc_Participants c).
Proof.
  unfold participant. destruct (negb (valid c) || (u == "")) eqn:E; [done|].
  destruct (participant_walk _ _ _ _ _) as [q|] eqn:Ew; [|done].
  intros [= -> Ha]. apply participant_walk_Some in Ew as [Hnd [[Hp Hu]|Hp]]; [done|].
  subst. unfold accessible in Ha. done.
Qed.

(** The participants [remaining] counts, and the owners among them. *)
Definition others (c : ConversationPolicyContext) (u : string) : list ConversationPolicyParticipant :=
  filter (λ p, cp_UserID p ≠ u ∧ accessible c p = true) (cc_Participants c).

Lemma remaining_spec c u :
  remaining c u = (Z.of_nat (length (others c u)),
    Z.of_nat (length (filter (λ p, cp_Role p = ConversationOwner) (others c u)))).
Proof.
  unfold remaining, others.
  assert (Hgen : ∀ ps m o, foldl (λ '(members, owners) p,
    if (cp_UserID p == u) || negb (accessible c p) then (members, owners)
    else (members + 1, if cp_Role p == ConversationOwner then owners + 1 else owners)) (m, o) ps =
    (m + Z.of_nat (length (filter (λ p, cp_UserID p ≠ u ∧ accessible c p = true) ps)),
     o + Z.of_nat (length (filter (λ p, cp_Role p = ConversationOwner)
       (filter (λ p, cp_UserID p ≠ u ∧ accessible c p = true) ps))))).
  { induction ps as [|p ps IH]; intros m o; [simpl; f_equal; lia|]. simpl foldl.
    destruct (decide (cp_UserID p ≠ u ∧ accessible c p = true)) as [[Hu Ha]|Hn].
    - rewrite bool_decide_eq_false_2, Ha by done. simpl. rewrite IH, !(filter_cons_True (λ p, cp_UserID p ≠ u ∧ _)) by done.
      destruct (decide (cp_Role p = ConversationOwner)) as [Hr|Hr].
      + rewrite bool_decide_eq_true_2, filter_cons_True by done. simpl. f_equal; lia.
      + rewrite bool_decide_eq_false_2, filter_cons_False by done. simpl. f_equal; lia.
    - assert ((cp_UserID p == u) || negb (accessible c p) = true) as ->.
      { case_bool_decide; [done|]. destruct (accessible c p) eqn:E; [|done]. destruct Hn. done. }
      rewrite IH, !(filter_cons_False (λ p, cp_UserID p ≠ u ∧ _)) by done. done. }
  rewrite Hgen. f_equal.
Qed.

(** *** The effect of the operations the decisions guard *)

(** Some participant with access owns the conversation. *)
Definition has_owner (c : ConversationPolicyContext) : Prop :=
  ∃ p, p ∈ cc_Participants c ∧ accessible c p = true ∧ cp_Role p = ConversationOwner.

Definition with_participants (c : ConversationPolicyContext) ps : ConversationPolicyContext :=
  {| cc_Workspace := cc_Workspace c; cc_ID := cc_ID c; cc_Kind := cc_Kind c;
     cc_Active := cc_Active c; cc_Participants := ps |}.

Definition assign (c : ConversationPolicyContext) (u : string) (r : ConversationRole) :=
  with_participants c ((λ p, if cp_UserID p == u
    then {| cp_ConversationID := cp_ConversationID p; cp_Membership := cp_Membership p;
            cp_Role := r; cp_HasAccess := cp_HasAccess p |} else p) <$> cc_Participants c).

Definition depart (c : ConversationPolicyContext) (u : string) :=
  with_participants c (filter (λ p, cp_UserID p ≠ u) (cc_Participants c)).

Lemma has_owner_other c c' u p :
  p ∈ cc_Participants c → accessible c p = true → cp_Role p = ConversationOwner → cp_UserID p ≠ u →
  (c' = depart c u ∨ ∃ r, c' = assign c u r) → has_owner c'.
Proof.
  intros Hp Ha Hr Hu Hc. exists p. split_and!; [|by destruct Hc as [->|[r ->] ]|done].
  destruct Hc as [->|[r ->] ]; simpl; [by apply list_elem_of_filter|].
  apply list_elem_of_fmap. exists p. by rewrite bool_decide_eq_false_2.
Qed.

Lemma owners_positive c u :
  0 < snd (remaining c u) →
  ∃ p, p ∈ cc_Participants c ∧ accessible c p = true ∧ cp_Role p = ConversationOwner ∧ cp_UserID p ≠ u.
Proof.
  rewrite remaining_spec. simpl.
  destruct (filter (λ p, cp_Role p = ConversationOwner) (others c u)) as [|p k] eqn:E; [done|].
  intros _. assert (Hin : p ∈ p :: k) by left. rewrite <-E in Hin. unfold others in Hin.
  rewrite !list_elem_of_filter in Hin. exists p. tauto.
Qed.

Lemma assign_self c u r p :
  p ∈ cc_Participants c → accessible c p = true → cp_UserID p = u → r = ConversationOwner →
  has_owner (assign c u r).
Proof.
  intros Hp Ha Hu ->.
  exists {| cp_ConversationID := cp_ConversationID p; cp_Membership := cp_Membership p;
            cp_Role := ConversationOwner; cp_HasAccess := cp_HasAccess p |}.
  split_and!; [|..|done].
  - apply list_elem_of_fmap. exists p. by rewrite bool_decide_eq_true_2.
  - unfold accessible in *. revert Ha. rewrite !andb_true_iff. simpl. unfold cp_UserID. simpl. intuition.
Qed.

(** C16. No permitted operation orphans a conversation: after a permitted role
    assignment, removal or ownership transfer (whatever role the former owner
    keeps) somebody with access owns it, and after a permitted departure the
    same holds unless nobody with access is left. *)
Theorem operations_preserve_owner c actor target role :
  (CanAssignConversationRole c actor target role = true → has_owner (assign c target role)) ∧
  (CanTransferConversationOwnership c actor target = true →
     has_owner (assign (assign c actor role) target ConversationOwner)) ∧
  (CanRemoveConversationMember c actor target = true → has_owner c → has_owner (depart c target)) ∧
  (CanLeaveConversation c actor = true →
     has_owner (depart c actor) ∨ ∀ p, p ∈ cc_Participants (depart c actor) → accessible c p = false).
Proof.
  split_and!.
  - unfold CanAssignConversationRole, CanManageConversationRoles.
    destruct (participant c target) as [t [] ] eqn:Et; [|by destruct (participant c actor) as [? []]].
    destruct (participant c actor) as [a [] ] eqn:Ea; [|done].
    apply participant_true in Et as (Ht & Htu & Hta & Hnd).
    apply participant_true in Ea as (Hin & Hau & Haa & _). simpl.
    case_bool_decide as Hao; [|done]. destruct (ConversationRole_Valid role) eqn:Hrv; [|done]. simpl.
    case_bool_decide as Hsame; [done|]. intros Hrest.
    destruct (decide (cp_UserID a = target)) as [Hself|Hother]; [|by eapply (has_owner_other c _ target a); eauto].
    case_bool_decide as Hto.
    + destruct (remaining c target) as [m o] eqn:Er. apply Z.ltb_lt in Hrest.
      destruct (owners_positive c target) as (p & Hp & Hpa & Hpr & Hpu); [by rewrite Er|].
      eapply (has_owner_other c _ target p); eauto.
    + destruct Hto. rewrite <-Hao. f_equal.
      eapply (NoDup_fmap_unique cp_UserID (cc_Participants c)); [done..|congruence].
  - unfold CanTransferConversationOwnership.
    destruct (participant c actor) as [a aok], (participant c target) as [t tok] eqn:Et.
    intros Hb. go_simpl. apply participant_true in Et as (Ht & Htu & Hta & _).
    eapply (assign_self _ _ _ t); [|done..]. apply list_elem_of_fmap. exists t.
    by rewrite bool_decide_eq_false_2 by congruence.
  - unfold CanRemoveConversationMember. intros Hb (p & Hp & Hpa & Hpr).
    destruct (participant c actor) as [a aok], (participant c target) as [t tok] eqn:Et.
    destruct tok; [|by rewrite orb_true_r in Hb].
    apply participant_true in Et as (Ht & Htu & Hta & Hnd).
    destruct (negb aok), (actor == target); simpl in Hb; [done..|].
    case_bool_decide as Hto; [done|].
    eapply (has_owner_other c _ target p); [done..| |by left].
    intros Hpu. apply Hto. rewrite <-Hpr. f_equal.
    eapply (NoDup_fmap_unique cp_UserID (cc_Participants c)); [done..|congruence].
  - unfold CanLeaveConversation. destruct (participant c actor) as [a []]; [|done]. simpl.
    destruct (remaining c actor) as [m o] eqn:Er. intros [Hm|Ho]%orb_true_iff.
    + right. intros p [Hpu Hp]%list_elem_of_filter. apply not_true_is_false. intros Hpa.
      rewrite remaining_spec in Er. apply Z.eqb_eq in Hm. injection Er as Hl _.
      assert (Hnil : others c actor = []) by (apply length_zero_iff_nil; lia).
      by apply (proj1 (filter_nil_iff _ _) Hnil p Hp).
    + left. apply Z.ltb_lt in Ho.
      destruct (owners_positive c actor) as (p & Hp & Hpa & Hpr & Hpu); [by rewrite Er|].
      eapply (has_owner_other c _ actor p); eauto.
Qed.

(** What the interface shows (ownership.go) of a participant of the snapshot. *)
Definition view (c : ConversationPolicyContext) (p : ConversationPolicyParticipant) : OwnershipParticipant :=
  {| op_UserID := cp_UserID p; op_Role := cp_Role p;
     op_JoinedAt := WorkspaceMember_JoinedAt (cp_Membership p);
     op_HasAccess := accessible c p;
     op_Guest := WorkspaceMember_Role (cp_Membership p) == WorkspaceRoleGuest |}.

Lemma accessible_role c p : accessible c p = true → ConversationRole_Valid (cp_Role p) = true.
Proof. unfold accessible. rewrite !andb_true_iff. tauto. Qed.

Lemma existsb_view_owner c u :
  CanDemoteConversationOwner (view c <$> cc_Participants c) u = (0 <? snd (remaining c u)).
Proof.
  apply eq_true_iff_eq. rewrite CanDemote_iff, Z.ltb_lt. split.
  - intros (p & (q & -> & Hq)%list_elem_of_fmap & [Ha Hu] & Hr). rewrite remaining_spec. simpl in *.
    assert (Hin : q ∈ filter (λ p, cp_Role p = ConversationOwner) (others c u)).
    { unfold others. rewrite !list_elem_of_filter. done. }
    destruct (filter _ (others c u)); [by apply elem_of_nil in Hin|simpl; lia].
  - intros (p & Hp & Ha & Hr & Hu)%owners_positive. exists (view c p).
    split; [by apply list_elem_of_fmap_2|done].
Qed.

(** The two statements of the policy agree.  For two participants with
    access, the actions ownership.go offers are exactly the decisions
    conversation_policy.go enforces; and a participant the preview calls the last
    owner may leave exactly when nobody with access stays behind. *)
Theorem offered_actions_enforced c a t pa pt :
  participant c a = (pa, true) → participant c t = (pt, true) →
  let acts := PrivateParticipantActions (view c pa) (view c pt) in
  let caps := PrivateConversationCapabilities (view c pa) (CanAddConversationMember c a) in
  Remove acts = CanRemoveConversationMember c a t ∧
  Transfer acts = CanTransferConversationOwnership c a t ∧
  AssignRole acts = CanManageConversationRoles c a t ∧
  AddMembers caps = CanAddConversationMember c a ∧
  (LastOwner (PreviewOwnershipLeave (view c <$> cc_Participants c) a) = true →
   CanLeaveConversation c a = (length (others c a) == 0%nat)).
Proof.
  intros Ha Ht. cbv zeta.
  pose proof (participant_true _ _ _ Ha) as (Hain & Hau & Haa & Hnd).
  pose proof (participant_true _ _ _ Ht) as (Htin & Htu & Hta & _).
  unfold PrivateParticipantActions, PrivateConversationCapabilities, CanRemoveConversationMember,
    CanTransferConversationOwnership, CanManageConversationRoles, CanLeaveConversation,
    CanAddConversationMember. rewrite Ha, Ht. simpl.
  rewrite Haa, Hta, (accessible_role _ _ Haa), (accessible_role _ _ Hta), Hau, Htu. simpl.
  split_and!; [|by rewrite andb_comm| done|done|].
  - repeat case_bool_decide; done.
  - unfold PreviewOwnershipLeave. rewrite preview_walk_spec by (by rewrite <-list_fmap_compose).
    cbn [app orb]. fold (CanDemoteConversationOwner (view c <$> cc_Participants c) a).
    rewrite existsb_view_owner, remaining_spec. simpl. intros Hl.
    assert (length (filter (λ p, cp_Role p = ConversationOwner) (others c a)) = 0%nat) as ->.
    { destruct (negb _ || _) eqn:E in Hl; simpl in Hl; apply andb_true_iff in Hl as [_ Hl];
        apply negb_true_iff, Z.ltb_ge in Hl; lia. }
    rewrite orb_false_r. by destruct (length (others c a)).
Qed.

Definition member_example (u : string) (r : WorkspaceRole) : WorkspaceMember :=
  {| WorkspaceMember_WorkspaceID := "w"; WorkspaceMember_UserID := u; WorkspaceMember_Role := r;
     WorkspaceMember_Status := MemberStatusActive; WorkspaceMember_JoinedAt := 1 |}.

Definition group_example : ConversationPolicyContext :=
  {| cc_Workspace := {| Workspace_ID := "w"; Workspace_Slug := ""; Workspace_Name := "";
       Workspace_Status := WorkspaceStatusActive; Workspace_EditWindowSeconds := None;
       Workspace_MessageRateLimitPerMinute := 0; Workspace_MaxUploadBytes := 0;
       Workspace_CreatedAt := 0; Workspace_UpdatedAt := 0 |};
     cc_ID := "g"; cc_Kind := ConversationKindGroup; cc_Active := true;
     cc_Participants :=
       [{| cp_ConversationID := "g"; cp_Membership := member_example "ann" WorkspaceRoleMember;
           cp_Role := ConversationOwner; cp_HasAccess := true |};
        {| cp_ConversationID := "g"; cp_Membership := member_example "bob" WorkspaceRoleMember;
           cp_Role := ConversationMember; cp_HasAccess := true |}] |}.

Lemma offered_actions_enforced_witness :
  CanRemoveConversationMember group_example "ann" "bob" = true ∧
  CanLeaveConversation group_example "ann" = false.
Proof.
  destruct (offered_actions_enforced group_example "ann" "bob"
    (fst (participant group_example "ann")) (fst (participant group_example "bob"))
    ltac:(vm_compute; reflexivity) ltac:(vm_compute; reflexivity)) as (Hr & _ & _ & _ & Hl).
  split; [rewrite <-Hr; vm_compute; reflexivity|].
  rewrite Hl; vm_compute; reflexivity.
Defined.

(** ** The bounded retry (protocol.go) *)

(** The first error of the chain with an [SQLState] method. *)
Definition SQLState (err : option error) : string :=
  match errors_As_nil err "sqlStateError" with Some (state, _) => state | None => "" end.

Definition transient (err : option error) : bool :=
  negb ((SQLState err != "40001") && (SQLState err != "40P01")).

Section Retry.
Context {T : Type} (operation : nat → T * option error) (ctx_Err : nat → option error).

(** Attempts [attempt], [attempt + 1], ... while [budget] remain, after a last
    answer [prev]; the number of calls made is returned too. *)
Fixpoint Retry_from (budget attempt : nat) (prev : T * option error) : T * option error * nat :=
  match budget with
  | O => (prev, attempt)
  | S budget =>
      let '(value, err) := operation attempt in
      if negb (transient err) then (value, err, S attempt)
      else match ctx_Err attempt with
           | Some e => (value, Some e, S attempt)
           | None => Retry_from budget (S attempt) (value, err)
           end
  end.

Definition Retry (zero : T) : T * option error * nat := Retry_from 3 0 (zero, None).

Lemma Retry_from_spec budget attempt prev :
  let '(v, e, n) := Retry_from budget attempt prev in
  (attempt <= n <= attempt + budget)%nat ∧
  (∀ i, (attempt <= i)%nat → (S i < n)%nat →
     transient (snd (operation i)) = true ∧ ctx_Err i = None) ∧
  ((0 < budget)%nat → (attempt < n)%nat ∧ v = fst (operation (n - 1)) ∧
     (e = snd (operation (n - 1)) ∧
        (transient e = false ∨ n = (attempt + budget)%nat) ∨
      e = ctx_Err (n - 1)%nat ∧ e ≠ None ∧ transient (snd (operation (n - 1))) = true)).
Proof.
  revert attempt prev. induction budget as [|budget IH]; intros attempt [v0 e0]; simpl.
  { split_and!; [lia|lia|intros; lia|lia]. }
  destruct (operation attempt) as [v e] eqn:Eop.
  assert (Hop : ∀ k, (k = attempt) → operation k = (v, e)) by (by intros ? ->).
  destruct (transient e) eqn:Et; cbn [negb].
  2:{ split_and!; [lia|lia|intros; lia|]. intros _.
      rewrite (Hop (S attempt - 1)%nat) by lia. split; [lia|]. split; [done|]. left. auto. }
  destruct (ctx_Err attempt) as [ce|] eqn:Ec.
  { split_and!; [lia|lia|intros; lia|]. intros _.
    rewrite (Hop (S attempt - 1)%nat) by lia. split; [lia|]. split; [done|]. right.
    replace (S attempt - 1)%nat with attempt by lia. by rewrite Ec. }
  specialize (IH (S attempt) (v, e)).
  destruct budget as [|budget].
  { cbn [Retry_from]. split_and!; [lia|lia|intros; lia|]. intros _.
    rewrite (Hop (S attempt - 1)%nat) by lia. split; [lia|]. split; [done|]. left. split; [done|]. right. lia. }
  destruct (Retry_from (S budget) (S attempt) (v, e)) as [[v' e'] n].
  destruct IH as (Hn & Hprev & Hlast). destruct (Hlast ltac:(lia)) as (Hn' & Hv & He).
  split_and!; [lia|lia| |].
  - intros i Hi Hin. destruct (decide (i = attempt)) as [->|Hne]; [by rewrite Eop|].
    apply Hprev; lia.
  - intros _. split; [lia|]. split; [done|]. replace (attempt + S (S budget))%nat with (S attempt + S budget)%nat by lia. done.
Qed.
End Retry.

(** The retry is bounded: the operation runs once, twice or three times; it
    is run again only after a serialization failure or a deadlock with the
    context alive; and the caller gets the last value, with its error or with the
    context's. *)
Theorem Retry_bounded {T} (operation : nat → T * option error) (ctx_Err : nat → option error) (zero : T) :
  ∃ v e n, Retry operation ctx_Err zero = (v, e, n) ∧ (1 <= n <= 3)%nat ∧
    v = fst (operation (n - 1)%nat) ∧
    (∀ i, (S i < n)%nat → transient (snd (operation i)) = true ∧ ctx_Err i = None) ∧
    (e = snd (operation (n - 1)%nat) ∧ (transient e = false ∨ n = 3%nat) ∨
     e = ctx_Err (n - 1)%nat ∧ e ≠ None).
Proof.
  unfold Retry. pose proof (Retry_from_spec operation ctx_Err 3 0 (zero, None)) as H.
  destruct (Retry_from operation ctx_Err 3 0 (zero, None)) as [[v e] n].
  destruct H as (Hn & Hprev & Hlast). destruct (Hlast ltac:(lia)) as (Hn' & Hv & He).
  exists v, e, n. split_and!; [done|lia|lia|done| |naive_solver].
  intros i Hi. apply Hprev; lia.
Qed.

(** ** The succession transaction (succession.go) *)

Record Scope : Type := { sc_WorkspaceID : string; sc_Kind : string; sc_ConversationID : string }.

Definition ownershipConflict : error := ErrStruct "sqlStateError" "P0953" 0 (ErrNew "ownershipConflict").

Record succession : Type := { su_scope : Scope; su_candidate : string }.

(** One row of the successors query. *)
Record succession_row : Type :=
  { sr_scope : Scope; sr_members : Z; sr_owners : Z; sr_candidate : string }.

Section Succession.
(** The database session is the caller's: [Query] answers the successors query
    with the rows, each scanned or failing to scan, and the error the iteration
    ended with; [Exec] runs one assignment on a database state. *)
Context {DB : Type}.
Context (Query : Scope → string → bool → result (list (result succession_row) * option error)).
Context (Exec : DB → succession → string → string → DB * option error).

Fixpoint selectSuccessions_rows (rows : list (result succession_row)) (changes : list succession)
    : result (list succession) :=
  match rows with
  | [] => Ok changes
  | Fail err :: _ => Fail err
  | Ok row :: rows =>
      if (0 <? sr_owners row) || (sr_members row =? 0) then selectSuccessions_rows rows changes
      else if sr_candidate row == "" then Fail ownershipConflict
      else selectSuccessions_rows rows
             (changes ++ [{| su_scope := sr_scope row; su_candidate := sr_candidate row |}])
  end.

(** The rows' own error is returned beside the changes, and is what the caller
    looks at. *)
Definition selectSuccessions (scope : Scope) (departing : string) (invalidation : bool)
    : result (list succession) :=
  '(rows, err) ← Query scope departing invalidation;
  changes ← selectSuccessions_rows rows [];
  match err with Some e => Fail e | None => Ok changes end.

Fixpoint succeed_exec (db : DB) (changes : list succession) (actor reason : string) : DB * option error :=
  match changes with
  | [] => (db, None)
  | change :: changes =>
      let '(db, err) := Exec db change actor reason in
      match err with
      | Some e => (db, Some e)
      | None => succeed_exec db changes actor reason
      end
  end.

Definition succeed (db : DB) (scope : Scope) (departing actor reason : string) (invalidation : bool)
    : DB * option error :=
  match selectSuccessions scope departing invalidation with
  | Fail err => (db, Some err)
  | Ok changes => succeed_exec db changes actor reason
  end.

Definition Succeed (db : DB) (scope : Scope) (departing actor : string) : DB * option error :=
  succeed db scope departing actor "succession" false.

Definition Invalidate (db : DB) (userID workspaceID : string) : DB * option error :=
  succeed db {| sc_WorkspaceID := workspaceID; sc_Kind := ""; sc_ConversationID := "" |}
    userID "" "invalidation" true.
End Succession.

(** A conversation the departure orphans. *)
Definition orphaned (row : succession_row) : Prop := sr_owners row <= 0 ∧ sr_members row ≠ 0.
#[export] Instance orphaned_dec row : Decision (orphaned row).
Proof. unfold orphaned. apply _. Defined.

Definition row_change (row : succession_row) : succession :=
  {| su_scope := sr_scope row; su_candidate := sr_candidate row |}.

Lemma selectSuccessions_rows_Ok rows acc changes :
  selectSuccessions_rows rows acc = Ok changes ↔
  ∃ rs, rows = Ok <$> rs ∧ changes = acc ++ (row_change <$> filter orphaned rs) ∧
        ∀ r, r ∈ rs → orphaned r → sr_candidate r ≠ "".
Proof.
  revert acc. induction rows as [|[row|e] rows IH]; intros acc; simpl.
  - split.
    + intros [= <-]. exists []. split_and!; [done|by rewrite app_nil_r|by intros ? ?%elem_of_nil].
    + intros ([|? ?] & ? & -> & _); [|done]. by rewrite app_nil_r.
  - assert (Hg : (0 <? sr_owners row) || (sr_members row =? 0) = negb (bool_decide (orphaned row))).
    { unfold orphaned. case_bool_decide; destruct (Z.ltb_spec 0 (sr_owners row)), (Z.eqb_spec (sr_members row) 0); simpl; try lia. }
    rewrite Hg. case_bool_decide as Ho; simpl.
    + case_bool_decide as Hc.
      * split; [done|]. intros ([|r rs] & Heq & _ & Hall); simplify_eq/=. by destruct (Hall r (list_elem_of_here _ _) Ho).
      * rewrite IH. split.
        -- intros (rs & -> & -> & Hall). exists (row :: rs). rewrite filter_cons_True by done.
           split_and!; [done|by rewrite <-app_assoc|]. intros r [->|Hr]%elem_of_cons; auto.
        -- intros ([|r rs] & Heq & -> & Hall); simplify_eq/=. exists rs. rewrite filter_cons_True by done.
           split_and!; [done|by rewrite <-app_assoc|]. intros r' Hr'. apply Hall. by right.
    + rewrite IH. split.
      * intros (rs & -> & -> & Hall). exists (row :: rs). rewrite filter_cons_False by done.
        split_and!; [done|done|]. intros r [->|Hr]%elem_of_cons; [done|auto].
      * intros ([|r rs] & Heq & -> & Hall); simplify_eq/=. exists rs. rewrite filter_cons_False by done.
        split_and!; [done|done|]. intros r' Hr'. apply Hall. by right.
  - split; [done|]. by intros ([|? ?] & ? & _).
Qed.

(** Succession is all or nothing before it touches the database: when a row
    cannot be read, the iteration fails or some orphaned conversation has no
    eligible successor, the state is exactly what it was; otherwise the
    assignments run are those of the orphaned conversations, in the order of the
    query, until the first that fails. *)
Theorem succeed_all_or_nothing {DB} Query (Exec : DB → succession → string → string → DB * option error)
    db scope departing actor reason inv :
  (∃ rs, Query scope departing inv = Ok (Ok <$> rs, None) ∧
         (∀ r, r ∈ rs → orphaned r → sr_candidate r ≠ "") ∧
         succeed Query Exec db scope departing actor reason inv =
         succeed_exec Exec db (row_change <$> filter orphaned rs) actor reason) ∨
  (∃ e, succeed Query Exec db scope departing actor reason inv = (db, Some e)).
Proof.
  unfold succeed. destruct (selectSuccessions Query scope departing inv) as [changes|e] eqn:E; [left|eauto].
  unfold selectSuccessions in E. apply bind_Ok in E as ([rows err] & Hq & E).
  apply bind_Ok in E as (ch & Hch & E). destruct err; [done|]. injection E as <-.
  apply selectSuccessions_rows_Ok in Hch as (rs & -> & -> & Hall). exists rs. done.
Qed.
