(* ===== verification/Meeting.v ===== *)
(** * Scheduled meetings

    [services/chat-service/internal/domain/meeting.go] (the meeting, its
    normalisation, its life cycle) and meeting_policy.go (who may do what).
    [uuid.Parse] and [time.LoadLocation] are parameters: a parser of
    identifiers to their canonical form and the set of zone names that load. *)

From stdpp Require Import prelude gmap strings sorting.
From Stdlib Require Import ZArith Lia.
From S2P Require Import Prelude GoStrings Workspace.
From S2P Require Ownership.
Local Open Scope Z_scope.

(** ** Vocabularies *)

Abbreviation MeetingStatus := string (only parsing).
Definition MeetingStatusScheduled : MeetingStatus := "scheduled".
Definition MeetingStatusInProgress : MeetingStatus := "in_progress".
Definition MeetingStatusEnded : MeetingStatus := "ended".
Definition MeetingStatusCancelled : MeetingStatus := "cancelled".

Definition meetingTransitions : list (MeetingStatus * list MeetingStatus) :=
  [(MeetingStatusScheduled, [MeetingStatusInProgress; MeetingStatusCancelled]);
   (MeetingStatusInProgress, [MeetingStatusEnded])].

Definition MeetingStatus_Valid (s : MeetingStatus) : bool :=
  s ∈? [MeetingStatusScheduled; MeetingStatusInProgress; MeetingStatusEnded; MeetingStatusCancelled].

Definition Terminal (s : MeetingStatus) : bool :=
  (s == MeetingStatusEnded) || (s == MeetingStatusCancelled).

Definition MeetingStatus_CanTransitionTo (s next : MeetingStatus) : bool :=
  next ∈? default [] (map_get meetingTransitions s).

Abbreviation MeetingJoinPolicy := string (only parsing).
Definition MeetingJoinInvitedOnly : MeetingJoinPolicy := "invited_only".
Definition MeetingJoinConversationMembers : MeetingJoinPolicy := "conversation_members".
Definition MeetingJoinWorkspaceLink : MeetingJoinPolicy := "workspace_members_with_link".

Definition MeetingJoinPolicy_Valid (p : MeetingJoinPolicy) : bool :=
  (p == MeetingJoinInvitedOnly) || (p == MeetingJoinConversationMembers) ||
  (p == MeetingJoinWorkspaceLink).

Definition orDefault (p : MeetingJoinPolicy) : MeetingJoinPolicy :=
  if p == "" then MeetingJoinInvitedOnly else p.

Abbreviation MeetingRole := string (only parsing).
Definition MeetingRoleOrganizer : MeetingRole := "organizer".
Definition MeetingRoleCohost : MeetingRole := "cohost".
Definition MeetingRoleAttendee : MeetingRole := "attendee".

Definition MeetingRole_Valid (r : MeetingRole) : bool :=
  (r == MeetingRoleOrganizer) || (r == MeetingRoleCohost) || (r == MeetingRoleAttendee).

Definition assignable (r : MeetingRole) : bool :=
  (r == "") || (r == MeetingRoleCohost) || (r == MeetingRoleAttendee).

Abbreviation MeetingRSVP := string (only parsing).
Definition MeetingRSVPPending : MeetingRSVP := "pending".
Definition MeetingRSVPAccepted : MeetingRSVP := "accepted".
Definition MeetingRSVPDeclined : MeetingRSVP := "declined".
Definition MeetingRSVPTentative : MeetingRSVP := "tentative".

Definition MeetingRSVP_Valid (r : MeetingRSVP) : bool :=
  r ∈? [MeetingRSVPPending; MeetingRSVPAccepted; MeetingRSVPDeclined; MeetingRSVPTentative].

Abbreviation MeetingConversationKind := string (only parsing).
Definition MeetingConversationChannel : MeetingConversationKind := "channel".
Definition MeetingConversationDM : MeetingConversationKind := "dm".

(** ** Records *)

Record MeetingConversation : Type := { mc_Kind : MeetingConversationKind; mc_ID : string }.

Record MeetingDetails : Type := {
  md_Title : string;
  md_Description : string;
  md_StartsAt : Time;
  md_EndsAt : Time;
  md_Timezone : string;
  md_JoinPolicy : MeetingJoinPolicy
}.

Record Meeting : Type := {
  m_ID : string;
  m_WorkspaceID : string;
  m_Conversation : option MeetingConversation;
  m_OrganizerUserID : string;
  m_Details : MeetingDetails;
  m_Status : MeetingStatus;
  m_RoomKey : string;
  m_Version : Z;
  m_CreatedAt : Time;
  m_UpdatedAt : Time
}.

Record MeetingParticipant : Type := {
  mp_MeetingID : string;
  mp_UserID : string;
  mp_Role : MeetingRole;
  mp_RSVP : MeetingRSVP;
  mp_InvitedAt : Time;
  mp_UpdatedAt : Time
}.

Definition MaxMeetingTitleCodePoints : Z := 120.
Definition MaxMeetingDescriptionCodePoints : Z := 5000.
Definition maxMeetingTimezoneBytes : Z := 64.

Definition ErrMeetingTitleRequired : error := ErrWrap "meeting title is required" ErrInvalidInput.
Definition ErrMeetingTitleInvalid : error := ErrWrap "meeting title must be at most 120 characters without control characters" ErrInvalidInput.
Definition ErrMeetingDescriptionInvalid : error := ErrWrap "meeting description must be at most 5000 characters without control characters" ErrInvalidInput.
Definition ErrMeetingInvalidTimeRange : error := ErrWrap "meeting must end after it starts" ErrInvalidInput.
Definition ErrMeetingInvalidTimezone : error := ErrWrap "timezone must be an IANA time zone name" ErrInvalidInput.
Definition ErrMeetingInvalidJoinPolicy : error := ErrWrap "unknown meeting join policy" ErrInvalidInput.
Definition ErrMeetingConversationRequired : error := ErrWrap "conversation_members requires a conversation" ErrInvalidInput.
Definition ErrMeetingParticipantNotEligible : error := ErrWrap "user cannot be invited to this meeting" ErrInvalidInput.
Definition ErrMeetingParticipantExists : error := ErrWrap "user is already a meeting participant" ErrConflict.
Definition ErrMeetingStaleVersion : error := ErrWrap "meeting version is stale" ErrConflict.
Definition ErrMeetingInvalidState : error := ErrWrap "meeting status does not allow this operation" ErrConflict.

(** ** Construction and change *)

Definition MeetingRoomKey (meetingID : string) : string := "meeting:" +:+ meetingID.

(** ['\n'], ['\r'] and ['\t'] are admitted in a multi-line text. *)
Definition meetingTextValid (value : string) (maxRunes : Z) (multiline : bool) : bool :=
  if negb (ValidString value) || (RuneCount value >? maxRunes) then false
  else negb (ContainsFunc value (λ r,
    if multiline && ((r =? 0x0A) || (r =? 0x0D) || (r =? 0x09)) then false else IsControl r)).

Definition normalizeMeetingTitle (title : string) : result string :=
  let title := TrimSpace title in
  if title == "" then Fail ErrMeetingTitleRequired
  else if negb (meetingTextValid title MaxMeetingTitleCodePoints false) then Fail ErrMeetingTitleInvalid
  else Ok title.

(** [t.UTC().Truncate(time.Microsecond)]: rounded down since the zero time. *)
Definition truncateMicrosecond (t : Time) : Time := t - t mod Microsecond.

Definition normalizeMeetingInterval (startsAt endsAt : Time) : result (Time * Time) :=
  let startsAt := truncateMicrosecond startsAt in
  let endsAt := truncateMicrosecond endsAt in
  if time_IsZero startsAt || negb (time_After endsAt startsAt) then Fail ErrMeetingInvalidTimeRange
  else Ok (startsAt, endsAt).

Section Parameters.
(** The answer of [uuid.Parse], as the canonical text of the identifier, and
    whether [time.LoadLocation] finds a zone. *)
Context (uuid_Parse : string → option string) (LoadLocation : string → bool).

Definition ValidateMeetingTimezone (name : string) : result string :=
  let name := TrimSpace name in
  if (name == "") || (name == "Local") || (len name >? maxMeetingTimezoneBytes)
  then Fail ErrMeetingInvalidTimezone
  else if negb (LoadLocation name) then Fail ErrMeetingInvalidTimezone
  else Ok name.

Definition normalizeMeetingDetails (d : MeetingDetails) (hasConversation : bool) : result MeetingDetails :=
  title ← normalizeMeetingTitle (md_Title d);
  let description := TrimSpace (md_Description d) in
  guard! meetingTextValid description MaxMeetingDescriptionCodePoints true
    else ErrMeetingDescriptionInvalid ;;
  '(startsAt, endsAt) ← normalizeMeetingInterval (md_StartsAt d) (md_EndsAt d);
  timezone ← ValidateMeetingTimezone (md_Timezone d);
  let joinPolicy := orDefault (md_JoinPolicy d) in
  guard! MeetingJoinPolicy_Valid joinPolicy else ErrMeetingInvalidJoinPolicy ;;
  if (joinPolicy == MeetingJoinConversationMembers) && negb hasConversation
  then Fail ErrMeetingConversationRequired
  else Ok {| md_Title := title; md_Description := description; md_StartsAt := startsAt;
             md_EndsAt := endsAt; md_Timezone := timezone; md_JoinPolicy := joinPolicy |}.

Definition canonicalMeetingConversation (c : option MeetingConversation)
    : result (option MeetingConversation) :=
  match c with
  | None => Ok None
  | Some c =>
      match uuid_Parse (mc_ID c) with
      | None => Fail ErrInvalidInput
      | Some id =>
          if (mc_Kind c != MeetingConversationChannel) && (mc_Kind c != MeetingConversationDM)
          then Fail ErrInvalidInput
          else Ok (Some {| mc_Kind := mc_Kind c; mc_ID := id |})
      end
  end.

Definition has_conversation (c : option MeetingConversation) : bool :=
  match c with Some _ => true | None => false end.

(** [newID] is what [uuid.NewString] answers. *)
Definition NewMeeting (newID workspaceID organizerUserID : string)
    (conversation : option MeetingConversation) (details : MeetingDetails) : result Meeting :=
  match uuid_Parse workspaceID, uuid_Parse organizerUserID with
  | Some workspace, Some organizer =>
      conversation ← canonicalMeetingConversation conversation;
      normalized ← normalizeMeetingDetails details (has_conversation conversation);
      Ok {| m_ID := newID; m_WorkspaceID := workspace; m_Conversation := conversation;
            m_OrganizerUserID := organizer; m_Details := normalized;
            m_Status := MeetingStatusScheduled; m_RoomKey := MeetingRoomKey newID;
            m_Version := 1; m_CreatedAt := time_zero; m_UpdatedAt := time_zero |}
  | _, _ => Fail ErrInvalidInput
  end.

Definition set_details (m : Meeting) (d : MeetingDetails) : Meeting :=
  {| m_ID := m_ID m; m_WorkspaceID := m_WorkspaceID m; m_Conversation := m_Conversation m;
     m_OrganizerUserID := m_OrganizerUserID m; m_Details := d; m_Status := m_Status m;
     m_RoomKey := m_RoomKey m; m_Version := m_Version m; m_CreatedAt := m_CreatedAt m;
     m_UpdatedAt := m_UpdatedAt m |}.

Definition set_status (m : Meeting) (s : MeetingStatus) : Meeting :=
  {| m_ID := m_ID m; m_WorkspaceID := m_WorkspaceID m; m_Conversation := m_Conversation m;
     m_OrganizerUserID := m_OrganizerUserID m; m_Details := m_Details m; m_Status := s;
     m_RoomKey := m_RoomKey m; m_Version := m_Version m; m_CreatedAt := m_CreatedAt m;
     m_UpdatedAt := m_UpdatedAt m |}.

(** The receiver is a value: [m] is returned as it was beside every error. *)
Definition Update (m : Meeting) (details : MeetingDetails) (expectedVersion : Z)
    : Meeting * option error :=
  if m_Version m != expectedVersion then (m, Some ErrMeetingStaleVersion)
  else if Terminal (m_Status m) then (m, Some ErrMeetingInvalidState)
  else match normalizeMeetingDetails details (has_conversation (m_Conversation m)) with
       | Fail err => (m, Some err)
       | Ok normalized => (set_details m normalized, None)
       end.
End Parameters.

Definition Transition (m : Meeting) (next : MeetingStatus) (expectedVersion : Z)
    : Meeting * bool * option error :=
  if negb (MeetingStatus_Valid next) then (m, false, Some ErrInvalidInput)
  else if m_Status m == next then (m, false, None)
  else if m_Version m != expectedVersion then (m, false, Some ErrMeetingStaleVersion)
  else if negb (MeetingStatus_CanTransitionTo (m_Status m) next)
  then (m, false, Some ErrMeetingInvalidState)
  else (set_status m next, true, None).

(** ** Authorisation *)

Abbreviation MeetingCapability := string (only parsing).
Definition MeetingCapabilityCreate : MeetingCapability := "meeting:create".
Definition MeetingCapabilityUpdate : MeetingCapability := "meeting:update".
Definition MeetingCapabilityCancel : MeetingCapability := "meeting:cancel".
Definition MeetingCapabilityManageParticipants : MeetingCapability := "meeting:manage_participants".
Definition MeetingCapabilityJoin : MeetingCapability := "meeting:join".
Definition MeetingCapabilityRSVP : MeetingCapability := "meeting:rsvp".
Definition MeetingCapabilityView : MeetingCapability := "meeting:view".

Record MeetingActor : Type := {
  ma_UserID : string;
  ma_Membership : option WorkspaceMember;
  ma_Participant : option MeetingParticipant;
  ma_ConversationAccess : bool
}.

Definition eligibleMeetingMember (m : Meeting) (a : MeetingActor) : bool :=
  (ma_UserID a != "") &&
  match ma_Membership a with
  | None => false
  | Some wm => (WorkspaceMember_UserID wm == ma_UserID a) &&
               (WorkspaceMember_WorkspaceID wm == m_WorkspaceID m) &&
               Ownership.eligibleConversationWorkspaceMember wm
  end.

Definition meetingParticipant (m : Meeting) (a : MeetingActor) : option MeetingParticipant :=
  match ma_Participant a with
  | None => None
  | Some p =>
      if (mp_MeetingID p != m_ID m) || (mp_UserID p != ma_UserID a) ||
         negb (MeetingRole_Valid (mp_Role p)) ||
         ((mp_Role p == MeetingRoleOrganizer) != (ma_UserID a == m_OrganizerUserID m))
      then None else Some p
  end.

Definition isMeetingOrganizer (m : Meeting) (a : MeetingActor) : bool :=
  match meetingParticipant m a with
  | Some p => mp_Role p == MeetingRoleOrganizer
  | None => false
  end.

Definition meetingRoleAllows (p : option MeetingParticipant) (c : MeetingCapability) : bool :=
  let role := match p with Some p => mp_Role p | None => "" end in
  if (c == MeetingCapabilityView) || (c == MeetingCapabilityJoin) then true
  else if (c == MeetingCapabilityUpdate) || (c == MeetingCapabilityManageParticipants)
  then (role == MeetingRoleOrganizer) || (role == MeetingRoleCohost)
  else if c == MeetingCapabilityCancel then role == MeetingRoleOrganizer
  else if c == MeetingCapabilityRSVP
  then (role == MeetingRoleCohost) || (role == MeetingRoleAttendee)
  else false.

Definition canSeeMeeting (m : Meeting) (a : MeetingActor) : bool :=
  if negb (eligibleMeetingMember m a) then false
  else match meetingParticipant m a with
       | Some _ => true
       | None =>
           let policy := md_JoinPolicy (m_Details m) in
           if policy == MeetingJoinConversationMembers
           then has_conversation (m_Conversation m) && ma_ConversationAccess a
           else if policy == MeetingJoinWorkspaceLink
           then CanReachPublicChannels (ma_Membership a)
           else false
       end.

Definition authorizeMeetingCreate (m : Meeting) (a : MeetingActor) : option error :=
  if (ma_UserID a != m_OrganizerUserID m) || negb (eligibleMeetingMember m a) ||
     negb (CanReachPublicChannels (ma_Membership a)) then Some ErrForbidden
  else if has_conversation (m_Conversation m) && negb (ma_ConversationAccess a)
  then Some ErrNotFound
  else None.

Definition AuthorizeMeeting (m : Meeting) (a : MeetingActor) (c : MeetingCapability) : option error :=
  if c == MeetingCapabilityCreate then authorizeMeetingCreate m a
  else if negb (canSeeMeeting m a) then Some ErrNotFound
  else if negb (meetingRoleAllows (meetingParticipant m a) c) then Some ErrForbidden
  else
    let needsOpen := (c == MeetingCapabilityJoin) || (c == MeetingCapabilityRSVP) ||
                     (c == MeetingCapabilityManageParticipants) in
    if needsOpen && Terminal (m_Status m) then Some ErrMeetingInvalidState
    else None.

Definition MeetingTransitionCapability (next : MeetingStatus) : MeetingCapability :=
  if next == MeetingStatusCancelled then MeetingCapabilityCancel else MeetingCapabilityUpdate.

Definition AuthorizeMeetingUpdate (m : Meeting) (a : MeetingActor) (joinPolicy : MeetingJoinPolicy)
    : option error :=
  match AuthorizeMeeting m a MeetingCapabilityUpdate with
  | Some err => Some err
  | None =>
      if (orDefault joinPolicy != md_JoinPolicy (m_Details m)) && negb (isMeetingOrganizer m a)
      then Some ErrForbidden else None
  end.

Definition AuthorizeMeetingParticipantChange (m : Meeting) (a : MeetingActor)
    (target : option MeetingParticipant) (role : MeetingRole) : option error :=
  match AuthorizeMeeting m a MeetingCapabilityManageParticipants with
  | Some err => Some err
  | None =>
      let has r := match target with Some p => mp_Role p == r | None => false end in
      if negb (assignable role) then Some ErrInvalidInput
      else if has MeetingRoleOrganizer then Some ErrForbidden
      else
        let touchesCohost := (role == MeetingRoleCohost) || has MeetingRoleCohost in
        if touchesCohost && negb (isMeetingOrganizer m a) then Some ErrForbidden
        else None
  end.

Definition AuthorizeMeetingParticipantBulk (m : Meeting) (actor : MeetingActor) : option error :=
  match AuthorizeMeeting m actor MeetingCapabilityManageParticipants with
  | Some err => Some err
  | None =>
      match m_Conversation m with
      | None => Some ErrInvalidInput
      | Some _ => if negb (ma_ConversationAccess actor) then Some ErrForbidden else None
      end
  end.

Definition MeetingInviteeEligible (m : Meeting) (invitee : MeetingActor) : bool :=
  eligibleMeetingMember m invitee && CanReachPublicChannels (ma_Membership invitee) &&
  (negb (has_conversation (m_Conversation m)) || ma_ConversationAccess invitee).

(** ** Lemmas on the operations *)

(** Scheduled, then in progress, then over. *)
Definition status_rank (s : MeetingStatus) : Z :=
  if s == MeetingStatusScheduled then 0 else if s == MeetingStatusInProgress then 1 else 2.

Lemma CanTransitionTo_inv s next :
  MeetingStatus_CanTransitionTo s next = true →
  (s = MeetingStatusScheduled ∧ (next = MeetingStatusInProgress ∨ next = MeetingStatusCancelled)) ∨
  (s = MeetingStatusInProgress ∧ next = MeetingStatusEnded).
Proof.
  unfold MeetingStatus_CanTransitionTo. intros H%bool_decide_eq_true_1.
  destruct (map_get meetingTransitions s) as [l|] eqn:E; [|by apply elem_of_nil in H].
  apply map_get_elem_of in E. unfold meetingTransitions in E.
  rewrite !elem_of_cons, elem_of_nil in E. simpl in H.
  destruct_or! E; simplify_eq; rewrite ?elem_of_cons, ?elem_of_nil in H; naive_solver.
Qed.

Lemma Transition_Ok m next v m' ch :
  Transition m next v = (m', ch, None) →
  (ch = false ∧ m' = m ∧ m_Status m = next) ∨
  (ch = true ∧ m' = set_status m next ∧ m_Version m = v ∧
   MeetingStatus_Valid next = true ∧ MeetingStatus_CanTransitionTo (m_Status m) next = true).
Proof.
  unfold Transition. destruct (MeetingStatus_Valid next) eqn:Hv; simpl; [|done].
  case_bool_decide; [intros [= <- <-]; by left|]. case_bool_decide; simpl; [|done].
  destruct (MeetingStatus_CanTransitionTo _ _) eqn:Hc; simpl; [|done].
  intros [= <- <-]. right. done.
Qed.

Lemma truncateMicrosecond_mod t : truncateMicrosecond t mod Microsecond = 0.
Proof.
  unfold truncateMicrosecond. rewrite Zminus_mod, Z.mod_mod, Z.sub_diag by done. done.
Qed.

Lemma normalizeMeetingInterval_Ok s e s' e' :
  normalizeMeetingInterval s e = Ok (s', e') →
  s' ≠ time_zero ∧ s' < e' ∧ s' mod Microsecond = 0 ∧ e' mod Microsecond = 0.
Proof.
  unfold normalizeMeetingInterval, time_IsZero, time_After. case_bool_decide; simpl; [done|].
  destruct (Z.ltb_spec (truncateMicrosecond s) (truncateMicrosecond e)); simpl; [|done].
  intros [= <- <-]. auto using truncateMicrosecond_mod.
Qed.

Lemma normalizeMeetingTitle_Ok t t' :
  normalizeMeetingTitle t = Ok t' →
  t' ≠ "" ∧ meetingTextValid t' MaxMeetingTitleCodePoints false = true.
Proof.
  unfold normalizeMeetingTitle. case_bool_decide; [done|].
  destruct (meetingTextValid _ _ _) eqn:E; simpl; [|done]. by intros [= <-].
Qed.

(** ** Well-formed meetings *)

Section Wf.
Context (LoadLocation : string → bool).

Record details_wf (d : MeetingDetails) (hasConversation : bool) : Prop := {
  wf_title : md_Title d ≠ "" ∧ meetingTextValid (md_Title d) MaxMeetingTitleCodePoints false = true;
  wf_description :
    meetingTextValid (md_Description d) MaxMeetingDescriptionCodePoints true = true;
  wf_times : md_StartsAt d ≠ time_zero ∧ md_StartsAt d < md_EndsAt d ∧
    md_StartsAt d mod Microsecond = 0 ∧ md_EndsAt d mod Microsecond = 0;
  wf_zone : md_Timezone d ≠ "" ∧ len (md_Timezone d) <= maxMeetingTimezoneBytes ∧
    LoadLocation (md_Timezone d) = true;
  wf_policy : MeetingJoinPolicy_Valid (md_JoinPolicy d) = true ∧
    (md_JoinPolicy d = MeetingJoinConversationMembers → hasConversation = true)
}.

Record meeting_wf (m : Meeting) : Prop := {
  wf_details : details_wf (m_Details m) (has_conversation (m_Conversation m));
  wf_status : MeetingStatus_Valid (m_Status m) = true;
  wf_room : m_RoomKey m = MeetingRoomKey (m_ID m)
}.

Lemma ValidateMeetingTimezone_Ok n n' :
  ValidateMeetingTimezone LoadLocation n = Ok n' →
  n' ≠ "" ∧ len n' <= maxMeetingTimezoneBytes ∧ LoadLocation n' = true.
Proof.
  unfold ValidateMeetingTimezone. repeat case_bool_decide; simpl; try done.
  rewrite Z.gtb_ltb. destruct (Z.ltb_spec maxMeetingTimezoneBytes (len (TrimSpace n))); [done|].
  destruct (LoadLocation (TrimSpace n)) eqn:E; simpl; [|done]. by intros [= <-].
Qed.

Lemma normalizeMeetingDetails_wf d hc d' :
  normalizeMeetingDetails LoadLocation d hc = Ok d' → details_wf d' hc.
Proof.
  unfold normalizeMeetingDetails. intros H.
  apply bind_Ok in H as (t & Ht & H). apply guard_Ok in H as (Hd & H).
  apply bind_Ok in H as ([s e] & Hse & H). apply bind_Ok in H as (z & Hz & H).
  apply guard_Ok in H as (Hp & H).
  destruct ((orDefault (md_JoinPolicy d) == MeetingJoinConversationMembers) && negb hc) eqn:Hc; [done|].
  injection H as <-.
  split; simpl; eauto using normalizeMeetingTitle_Ok, normalizeMeetingInterval_Ok, ValidateMeetingTimezone_Ok.
  split; [done|]. intros Hj. rewrite bool_decide_eq_true_2 in Hc by done. by destruct hc.
Qed.

(** One accepted operation on a meeting. *)
Inductive meeting_step (m : Meeting) : Meeting → Prop :=
| step_update d v m' : Update LoadLocation m d v = (m', None) → meeting_step m m'
| step_transition s v m' ch : Transition m s v = (m', ch, None) → meeting_step m m'.

Lemma Update_Ok m d v m' :
  Update LoadLocation m d v = (m', None) →
  ∃ d', normalizeMeetingDetails LoadLocation d (has_conversation (m_Conversation m)) = Ok d' ∧
        m' = set_details m d' ∧ m_Version m = v ∧ Terminal (m_Status m) = false.
Proof.
  unfold Update. case_bool_decide; simpl; [|done]. destruct (Terminal _) eqn:Ht; [done|].
  destruct (normalizeMeetingDetails _ _ _) as [d'|e]; [|done].
  intros [= <-]. exists d'. done.
Qed.

Lemma meeting_step_inv m m' :
  meeting_step m m' →
  (meeting_wf m → meeting_wf m') ∧
  status_rank (m_Status m) <= status_rank (m_Status m') ∧
  (Terminal (m_Status m) = true → m' = m) ∧
  m_ID m' = m_ID m ∧ m_WorkspaceID m' = m_WorkspaceID m ∧
  m_OrganizerUserID m' = m_OrganizerUserID m ∧ m_Conversation m' = m_Conversation m.
Proof.
  intros [d v m2 H|s v m2 ch H].
  - apply Update_Ok in H as (d' & Hd & -> & _ & Ht). split_and!; try done; [|simpl; congruence].
    intros [_ Hs Hr]. split; [by eapply normalizeMeetingDetails_wf|done..].
  - apply Transition_Ok in H as [(_ & -> & _)|(_ & -> & _ & Hv & Hc)]; [done|].
    apply CanTransitionTo_inv in Hc. split_and!; try done.
    + intros [Hd _ Hr]. by split.
    + simpl. destruct Hc as [(-> & [-> | ->])|(-> & ->)]; vm_compute; discriminate.
    + destruct Hc as [(-> & _)|(-> & _)]; by vm_compute.
Qed.
End Wf.

(** ** Properties *)

(** C30. The life of a meeting.  What [NewMeeting] accepts is well formed, and
    every sequence of accepted updates and transitions keeps it so: a titled
    meeting of valid text, a non-empty microsecond interval, a loadable zone and a
    join policy its conversation supports.  The status only moves forward, a
    meeting that ended or was cancelled never changes again, and its identity,
    workspace, organizer and conversation never change at all. *)
Theorem meeting_lifecycle uuid_Parse LoadLocation newID ws org conv d m m' :
  NewMeeting uuid_Parse LoadLocation newID ws org conv d = Ok m →
  rtc (meeting_step LoadLocation) m m' →
  meeting_wf LoadLocation m ∧ meeting_wf LoadLocation m' ∧
  status_rank (m_Status m) <= status_rank (m_Status m') ∧
  (∀ m'', meeting_step LoadLocation m' m'' → Terminal (m_Status m') = true → m'' = m') ∧
  m_ID m' = newID ∧ m_WorkspaceID m' = m_WorkspaceID m ∧
  m_OrganizerUserID m' = m_OrganizerUserID m ∧ m_Conversation m' = m_Conversation m.
Proof.
  intros Hnew Hr.
  assert (Hwf : meeting_wf LoadLocation m ∧ m_ID m = newID).
  { unfold NewMeeting in Hnew. destruct (uuid_Parse ws); [|done]. destruct (uuid_Parse org); [|done].
    apply bind_Ok in Hnew as (c & Hc & Hnew). apply bind_Ok in Hnew as (d' & Hd & [= <-]).
    split; [|done]. split; [|done..]. by eapply normalizeMeetingDetails_wf. }
  destruct Hwf as [Hwf Hid].
  assert (Hgen : (meeting_wf LoadLocation m → meeting_wf LoadLocation m') ∧
    status_rank (m_Status m) <= status_rank (m_Status m') ∧ m_ID m' = m_ID m ∧
    m_WorkspaceID m' = m_WorkspaceID m ∧ m_OrganizerUserID m' = m_OrganizerUserID m ∧
    m_Conversation m' = m_Conversation m).
  { clear -Hr. induction Hr as [m|m1 m2 m3 Hs _ IH]; [done|].
    apply meeting_step_inv in Hs as (H1 & H2 & _ & H3 & H4 & H5 & H6).
    destruct IH as (I1 & I2 & I3 & I4 & I5 & I6). split_and!; [tauto|lia|congruence..]. }
  destruct Hgen as (G1 & G2 & G3 & G4 & G5 & G6).
  split_and!; [done|tauto|done| |congruence|done..].
  intros m'' Hs. apply meeting_step_inv in Hs as (_ & _ & Ht & _). exact Ht.
Qed.

Definition details_example : MeetingDetails :=
  {| md_Title := " Planning "; md_Description := ""; md_StartsAt := 5 * Hour + 7; md_EndsAt := 6 * Hour;
     md_Timezone := "UTC"; md_JoinPolicy := "" |}.

Definition meeting_example : Meeting :=
  match NewMeeting Some (λ z, z == "UTC") "m1" "w" "ann" None details_example with
  | Ok m => m
  | Fail _ => {| m_ID := ""; m_WorkspaceID := ""; m_Conversation := None; m_OrganizerUserID := "";
                 m_Details := details_example; m_Status := ""; m_RoomKey := ""; m_Version := 0;
                 m_CreatedAt := 0; m_UpdatedAt := 0 |}
  end.

Lemma meeting_lifecycle_witness :
  md_Title (m_Details meeting_example) = "Planning" ∧
  meeting_wf (λ z, z == "UTC") (set_status meeting_example MeetingStatusCancelled).
Proof.
  split; [vm_compute; reflexivity|].
  destruct (meeting_lifecycle Some (λ z, z == "UTC") "m1" "w" "ann" None details_example meeting_example
    (set_status meeting_example MeetingStatusCancelled)) as (_ & Hwf & _); [..|exact Hwf].
  - vm_compute. reflexivity.
  - apply rtc_once. apply (step_transition _ _ MeetingStatusCancelled 1 _ true). vm_compute. reflexivity.
Defined.

(** A transition answers in exactly one of three ways: it refuses and leaves
    the meeting as it was; it was already made, and is accepted without a change
    whatever version the caller read; or it is made, on the version the caller
    read and along the life cycle, and asking again changes nothing. *)
Theorem Transition_spec m next v :
  let '(m', changed, err) := Transition m next v in
  (err ≠ None → m' = m ∧ changed = false) ∧
  (changed = true ↔ MeetingStatus_Valid next = true ∧ m_Version m = v ∧
     MeetingStatus_CanTransitionTo (m_Status m) next = true) ∧
  (changed = true → err = None ∧ m' = set_status m next) ∧
  (err = None → ∀ v', Transition m' next v' = (m', false, None)).
Proof.
  destruct (Transition m next v) as [[m' ch] err] eqn:E. pose proof E as E'. unfold Transition in E.
  assert (Hsame : ∀ k, MeetingStatus_Valid next = true → m_Status k = next → ∀ v', Transition k next v' = (k, false, None)).
  { intros k Hv Hk v'. unfold Transition. by rewrite Hv, bool_decide_eq_true_2. }
  assert (Hself : MeetingStatus_CanTransitionTo next next = true → False).
  { intros Hc. apply CanTransitionTo_inv in Hc as [(Ha & [Hb|Hb])|(Ha & Hb)];
      rewrite Ha in Hb; discriminate Hb. }
  destruct (MeetingStatus_Valid next) eqn:Hv; simpl in E.
  2:{ injection E as <- <- <-. split_and!; [done|naive_solver|done|done]. }
  case_bool_decide as Hs.
  { injection E as <- <- <-. split_and!; [done| |done|auto].
    split; [done|]. intros (_ & _ & Hc). rewrite Hs in Hc. by destruct Hself. }
  case_bool_decide as Hver; simpl in E.
  2:{ injection E as <- <- <-. split_and!; [done|naive_solver|done|done]. }
  destruct (MeetingStatus_CanTransitionTo (m_Status m) next) eqn:Hc; simpl in E;
    injection E as <- <- <-; split_and!; auto; naive_solver.
Qed.

Lemma meetingParticipant_organizer m a p :
  meetingParticipant m a = Some p →
  mp_UserID p = ma_UserID a ∧ MeetingRole_Valid (mp_Role p) = true ∧
  (mp_Role p = MeetingRoleOrganizer ↔ ma_UserID a = m_OrganizerUserID m).
Proof.
  unfold meetingParticipant. destruct (ma_Participant a) as [q|]; [|done].
  case_match eqn:E; [done|]. intros [= ->]. rewrite !orb_false_iff, !negb_false_iff, !bool_decide_eq_true in E.
  destruct E as [[[_ Hu] Hv] Hr]. split_and!; [done..|].
  rewrite <-(bool_decide_eq_true (mp_Role p = _)), Hr. apply bool_decide_eq_true.
Qed.

Lemma canSee_participant m a p :
  meetingParticipant m a = Some p → canSeeMeeting m a = eligibleMeetingMember m a.
Proof. unfold canSeeMeeting. intros ->. by destruct (eligibleMeetingMember m a). Qed.

(** The participant roles that hold one of [roles]. *)
Definition holds (m : Meeting) (a : MeetingActor) (roles : list MeetingRole) : Prop :=
  eligibleMeetingMember m a = true ∧
  ∃ p, meetingParticipant m a = Some p ∧ mp_Role p ∈ roles.

Lemma AuthorizeMeeting_None m a c :
  c ≠ MeetingCapabilityCreate →
  AuthorizeMeeting m a c = None ↔
  canSeeMeeting m a = true ∧ meetingRoleAllows (meetingParticipant m a) c = true ∧
  ((c ∈ [MeetingCapabilityJoin; MeetingCapabilityRSVP; MeetingCapabilityManageParticipants]) →
   Terminal (m_Status m) = false).
Proof.
  intros Hc. unfold AuthorizeMeeting. rewrite bool_decide_eq_false_2 by done.
  destruct (canSeeMeeting m a); simpl; [|naive_solver].
  destruct (meetingRoleAllows _ _); simpl; [|naive_solver].
  rewrite !elem_of_cons, elem_of_nil.
  destruct (Terminal (m_Status m)); repeat case_bool_decide; simpl; naive_solver.
Qed.

Definition role_of (p : option MeetingParticipant) : MeetingRole :=
  match p with Some p => mp_Role p | None => "" end.

Lemma meetingRoleAllows_iff p :
  (meetingRoleAllows p MeetingCapabilityCancel = true ↔ role_of p ∈ [MeetingRoleOrganizer]) ∧
  (meetingRoleAllows p MeetingCapabilityUpdate = true ↔
     role_of p ∈ [MeetingRoleOrganizer; MeetingRoleCohost]) ∧
  (meetingRoleAllows p MeetingCapabilityManageParticipants = true ↔
     role_of p ∈ [MeetingRoleOrganizer; MeetingRoleCohost]) ∧
  (meetingRoleAllows p MeetingCapabilityRSVP = true ↔
     role_of p ∈ [MeetingRoleCohost; MeetingRoleAttendee]) ∧
  meetingRoleAllows p MeetingCapabilityJoin = true.
Proof.
  rewrite !elem_of_cons, !elem_of_nil. split_and!; [..|done].
  all: unfold meetingRoleAllows; fold (role_of p); simpl;
    rewrite ?orb_true_iff, !bool_decide_eq_true; tauto.
Qed.

Lemma holds_iff m a roles :
  "" ∉ roles → canSeeMeeting m a = true ∧ role_of (meetingParticipant m a) ∈ roles ↔ holds m a roles.
Proof.
  intros Hne. unfold holds. destruct (meetingParticipant m a) as [p|] eqn:E; simpl; [|naive_solver].
  rewrite (canSee_participant _ _ _ E). naive_solver.
Qed.

Lemma policy_kept m a policy :
  isMeetingOrganizer m a = false → AuthorizeMeetingUpdate m a policy = None →
  orDefault policy = md_JoinPolicy (m_Details m).
Proof.
  unfold AuthorizeMeetingUpdate. intros ->. destruct (AuthorizeMeeting _ _ _); [done|].
  by case_bool_decide.
Qed.

(** Authority over a meeting, exactly.  Cancelling takes the organizer;
    editing takes the organizer or a cohost, and managing participants takes the
    same on a meeting still open; answering an invitation takes an invited
    participant other than the organizer; joining takes seeing an open meeting.
    The organizer role is only ever that of the meeting's own organizer, and
    whoever cannot see a meeting is told it does not exist, whatever they ask. *)
Theorem meeting_authority m a :
  (AuthorizeMeeting m a MeetingCapabilityCancel = None ↔ holds m a [MeetingRoleOrganizer]) ∧
  (AuthorizeMeeting m a MeetingCapabilityUpdate = None ↔
     holds m a [MeetingRoleOrganizer; MeetingRoleCohost]) ∧
  (AuthorizeMeeting m a MeetingCapabilityManageParticipants = None ↔
     holds m a [MeetingRoleOrganizer; MeetingRoleCohost] ∧ Terminal (m_Status m) = false) ∧
  (AuthorizeMeeting m a MeetingCapabilityRSVP = None ↔
     holds m a [MeetingRoleCohost; MeetingRoleAttendee] ∧ Terminal (m_Status m) = false) ∧
  (AuthorizeMeeting m a MeetingCapabilityJoin = None ↔
     canSeeMeeting m a = true ∧ Terminal (m_Status m) = false) ∧
  (holds m a [MeetingRoleOrganizer] → ma_UserID a = m_OrganizerUserID m) ∧
  (canSeeMeeting m a = false → ∀ c, c ≠ MeetingCapabilityCreate →
     AuthorizeMeeting m a c = Some ErrNotFound).
Proof.
  destruct (meetingRoleAllows_iff (meetingParticipant m a)) as (H1 & H2 & H3 & H4 & H5).
  assert (Hnot : ∀ roles : list string, bool_decide ("" ∈ roles) = false → "" ∉ roles)
    by (intros roles; apply bool_decide_eq_false_1).
  rewrite !AuthorizeMeeting_None, H1, H2, H3, H4, H5 by done.
  rewrite <-!holds_iff by (apply Hnot; vm_compute; reflexivity).
  assert (Hopen : ∀ c : MeetingCapability, bool_decide
    (c ∈ [MeetingCapabilityJoin; MeetingCapabilityRSVP; MeetingCapabilityManageParticipants]) = true →
    (c ∈ [MeetingCapabilityJoin; MeetingCapabilityRSVP; MeetingCapabilityManageParticipants] →
     Terminal (m_Status m) = false) ↔ Terminal (m_Status m) = false)
    by (intros c Hc%bool_decide_eq_true_1; tauto).
  assert (Hshut : ∀ c : MeetingCapability, bool_decide
    (c ∈ [MeetingCapabilityJoin; MeetingCapabilityRSVP; MeetingCapabilityManageParticipants]) = false →
    (c ∈ [MeetingCapabilityJoin; MeetingCapabilityRSVP; MeetingCapabilityManageParticipants] →
     Terminal (m_Status m) = false) ↔ True)
    by (intros c Hc%bool_decide_eq_false_1; tauto).
  rewrite (Hshut MeetingCapabilityCancel), (Hshut MeetingCapabilityUpdate),
    (Hopen MeetingCapabilityManageParticipants), (Hopen MeetingCapabilityRSVP),
    (Hopen MeetingCapabilityJoin) by (vm_compute; reflexivity).
  split_and!; [tauto..| |].
  - intros [_ Hr]. destruct (meetingParticipant m a) as [p|] eqn:E.
    + apply meetingParticipant_organizer in E as (_ & _ & Ho). apply Ho.
      by apply list_elem_of_singleton in Hr.
    + by apply (bool_decide_eq_true_2 _) in Hr.
  - intros Hs c Hc. unfold AuthorizeMeeting. by rewrite bool_decide_eq_false_2, Hs.
Qed.

(** A cohost cannot reach past the organizer: no accepted change of
    participants grants or takes away the organizer role, only the organizer
    grants or takes away the cohost role, and only the organizer changes the join
    policy. *)
Theorem cohost_limits m a target role :
  AuthorizeMeetingParticipantChange m a target role = None →
  holds m a [MeetingRoleOrganizer; MeetingRoleCohost] ∧ Terminal (m_Status m) = false ∧
  role ≠ MeetingRoleOrganizer ∧
  (∀ p, target = Some p → mp_Role p ≠ MeetingRoleOrganizer) ∧
  (isMeetingOrganizer m a = false →
     role ≠ MeetingRoleCohost ∧ (∀ p, target = Some p → mp_Role p ≠ MeetingRoleCohost) ∧
     ∀ policy, AuthorizeMeetingUpdate m a policy = None → orDefault policy = md_JoinPolicy (m_Details m)).
Proof.
  unfold AuthorizeMeetingParticipantChange.
  destruct (AuthorizeMeeting m a MeetingCapabilityManageParticipants) eqn:E; [done|].
  apply AuthorizeMeeting_None in E as (Hs & Hr & Ht); [|done].
  apply meetingRoleAllows_iff in Hr.
  destruct (assignable role) eqn:Hassign; simpl; [|done]. intros H.
  split; [by apply holds_iff; [apply (bool_decide_eq_false_1 _); vm_compute|]|].
  split; [apply Ht, (bool_decide_eq_true_1 _); vm_compute; done|].
  split. { intros ->. vm_compute in Hassign. done. }
  destruct target as [p|].
  - destruct (mp_Role p == MeetingRoleOrganizer) eqn:Ho; [done|].
    apply bool_decide_eq_false_1 in Ho. split; [by intros ? [= <-]|]. intros Hno.
    rewrite Hno in H. simpl in H. rewrite andb_true_r in H.
    destruct (_ || _) eqn:Hc in H; [done|]. apply orb_false_iff in Hc as [Hc1 Hc2].
    apply bool_decide_eq_false_1 in Hc1, Hc2. split; [done|]. split; [by intros ? [= <-]|].
    intros policy. apply policy_kept. done.
  - split; [done|]. intros Hno. rewrite Hno in H. simpl in H. rewrite andb_true_r, orb_false_r in H.
    case_bool_decide as Hc; [done|]. split; [done|]. split; [done|].
    intros policy. by apply policy_kept.
Qed.

Definition cohost_actor : MeetingActor :=
  {| ma_UserID := "bob";
     ma_Membership := Some (Ownership.member_example "bob" WorkspaceRoleMember);
     ma_Participant := Some {| mp_MeetingID := "m1"; mp_UserID := "bob"; mp_Role := MeetingRoleCohost;
       mp_RSVP := MeetingRSVPAccepted; mp_InvitedAt := 0; mp_UpdatedAt := 0 |};
     ma_ConversationAccess := false |}.

Lemma cohost_limits_witness :
  AuthorizeMeetingParticipantChange meeting_example cohost_actor None MeetingRoleAttendee = None ∧
  MeetingRoleAttendee ≠ MeetingRoleOrganizer.
Proof.
  assert (H : AuthorizeMeetingParticipantChange meeting_example cohost_actor None MeetingRoleAttendee = None)
    by (vm_compute; reflexivity).
  split; [exact H|].
  destruct (cohost_limits meeting_example cohost_actor None MeetingRoleAttendee H) as (_ & _ & Hr & _).
  exact Hr.
Defined.
