(* ===== verification/Message.v ===== *)
(** * Messages, their links and their timeline events

    [services/chat-service/internal/domain]: message.go (the record, its
    vocabularies, who may edit or delete it), link.go (what a link's verdict
    lets a reader do), acknowledgement.go and conversation_event.go. *)

From stdpp Require Import prelude gmap strings sorting.
From Stdlib Require Import ZArith Lia.
From S2P Require Import Prelude GoStrings Workspace.
Local Open Scope Z_scope.

(** ** Vocabularies *)

Abbreviation MessageKind := string (only parsing).
Definition MessageKindUser : MessageKind := "user".
Definition MessageKindSystem : MessageKind := "system".

Abbreviation MessageStatus := string (only parsing).
Definition MessageStatusActive : MessageStatus := "active".
Definition MessageStatusDeleted : MessageStatus := "deleted".
Definition MessageStatusPendingLinkScan : MessageStatus := "pending_link_scan".
Definition isEditable (s : MessageStatus) : bool := s == MessageStatusActive.

Abbreviation LinkSafetyState := string (only parsing).
Definition LinkSafetyStatePending : LinkSafetyState := "pending".
Definition LinkSafetyStateActive : LinkSafetyState := "active".
Definition LinkSafetyStateBlocked : LinkSafetyState := "blocked".
Definition LinkSafetyStateDeleted : LinkSafetyState := "deleted".

Definition LinkSafetyReasonMaliciousLink : string := "malicious_link".
Definition LinkSafetyReasonLinkCheckInconclusive : string := "link_check_inconclusive".

Abbreviation MessageLinkSafety := string (only parsing).
Definition MessageLinkSafetyNone : MessageLinkSafety := "".
Definition MessageLinkSafetySafe : MessageLinkSafety := "safe".
Definition MessageLinkSafetyInconclusive : MessageLinkSafety := "inconclusive".
Definition MessageLinkSafetyMalicious : MessageLinkSafety := "malicious".
Definition AllowsServerFetch (s : MessageLinkSafety) : bool := s == MessageLinkSafetySafe.
Definition RestrictsLinks (s : MessageLinkSafety) : bool := s == MessageLinkSafetyMalicious.

Abbreviation MessagePriority := string (only parsing).
Definition MessagePriorityStandard : MessagePriority := "standard".
Definition MessagePriorityImportant : MessagePriority := "important".
Definition MessagePriorityUrgent : MessagePriority := "urgent".
Definition messagePriorities : list MessagePriority :=
  [MessagePriorityStandard; MessagePriorityImportant; MessagePriorityUrgent].
Definition MessagePriority_Valid (p : MessagePriority) : bool := p ∈? messagePriorities.
Definition OrStandard (p : MessagePriority) : MessagePriority :=
  if p == "" then MessagePriorityStandard else p.

Definition NormalizeMessagePriority (priority : MessagePriority) : result MessagePriority :=
  if priority == "" then Ok MessagePriorityStandard
  else if negb (MessagePriority_Valid priority)
  then Fail (ErrWrap "unsupported priority" ErrInvalidInput)
  else Ok priority.

Definition ErrPersistentNotificationsRequireUrgent : error :=
  ErrWrap "persistent notifications require an urgent message" ErrInvalidInput.

Definition ValidatePersistentNotifications (priority : MessagePriority) (persistent : bool) : option error :=
  if persistent && (OrStandard priority != MessagePriorityUrgent)
  then Some ErrPersistentNotificationsRequireUrgent else None.

Abbreviation MessageBodyFormat := string (only parsing).
Definition MessageBodyFormatV1 : MessageBodyFormat := "v1".
Definition MessageBodyFormatV2 : MessageBodyFormat := "v2".
Definition MessageBodyFormatV3 : MessageBodyFormat := "v3".

(** ** Conversation events *)

Abbreviation ConversationEventType := string (only parsing).
Definition ConversationEventRenamed : ConversationEventType := "conversation_renamed".
Definition ConversationEventMemberLeft : ConversationEventType := "conversation_member_left".
Definition ConversationEventCreated : ConversationEventType := "conversation_created".
Definition ConversationEventArchived : ConversationEventType := "conversation_archived".
Definition ConversationEventMemberAdded : ConversationEventType := "conversation_member_added".
Definition ConversationEventMemberRemoved : ConversationEventType := "conversation_member_removed".
Definition ConversationEventCallStarted : ConversationEventType := "call_started".
Definition ConversationEventCallEnded : ConversationEventType := "call_ended".

Definition ValidConversationEventType (value : ConversationEventType) : bool :=
  value ∈? [ConversationEventRenamed; ConversationEventMemberLeft; ConversationEventCreated;
            ConversationEventArchived; ConversationEventMemberAdded; ConversationEventMemberRemoved;
            ConversationEventCallStarted; ConversationEventCallEnded].

Record ConversationEventUser : Type := { ceu_UserID : string; ceu_DisplayName : string }.

Record ConversationEventPayload : Type := {
  cep_CreatedConversationEventID : string;
  cep_AutoAddedMemberIDs : list string;
  cep_MemberCount : Z;
  cep_OldName : string;
  cep_NewName : string;
  cep_TargetUsers : list ConversationEventUser;
  cep_CallID : string;
  cep_CallType : string;
  cep_CallDurationSeconds : Z
}.

(** ** Links *)

Abbreviation LinkSafety := string (only parsing).
Definition LinkSafetyPending : LinkSafety := "pending".
Definition LinkSafetySafe : LinkSafety := "safe".
Definition LinkSafetyMalicious : LinkSafety := "malicious".
Definition LinkSafetyUnknown : LinkSafety := "unknown".

Abbreviation LinkClick := string (only parsing).
Definition LinkClickNone : LinkClick := "none".
Definition LinkClickDirect : LinkClick := "direct".
Definition LinkClickInterstitial : LinkClick := "interstitial".

Abbreviation LinkPreviewState := string (only parsing).
Definition LinkPreviewNone : LinkPreviewState := "none".
Definition LinkPreviewQueued : LinkPreviewState := "queued".
Definition LinkPreviewFetching : LinkPreviewState := "fetching".
Definition LinkPreviewReady : LinkPreviewState := "ready".
Definition LinkPreviewUnsupported : LinkPreviewState := "unsupported".
Definition LinkPreviewFailed : LinkPreviewState := "failed".

Record LinkPreview : Type := {
  lp_State : LinkPreviewState;
  lp_Hostname : string;
  lp_SiteName : string;
  lp_Title : string;
  lp_Description : string;
  lp_ImageID : string;
  lp_ImageWidth : Z;
  lp_ImageHeight : Z
}.

Record MessageLink : Type := {
  ml_Ordinal : Z;
  ml_TargetKey : string;
  ml_Text : string;
  ml_URL : string;
  ml_Hostname : string;
  ml_Safety : LinkSafety;
  ml_Click : LinkClick;
  ml_Href : string;
  ml_UpdatedAt : Time;
  ml_Preview : option LinkPreview
}.

Definition LinkAccess (safety : LinkSafety) : LinkClick * bool :=
  if safety == LinkSafetySafe then (LinkClickDirect, true)
  else if safety == LinkSafetyUnknown then (LinkClickInterstitial, false)
  else (LinkClickNone, false).

(** ** The message *)

Record MessageAttachment : Type := {
  at_ID : string;
  at_Filename : string;
  at_ContentType : string;
  at_SizeBytes : Z;
  at_Status : string;
  at_PreviewStatus : string;
  at_AudioKind : string;
  at_DurationMs : Z
}.

Record QuotedMessage : Type := {
  q_ID : string;
  q_AuthorID : string;
  q_BodyText : string;
  q_BodyFormat : MessageBodyFormat;
  q_Status : MessageStatus;
  q_DeletedAt : Time;
  q_CreatedAt : Time;
  q_UpdatedAt : Time;
  q_LinkSafety : MessageLinkSafety;
  q_AuthorDisplayName : string
}.

Record MessageReference : Type := {
  ref_Available : bool;
  ref_MessageID : string;
  ref_TargetType : string;
  ref_TargetID : string;
  ref_TargetLabel : string;
  ref_AuthorDisplayName : string;
  ref_BodyText : string;
  ref_BodyFormat : MessageBodyFormat;
  ref_CreatedAt : Time;
  ref_UpdatedAt : Time;
  ref_LinkSafety : MessageLinkSafety
}.

Record ReactionUser : Type := { ru_UserID : string; ru_DisplayName : string }.

Record MessageReaction : Type := {
  rx_Emoji : string;
  rx_Count : Z;
  rx_ReactedByMe : bool;
  rx_Users : list ReactionUser
}.

Record Message : Type := {
  msg_ID : string;
  msg_WorkspaceID : string;
  msg_ChannelID : string;
  msg_DMConversationID : string;
  msg_SenderID : string;
  msg_Kind : MessageKind;
  msg_BodyText : string;
  msg_BodyFormat : MessageBodyFormat;
  msg_Status : MessageStatus;
  msg_Priority : MessagePriority;
  msg_AcknowledgementRequired : bool;
  msg_PersistentNotifications : bool;
  msg_LinkSafety : MessageLinkSafety;
  msg_Links : list MessageLink;
  msg_ParentMessageID : string;
  msg_ForwardedFromMessageID : string;
  msg_ReferencedMessageID : string;
  msg_EditedAt : Time;
  msg_EditCount : Z;
  msg_DeletedAt : Time;
  msg_CreatedAt : Time;
  msg_UpdatedAt : Time;
  msg_EventType : string;
  msg_EventPayload : ConversationEventPayload;
  msg_SenderDisplayName : string;
  msg_SenderEmail : string;
  msg_SenderAvatarURL : string;
  msg_Reactions : list MessageReaction;
  msg_IsFavorited : bool;
  msg_Quoted : option QuotedMessage;
  msg_ReplyToSenderID : string;
  msg_Reference : option MessageReference;
  msg_Attachments : list MessageAttachment;
  msg_CreateFingerprint : string;
  msg_CreatedConversationEventID : string;
  msg_AutoAddedMemberIDs : list string;
  msg_MemberCount : Z
}.

Definition ErrEditForbidden : error := ErrNew "domain.ErrEditForbidden".
Definition ErrEditWindowExpired : error := ErrNew "domain.ErrEditWindowExpired".

(** [time.Duration(seconds) * time.Second] is a 64-bit product. *)
Definition edit_window (seconds : Z) : Duration := int64 (seconds * Second).

Definition ValidateMessageEdit (message : Message) (requesterID : string)
    (editWindowSeconds : option Z) (now : Time) : option error :=
  if msg_Kind message != MessageKindUser then Some ErrEditForbidden
  else if (msg_SenderID message != requesterID) || negb (time_IsZero (msg_DeletedAt message)) ||
          negb (isEditable (msg_Status message)) then Some ErrEditForbidden
  else
    match editWindowSeconds with
    | Some seconds =>
        if time_Sub now (msg_CreatedAt message) >? edit_window seconds
        then Some ErrEditWindowExpired else None
    | None => None
    end.

Definition ValidateMessageDelete (message : Message) (requesterID : string) : option error :=
  if (msg_SenderID message != requesterID) || (msg_Kind message != MessageKindUser)
  then Some ErrForbidden else None.

(** ** Acknowledgements *)

Abbreviation AcknowledgementState := string (only parsing).
Definition AcknowledgementStatePending : AcknowledgementState := "pending".
Definition AcknowledgementStateAcknowledged : AcknowledgementState := "acknowledged".
Definition AcknowledgementStateResponded : AcknowledgementState := "responded".
Definition AcknowledgementStateExpired : AcknowledgementState := "expired".
Definition AcknowledgementStateCancelled : AcknowledgementState := "cancelled".
Definition acknowledgementStates : list AcknowledgementState :=
  [AcknowledgementStatePending; AcknowledgementStateAcknowledged; AcknowledgementStateResponded;
   AcknowledgementStateExpired; AcknowledgementStateCancelled].
Definition AcknowledgementState_Valid (s : AcknowledgementState) : bool := s ∈? acknowledgementStates.
Definition AcknowledgementState_Resolved (s : AcknowledgementState) : bool :=
  AcknowledgementState_Valid s && (s != AcknowledgementStatePending).
Definition CanResolveAcknowledgement (from to : AcknowledgementState) : bool :=
  (from == AcknowledgementStatePending) && AcknowledgementState_Resolved to.
Definition MaxAcknowledgementRecipients : Z := 200.

Record AcknowledgementRecipient : Type := {
  ar_RecipientID : string;
  ar_State : AcknowledgementState;
  ar_ResolvedAt : Time
}.

Record AcknowledgementSummary : Type := {
  as_Required : bool;
  as_Total : Z;
  as_Pending : Z;
  as_Acknowledged : Z;
  as_Responded : Z;
  as_Expired : Z;
  as_Cancelled : Z;
  as_ViewerState : AcknowledgementState;
  as_Recipients : list AcknowledgementRecipient
}.

Definition AcknowledgementSummary_Resolved (s : AcknowledgementSummary) : Z := as_Total s - as_Pending s.

(** ** Properties *)

(** The widths of edit window the 64-bit product holds. *)
Definition max_edit_window : Z := 9223372036.

Lemma edit_window_exact seconds :
  0 <= seconds <= max_edit_window → edit_window seconds = seconds * Second.
Proof.
  intros H. unfold edit_window. apply int64_id. unfold in_int64, MinInt64, MaxInt64, max_edit_window, Second in *. lia.
Qed.

Lemma time_Sub_gt t u d : 0 <= d <= MaxInt64 → (time_Sub t u >? d) = (t - u >? d) ∨ d = MaxInt64.
Proof.
  unfold time_Sub. intros H. destruct (decide (d = MaxInt64)); [by right|left].
  rewrite !Z.gtb_ltb. apply eq_true_iff_eq. rewrite !Z.ltb_lt. unfold MinInt64, MaxInt64 in *. lia.
Qed.

(** Who may edit, exactly: the author of a user message that is active - not
    deleted and not withheld for a link scan - and, where the workspace has an
    edit window, no later than that many seconds after it was written.  Windows up
    to 292 years are compared without overflow. *)
Theorem ValidateMessageEdit_iff m u window now :
  (∀ s, window = Some s → 0 <= s <= max_edit_window) →
  ValidateMessageEdit m u window now = None ↔
  msg_Kind m = MessageKindUser ∧ msg_SenderID m = u ∧ msg_DeletedAt m = time_zero ∧
  msg_Status m = MessageStatusActive ∧
  ∀ s, window = Some s → now - msg_CreatedAt m <= s * Second.
Proof.
  intros Hw. unfold ValidateMessageEdit, isEditable, time_IsZero.
  case_bool_decide as H1; simpl; [|naive_solver].
  case_bool_decide as H2; simpl; [|naive_solver].
  case_bool_decide as H3; simpl; [|naive_solver].
  case_bool_decide as H4; simpl; [|naive_solver].
  destruct window as [s|]; [|naive_solver].
  specialize (Hw s eq_refl). rewrite edit_window_exact by done.
  assert (Hb : 0 <= s * Second <= MaxInt64 ∧ s * Second ≠ MaxInt64)
    by (unfold max_edit_window, Second, MaxInt64 in *; lia).
  destruct (time_Sub_gt now (msg_CreatedAt m) (s * Second) (proj1 Hb)) as [->|He]; [|by destruct Hb].
  rewrite Z.gtb_ltb. destruct (Z.ltb_spec (s * Second) (now - msg_CreatedAt m)).
  - split; [done|]. intros (_ & _ & _ & _ & Hs). specialize (Hs s eq_refl). lia.
  - split; [|done]. intros _. split_and!; try done. by intros ? [= <-].
Qed.

Definition no_payload : ConversationEventPayload :=
  {| cep_CreatedConversationEventID := ""; cep_AutoAddedMemberIDs := []; cep_MemberCount := 0;
     cep_OldName := ""; cep_NewName := ""; cep_TargetUsers := []; cep_CallID := "";
     cep_CallType := ""; cep_CallDurationSeconds := 0 |}.

Definition message_example : Message :=
  {| msg_ID := "m"; msg_WorkspaceID := "w"; msg_ChannelID := "c"; msg_DMConversationID := "";
     msg_SenderID := "ann"; msg_Kind := MessageKindUser; msg_BodyText := "hi";
     msg_BodyFormat := MessageBodyFormatV3; msg_Status := MessageStatusActive;
     msg_Priority := MessagePriorityStandard; msg_AcknowledgementRequired := false;
     msg_PersistentNotifications := false; msg_LinkSafety := ""; msg_Links := [];
     msg_ParentMessageID := ""; msg_ForwardedFromMessageID := ""; msg_ReferencedMessageID := "";
     msg_EditedAt := 0; msg_EditCount := 0; msg_DeletedAt := 0; msg_CreatedAt := 1000 * Second;
     msg_UpdatedAt := 1000 * Second; msg_EventType := ""; msg_EventPayload := no_payload;
     msg_SenderDisplayName := ""; msg_SenderEmail := ""; msg_SenderAvatarURL := "";
     msg_Reactions := []; msg_IsFavorited := false; msg_Quoted := None; msg_ReplyToSenderID := "";
     msg_Reference := None; msg_Attachments := []; msg_CreateFingerprint := "";
     msg_CreatedConversationEventID := ""; msg_AutoAddedMemberIDs := []; msg_MemberCount := 0 |}.

Lemma ValidateMessageEdit_iff_witness :
  msg_Status message_example = MessageStatusActive ∧
  ValidateMessageEdit message_example "ann" (Some 900) (2000 * Second) = Some ErrEditWindowExpired.
Proof.
  split; [|vm_compute; reflexivity].
  assert (Hw : ∀ s, Some 900 = Some s → 0 <= s <= max_edit_window)
    by (intros s [= <-]; unfold max_edit_window; lia).
  apply (proj1 (ValidateMessageEdit_iff message_example "ann" (Some 900) (1500 * Second) Hw)).
  vm_compute. reflexivity.
Defined.

(** An acknowledgement is resolved at most once: from pending, and from
    nothing else, it moves to a resolved state, and no sequence of permitted
    resolutions is longer than one. *)
Theorem acknowledgement_resolved_once a b c :
  CanResolveAcknowledgement a b = true →
  a = AcknowledgementStatePending ∧ AcknowledgementState_Resolved b = true ∧
  CanResolveAcknowledgement b c = false.
Proof.
  unfold CanResolveAcknowledgement, AcknowledgementState_Resolved. intros H. go_simpl.
  split_and!; [done| |]; repeat case_bool_decide; try done.
  apply andb_true_iff. done.
Qed.

Lemma acknowledgement_resolved_once_witness :
  CanResolveAcknowledgement AcknowledgementStatePending AcknowledgementStateExpired = true ∧
  CanResolveAcknowledgement AcknowledgementStateExpired AcknowledgementStateAcknowledged = false.
Proof.
  split; [vm_compute; reflexivity|].
  apply (acknowledgement_resolved_once AcknowledgementStatePending AcknowledgementStateExpired
    AcknowledgementStateAcknowledged). vm_compute. reflexivity.
Defined.
