(* ===== verification/Presence.v ===== *)
(** * Presence

    [services/chat-service/internal/domain/presence.go]: what other people see
    of somebody, from the reach of their connections, the state they chose and
    what they are doing. *)

From stdpp Require Import prelude gmap strings sorting.
From Stdlib Require Import ZArith Lia.
From S2P Require Import Prelude GoStrings Workspace.
Local Open Scope Z_scope.

Abbreviation PresenceReach := string (only parsing).
Definition PresenceReachActive : PresenceReach := "active".
Definition PresenceReachIdle : PresenceReach := "idle".
Definition PresenceReachNone : PresenceReach := "none".
Definition Connected (r : PresenceReach) : bool :=
  (r == PresenceReachActive) || (r == PresenceReachIdle).

Abbreviation PresenceAvailability := string (only parsing).
Definition PresenceAvailable : PresenceAvailability := "available".
Definition PresenceBusy : PresenceAvailability := "busy".
Definition PresenceDoNotDisturb : PresenceAvailability := "dnd".
Definition PresenceBeRightBack : PresenceAvailability := "brb".
Definition PresenceAway : PresenceAvailability := "away".
Definition PresenceOffline : PresenceAvailability := "offline".

Abbreviation PresenceManualState := string (only parsing).
Definition PresenceManualAvailable : PresenceManualState := "available".
Definition PresenceManualBusy : PresenceManualState := "busy".
Definition PresenceManualDoNotDisturb : PresenceManualState := "dnd".
Definition PresenceManualBeRightBack : PresenceManualState := "brb".
Definition PresenceManualAway : PresenceManualState := "away".
Definition PresenceManualAppearOffline : PresenceManualState := "appear_offline".

Definition presenceManualStates : list PresenceManualState :=
  [PresenceManualAvailable; PresenceManualBusy; PresenceManualDoNotDisturb;
   PresenceManualBeRightBack; PresenceManualAway; PresenceManualAppearOffline].

Definition ParsePresenceManualState (value : string) : result PresenceManualState :=
  if negb (value ∈? presenceManualStates)
  then Fail (ErrWrap "unknown presence state" ErrInvalidInput) else Ok value.

Abbreviation PresenceActivity := string (only parsing).
Definition PresenceActivityNone : PresenceActivity := "".
Definition PresenceActivityInCall : PresenceActivity := "in_call".
Definition PresenceActivityInMeeting : PresenceActivity := "in_meeting".
Definition PresenceActivityPresenting : PresenceActivity := "presenting".

Definition PresenceOverrideMinDuration : Duration := Minute.
Definition PresenceOverrideMaxDuration : Duration := 31 * 24 * Hour.

Definition ValidatePresenceExpiry (expiresAt now : Time) : option error :=
  if time_Before expiresAt (time_Add now PresenceOverrideMinDuration)
  then Some (ErrWrap "presence expiry must be in the future" ErrInvalidInput)
  else if time_After expiresAt (time_Add now PresenceOverrideMaxDuration)
  then Some (ErrWrap "presence expiry is too far ahead" ErrInvalidInput)
  else None.

Record PresenceOverride : Type := {
  po_State : PresenceManualState;
  po_ExpiresAt : Time;
  po_UpdatedAt : Time
}.

Record PresenceContext : Type := {
  pc_Override : PresenceOverride;
  pc_Activity : PresenceActivity;
  pc_ActivityUntil : Time
}.

Record EffectivePresence : Type := {
  ep_Availability : PresenceAvailability;
  ep_Activity : PresenceActivity
}.

Definition manualOutranksActivity : list (PresenceManualState * PresenceAvailability) :=
  [(PresenceManualDoNotDisturb, PresenceDoNotDisturb);
   (PresenceManualBusy, PresenceBusy);
   (PresenceManualBeRightBack, PresenceBeRightBack);
   (PresenceManualAway, PresenceAway)].

Definition resolveAvailability (reach : PresenceReach) (manual : PresenceManualState)
    (activity : PresenceActivity) : PresenceAvailability :=
  match map_get manualOutranksActivity manual with
  | Some state => state
  | None =>
      if activity != PresenceActivityNone then PresenceBusy
      else if (manual == PresenceManualAvailable) || (reach == PresenceReachActive)
      then PresenceAvailable
      else PresenceAway
  end.

Definition publicActivity (availability : PresenceAvailability) (activity : PresenceActivity)
    : PresenceActivity :=
  if (availability == PresenceBusy) || (availability == PresenceDoNotDisturb)
  then activity else PresenceActivityNone.

Definition ResolvePresence (reach : PresenceReach) (ctx : PresenceContext) : EffectivePresence :=
  let manual := po_State (pc_Override ctx) in
  if negb (Connected reach) || (manual == PresenceManualAppearOffline)
  then {| ep_Availability := PresenceOffline; ep_Activity := "" |}
  else
    let availability := resolveAvailability reach manual (pc_Activity ctx) in
    {| ep_Availability := availability; ep_Activity := publicActivity availability (pc_Activity ctx) |}.

(** ** Properties *)

Lemma resolveAvailability_cases reach manual activity :
  resolveAvailability reach manual activity ∈
    [PresenceDoNotDisturb; PresenceBusy; PresenceBeRightBack; PresenceAway; PresenceAvailable].
Proof.
  unfold resolveAvailability.
  destruct (map_get manualOutranksActivity manual) as [s|] eqn:E.
  - apply map_get_elem_of in E. unfold manualOutranksActivity in E.
    rewrite !elem_of_cons, elem_of_nil in E. destruct_or! E; simplify_eq; set_solver.
  - repeat case_match; set_solver.
Qed.

(** Somebody who chose to appear offline is seen exactly as somebody with no
    connection, whatever they do and wherever they are connected; conversely
    nobody else with a connection is shown offline.  A chosen do-not-disturb,
    busy, be-right-back or away state is shown over any activity, an activity
    makes anybody else busy, and the activity itself is told only of people shown
    busy or not to be disturbed. *)
Theorem ResolvePresence_spec reach ctx :
  let manual := po_State (pc_Override ctx) in
  let e := ResolvePresence reach ctx in
  (manual = PresenceManualAppearOffline → ∀ ctx', e = ResolvePresence PresenceReachNone ctx') ∧
  (ep_Availability e = PresenceOffline ↔
     Connected reach = false ∨ manual = PresenceManualAppearOffline) ∧
  (Connected reach = true → ∀ a, (manual, a) ∈ manualOutranksActivity → ep_Availability e = a) ∧
  (Connected reach = true → pc_Activity ctx ≠ PresenceActivityNone →
     manual ∈ ["" : PresenceManualState; PresenceManualAvailable] → ep_Availability e = PresenceBusy) ∧
  (ep_Activity e ≠ PresenceActivityNone →
     ep_Activity e = pc_Activity ctx ∧
     (ep_Availability e = PresenceBusy ∨ ep_Availability e = PresenceDoNotDisturb)).
Proof.
  cbv zeta. unfold ResolvePresence.
  destruct (Connected reach) eqn:Hc; simpl.
  2:{ split_and!; try done. tauto. }
  case_bool_decide as Ho; simpl.
  { rewrite Ho. split_and!; try done.
    - tauto.
    - intros _ a Ha. exfalso. unfold manualOutranksActivity in Ha.
      rewrite !elem_of_cons, elem_of_nil in Ha. destruct_or! Ha; simplify_eq.
    - intros _ _ Hm. apply (bool_decide_eq_true_2 _) in Hm. vm_compute in Hm. done. }
  split_and!.
  - done.
  - split; [|by intros [?|?]]. intros He.
    pose proof (resolveAvailability_cases reach (po_State (pc_Override ctx)) (pc_Activity ctx)) as Hin.
    rewrite He in Hin. apply (bool_decide_eq_true_2 _) in Hin. vm_compute in Hin. done.
  - intros _ a Ha. unfold resolveAvailability. unfold manualOutranksActivity in Ha.
    rewrite !elem_of_cons, elem_of_nil in Ha.
    destruct_or! Ha; try done; injection Ha as -> ->; reflexivity.
  - intros _ Ha Hm. unfold resolveAvailability.
    rewrite !elem_of_cons, elem_of_nil in Hm.
    destruct_or! Hm; rewrite Hm; simpl; by rewrite bool_decide_eq_false_2.
  - unfold publicActivity. destruct (_ || _) eqn:E; [|done]. intros _. split; [done|].
    apply orb_true_iff in E as [E|E]; apply bool_decide_eq_true_1 in E; auto.
Qed.
