(* ===== verification/Breaker.v ===== *)
(** * The circuit breaker of the reputation provider

    [libs/go/platform/urlsafety/breaker.go].  A [*Breaker] guarded by its mutex
    is a state that each operation reads and replaces whole; the clock's answer
    is an argument of the operations that read it. *)

From stdpp Require Import prelude gmap strings sorting.
From Stdlib Require Import ZArith Lia.
From S2P Require Import Prelude.
Local Open Scope Z_scope.

Abbreviation BreakerState := string (only parsing).
Definition BreakerClosed : BreakerState := "closed".
Definition BreakerOpen : BreakerState := "open".
Definition BreakerHalfOpen : BreakerState := "half_open".

Definition ErrUnavailable : error := ErrNew "urlsafety.ErrUnavailable".
Definition ErrCheckInProgress : error := ErrNew "urlsafety.ErrCheckInProgress".
Definition ErrScanPending : error := ErrNew "urlsafety.ErrScanPending".
Definition ErrScanInconclusive : error := ErrNew "urlsafety.ErrScanInconclusive".
Definition ErrCircuitOpen : error := ErrWrap "url safety: provider circuit open" ErrUnavailable.

Definition defaultBreakerThreshold : Z := 5.
Definition defaultBreakerCooldown : Duration := Minute.

Record Breaker : Type := {
  b_state : BreakerState;
  b_failures : Z;
  b_openedAt : Time;
  b_probing : bool;
  b_threshold : Z;
  b_cooldown : Duration
}.

Definition newBreaker (threshold : Z) (cooldown : Duration) : Breaker :=
  {| b_state := BreakerClosed; b_failures := 0; b_openedAt := time_zero; b_probing := false;
     b_threshold := if threshold <=? 0 then defaultBreakerThreshold else threshold;
     b_cooldown := if cooldown <=? 0 then defaultBreakerCooldown else cooldown |}.

Definition set_position (b : Breaker) (state : BreakerState) (failures : Z) (openedAt : Time)
    (probing : bool) : Breaker :=
  {| b_state := state; b_failures := failures; b_openedAt := openedAt; b_probing := probing;
     b_threshold := b_threshold b; b_cooldown := b_cooldown b |}.

Definition Allow (b : Breaker) (now : Time) : bool * Breaker :=
  if b_state b == BreakerClosed then (true, b)
  else if b_state b == BreakerOpen then
    if time_Sub now (b_openedAt b) <? b_cooldown b then (false, b)
    else (true, set_position b BreakerHalfOpen (b_failures b) (b_openedAt b) true)
  else if b_probing b then (false, b)
  else (true, set_position b (b_state b) (b_failures b) (b_openedAt b) true).

Inductive BreakerOutcome : Type := BreakerSuccess | BreakerFailure | BreakerNeutral.

Definition Complete (b : Breaker) (outcome : BreakerOutcome) (now : Time) : Breaker :=
  match outcome with
  | BreakerSuccess => set_position b BreakerClosed 0 (b_openedAt b) false
  | BreakerFailure =>
      let failures := b_failures b + 1 in
      if (b_state b == BreakerHalfOpen) || (b_threshold b <=? failures)
      then set_position b BreakerOpen failures now false
      else set_position b (b_state b) failures (b_openedAt b) false
  | BreakerNeutral => set_position b (b_state b) (b_failures b) (b_openedAt b) false
  end.

Definition State (b : Breaker) : BreakerState := b_state b.

(** [ctxErr] is [ctx.Err()]. *)
Definition breakerOutcome (ctxErr err : option error) : BreakerOutcome :=
  if errors_Is_nil ctxErr context_Canceled || errors_Is_nil err context_Canceled then BreakerNeutral
  else match err with
       | None => BreakerSuccess
       | Some _ =>
           if errors_Is_nil err ErrCheckInProgress || errors_Is_nil err ErrScanPending ||
              errors_Is_nil err ErrScanInconclusive
           then BreakerSuccess else BreakerFailure
       end.

(** ** The invariant of every interleaving *)

Record breaker_wf (b : Breaker) : Prop := {
  wf_positions : b_state b ∈ [BreakerClosed; BreakerOpen; BreakerHalfOpen];
  wf_parameters : 0 < b_threshold b ∧ 0 < b_cooldown b;
  wf_failures : 0 <= b_failures b;
  wf_closed : b_state b = BreakerClosed → b_failures b < b_threshold b;
  wf_probing : b_probing b = true → b_state b = BreakerHalfOpen
}.

Lemma newBreaker_wf threshold cooldown : breaker_wf (newBreaker threshold cooldown).
Proof.
  unfold newBreaker, defaultBreakerThreshold, defaultBreakerCooldown, Minute, Second.
  split; simpl; try done; [left|..].
  - destruct (Z.leb_spec threshold 0), (Z.leb_spec cooldown 0); lia.
  - intros _. destruct (Z.leb_spec threshold 0); lia.
Qed.

Lemma Allow_wf b now : breaker_wf b → breaker_wf (snd (Allow b now)).
Proof.
  intros [Hs Hp Hf Hc Hpr]. unfold Allow.
  case_bool_decide as H1; [by split|]. case_bool_decide as H2.
  - destruct (_ <? _); [by split|]. split; simpl; try done. right; right; left.
  - destruct (b_probing b) eqn:E; [split; auto|]. split; simpl; try done.
    intros _. rewrite !elem_of_cons, elem_of_nil in Hs. naive_solver.
Qed.

Lemma Complete_wf b o now : breaker_wf b → breaker_wf (Complete b o now).
Proof.
  intros [Hs Hp Hf Hc Hpr]. destruct o; simpl.
  - split; simpl; try done; [left|intros _; lia].
  - case_match eqn:E.
    + split; simpl; try done; [right; left|lia].
    + apply orb_false_iff in E as [E1 E2]. apply Z.leb_gt in E2. split; simpl; try done; lia.
  - split; simpl; try done.
Qed.

(** One atomic operation by some caller. *)
Inductive breaker_step : Breaker → Breaker → Prop :=
| step_allow b now : breaker_step b (snd (Allow b now))
| step_complete b o now : breaker_step b (Complete b o now).

(** The same as a list of operations to run. *)
Inductive breaker_op : Type := OpAllow (now : Time) | OpComplete (o : BreakerOutcome) (now : Time).

Definition apply_op (b : Breaker) (op : breaker_op) : Breaker :=
  match op with
  | OpAllow now => snd (Allow b now)
  | OpComplete o now => Complete b o now
  end.

Lemma ops_steps ops b : rtc breaker_step b (fold_left apply_op ops b).
Proof.
  revert b. induction ops as [|op ops IH]; intros b; [apply rtc_refl|].
  eapply rtc_l; [|apply IH]. destruct op; constructor.
Qed.

Lemma breaker_steps_wf b b' : rtc breaker_step b b' → breaker_wf b → breaker_wf b'.
Proof. induction 1 as [|b1 b2 b3 Hs _ IH]; [done|]. destruct Hs; eauto using Allow_wf, Complete_wf. Qed.

(** The answers of a row of [Allow]s with no [Complete] between them. *)
Fixpoint admitted (b : Breaker) (times : list Time) : nat :=
  match times with
  | [] => 0
  | t :: times =>
      let '(ok, b) := Allow b t in
      (if ok then 1 else 0) + admitted b times
  end%nat.

Lemma admitted_probing b times :
  b_state b = BreakerHalfOpen → b_probing b = true → admitted b times = 0%nat.
Proof.
  intros Hs Hp. induction times as [|t times IH]; simpl; [done|].
  unfold Allow. rewrite Hs, Hp. simpl. exact IH.
Qed.

(** ** Consecutive failures *)

(** Failures since the last success; a neutral outcome counts for nothing. *)
Fixpoint run_length (acc : Z) (os : list BreakerOutcome) : Z :=
  match os with
  | [] => acc
  | BreakerSuccess :: os => run_length 0 os
  | BreakerFailure :: os => run_length (acc + 1) os
  | BreakerNeutral :: os => run_length acc os
  end.

(** Exchanges one after the other, each admitted, run and settled before the
    next; [None] when one was refused. *)
Fixpoint exchanges (b : Breaker) (os : list (BreakerOutcome * Time)) : option Breaker :=
  match os with
  | [] => Some b
  | (o, t) :: os =>
      let '(ok, b) := Allow b t in
      if ok then exchanges (Complete b o t) os else None
  end.

(** No run of failures reaches the threshold before the last exchange. *)
Fixpoint below (threshold acc : Z) (os : list BreakerOutcome) : Prop :=
  match os with
  | [] => True
  | o :: os =>
      acc < threshold ∧ below threshold (run_length acc [o]) os
  end.

Lemma exchanges_closed b os :
  breaker_wf b → b_state b = BreakerClosed →
  below (b_threshold b) (b_failures b) (fst <$> os) →
  ∃ b', exchanges b os = Some b' ∧ b_failures b' = run_length (b_failures b) (fst <$> os) ∧
    b_threshold b' = b_threshold b ∧
    b_state b' = if b_threshold b <=? run_length (b_failures b) (fst <$> os)
                 then BreakerOpen else BreakerClosed.
Proof.
  intros Hwf Hcl. revert b Hwf Hcl.
  induction os as [|[o t] os IH]; intros b Hwf Hcl Hb; simpl in *.
  { exists b. split_and!; [done..|]. pose proof (wf_closed b Hwf Hcl).
    destruct (Z.leb_spec (b_threshold b) (b_failures b)); [lia|done]. }
  destruct Hb as [Hlt Hb]. unfold Allow. rewrite bool_decide_eq_true_2 by done.
  destruct o; simpl in *.
  - destruct (IH (set_position b BreakerClosed 0 (b_openedAt b) false)) as (b' & H1 & H2 & H3 & H4); try done.
    { apply (Complete_wf b BreakerSuccess 0 Hwf). }
    by exists b'.
  - destruct (Z.leb_spec (b_threshold b) (b_failures b + 1)) as [Hle|Hgt].
    + rewrite orb_true_r. destruct os as [|[o' t'] os]; simpl in *.
      * eexists. split; [done|]. simpl. split_and!; [done..|].
        destruct (Z.leb_spec (b_threshold b) (b_failures b + 1)); [done|lia].
      * lia.
    + rewrite Hcl, orb_false_r. cbn [bool_decide]. rewrite bool_decide_eq_false_2 by done.
      pose proof (Complete_wf b BreakerFailure t Hwf) as Hwf'. simpl in Hwf'.
      rewrite Hcl, bool_decide_eq_false_2 in Hwf' by done.
      destruct (Z.leb_spec (b_threshold b) (b_failures b + 1)); [lia|]. simpl in Hwf'.
      destruct (IH _ Hwf') as (b' & H1 & H2 & H3 & H4); try done. by exists b'.
  - pose proof (Complete_wf b BreakerNeutral t Hwf) as Hwf'. simpl in Hwf'.
    destruct (IH _ Hwf') as (b' & H1 & H2 & H3 & H4); try done. by exists b'.
Qed.

(** ** Properties *)

(** Used one exchange at a time, a breaker stays closed exactly until its
    threshold of consecutive failures is reached and then opens: successes reset
    the run and neutral outcomes leave it alone. *)
Theorem breaker_opens_at_threshold threshold cooldown os :
  let b := newBreaker threshold cooldown in
  below (b_threshold b) 0 (fst <$> os) →
  ∃ b', exchanges b os = Some b' ∧
    b_state b' = if b_threshold b <=? run_length 0 (fst <$> os) then BreakerOpen else BreakerClosed.
Proof.
  cbv zeta. intros Hb.
  destruct (exchanges_closed (newBreaker threshold cooldown) os (newBreaker_wf _ _) eq_refl Hb)
    as (b' & H1 & _ & _ & H4).
  by exists b'.
Qed.

Lemma breaker_opens_at_threshold_witness :
  ∃ b', exchanges (newBreaker 2 0)
    [(BreakerFailure, 1); (BreakerSuccess, 2); (BreakerFailure, 3); (BreakerNeutral, 4); (BreakerFailure, 5)]
    = Some b' ∧ b_state b' = BreakerOpen.
Proof.
  destruct (breaker_opens_at_threshold 2 0
    [(BreakerFailure, 1); (BreakerSuccess, 2); (BreakerFailure, 3); (BreakerNeutral, 4); (BreakerFailure, 5)])
    as (b' & H1 & H2).
  { simpl. lia. }
  exists b'. split; [exact H1|]. rewrite H2. reflexivity.
Defined.


(** The straggler: [a] is admitted while the circuit is closed, five other
    exchanges fail and open it, [p] is admitted as the probe after the cooldown,
    and only then is [a] settled, its caller having gone away. *)
Definition outage : list breaker_op :=
  OpAllow 0 :: ([1; 2; 3; 4; 5] ≫= λ t, [OpAllow t; OpComplete BreakerFailure t]).

Definition straggler_trace : list breaker_op :=
  outage ++ [OpAllow (5 + Minute); OpComplete BreakerNeutral (6 + Minute)].


(** [Complete] does not know whose exchange it settles.  A late exchange
    admitted while the circuit was closed releases the slot of the probe, and a
    second probe is admitted while the first is still out: half open does not
    always let exactly one probe through. *)
Theorem straggler_releases_probe :
  let opened := fold_left apply_op outage (newBreaker 0 0) in
  b_state opened = BreakerOpen ∧
  (let '(first, probing) := Allow opened (5 + Minute) in
   first = true ∧ b_state probing = BreakerHalfOpen ∧ fst (Allow probing (6 + Minute)) = false ∧
   fst (Allow (Complete probing BreakerNeutral (6 + Minute)) (6 + Minute)) = true).
Proof. vm_compute. done. Qed.
