(* ===== verification/UrlSafety.v ===== *)
(** * The reputation service

    [libs/go/platform/urlsafety]: the verdict cache and the service in front of
    a provider (urlsafety.go), the primary/secondary composition (fallback.go),
    the reconciliation of an old scan (reconcile.go), the reasons of a failure
    (reason.go) and the provider contract (provider.go).

    The providers are on the other side of a network: what a call answered is a
    function from the arguments of the call.  The clock is read several times in
    one operation, and each reading is an argument.  Metrics are the list of the
    labels observed. *)

From stdpp Require Import prelude gmap strings sorting.
From Stdlib Require Import ZArith Lia.
From S2P Require Import Prelude GoStrings Breaker.
Local Open Scope Z_scope.

(** ** Verdicts *)

Abbreviation Verdict := string (only parsing).
Definition VerdictUnknown : Verdict := "unknown".
Definition VerdictSafe : Verdict := "safe".
Definition VerdictMalicious : Verdict := "malicious".
Definition VerdictInconclusive : Verdict := "inconclusive".
Definition IsFinal (v : Verdict) : bool := (v == VerdictSafe) || (v == VerdictMalicious).

Abbreviation ReputationVerdict := string (only parsing).
Definition ReputationSafe : ReputationVerdict := "safe".
Definition ReputationMalicious : ReputationVerdict := "malicious".
Definition ReputationUnknown : ReputationVerdict := "unknown".

Record ReputationResult : Type := {
  rr_Verdict : ReputationVerdict;
  rr_Provider : string;
  rr_ProviderRef : string;
  rr_CheckedAt : Time;
  rr_ThreatCategories : list string;
  rr_ExpiresAt : Time;
  rr_Reason : string
}.

Definition zero_result : ReputationResult :=
  {| rr_Verdict := ""; rr_Provider := ""; rr_ProviderRef := ""; rr_CheckedAt := 0;
     rr_ThreatCategories := []; rr_ExpiresAt := 0; rr_Reason := "" |}.

Definition reputationFromVerdict (verdict : Verdict) : ReputationVerdict * option error :=
  if verdict == VerdictSafe then (ReputationSafe, None)
  else if verdict == VerdictMalicious then (ReputationMalicious, None)
  else ("", Some ErrUnavailable).

Definition LegacyVerdict (v : ReputationVerdict) : Verdict :=
  if v == ReputationSafe then VerdictSafe
  else if v == ReputationMalicious then VerdictMalicious
  else VerdictInconclusive.

Definition ErrNotCheckable : error := ErrNew "urlsafety.ErrNotCheckable".
Definition ErrSearchUnsupported : error := ErrNew "urlsafety.ErrSearchUnsupported".
Definition ErrSecondaryUnsupported : error := ErrNew "urlsafety.ErrSecondaryUnsupported".
Definition ErrEvidenceExpired : error := ErrNew "urlsafety.ErrEvidenceExpired".

Definition VerdictTTL : Duration := 15 * Minute.
Definition FailureTTL : Duration := 30 * Second.
Definition maxCacheEntries : Z := 4096.

Definition resultHit : string := "hit".
Definition resultMiss : string := "miss".
Definition resultSubmitted : string := "submitted".
Definition resultPending : string := "pending".
Definition resultSafe : string := "safe".
Definition resultMalicious : string := "malicious".
Definition resultError : string := "error".
Definition resultInconclusive : string := "inconclusive".
Definition resultCircuitOpen : string := "circuit_open".

Definition resultFor (verdict : Verdict) : string :=
  if verdict == VerdictSafe then resultSafe
  else if verdict == VerdictMalicious then resultMalicious
  else resultError.

(** ** Reasons (reason.go) *)

Definition ReasonUnavailable : string := "unavailable".
Definition ReasonTimeout : string := "timeout".
Definition ReasonRateLimited : string := "rate_limited".
Definition ReasonAuthError : string := "auth_error".
Definition ReasonMalformed : string := "malformed".
Definition ReasonHostnameLimit : string := "hostname_limit".
Definition ReasonCircuitOpen : string := "circuit_open".

Definition reasonedError (reason : string) : error := ErrStruct "reasonedError" reason 0 ErrUnavailable.
Definition unavailable (reason : string) : error := reasonedError reason.

Definition FailureReason (err : option error) : string :=
  match errors_As_nil err "reasonedError" with
  | Some (reason, _) => reason
  | None => if errors_Is_nil err ErrCircuitOpen then ReasonCircuitOpen else ReasonUnavailable
  end.

(** ** The cache *)

Record cacheEntry : Type := { ce_verdict : Verdict; ce_expiresAt : Time }.

Record cache : Type := { c_entries : gmap string cacheEntry; c_maxEntries : Z }.

Definition newCache (maxEntries : Z) : cache :=
  {| c_entries := ∅; c_maxEntries := if maxEntries <=? 0 then maxCacheEntries else maxEntries |}.

Definition with_entries (c : cache) (entries : gmap string cacheEntry) : cache :=
  {| c_entries := entries; c_maxEntries := c_maxEntries c |}.

Definition cache_get (c : cache) (key : string) (now : Time) : Verdict * bool * cache :=
  match c_entries c !! key with
  | None => (VerdictUnknown, false, c)
  | Some entry =>
      if negb (time_Before now (ce_expiresAt entry))
      then (VerdictUnknown, false, with_entries c (delete key (c_entries c)))
      else (ce_verdict entry, true, c)
  end.

(** The loop of [evict] over the entries in the order [order] the runtime
    happens to iterate the map in; deleting while ranging removes an entry that
    was already produced. *)
Fixpoint evict_walk (now : Time) (order : list (string * cacheEntry)) (entries : gmap string cacheEntry)
    (oldestKey : string) (oldest : Time) (found : bool) : gmap string cacheEntry * string * bool :=
  match order with
  | [] => (entries, oldestKey, found)
  | (key, entry) :: order =>
      if negb (time_Before now (ce_expiresAt entry))
      then evict_walk now order (delete key entries) oldestKey oldest true
      else if (oldestKey == "") || time_Before (ce_expiresAt entry) oldest
      then evict_walk now order entries key (ce_expiresAt entry) found
      else evict_walk now order entries oldestKey oldest found
  end.

Definition evict (entries : gmap string cacheEntry) (order : list (string * cacheEntry)) (now : Time)
    : gmap string cacheEntry :=
  let '(entries, oldestKey, found) := evict_walk now order entries "" time_zero false in
  if negb found && (oldestKey != "") then delete oldestKey entries else entries.

Definition cache_set (c : cache) (order : list (string * cacheEntry)) (key : string) (verdict : Verdict)
    (ttl : Duration) (now : Time) : cache :=
  if ttl <=? 0 then c
  else
    let entries := if c_maxEntries c <=? Z.of_nat (size (c_entries c))
                   then evict (c_entries c) order now else c_entries c in
    with_entries c (<[key := {| ce_verdict := verdict; ce_expiresAt := time_Add now ttl |}]> entries).

(** ** The primary with a fallback (fallback.go) *)

Definition DirectProviderRef : string := "direct".

(** A provider's [Name] and what its [Check] answers for a URL and a reference. *)
Record URLReputationProvider : Type := {
  pv_Name : string;
  pv_Check : string → string → ReputationResult * option error
}.

Definition resumable (providerRef : string) : bool :=
  let trimmed := TrimSpace providerRef in
  (trimmed != "") && (trimmed != DirectProviderRef).

Definition decisive (result : ReputationResult) (err : option error) : bool :=
  if errors_Is_nil err ErrCheckInProgress then true
  else match err with
       | Some _ => false
       | None => (rr_Verdict result == ReputationSafe) || (rr_Verdict result == ReputationMalicious)
       end.

(** The breaker of the primary and the labels observed, with the readings of
    the clock one exchange makes. *)
Record fallback_state : Type := { fb_breaker : Breaker; fb_observed : list (string * string) }.

Definition observeExchange (observed : list (string * string)) (provider : string)
    (result : ReputationResult) (err : option error) : list (string * string) :=
  if errors_Is_nil err ErrCheckInProgress then observed ++ [(provider, resultPending)]
  else if errors_Is_nil err context_Canceled then observed
  else match err with
       | Some _ => observed ++ [(provider, FailureReason err)]
       | None =>
           if rr_Reason result != "" then observed ++ [(provider, rr_Reason result)]
           else observed ++ [(provider, rr_Verdict result)]
       end.

Section Fallback.
Context (primary secondary : URLReputationProvider).
(** [ctx.Err()] after the primary's exchange, and the clock before and after it. *)
Context (ctxErr : option error) (t_allow t_complete : Time).

Definition fallback_Name : string := pv_Name primary +:+ "+" +:+ pv_Name secondary.

Definition checkPrimary (s : fallback_state) (canonicalURL : string)
    : ReputationResult * option error * fallback_state :=
  let '(ok, breaker) := Allow (fb_breaker s) t_allow in
  if negb ok
  then (zero_result, Some ErrCircuitOpen,
        {| fb_breaker := breaker; fb_observed := fb_observed s ++ [(pv_Name primary, ReasonCircuitOpen)] |})
  else
    let '(result, err) := pv_Check primary canonicalURL "" in
    (result, err,
     {| fb_breaker := Complete breaker (breakerOutcome ctxErr err) t_complete;
        fb_observed := observeExchange (fb_observed s) (pv_Name primary) result err |}).

Definition checkSecondary (s : fallback_state) (canonicalURL providerRef : string)
    : ReputationResult * option error * fallback_state :=
  let '(result, err) := pv_Check secondary canonicalURL providerRef in
  (result, err,
   {| fb_breaker := fb_breaker s;
      fb_observed := observeExchange (fb_observed s) (pv_Name secondary) result err |}).

Definition fallback_CheckSecondary := checkSecondary.

Definition fallback_Check (s : fallback_state) (canonicalURL providerRef : string)
    : ReputationResult * option error * fallback_state :=
  if resumable providerRef then checkSecondary s canonicalURL providerRef
  else
    let '(result, err, s) := checkPrimary s canonicalURL in
    if decisive result err then (result, err, s)
    else match ctxErr with
         | Some e => (zero_result, Some e, s)
         | None =>
             let '(secondaryResult, secondaryErr, s) := checkSecondary s canonicalURL "" in
             match secondaryErr, err with
             | Some _, Some e => (zero_result, Some e, s)
             | _, _ => (secondaryResult, secondaryErr, s)
             end
         end.
End Fallback.

(** ** The service *)

Record ScanRecord : Type := {
  sr_UUID : string;
  sr_URL : string;
  sr_SubmittedAt : Time;
  sr_Visibility : string
}.

(** The provider client: its two mandatory calls and the two it may not have. *)
Record Scanner : Type := {
  sc_SubmitScan : string → string * option error;
  sc_GetScanResult : string → Verdict * option error;
  sc_FindRecentScan : option (string → Time → ScanRecord * Z * option error);
  sc_GetScanReport : option (string → Verdict * Time * option error)
}.

(** The parts of a [*Service] that change. *)
Record Service : Type := {
  s_breaker : Breaker;
  s_cache : cache;
  s_observed : list string
}.

Definition newService : Service :=
  {| s_breaker := newBreaker 0 0; s_cache := newCache maxCacheEntries; s_observed := [] |}.

Definition SetBreaker (s : Service) (breaker : option Breaker) : Service :=
  {| s_breaker := match breaker with Some b => b | None => newBreaker 0 0 end;
     s_cache := s_cache s; s_observed := s_observed s |}.

Definition CircuitState (s : Service) : BreakerState := State (s_breaker s).

Definition set_breaker (s : Service) (b : Breaker) : Service :=
  {| s_breaker := b; s_cache := s_cache s; s_observed := s_observed s |}.
Definition observe (s : Service) (result : string) : Service :=
  {| s_breaker := s_breaker s; s_cache := s_cache s; s_observed := s_observed s ++ [result] |}.

(** The readings of the clock in one operation and the order the runtime
    iterates the cache in, should it be full. *)
Record Env : Type := {
  t_allow : Time;
  t_complete : Time;
  t_lifetime : Time;
  t_set : Time;
  iteration : list (string * cacheEntry)
}.

Definition remember (s : Service) (env : Env) (key : string) (verdict : Verdict) (ttl : Duration) : Service :=
  {| s_breaker := s_breaker s;
     s_cache := cache_set (s_cache s) (iteration env) key verdict ttl (t_set env);
     s_observed := s_observed s |}.

Definition evidenceLifetime (now : Time) (result : ReputationResult) : Duration :=
  if time_IsZero (rr_ExpiresAt result) then VerdictTTL
  else
    let stated := time_Sub (rr_ExpiresAt result) now in
    if stated <? VerdictTTL then stated else VerdictTTL.

Definition settleCheck (s : Service) (env : Env) (canonicalURL : string) (result : ReputationResult)
    (err : option error) : ReputationResult * option error * Service :=
  if errors_Is_nil err ErrCheckInProgress then (result, err, observe s resultPending)
  else match err with
  | Some _ =>
      (zero_result, Some ErrUnavailable,
       observe (remember s env canonicalURL VerdictUnknown FailureTTL) resultError)
  | None =>
      let v := rr_Verdict result in
      if (v == ReputationSafe) || (v == ReputationMalicious) then
        (result, None,
         observe (remember s env canonicalURL (LegacyVerdict v) (evidenceLifetime (t_lifetime env) result)) v)
      else if v == ReputationUnknown then (result, None, observe s resultInconclusive)
      else (zero_result, Some ErrUnavailable,
            observe (remember s env canonicalURL VerdictUnknown FailureTTL) resultError)
  end.

(** The guarded exchange every consultation shares: the circuit, the call, its
    settlement. *)
Definition Check (provider : option (string → string → ReputationResult * option error))
    (ctxErr : option error) (env : Env) (s : Service) (canonicalURL providerRef : string)
    : ReputationResult * option error * Service :=
  match provider with
  | None => (zero_result, Some ErrUnavailable, observe s resultError)
  | Some call =>
      let '(ok, b) := Allow (s_breaker s) (t_allow env) in
      let s := set_breaker s b in
      if negb ok then (zero_result, Some ErrCircuitOpen, observe s resultCircuitOpen)
      else
        let '(result, err) := call canonicalURL providerRef in
        let s := set_breaker s (Complete b (breakerOutcome ctxErr err) (t_complete env)) in
        match ctxErr with
        | Some e => (zero_result, Some e, s)
        | None => settleCheck s env canonicalURL result err
        end
  end.

(** [verifier] is the provider's second source, when it has one. *)
Definition CheckSecondary (verifier : option (string → string → ReputationResult * option error))
    (ctxErr : option error) (env : Env) (s : Service) (canonicalURL providerRef : string)
    : ReputationResult * option error * Service :=
  match verifier with
  | None => (zero_result, Some ErrSecondaryUnsupported, s)
  | Some call =>
      let '(ok, b) := Allow (s_breaker s) (t_allow env) in
      let s := set_breaker s b in
      if negb ok then (zero_result, Some ErrCircuitOpen, observe s resultCircuitOpen)
      else
        let '(result, err) := call canonicalURL providerRef in
        let s := set_breaker s (Complete b (breakerOutcome ctxErr err) (t_complete env)) in
        match ctxErr, err with
        | Some e, _ => (zero_result, Some e, s)
        | None, Some e => (zero_result, Some e, observe s resultError)
        | None, None =>
            let s := if rr_Verdict result == ReputationMalicious
                     then remember s env canonicalURL VerdictMalicious (evidenceLifetime (t_lifetime env) result)
                     else s in
            (result, None, observe s (rr_Verdict result))
        end
  end.

Definition Lookup (s : Service) (canonicalURL : string) (now : Time) : Verdict * bool * Service :=
  let '(verdict, ok, c) := cache_get (s_cache s) canonicalURL now in
  let s := {| s_breaker := s_breaker s; s_cache := c; s_observed := s_observed s |} in
  if negb ok || negb (IsFinal verdict) then (VerdictUnknown, false, observe s resultMiss)
  else (verdict, true, observe s resultHit).

Definition Submit (scanner : option Scanner) (ctxErr : option error) (env : Env) (s : Service)
    (canonicalURL : string) : string * option error * Service :=
  match scanner with
  | None => ("", Some ErrUnavailable, observe s resultError)
  | Some sc =>
      let '(ok, b) := Allow (s_breaker s) (t_allow env) in
      let s := set_breaker s b in
      if negb ok then ("", Some ErrCircuitOpen, observe s resultCircuitOpen)
      else
        let '(scanID, err) := sc_SubmitScan sc canonicalURL in
        let err := match err with
                   | None => if TrimSpace scanID == "" then Some ErrUnavailable else None
                   | Some _ => err
                   end in
        let s := set_breaker s (Complete b (breakerOutcome ctxErr err) (t_complete env)) in
        match ctxErr, err with
        | Some e, _ => ("", Some e, s)
        | None, Some _ =>
            ("", Some ErrUnavailable,
             observe (remember s env canonicalURL VerdictUnknown FailureTTL) resultError)
        | None, None => (scanID, None, observe s resultSubmitted)
        end
  end.

Definition FindRecentScan (scanner : option Scanner) (canonicalURL : string) (since : Time)
    : ScanRecord * Z * option error :=
  let zero := {| sr_UUID := ""; sr_URL := ""; sr_SubmittedAt := 0; sr_Visibility := "" |} in
  match scanner with
  | Some sc =>
      match sc_FindRecentScan sc with
      | Some search => search canonicalURL since
      | None => (zero, 0, Some ErrSearchUnsupported)
      end
  | None => (zero, 0, Some ErrSearchUnsupported)
  end.

Definition Poll (scanner : option Scanner) (ctxErr : option error) (env : Env) (s : Service)
    (canonicalURL scanID : string) : Verdict * option error * Service :=
  match scanner with
  | None => (VerdictUnknown, Some ErrUnavailable, observe s resultError)
  | Some sc =>
      let '(ok, b) := Allow (s_breaker s) (t_allow env) in
      let s := set_breaker s b in
      if negb ok then (VerdictUnknown, Some ErrCircuitOpen, observe s resultCircuitOpen)
      else
        let '(verdict, err) := sc_GetScanResult sc scanID in
        let s := set_breaker s (Complete b (breakerOutcome ctxErr err) (t_complete env)) in
        match ctxErr with
        | Some e => (VerdictUnknown, Some e, s)
        | None =>
            if errors_Is_nil err ErrScanPending
            then (VerdictUnknown, Some ErrScanPending, observe s resultPending)
            else if errors_Is_nil err ErrScanInconclusive
            then (VerdictUnknown, Some ErrScanInconclusive, observe s resultInconclusive)
            else if match err with Some _ => true | None => false end || negb (IsFinal verdict)
            then (VerdictUnknown, Some ErrUnavailable,
                  observe (remember s env canonicalURL VerdictUnknown FailureTTL) resultError)
            else (verdict, None,
                  observe (remember s env canonicalURL verdict VerdictTTL) (resultFor verdict))
        end
  end.

Definition Remember (env : Env) (s : Service) (canonicalURL : string) (verdict : Verdict)
    (remaining : Duration) : Service :=
  if negb (IsFinal verdict) || (remaining <=? 0) then s
  else remember s env canonicalURL verdict remaining.

(** ** Reconciliation (reconcile.go) *)

Definition reconcileLookback : Duration := 24 * Hour.

Record ScanEvidence : Type := {
  se_Verdict : Verdict;
  se_ObservedAt : Time;
  se_CandidateFound : bool
}.

Definition no_evidence : ScanEvidence :=
  {| se_Verdict := ""; se_ObservedAt := 0; se_CandidateFound := false |}.

Definition Age (e : ScanEvidence) (now : Time) : Duration := time_Sub now (se_ObservedAt e).
Definition ExpiresAt (e : ScanEvidence) : Time := time_Add (se_ObservedAt e) VerdictTTL.

(** [ctxErr] is the context after the report was read. *)
Definition reconcileAt (scanner : option Scanner) (ctxErr : option error) (env : Env) (s : Service)
    (canonicalURL : string) (now : Time) : ScanEvidence * option error * Service :=
  match scanner with
  | None => (no_evidence, Some ErrUnavailable, s)
  | Some sc =>
    match sc_GetScanReport sc with
    | None => (no_evidence, Some ErrSearchUnsupported, s)
    | Some GetScanReport =>
      let '(record, _, err) := FindRecentScan scanner canonicalURL (time_Add now (- reconcileLookback)) in
      match err with
      | Some e => (no_evidence, Some e, s)
      | None =>
        if sr_UUID record == "" then (no_evidence, Some ErrNotCheckable, s)
        else
          let found := {| se_Verdict := ""; se_ObservedAt := 0; se_CandidateFound := true |} in
          let '(verdict, observedAt, err) := GetScanReport (sr_UUID record) in
          match ctxErr, err with
          | Some e, _ => (found, Some e, s)
          | None, Some e => (found, Some e, s)
          | None, None =>
            if negb (IsFinal verdict) then (found, Some ErrUnavailable, s)
            else
              let observed := if time_IsZero observedAt then sr_SubmittedAt record else observedAt in
              if time_IsZero observed then (found, Some ErrEvidenceExpired, s)
              else
                let evidence := {| se_Verdict := verdict;
                                   se_ObservedAt := if time_After observed now then now else observed;
                                   se_CandidateFound := true |} in
                if (verdict == VerdictSafe) && negb (time_After (ExpiresAt evidence) now)
                then (found, Some ErrEvidenceExpired, s)
                else
                  let s := Remember env s canonicalURL verdict (time_Sub (ExpiresAt evidence) now) in
                  (evidence, None, observe s (resultFor verdict))
          end
      end
    end
  end.

Definition ReconcileVerdictSafe : string := "safe".
Definition ReconcileVerdictMalicious : string := "malicious".
Definition ReconcileNoCandidate : string := "no_candidate".
Definition ReconcileStillInconclusive : string := "still_inconclusive".
Definition ReconcileUnsupported : string := "unsupported".
Definition ReconcileProviderError : string := "provider_error".

Definition ReconcileOutcome (verdict : Verdict) (err : option error) : string :=
  let ok := match err with None => true | Some _ => false end in
  if ok && (verdict == VerdictSafe) then ReconcileVerdictSafe
  else if ok && (verdict == VerdictMalicious) then ReconcileVerdictMalicious
  else if errors_Is_nil err ErrNotCheckable then ReconcileNoCandidate
  else if errors_Is_nil err ErrScanInconclusive || errors_Is_nil err ErrScanPending ||
          errors_Is_nil err ErrEvidenceExpired then ReconcileStillInconclusive
  else if errors_Is_nil err ErrSearchUnsupported then ReconcileUnsupported
  else ReconcileProviderError.

(** ** Lemmas on the cache *)

Lemma errors_Is_nil_None target : errors_Is_nil None target = false.
Proof. reflexivity. Qed.

Lemma cache_get_hit c key now v c' :
  cache_get c key now = (v, true, c') →
  ∃ e, c_entries c !! key = Some e ∧ v = ce_verdict e ∧ now < ce_expiresAt e ∧ c' = c.
Proof.
  unfold cache_get, time_Before. destruct (c_entries c !! key) as [e|]; [|done].
  destruct (Z.ltb_spec now (ce_expiresAt e)); simpl; [|done]. intros [= <- <-]. by exists e.
Qed.

Lemma cache_get_subset c key now v ok c' :
  cache_get c key now = (v, ok, c') → c_entries c' ⊆ c_entries c ∧ c_maxEntries c' = c_maxEntries c.
Proof.
  unfold cache_get. destruct (c_entries c !! key) as [e|]; [|by intros [= _ _ <-]].
  destruct (negb _); intros [= _ _ <-]; [|done]. split; [apply delete_subseteq|done].
Qed.

Lemma evict_walk_spec now order entries k o f :
  let '(entries', k', f') := evict_walk now order entries k o f in
  entries' ⊆ entries ∧
  (f' = true → f = true ∨ ∃ key, key ∈ order.*1 ∧ entries' !! key = None) ∧
  (f' = false → f = false ∧ entries' = entries ∧
     ((∀ key, key ∈ order.*1 → key ≠ "") → order = [] ∧ k' = k ∨ k' ∈ order.*1 ∨ (k' = k ∧ k ≠ ""))).
Proof.
  revert entries k o f. induction order as [|[key e] order IH]; intros entries k o f; simpl.
  { split; [done|]. split; [by left|]. intros ->. split; [done|]. split; [done|]. by left. }
  destruct (negb (time_Before now (ce_expiresAt e))).
  { specialize (IH (delete key entries) k o true).
    destruct (evict_walk now order (delete key entries) k o true) as [[en' k'] f'].
    destruct IH as (Hsub & Ht & Hf). split; [etrans; [done|apply delete_subseteq]|]. split.
    - intros _. right. exists key. split; [left|].
      destruct (en' !! key) as [x|] eqn:E; [|done].
      apply (lookup_weaken _ _ _ _ E) in Hsub. by rewrite lookup_delete_eq in Hsub.
    - intros ->. by destruct (Hf eq_refl). }
  assert (Hstep : ∀ k2 o2,
    let '(entries', k', f') := evict_walk now order entries k2 o2 f in
    entries' ⊆ entries ∧
    (f' = true → f = true ∨ ∃ key0, key0 ∈ key :: order.*1 ∧ entries' !! key0 = None) ∧
    (f' = false → f = false ∧ entries' = entries ∧
      ((∀ key0, key0 ∈ key :: order.*1 → key0 ≠ "") → k' ∈ order.*1 ∨ k' = k2))).
  { intros k2 o2. specialize (IH entries k2 o2 f).
    destruct (evict_walk now order entries k2 o2 f) as [[en' k'] f'].
    destruct IH as (Hsub & Ht & Hf). split; [done|]. split.
    - intros H. destruct (Ht H) as [?|(x & Hx & Hn)]; [by left|]. right. exists x. split; [by right|done].
    - intros H. destruct (Hf H) as (? & ? & Hk). split; [done|]. split; [done|]. intros Hne.
      destruct Hk as [[_ ->]|[?|[-> _] ] ]; [|by right|by left|by right].
      intros x Hx. apply Hne. by right. }
  destruct ((k == "") || time_Before (ce_expiresAt e) o) eqn:E.
  - specialize (Hstep key (ce_expiresAt e)).
    destruct (evict_walk now order entries key (ce_expiresAt e) f) as [[en' k'] f'].
    destruct Hstep as (? & ? & Hf). split; [done|]. split; [done|]. intros Hf0.
    destruct (Hf Hf0) as (? & ? & Hk). split; [done|]. split; [done|]. intros Hne. right. left.
    destruct (Hk Hne) as [?| ->]; [by right|left].
  - apply orb_false_iff in E as [E _]. apply bool_decide_eq_false_1 in E.
    specialize (Hstep k o). destruct (evict_walk now order entries k o f) as [[en' k'] f'].
    destruct Hstep as (? & ? & Hf). split; [done|]. split; [done|]. intros Hf0.
    destruct (Hf Hf0) as (? & ? & Hk). split; [done|]. split; [done|]. intros Hne. right.
    destruct (Hk Hne) as [?| ->]; [left; by right|by right].
Qed.

Lemma evict_subseteq entries order now : evict entries order now ⊆ entries.
Proof.
  unfold evict. pose proof (evict_walk_spec now order entries "" time_zero false) as H.
  destruct (evict_walk now order entries "" time_zero false) as [[en k] f]. destruct H as [H _].
  case_match; [|done]. etrans; [apply delete_subseteq|done].
Qed.

Lemma evict_size entries order now :
  order ≡ₚ map_to_list entries → entries ≠ ∅ → entries !! "" = None →
  (size (evict entries order now) < size entries)%nat.
Proof.
  intros Hp Hne Hempty. apply map_subset_size, map_subset_alt. split; [apply evict_subseteq|].
  assert (Hkeys : ∀ key, key ∈ order.*1 → is_Some (entries !! key) ∧ key ≠ "").
  { intros key. rewrite Hp. intros ([k e] & -> & Hin)%list_elem_of_fmap.
    apply elem_of_map_to_list in Hin. simpl. split; [eauto|]. intros ->. congruence. }
  unfold evict. pose proof (evict_walk_spec now order entries "" time_zero false) as H.
  destruct (evict_walk now order entries "" time_zero false) as [[en k] f].
  destruct H as (Hsub & Ht & Hf). destruct f; simpl.
  - destruct (Ht eq_refl) as [?|(key & Hk & Hn)]; [done|]. exists key.
    split; [done|by apply Hkeys].
  - destruct (Hf eq_refl) as (_ & -> & Hk).
    destruct Hk as [[-> _]|[Hk|[_ ?] ] ]; [by intros; apply Hkeys| | |done].
    + symmetry in Hp. apply Permutation_nil_r in Hp. by apply map_to_list_empty_iff in Hp.
    + exists k. rewrite bool_decide_eq_false_2 by (by apply Hkeys). simpl.
      split; [apply lookup_delete_eq|by apply Hkeys].
Qed.

(** What a lookup in the map after [cache_set] can find. *)
Lemma cache_set_lookup c order key v ttl now k e :
  c_entries (cache_set c order key v ttl now) !! k = Some e →
  c_entries c !! k = Some e ∨
  (k = key ∧ 0 < ttl ∧ e = {| ce_verdict := v; ce_expiresAt := now + ttl |}).
Proof.
  unfold cache_set, time_Add. destruct (Z.leb_spec ttl 0); [by left|]. simpl.
  destruct (decide (key = k)) as [->|Hne].
  - rewrite lookup_insert_eq. intros [= <-]. right. auto.
  - rewrite lookup_insert_ne by done. left. destruct (_ <=? _); [|done].
    eapply lookup_weaken; [done|apply evict_subseteq].
Qed.

Record cache_wf (c : cache) : Prop := {
  cache_max : 0 < c_maxEntries c;
  cache_size : Z.of_nat (size (c_entries c)) <= c_maxEntries c;
  cache_keys : c_entries c !! "" = None
}.

Lemma newCache_wf n : cache_wf (newCache n).
Proof. unfold newCache, maxCacheEntries. split; simpl; [|rewrite map_size_empty|done]; destruct (Z.leb_spec n 0); lia. Qed.

Lemma cache_set_wf c order key v ttl now :
  cache_wf c → key ≠ "" → order ≡ₚ map_to_list (c_entries c) →
  cache_wf (cache_set c order key v ttl now).
Proof.
  intros [Hm Hs Hk] Hkey Hp. unfold cache_set. destruct (Z.leb_spec ttl 0); [by split|].
  split; simpl; [done| |].
  - assert (Hins : ∀ (m : gmap string cacheEntry) x, (size (<[key := x]> m) <= S (size m))%nat).
    { intros m x. rewrite map_size_insert. destruct (m !! key); simpl; lia. }
    destruct (Z.leb_spec (c_maxEntries c) (Z.of_nat (size (c_entries c)))) as [Hfull|Hroom].
    + assert (c_entries c ≠ ∅) as Hne. { intros He. rewrite He, map_size_empty in Hfull. lia. }
      pose proof (evict_size _ _ now Hp Hne Hk).
      etrans; [apply inj_le, Hins|]. lia.
    + etrans; [apply inj_le, Hins|]. lia.
  - rewrite lookup_insert_ne by done. destruct (_ <=? _); [|done].
    eapply lookup_weaken_None; [done|apply evict_subseteq].
Qed.

(** ** Runs of the service *)

(** What one operation established about a URL, and when. *)
Record evidence : Type := { ev_url : string; ev_verdict : Verdict; ev_at : Time }.

Definition answered (url : string) (v : Verdict) (at_ : Time) : list evidence :=
  if IsFinal v then [{| ev_url := url; ev_verdict := v; ev_at := at_ |}] else [].

Definition answered_if_ok (url : string) (v : Verdict) (err : option error) (at_ : Time) : list evidence :=
  match err with None => answered url v at_ | Some _ => [] end.

(** One operation of some caller, with the evidence it answered.  [Remember]
    trusts its caller, who states how much of a verdict's life is left. *)
Inductive service_step (s : Service) : list evidence → Service → Prop :=
| run_check provider ctxErr env url ref r err s' :
    Check provider ctxErr env s url ref = (r, err, s') →
    service_step s (answered_if_ok url (rr_Verdict r) err (t_set env)) s'
| run_check_secondary verifier ctxErr env url ref r err s' :
    CheckSecondary verifier ctxErr env s url ref = (r, err, s') →
    service_step s (answered_if_ok url (rr_Verdict r) err (t_set env)) s'
| run_submit scanner ctxErr env url id err s' :
    Submit scanner ctxErr env s url = (id, err, s') → service_step s [] s'
| run_poll scanner ctxErr env url scanID v err s' :
    Poll scanner ctxErr env s url scanID = (v, err, s') →
    service_step s (answered_if_ok url v err (t_set env)) s'
| run_reconcile scanner ctxErr env url now e err s' :
    reconcileAt scanner ctxErr env s url now = (e, err, s') →
    service_step s (answered_if_ok url (se_Verdict e) err (t_set env)) s'
| run_remember env url v remaining :
    service_step s (answered url v (t_set env + remaining - VerdictTTL)) (Remember env s url v remaining)
| run_lookup url now v ok s' :
    Lookup s url now = (v, ok, s') → service_step s [] s'
| run_set_breaker b : service_step s [] (SetBreaker s b).

Inductive service_run : list evidence → Service → Prop :=
| run_new : service_run [] newService
| run_step hist s evs s' :
    service_run hist s → service_step s evs s' → service_run (evs ++ hist) s'.

Definition justified (hist : list evidence) (url : string) (e : cacheEntry) : Prop :=
  ∃ ev, ev ∈ hist ∧ ev_url ev = url ∧ ev_verdict ev = ce_verdict e ∧
        ce_expiresAt e <= ev_at ev + VerdictTTL.

(** Every final verdict the service remembers rests on evidence. *)
Definition grounded (hist : list evidence) (s : Service) : Prop :=
  ∀ url e, c_entries (s_cache s) !! url = Some e → IsFinal (ce_verdict e) = true →
  justified hist url e.

(** The change one operation can make to the cache, as its evidence allows. *)
Definition cache_step (s s' : Service) (evs : list evidence) : Prop :=
  ∀ url e, c_entries (s_cache s') !! url = Some e → IsFinal (ce_verdict e) = true →
  c_entries (s_cache s) !! url = Some e ∨ justified evs url e.

Lemma cache_step_same s s' evs : s_cache s' = s_cache s → cache_step s s' evs.
Proof. intros H url e He _. left. congruence. Qed.

Lemma cache_step_remember s s' env url v ttl evs :
  s_cache s' = s_cache (remember s env url v ttl) →
  (IsFinal v = true → 0 < ttl → ∃ ev, ev ∈ evs ∧ ev_url ev = url ∧ ev_verdict ev = v ∧
     t_set env + ttl <= ev_at ev + VerdictTTL) →
  cache_step s s' evs.
Proof.
  intros Hs Hev u e He Hf. rewrite Hs in He. simpl in He.
  apply cache_set_lookup in He as [?|(-> & Httl & ->)]; [by left|right].
  destruct (Hev Hf Httl) as (ev & ? & ? & ? & ?). by exists ev.
Qed.

Lemma answered_final url v t :
  IsFinal v = true → {| ev_url := url; ev_verdict := v; ev_at := t |} ∈ answered url v t.
Proof. unfold answered. intros ->. left. Qed.

Lemma IsFinal_Unknown : IsFinal VerdictUnknown = false.
Proof. reflexivity. Qed.

Lemma evidenceLifetime_le now r : evidenceLifetime now r <= VerdictTTL.
Proof.
  unfold evidenceLifetime. destruct (time_IsZero _); [done|].
  destruct (Z.ltb_spec (time_Sub (rr_ExpiresAt r) now) VerdictTTL); lia.
Qed.

Lemma settleCheck_step s env url result err r err' s' :
  settleCheck s env url result err = (r, err', s') →
  cache_step s s' (answered_if_ok url (rr_Verdict r) err' (t_set env)).
Proof.
  unfold settleCheck.
  destruct (errors_Is_nil err ErrCheckInProgress); [intros [= <- <- <-]; by apply cache_step_same|].
  destruct err as [e|].
  { intros [= <- <- <-]. by eapply cache_step_remember. }
  destruct (_ || _) eqn:Ev.
  { intros [= <- <- <-]. eapply (cache_step_remember _ _ env url); [done|]. intros Hf _.
    assert (Hv : LegacyVerdict (rr_Verdict result) = rr_Verdict result).
    { apply orb_true_iff in Ev as [Ev|Ev]; apply bool_decide_eq_true_1 in Ev; rewrite Ev; reflexivity. }
    rewrite Hv in Hf |- *. eexists. split; [by apply answered_final|]. split_and!; try done.
    simpl. pose proof (evidenceLifetime_le (t_lifetime env) result). lia. }
  destruct (rr_Verdict result == ReputationUnknown); intros [= <- <- <-];
    [by apply cache_step_same|by eapply cache_step_remember].
Qed.

Lemma reconcileAt_Ok scanner ctxErr env s url now e s' :
  reconcileAt scanner ctxErr env s url now = (e, None, s') →
  IsFinal (se_Verdict e) = true ∧ se_ObservedAt e <= now ∧
  (se_Verdict e = VerdictSafe → now < se_ObservedAt e + VerdictTTL) ∧
  s_cache s' = s_cache (Remember env s url (se_Verdict e) (time_Sub (ExpiresAt e) now)).
Proof.
  unfold reconcileAt. destruct scanner as [sc|]; [|done].
  destruct (sc_GetScanReport sc) as [report|]; [|done].
  destruct (FindRecentScan _ _ _) as [[record n] ferr]. destruct ferr; [done|].
  case_bool_decide; [done|].
  destruct (report (sr_UUID record)) as [[v at_] rerr].
  destruct ctxErr, rerr; try done.
  destruct (IsFinal v) eqn:Hf; simpl; [|done].
  set (observed := if time_IsZero at_ then sr_SubmittedAt record else at_).
  unfold time_IsZero at 1. case_bool_decide as Hz; [done|].
  set (at' := if time_After observed now then now else observed).
  destruct (_ && _) eqn:Hexp; [done|]. intros [= <- <-]. simpl.
  assert (Hat : at' <= now ∧ (at' = now ∨ at' = observed)).
  { subst at'. unfold time_After. destruct (Z.ltb_spec now observed); split; lia || auto. }
  split_and!; [done|lia| |done].
  intros ->. rewrite bool_decide_eq_true_2 in Hexp by done. simpl in Hexp.
  apply negb_false_iff, Z.ltb_lt in Hexp. exact Hexp.
Qed.

Lemma reconcileAt_Fail scanner ctxErr env s url now e err s' :
  reconcileAt scanner ctxErr env s url now = (e, Some err, s') → s' = s ∧ se_Verdict e = "".
Proof.
  unfold reconcileAt. destruct scanner as [sc|]; [|by intros [= <- _ <-]].
  destruct (sc_GetScanReport sc) as [report|]; [|by intros [= <- _ <-]].
  destruct (FindRecentScan _ _ _) as [[record n] ferr]. destruct ferr; [by intros [= <- _ <-]|].
  case_bool_decide; [by intros [= <- _ <-]|].
  destruct (report (sr_UUID record)) as [[v at_] rerr].
  destruct ctxErr, rerr; try (by intros [= <- _ <-]).
  destruct (negb (IsFinal v)); [by intros [= <- _ <-]|].
  destruct (time_IsZero (if time_IsZero at_ then _ else _)); [by intros [= <- _ <-]|].
  destruct (_ && _); [by intros [= <- _ <-]|done].
Qed.

Lemma reconcile_step scanner ctxErr env s url now e err s' :
  reconcileAt scanner ctxErr env s url now = (e, err, s') →
  cache_step s s' (answered_if_ok url (se_Verdict e) err (t_set env)).
Proof.
  destruct err as [err|].
  - intros H. apply reconcileAt_Fail in H as [-> _]. by apply cache_step_same.
  - intros (Hf & Hle & _ & Hs)%reconcileAt_Ok. revert Hs. unfold Remember. rewrite Hf. simpl.
    destruct (Z.leb_spec (time_Sub (ExpiresAt e) now) 0); intros Hs; [by apply cache_step_same|].
    eapply (cache_step_remember _ _ env url (se_Verdict e)); [done|]. intros _ _.
    eexists. split; [by apply answered_final|]. split_and!; try done. simpl.
    unfold ExpiresAt, time_Add, time_Sub, MinInt64, MaxInt64, VerdictTTL, Minute, Second in *. lia.
Qed.

Lemma service_step_cache s evs s' : service_step s evs s' → cache_step s s' evs.
Proof.
  intros [provider ctxErr env url ref r err s2 H|verifier ctxErr env url ref r err s2 H
    |scanner ctxErr env url id err s2 H|scanner ctxErr env url scanID v err s2 H
    |scanner ctxErr env url now e err s2 H|env url v remaining|url now v ok s2 H|b].
  - unfold Check in H. destruct provider as [call|]; [|injection H as <- <- <-; by apply cache_step_same].
    destruct (Allow (s_breaker s) (t_allow env)) as [[] b]; [|injection H as <- <- <-; by apply cache_step_same].
    destruct (call url ref) as [result err0]. cbn [negb] in H.
    destruct ctxErr; [injection H as <- <- <-; by apply cache_step_same|]. by apply settleCheck_step in H.
  - unfold CheckSecondary in H. destruct verifier as [call|]; [|injection H as <- <- <-; by apply cache_step_same].
    destruct (Allow (s_breaker s) (t_allow env)) as [[] b]; [|injection H as <- <- <-; by apply cache_step_same].
    destruct (call url ref) as [result err0]. cbn [negb] in H.
    destruct ctxErr, err0; try (injection H as <- <- <-; by apply cache_step_same).
    injection H as <- <- <-. case_bool_decide as Hm; [|by apply cache_step_same].
    eapply (cache_step_remember _ _ env url VerdictMalicious); [done|]. intros Hf _.
    unfold answered_if_ok. rewrite Hm. eexists. split; [by apply answered_final|].
    split_and!; try done. simpl. pose proof (evidenceLifetime_le (t_lifetime env) result). lia.
  - unfold Submit in H. destruct scanner as [sc|]; [|injection H as <- <- <-; by apply cache_step_same].
    destruct (Allow (s_breaker s) (t_allow env)) as [[] b]; [|injection H as <- <- <-; by apply cache_step_same].
    destruct (sc_SubmitScan sc url) as [scanID err0]. cbn [negb] in H.
    destruct ctxErr; [injection H as <- <- <-; by apply cache_step_same|].
    destruct (match err0 with None => _ | Some _ => _ end); injection H as <- <- <-;
      [by eapply cache_step_remember|by apply cache_step_same].
  - unfold Poll in H. destruct scanner as [sc|]; [|injection H as <- <- <-; by apply cache_step_same].
    destruct (Allow (s_breaker s) (t_allow env)) as [[] b]; [|injection H as <- <- <-; by apply cache_step_same].
    destruct (sc_GetScanResult sc scanID) as [v0 err0]. cbn [negb] in H.
    destruct ctxErr; [injection H as <- <- <-; by apply cache_step_same|].
    destruct (errors_Is_nil err0 ErrScanPending); [injection H as <- <- <-; by apply cache_step_same|].
    destruct (errors_Is_nil err0 ErrScanInconclusive); [injection H as <- <- <-; by apply cache_step_same|].
    destruct (_ || _); injection H as <- <- <-; [by eapply cache_step_remember|].
    eapply (cache_step_remember _ _ env url v0); [done|]. intros Hf _.
    eexists. split; [by apply answered_final|]. by split_and!.
  - by eapply reconcile_step.
  - unfold Remember. destruct (negb (IsFinal v) || (remaining <=? 0)); [by apply cache_step_same|].
    eapply cache_step_remember; [done|]. intros Hf _. eexists. split; [by apply answered_final|].
    split_and!; try done. simpl. lia.
  - unfold Lookup in H. destruct (cache_get (s_cache s) url now) as [[v0 ok0] c] eqn:E.
    apply cache_get_subset in E as [Hsub _]. intros u e He _. left.
    eapply lookup_weaken; [|exact Hsub]. destruct (_ || _); injection H as <- <- <-; exact He.
  - by apply cache_step_same.
Qed.

Lemma service_run_grounded hist s : service_run hist s → grounded hist s.
Proof.
  induction 1 as [|hist s evs s' _ IH Hs]; intros url e He Hf.
  { unfold newService, newCache in He. simpl in He. by rewrite lookup_empty in He. }
  apply service_step_cache in Hs. destruct (Hs url e He Hf) as [Hold|(ev & Hin & H)].
  - destruct (IH url e Hold Hf) as (ev & Hin & H). exists ev. split; [|done]. apply elem_of_app. by right.
  - exists ev. split; [|done]. apply elem_of_app. by left.
Qed.

(** ** Properties *)


Definition env_example : Env :=
  {| t_allow := 100; t_complete := 110; t_lifetime := 120; t_set := 130; iteration := [] |}.

Definition safe_provider (url ref : string) : ReputationResult * option error :=
  ({| rr_Verdict := ReputationSafe; rr_Provider := "p"; rr_ProviderRef := ""; rr_CheckedAt := 100;
      rr_ThreatCategories := []; rr_ExpiresAt := 0; rr_Reason := "" |}, None).


(** One use of the cache; when it is full, the runtime iterates its entries in
    some order. *)
Inductive cache_use (c : cache) : cache → Prop :=
| use_set order key v ttl now :
    key ≠ "" → order ≡ₚ map_to_list (c_entries c) → cache_use c (cache_set c order key v ttl now)
| use_get key now : cache_use c (snd (cache_get c key now)).

Lemma cache_use_wf c c' : cache_use c c' → cache_wf c → cache_wf c' ∧ c_maxEntries c' = c_maxEntries c.
Proof.
  intros [order key v ttl now Hk Hp|key now] Hwf.
  - split; [by apply cache_set_wf|]. unfold cache_set. by destruct (ttl <=? 0).
  - destruct (cache_get c key now) as [[v ok] c2] eqn:E. apply cache_get_subset in E as [Hsub Hm]. simpl.
    split; [|done]. destruct Hwf as [H1 H2 H3]. split; [by rewrite Hm| |by eapply lookup_weaken_None].
    rewrite Hm. apply map_subseteq_size in Hsub. lia.
Qed.

(** The cache is bounded and honest, in whatever order the runtime iterates
    it: it never holds more entries than its bound, it never serves a verdict at
    or after its expiry, and a verdict just stored is served until it expires. *)
Theorem cache_bounded_and_honest n c :
  rtc cache_use (newCache n) c →
  Z.of_nat (size (c_entries c)) <= c_maxEntries (newCache n) ∧
  (∀ key now v c', cache_get c key now = (v, true, c') →
     ∃ e, c_entries c !! key = Some e ∧ v = ce_verdict e ∧ now < ce_expiresAt e) ∧
  (∀ order key v ttl now t, 0 < ttl → now <= t < now + ttl →
     cache_get (cache_set c order key v ttl now) key t = (v, true, cache_set c order key v ttl now)).
Proof.
  intros Hr.
  assert (Hwf : cache_wf c ∧ c_maxEntries c = c_maxEntries (newCache n)).
  { revert c Hr. apply rtc_ind_r; [split; [apply newCache_wf|done]|].
    intros c1 c2 _ Hu [Hwf Hm]. destruct (cache_use_wf _ _ Hu Hwf) as [? ->]. done. }
  destruct Hwf as [[Hpos Hsize Hkey] Hm]. split; [by rewrite <-Hm|]. split.
  - intros key now v c' (e & ? & ? & ? & _)%cache_get_hit. by exists e.
  - intros order key v ttl now t Httl Ht. unfold cache_get, cache_set, time_Before, time_Add.
    destruct (Z.leb_spec ttl 0); [lia|]. simpl. rewrite lookup_insert_eq. simpl.
    by rewrite (proj2 (Z.ltb_lt t (now + ttl))) by lia.
Qed.

Lemma cache_bounded_and_honest_witness :
  let c := cache_set (newCache 1) [] "a" VerdictSafe 10 0 in
  let c' := cache_set c (map_to_list (c_entries c)) "b" VerdictMalicious 10 5 in
  Z.of_nat (size (c_entries c')) <= 1 ∧ fst (cache_get c' "a" 6) = (VerdictUnknown, false).
Proof.
  cbv zeta. set (c := cache_set (newCache 1) [] "a" VerdictSafe 10 0).
  set (c' := cache_set c (map_to_list (c_entries c)) "b" VerdictMalicious 10 5).
  assert (Hr : rtc cache_use (newCache 1) c').
  { eapply rtc_l; [apply (use_set _ [] "a" VerdictSafe 10 0); [done|]|].
    - simpl. by rewrite map_to_list_empty.
    - apply rtc_once. apply use_set; done. }
  split; [|vm_compute; reflexivity].
  destruct (cache_bounded_and_honest 1 c' Hr) as [Hb _]. exact Hb.
Defined.

(** A consultation reports only what the provider said.  It succeeds only
    when an admitted call, with the caller still there, answered safe, malicious
    or unknown, and that answer is returned untouched.  A refusal by the open
    circuit and a caller that went away leave the cache exactly as it was. *)
Theorem Check_reports_provider provider ctxErr env s url ref r err s' :
  Check provider ctxErr env s url ref = (r, err, s') →
  (err = None → ∃ call, provider = Some call ∧ fst (Allow (s_breaker s) (t_allow env)) = true ∧
     ctxErr = None ∧ call url ref = (r, None) ∧
     rr_Verdict r ∈ [ReputationSafe; ReputationMalicious; ReputationUnknown]) ∧
  (provider ≠ None → fst (Allow (s_breaker s) (t_allow env)) = false →
     err = Some ErrCircuitOpen ∧ s_cache s' = s_cache s) ∧
  (provider ≠ None → ctxErr ≠ None → s_cache s' = s_cache s) ∧
  (∀ u, u ≠ url → ∀ e, c_entries (s_cache s') !! u = Some e → c_entries (s_cache s) !! u = Some e).
Proof.
  unfold Check. intros H.
  destruct provider as [call|]; [|injection H as <- <- <-; split_and!; done].
  destruct (Allow (s_breaker s) (t_allow env)) as [[] b]; simpl in H |- *;
    [|injection H as <- <- <-; split_and!; done].
  destruct (call url ref) as [result err0] eqn:Ecall.
  destruct ctxErr as [ce|]; [injection H as <- <- <-; split_and!; done|].
  assert (Hother : ∀ v ttl s0 u e, u ≠ url →
    c_entries (s_cache (remember s0 env url v ttl)) !! u = Some e → c_entries (s_cache s0) !! u = Some e).
  { intros v ttl s0 u e Hu [?|(-> & _)]%cache_set_lookup; done. }
  unfold settleCheck in H.
  destruct (errors_Is_nil err0 ErrCheckInProgress) eqn:Ep.
  { injection H as <- <- <-. split_and!; [|done..]. intros ->. by rewrite errors_Is_nil_None in Ep. }
  destruct err0 as [e0|].
  { injection H as <- <- <-. split_and!; [done..|]. intros u Hu e He. by eapply Hother in He. }
  destruct (_ || _) eqn:Ev.
  { injection H as <- <- <-. split_and!; [|done..|].
    - intros _. exists call. split_and!; try done. apply orb_true_iff in Ev as [Ev|Ev];
        apply bool_decide_eq_true_1 in Ev; rewrite Ev; [left|right; left].
    - intros u Hu e He. by eapply Hother in He. }
  destruct (rr_Verdict result == ReputationUnknown) eqn:Eu; injection H as <- <- <-.
  - split_and!; [|done..]. intros _. exists call. split_and!; try done.
    apply bool_decide_eq_true_1 in Eu. rewrite Eu. right; right; left.
  - split_and!; [done..|]. intros u Hu e He. by eapply Hother in He.
Qed.

Lemma Check_reports_provider_witness :
  ∃ call, Some safe_provider = Some call ∧ call "u" "" = (fst (safe_provider "" ""), None).
Proof.
  assert (H : Check (Some safe_provider) None env_example newService "u" "" =
    (fst (safe_provider "" ""), None,
     snd (Check (Some safe_provider) None env_example newService "u" ""))) by (vm_compute; reflexivity).
  destruct (Check_reports_provider _ _ _ _ _ _ _ _ _ H) as (Hok & _).
  destruct (Hok eq_refl) as (call & Hc & _ & _ & Hcall & _).
  exists call. split; [exact Hc|exact Hcall].
Defined.

(** The open circuit is not remembered: the refusal carries
    [ErrUnavailable], yet the URL stays out of the cache, where the documentation
    of [Check] announces a failure cached for 30 seconds. *)
Theorem circuit_open_not_cached ctxErr :
  let s := SetBreaker newService
             (Some (fold_left apply_op outage (newBreaker 0 0))) in
  let '(r, err, s') := Check (Some safe_provider) ctxErr env_example s "https://a.example/" "" in
  err = Some ErrCircuitOpen ∧ errors_Is_nil err ErrUnavailable = true ∧
  c_entries (s_cache s') !! "https://a.example/" = None.
Proof. vm_compute. done. Qed.

(** The composed provider.  A decisive answer of the primary - safe,
    malicious or a check in progress - stands, and a reference to resume goes to
    the secondary alone.  Otherwise the secondary decides, unless the caller went
    away; and when both fail, the error reported is the primary's. *)
Theorem fallback_Check_decides primary secondary ctxErr ta tc s url ref :
  let '(r, err, s') := fallback_Check primary secondary ctxErr ta tc s url ref in
  let '(pr, perr, _) := checkPrimary primary ctxErr ta tc s url in
  let '(sr, serr) := pv_Check secondary url (if resumable ref then ref else "") in
  (resumable ref = true → r = sr ∧ err = serr ∧ fb_breaker s' = fb_breaker s) ∧
  (resumable ref = false → decisive pr perr = true → r = pr ∧ err = perr) ∧
  (resumable ref = false → decisive pr perr = false →
     (∀ e, ctxErr = Some e → err = Some e ∧ r = zero_result) ∧
     (ctxErr = None → serr = None → r = sr ∧ err = None) ∧
     (ctxErr = None → serr ≠ None → err = match perr with Some e => Some e | None => serr end)) ∧
  (err = None → rr_Verdict r = ReputationSafe →
     (resumable ref = false ∧ perr = None ∧ rr_Verdict pr = ReputationSafe) ∨
     (serr = None ∧ rr_Verdict sr = ReputationSafe)).
Proof.
  unfold fallback_Check.
  destruct (checkPrimary primary ctxErr ta tc s url) as [[pr perr] s1].
  unfold checkSecondary. destruct (resumable ref) eqn:Er.
  { destruct (pv_Check secondary url ref) as [sr serr]. simpl. split_and!; try done. auto. }
  destruct (decisive pr perr) eqn:Ed.
  { destruct (pv_Check secondary url "") as [sr serr]. simpl. split_and!; try done.
    intros -> Hs. left. done. }
  destruct (pv_Check secondary url "") as [sr serr]. simpl.
  destruct ctxErr as [e|].
  { split_and!; try done; naive_solver. }
  destruct serr as [se|], perr as [pe|]; simpl; split_and!; try done; try naive_solver.
Qed.

(** Reconciling never invents a verdict.  It answers without an error only
    with a final verdict that the dated report of an earlier scan carries,
    observed no later than now and, for a clearance, less than 15 minutes ago;
    every other outcome leaves the service exactly as it was. *)
Theorem reconcileAt_sound scanner ctxErr env s url now e err s' :
  reconcileAt scanner ctxErr env s url now = (e, err, s') →
  (err = None →
     IsFinal (se_Verdict e) = true ∧ se_ObservedAt e <= now ∧
     (se_Verdict e = VerdictSafe → now < se_ObservedAt e + VerdictTTL) ∧
     ReconcileOutcome (se_Verdict e) err = resultFor (se_Verdict e)) ∧
  (err ≠ None → s' = s ∧ se_Verdict e = "").
Proof.
  intros H. split.
  - intros ->. apply reconcileAt_Ok in H as (Hf & Hle & Hs & _). split_and!; [done..|].
    unfold ReconcileOutcome, resultFor. unfold IsFinal in Hf. simpl.
    destruct (se_Verdict e == VerdictSafe); [done|]. simpl in Hf. by rewrite Hf.
  - destruct err as [err|]; [|done]. intros _. by eapply reconcileAt_Fail.
Qed.

Definition scanner_example : Scanner :=
  {| sc_SubmitScan := λ _, ("", None);
     sc_GetScanResult := λ _, (VerdictUnknown, None);
     sc_FindRecentScan := Some (λ url since,
       ({| sr_UUID := "s1"; sr_URL := url; sr_SubmittedAt := 30 * Hour; sr_Visibility := "" |}, 1, None));
     sc_GetScanReport := Some (λ id, (VerdictSafe, 30 * Hour, None)) |}.

Lemma reconcileAt_sound_witness :
  let now := 30 * Hour + Minute in
  let '(e, err, _) := reconcileAt (Some scanner_example) None env_example newService "u" now in
  err = None ∧ IsFinal (se_Verdict e) = true.
Proof.
  cbv zeta.
  destruct (reconcileAt (Some scanner_example) None env_example newService "u" (30 * Hour + Minute))
    as [[e err] s'] eqn:E.
  assert (He : err = None) by (vm_compute in E; injection E as _ <- _; reflexivity).
  split; [exact He|].
  apply (reconcileAt_sound (Some scanner_example) None env_example newService "u" (30 * Hour + Minute) e err s' E).
  exact He.
Defined.
