(* ===== verification/Envelope.v ===== *)
(** * The encrypted envelope of an attachment

    [services/file-service/internal/crypto/envelope.go]: the key ring and the
    wrapped data key, the chunked stream and its random access.

    AES-GCM is a parameter: an [AEAD] seals and opens bytes under a key, a nonce
    and associated data.  The laws are what GCM is documented to be as a
    function: opening succeeds exactly on what sealing produces, and sealing adds
    a 16-byte tag.  Nothing is assumed of its secrecy or of the difficulty of
    forging.  SHA-256 and base64 are functions of their argument.  A byte is an
    integer. *)

From stdpp Require Import prelude gmap strings sorting.
From Stdlib Require Import ZArith Lia Ascii.
From S2P Require Import Prelude GoStrings.
Local Open Scope Z_scope.

Abbreviation byte := Z (only parsing).
Abbreviation bytes := (list Z) (only parsing).

(** ** Constants *)

Definition EnvelopeVersion : Z := 1.
Definition KeyWrapVersion : Z := 2.
Definition ChunkSize : Z := 64 * 1024.
Definition KeySize : Z := 32.
Definition nonceSize : Z := 12.
Definition tagSize : Z := 16.
Definition baseNonceSize : Z := nonceSize - 4.
Definition magic : bytes := [0x4E; 0x43; 0x46; 0x31].
Definition headerSize : Z := Z.of_nat (length magic) + baseNonceSize.
Definition blockSize : Z := ChunkSize + tagSize.
Definition EnvelopeHeaderSize : Z := headerSize.
Definition dekMagic : bytes := [0x4E; 0x43; 0x44; 0x32].
Definition maxKeyIDLength : Z := 64.

Definition ErrInvalidKey : error := ErrNew "crypto.ErrInvalidKey".
Definition ErrUnknownKey : error := ErrNew "crypto.ErrUnknownKey".
Definition ErrCiphertext : error := ErrNew "crypto.ErrCiphertext".
Definition ErrStreamTooLong : error := ErrNew "crypto.ErrStreamTooLong".
Definition ErrInvalidBinding : error := ErrNew "crypto.ErrInvalidBinding".
Definition ErrUnsupportedVersion : error := ErrNew "crypto.ErrUnsupportedVersion".

Definition io_EOF : error := ErrNew "io.EOF".
Definition io_ErrUnexpectedEOF : error := ErrNew "io.ErrUnexpectedEOF".

(** Lengths and slices with [int64] offsets. *)
Definition blen (b : bytes) : Z := Z.of_nat (length b).
Definition ztake (n : Z) (b : bytes) : bytes := take (Z.to_nat n) b.
Definition zdrop (n : Z) (b : bytes) : bytes := drop (Z.to_nat n) b.

(** [binary.BigEndian.AppendUint16], [32], [64]. *)
Fixpoint big_endian (width : nat) (z : Z) : bytes :=
  match width with
  | O => []
  | S w => (z / 256 ^ Z.of_nat w) mod 256 :: big_endian w z
  end.

(** ** The cipher *)

Class AEAD : Type := {
  aead_key : Type;
  (** [aes.NewCipher] and [cipher.NewGCM] on a key of the right length. *)
  aead_new : bytes → aead_key;
  aead_seal : aead_key → bytes → bytes → bytes → bytes;
  aead_open : aead_key → bytes → bytes → bytes → option bytes
}.

Class AEADLaws `(AEAD) : Prop := {
  aead_open_seal k nonce c aad p : aead_open k nonce c aad = Some p ↔ c = aead_seal k nonce p aad;
  aead_seal_length k nonce p aad : blen (aead_seal k nonce p aad) = blen p + tagSize
}.

(** ** Sources *)

(** An [io.Reader] consumed through [io.ReadFull]: what it still delivers, and
    the error it ends with when it is not the end of file. *)
Record Source : Type := { src_content : bytes; src_fail : option error }.

Definition ReadFull (src : Source) (n : Z) : bytes * option error * Source :=
  let got := ztake n (src_content src) in
  let src' := {| src_content := zdrop n (src_content src); src_fail := src_fail src |} in
  if n <=? blen (src_content src) then (got, None, src')
  else match src_fail src with
       | Some e => (got, Some e, src')
       | None => match got with
                 | [] => (got, Some io_EOF, src')
                 | _ => (got, Some io_ErrUnexpectedEOF, src')
                 end
       end.

(** The shape both readers share: a buffer served piecewise and refilled. *)
Record buffered (S : Type) : Type := {
  bf_state : S;
  bf_buf : bytes;
  bf_offset : Z;
  bf_done : bool;
  bf_err : option error
}.
Arguments bf_state {S} _.
Arguments bf_buf {S} _.
Arguments bf_offset {S} _.
Arguments bf_done {S} _.
Arguments bf_err {S} _.
Arguments Build_buffered {S} _ _ _ _ _.

Section Read.
Context {S : Type} (fill : buffered S → buffered S).

(** [r.buf, r.offset = r.buf[:0], 0] and then [r.fill()]. *)
Definition refill (r : buffered S) : buffered S :=
  fill {| bf_state := bf_state r; bf_buf := []; bf_offset := 0; bf_done := bf_done r; bf_err := bf_err r |}.

Definition exhausted (r : buffered S) : bool := bf_offset r =? blen (bf_buf r).

(** The loop of [Read]; [None] when [fuel] turns were not enough. *)
Fixpoint read_loop (fuel : nat) (r : buffered S) : option (option error * buffered S) :=
  match fuel with
  | O => None
  | Datatypes.S fuel =>
      if exhausted r then
        match bf_err r with
        | Some e => Some (Some e, r)
        | None => if bf_done r then Some (Some io_EOF, r) else read_loop fuel (refill r)
        end
      else Some (None, r)
  end.

(** [Read] into a slice of length [n]: the bytes copied, the error, the reader. *)
Definition Read (r : buffered S) (n : Z) : option (bytes * option error * buffered S) :=
  match read_loop 3 r with
  | None => None
  | Some (Some e, r) => Some ([], Some e, r)
  | Some (None, r) =>
      let piece := ztake n (zdrop (bf_offset r) (bf_buf r)) in
      Some (piece, None,
        {| bf_state := bf_state r; bf_buf := bf_buf r; bf_offset := bf_offset r + blen piece;
           bf_done := bf_done r; bf_err := bf_err r |})
  end.

(** Everything a consumer reads until the reader reports an error: the bytes and
    that error, [io.EOF] at the end of the stream. *)
Fixpoint drain (fuel : nat) (r : buffered S) : option (bytes * error) :=
  match fuel with
  | O => None
  | Datatypes.S fuel =>
      let rest := zdrop (bf_offset r) (bf_buf r) in
      match bf_err r with
      | Some e => Some (rest, e)
      | None =>
          if bf_done r then Some (rest, io_EOF)
          else match drain fuel (refill r) with
               | Some (out, e) => Some (rest ++ out, e)
               | None => None
               end
      end
  end.
End Read.

(** ** Nonces and associated data *)

Definition chunkNonce (base : bytes) (index : Z) : bytes := base ++ big_endian 4 index.

Definition chunkAAD (attachmentID : bytes) (index : Z) (final : bool) : bytes :=
  magic ++ attachmentID ++ big_endian 4 index ++ [if final then 1 else 0].

Section Stream.
Context {cipher : AEAD}.

(** [newAEAD]. *)
Definition newAEAD (key : bytes) : result aead_key :=
  if negb (blen key =? KeySize) then Fail (ErrWrap "key must be 32 bytes" ErrInvalidKey)
  else Ok (aead_new key).

(** *** Encrypting *)

Record enc_state : Type := {
  es_src : Source;
  es_aead : aead_key;
  es_attachmentID : bytes;
  es_baseNonce : bytes;
  es_index : Z
}.

Abbreviation encryptingReader := (buffered enc_state) (only parsing).

Definition enc_nonce (s : enc_state) : bytes := chunkNonce (es_baseNonce s) (es_index s).
Definition enc_aad (s : enc_state) (final : bool) : bytes :=
  chunkAAD (es_attachmentID s) (es_index s) final.

Definition enc_with (s : enc_state) (src : Source) (index : Z) : enc_state :=
  {| es_src := src; es_aead := es_aead s; es_attachmentID := es_attachmentID s;
     es_baseNonce := es_baseNonce s; es_index := index |}.

Definition enc_fill (r : encryptingReader) : encryptingReader :=
  let s := bf_state r in
  if es_index s =? MaxUint32
  then {| bf_state := s; bf_buf := bf_buf r; bf_offset := bf_offset r; bf_done := bf_done r;
          bf_err := Some ErrStreamTooLong |}
  else
    let '(plain, err, src) := ReadFull (es_src s) ChunkSize in
    match err with
    | None =>
        {| bf_state := enc_with s src (es_index s + 1);
           bf_buf := bf_buf r ++ aead_seal (es_aead s) (enc_nonce s) plain (enc_aad s false);
           bf_offset := bf_offset r; bf_done := bf_done r; bf_err := bf_err r |}
    | Some e =>
        if errors_Is e io_EOF || errors_Is e io_ErrUnexpectedEOF then
          {| bf_state := enc_with s src (es_index s);
             bf_buf := bf_buf r ++ aead_seal (es_aead s) (enc_nonce s) plain (enc_aad s true);
             bf_offset := bf_offset r; bf_done := true; bf_err := bf_err r |}
        else
          {| bf_state := enc_with s src (es_index s); bf_buf := bf_buf r; bf_offset := bf_offset r;
             bf_done := bf_done r; bf_err := Some e |}
    end.

(** [baseNonce] is what the random source delivered. *)
Definition NewEncryptingReader (baseNonce : bytes) (src : Source) (dataKey attachmentID : bytes)
    : result encryptingReader :=
  aead ← newAEAD dataKey;
  Ok {| bf_state := {| es_src := src; es_aead := aead; es_attachmentID := attachmentID;
                       es_baseNonce := baseNonce; es_index := 0 |};
        bf_buf := magic ++ baseNonce; bf_offset := 0; bf_done := false; bf_err := None |}.

(** *** Decrypting *)

Record dec_state : Type := {
  ds_src : Source;
  ds_aead : aead_key;
  ds_attachmentID : bytes;
  ds_baseNonce : bytes;
  ds_index : Z;
  ds_expected : Z;
  ds_produced : Z;
  ds_headerRead : bool
}.

Abbreviation decryptingReader := (buffered dec_state) (only parsing).

Definition dec_fail (r : decryptingReader) (e : error) : decryptingReader :=
  {| bf_state := bf_state r; bf_buf := bf_buf r; bf_offset := bf_offset r; bf_done := bf_done r;
     bf_err := Some e |}.

Definition dec_src (s : dec_state) (src : Source) : dec_state :=
  {| ds_src := src; ds_aead := ds_aead s; ds_attachmentID := ds_attachmentID s;
     ds_baseNonce := ds_baseNonce s; ds_index := ds_index s; ds_expected := ds_expected s;
     ds_produced := ds_produced s; ds_headerRead := ds_headerRead s |}.

Definition dec_set_src (r : decryptingReader) (src : Source) : decryptingReader :=
  {| bf_state := dec_src (bf_state r) src; bf_buf := bf_buf r; bf_offset := bf_offset r;
     bf_done := bf_done r; bf_err := bf_err r |}.

Definition dec_set_done (r : decryptingReader) : decryptingReader :=
  {| bf_state := bf_state r; bf_buf := bf_buf r; bf_offset := bf_offset r; bf_done := true;
     bf_err := bf_err r |}.

(** [open]: authenticate one block and make it the buffer. *)
Definition dec_open (r : decryptingReader) (block : bytes) (final : bool) : decryptingReader :=
  let s := bf_state r in
  if blen block <? tagSize then dec_fail r (ErrWrap "truncated chunk" ErrCiphertext)
  else
    match aead_open (ds_aead s) (chunkNonce (ds_baseNonce s) (ds_index s)) block
            (chunkAAD (ds_attachmentID s) (ds_index s) final) with
    | None => dec_fail r (ErrWrap "chunk" ErrCiphertext)
    | Some plain =>
        let produced := ds_produced s + blen plain in
        if (ds_expected s <? produced) || (final && negb (produced =? ds_expected s))
        then dec_fail r (ErrWrap "plaintext length" ErrCiphertext)
        else
          {| bf_state := {| ds_src := ds_src s; ds_aead := ds_aead s;
               ds_attachmentID := ds_attachmentID s; ds_baseNonce := ds_baseNonce s;
               ds_index := ds_index s + 1; ds_expected := ds_expected s;
               ds_produced := produced; ds_headerRead := ds_headerRead s |};
             bf_buf := plain; bf_offset := bf_offset r; bf_done := bf_done r; bf_err := bf_err r |}
    end.

Definition magic_ok (header : bytes) : bool := ztake 4 header == magic.

Definition readHeader (r : decryptingReader) : bool * decryptingReader :=
  let s := bf_state r in
  let '(header, err, src) := ReadFull (ds_src s) headerSize in
  let r := dec_set_src r src in
  match err with
  | Some e =>
      if errors_Is e io_EOF || errors_Is e io_ErrUnexpectedEOF
      then (false, dec_fail r (ErrWrap "truncated header" ErrCiphertext))
      else (false, dec_fail r e)
  | None =>
      if negb (magic_ok header) then (false, dec_fail r (ErrWrap "unsupported envelope" ErrCiphertext))
      else
        (true,
         {| bf_state := {| ds_src := src; ds_aead := ds_aead s; ds_attachmentID := ds_attachmentID s;
              ds_baseNonce := zdrop 4 header; ds_index := ds_index s; ds_expected := ds_expected s;
              ds_produced := ds_produced s; ds_headerRead := true |};
            bf_buf := bf_buf r; bf_offset := bf_offset r; bf_done := bf_done r; bf_err := bf_err r |})
  end.

(** The part of [fill] after the header. *)
Definition fill_chunk (r : decryptingReader) : decryptingReader :=
  if ds_index (bf_state r) =? MaxUint32 then dec_fail r ErrStreamTooLong
  else
    let '(block, err, src) := ReadFull (ds_src (bf_state r)) blockSize in
    let r := dec_set_src r src in
    match err with
    | None => dec_open r block false
    | Some e =>
        if errors_Is e io_ErrUnexpectedEOF then dec_set_done (dec_open r block true)
        else if errors_Is e io_EOF then dec_fail r (ErrWrap "truncated stream" ErrCiphertext)
        else dec_fail r e
    end.

Definition dec_fill (r : decryptingReader) : decryptingReader :=
  if negb (ds_headerRead (bf_state r)) then
    let '(ok, r) := readHeader r in
    if ok then fill_chunk r else r
  else fill_chunk r.

Definition newDecryptingReader (src : Source) (dataKey attachmentID : bytes) (plaintextSize : Z)
    : result decryptingReader :=
  if plaintextSize <? 0 then Fail (ErrWrap "plaintext size must not be negative" ErrInvalidBinding)
  else
    aead ← newAEAD dataKey;
    Ok {| bf_state := {| ds_src := src; ds_aead := aead; ds_attachmentID := attachmentID;
            ds_baseNonce := replicate 8 0; ds_index := 0; ds_expected := plaintextSize;
            ds_produced := 0; ds_headerRead := false |};
          bf_buf := []; bf_offset := 0; bf_done := false; bf_err := None |}.

Definition NewDecryptingReader := newDecryptingReader.

Definition NewChunkReader (header : bytes) (chunks : Source) (dataKey objectID : bytes)
    (plaintextSize firstChunk : Z) : result decryptingReader :=
  reader ← newDecryptingReader chunks dataKey objectID plaintextSize;
  if negb (blen header =? headerSize) || negb (magic_ok header)
  then Fail (ErrWrap "unsupported envelope" ErrCiphertext)
  else
    let produced := firstChunk * ChunkSize in
    if plaintextSize <? produced then Fail (ErrWrap "chunk beyond plaintext length" ErrCiphertext)
    else
      let s := bf_state reader in
      Ok {| bf_state := {| ds_src := ds_src s; ds_aead := ds_aead s; ds_attachmentID := ds_attachmentID s;
              ds_baseNonce := zdrop 4 header; ds_index := firstChunk; ds_expected := ds_expected s;
              ds_produced := produced; ds_headerRead := true |};
            bf_buf := bf_buf reader; bf_offset := bf_offset reader; bf_done := bf_done reader;
            bf_err := bf_err reader |}.
End Stream.

(** ** Sizes and offsets *)

(** Go's [/] and [%] truncate. *)
Definition CiphertextSize (plaintextSize : Z) : Z :=
  let fullChunks := Z.quot plaintextSize ChunkSize in
  let remainder := Z.rem plaintextSize ChunkSize in
  headerSize + fullChunks * blockSize + remainder + tagSize.

Definition ChunkLocation (plaintextOffset : Z) : Z * Z * Z :=
  let plaintextOffset := if plaintextOffset <? 0 then 0 else plaintextOffset in
  let index := Z.quot plaintextOffset ChunkSize in
  let index := if MaxUint32 <? index then MaxUint32 else index in
  (index, headerSize + index * blockSize, Z.rem plaintextOffset ChunkSize).

(** ** Lemmas on slices *)

Lemma sizes : 0 < ChunkSize ∧ blockSize = ChunkSize + tagSize ∧ tagSize = 16 ∧ headerSize = 12.
Proof. done. Qed.

#[global] Opaque ChunkSize blockSize.

Lemma blen_nonneg b : 0 <= blen b.
Proof. unfold blen. lia. Qed.

Lemma blen_app a b : blen (a ++ b) = blen a + blen b.
Proof. unfold blen. rewrite length_app. lia. Qed.

Lemma ztake_zdrop n b : ztake n b ++ zdrop n b = b.
Proof. apply take_drop. Qed.

Lemma blen_ztake n b : 0 <= n <= blen b → blen (ztake n b) = n.
Proof. unfold blen, ztake. intros H. rewrite length_take. lia. Qed.

Lemma blen_zdrop n b : 0 <= n <= blen b → blen (zdrop n b) = blen b - n.
Proof. unfold blen, zdrop. intros H. rewrite length_drop. lia. Qed.

Lemma ztake_all n b : blen b <= n → ztake n b = b.
Proof. unfold blen, ztake. intros H. apply take_ge. lia. Qed.

Lemma zdrop_all n b : blen b <= n → zdrop n b = [].
Proof. unfold blen, zdrop. intros H. apply drop_ge. lia. Qed.

Lemma ztake_app n a b : blen a = n → ztake n (a ++ b) = a.
Proof. unfold blen, ztake. intros H. apply take_app_length'. lia. Qed.

Lemma zdrop_app n a b : blen a = n → zdrop n (a ++ b) = b.
Proof. unfold blen, zdrop. intros H. apply drop_app_length'. lia. Qed.

Lemma zdrop_0 b : zdrop 0 b = b.
Proof. done. Qed.

Lemma blen_nil b : blen b = 0 → b = [].
Proof. unfold blen. intros H. apply length_zero_iff_nil. lia. Qed.

(** ** The stream as a function *)

(** Full chunks, and then the shorter last one, which may be empty. *)
Fixpoint split_chunks (fuel : nat) (p : bytes) : list bytes :=
  match fuel with
  | O => [p]
  | S fuel =>
      if ChunkSize <=? blen p then ztake ChunkSize p :: split_chunks fuel (zdrop ChunkSize p) else [p]
  end.

Definition chunks (p : bytes) : list bytes := split_chunks (length p) p.

Lemma split_chunks_fuel f g p :
  (length p <= f)%nat → (length p <= g)%nat → split_chunks f p = split_chunks g p.
Proof.
  destruct sizes as (Hc & _).
  assert (Hshort : ∀ k q, (length q <= 0)%nat → split_chunks k q = [q]).
  { intros [|k] q Hq; simpl; [done|]. destruct (Z.leb_spec ChunkSize (blen q)); [|done].
    unfold blen in *. lia. }
  revert g p. induction f as [|f IH]; intros g p Hf Hg; [by rewrite !Hshort by lia|].
  destruct g as [|g]; [by rewrite !Hshort by lia|]. simpl.
  destruct (Z.leb_spec ChunkSize (blen p)) as [Hle|]; [|done]. f_equal.
  assert (length (zdrop ChunkSize p) < length p)%nat.
  { unfold zdrop, blen in *. rewrite length_drop. lia. }
  apply IH; lia.
Qed.

Lemma chunks_unfold p :
  chunks p = if ChunkSize <=? blen p then ztake ChunkSize p :: chunks (zdrop ChunkSize p) else [p].
Proof.
  destruct sizes as (Hc & _). unfold chunks at 1.
  destruct (length p) as [|n] eqn:E; simpl.
  - destruct (Z.leb_spec ChunkSize (blen p)) as [Hle|]; [|done]. unfold blen in Hle. lia.
  - destruct (Z.leb_spec ChunkSize (blen p)) as [Hle|]; [|done]. f_equal.
    apply split_chunks_fuel; [|done]. unfold zdrop, blen in *. rewrite length_drop. lia.
Qed.

Lemma chunks_short p : blen p < ChunkSize → chunks p = [p].
Proof. intros H. rewrite chunks_unfold. by destruct (Z.leb_spec ChunkSize (blen p)); [lia|]. Qed.

Lemma chunks_long p :
  ChunkSize <= blen p → chunks p = ztake ChunkSize p :: chunks (zdrop ChunkSize p).
Proof. intros H. rewrite chunks_unfold. by destruct (Z.leb_spec ChunkSize (blen p)); [|lia]. Qed.

Lemma chunks_nonempty p : chunks p ≠ [].
Proof. rewrite chunks_unfold. by destruct (_ <=? _). Qed.

Lemma bytes_ind (P : bytes → Prop) :
  (∀ p, (∀ q, blen q < blen p → P q) → P p) → ∀ p, P p.
Proof.
  intros H p. remember (length p) as n eqn:E. revert p E.
  induction (lt_wf n) as [n _ IH]. intros p ->. apply H. intros q Hq.
  apply (IH (length q)); [|done]. unfold blen in Hq. lia.
Qed.

Lemma div_step n : n / ChunkSize = (n - ChunkSize) / ChunkSize + 1.
Proof.
  destruct sizes as (Hc & _). replace n with ((n - ChunkSize) + 1 * ChunkSize) at 1 by lia.
  rewrite Z.div_add by lia. done.
Qed.

Lemma chunks_count p : Z.of_nat (length (chunks p)) = blen p / ChunkSize + 1.
Proof.
  destruct sizes as (Hc & _). induction p as [p IH] using bytes_ind.
  destruct (Z.lt_ge_cases (blen p) ChunkSize) as [Hs|Hl].
  - rewrite chunks_short by done. rewrite Z.div_small by (pose proof (blen_nonneg p); lia). done.
  - rewrite chunks_long by done. simpl. rewrite Nat2Z.inj_succ, IH by (rewrite blen_zdrop; lia).
    rewrite blen_zdrop by lia. rewrite (div_step (blen p)). lia.
Qed.

Section Spec.
Context {cipher : AEAD} (key : aead_key) (id base : bytes).

Definition seal_chunk (i : Z) (final : bool) (p : bytes) : bytes :=
  aead_seal key (chunkNonce base i) p (chunkAAD id i final).

Fixpoint seal_from (i : Z) (cs : list bytes) : bytes :=
  match cs with
  | [] => []
  | [c] => seal_chunk i true c
  | c :: rest => seal_chunk i false c ++ seal_from (i + 1) rest
  end.

(** The envelope of a plaintext. *)
Definition envelope (p : bytes) : bytes := magic ++ base ++ seal_from 0 (chunks p).

Lemma seal_from_short i p : blen p < ChunkSize → seal_from i (chunks p) = seal_chunk i true p.
Proof. intros Hs. by rewrite chunks_short. Qed.

Lemma seal_from_long i p :
  ChunkSize <= blen p →
  seal_from i (chunks p) =
  seal_chunk i false (ztake ChunkSize p) ++ seal_from (i + 1) (chunks (zdrop ChunkSize p)).
Proof.
  intros Hl. rewrite (chunks_long p) by done.
  pose proof (chunks_nonempty (zdrop ChunkSize p)) as Hne.
  by destruct (chunks (zdrop ChunkSize p)).
Qed.

Context {laws : AEADLaws cipher}.

Lemma seal_chunk_length i final p : blen (seal_chunk i final p) = blen p + tagSize.
Proof. apply aead_seal_length. Qed.

Lemma seal_from_length i p :
  blen (seal_from i (chunks p)) = blen p + tagSize * (blen p / ChunkSize + 1).
Proof.
  destruct sizes as (Hc & _ & Ht & _). revert i. induction p as [p IH] using bytes_ind. intros i.
  pose proof (blen_nonneg p). destruct (Z.lt_ge_cases (blen p) ChunkSize) as [Hs|Hl].
  - rewrite seal_from_short, seal_chunk_length by done. rewrite Z.div_small by lia. lia.
  - rewrite seal_from_long by done. rewrite blen_app, seal_chunk_length.
    rewrite IH by (rewrite blen_zdrop; lia). rewrite blen_ztake, blen_zdrop by lia.
    rewrite (div_step (blen p)). lia.
Qed.

Lemma seal_from_open i p content :
  ChunkSize <= blen p →
  content = seal_from i (chunks p) ↔
  blockSize <= blen content ∧
  ztake blockSize content = seal_chunk i false (ztake ChunkSize p) ∧
  zdrop blockSize content = seal_from (i + 1) (chunks (zdrop ChunkSize p)).
Proof.
  destruct sizes as (Hc & Hb & Ht & _). intros Hl. rewrite seal_from_long by done.
  assert (Hlen : blen (seal_chunk i false (ztake ChunkSize p)) = blockSize).
  { rewrite seal_chunk_length, blen_ztake by lia. lia. }
  split.
  - intros ->. rewrite ztake_app, zdrop_app by done. split; [|done].
    rewrite blen_app, Hlen. pose proof (blen_nonneg (seal_from (i + 1) (chunks (zdrop ChunkSize p)))). lia.
  - intros (_ & H1 & H2). by rewrite <-(ztake_zdrop blockSize content), H1, H2.
Qed.
End Spec.

(** ** Draining the readers *)

Lemma drain_err {S} (fill : buffered S → buffered S) fuel r e :
  bf_err r = Some e → (0 < fuel)%nat →
  drain fill fuel r = Some (zdrop (bf_offset r) (bf_buf r), e).
Proof. intros He Hf. destruct fuel; [lia|]. simpl. by rewrite He. Qed.

Lemma drain_done {S} (fill : buffered S → buffered S) fuel r :
  bf_err r = None → bf_done r = true → (0 < fuel)%nat →
  drain fill fuel r = Some (zdrop (bf_offset r) (bf_buf r), io_EOF).
Proof. intros He Hd Hf. destruct fuel; [lia|]. simpl. by rewrite He, Hd. Qed.

Lemma drain_refill {S} (fill : buffered S → buffered S) fuel r :
  bf_err r = None → bf_done r = false →
  drain fill (Datatypes.S fuel) r =
  match drain fill fuel (refill fill r) with
  | Some (out, e) => Some (zdrop (bf_offset r) (bf_buf r) ++ out, e)
  | None => None
  end.
Proof. intros He Hd. simpl. by rewrite He, Hd. Qed.

(** [io.ReadFull] on a source that ends with the end of file. *)
Lemma ReadFull_full p n :
  n <= blen p →
  ReadFull {| src_content := p; src_fail := None |} n =
  (ztake n p, None, {| src_content := zdrop n p; src_fail := None |}).
Proof. intros H. unfold ReadFull. simpl. by destruct (Z.leb_spec n (blen p)); [|lia]. Qed.

Lemma ReadFull_short p n :
  blen p < n →
  ReadFull {| src_content := p; src_fail := None |} n =
  (p, Some (if decide (p = []) then io_EOF else io_ErrUnexpectedEOF),
   {| src_content := []; src_fail := None |}).
Proof.
  intros H. unfold ReadFull. simpl. destruct (Z.leb_spec n (blen p)); [lia|].
  rewrite ztake_all, zdrop_all by lia. destruct p; [done|]. by rewrite decide_False.
Qed.

Section Drain.
Context {cipher : AEAD} {laws : AEADLaws cipher}.

Definition running {S} (s : S) (b : bytes) (o : Z) : buffered S :=
  {| bf_state := s; bf_buf := b; bf_offset := o; bf_done := false; bf_err := None |}.

Lemma enc_refill_short s b o p :
  es_src s = {| src_content := p; src_fail := None |} → es_index s < MaxUint32 → blen p < ChunkSize →
  refill enc_fill (running s b o) =
  {| bf_state := enc_with s {| src_content := []; src_fail := None |} (es_index s);
     bf_buf := aead_seal (es_aead s) (enc_nonce s) p (enc_aad s true);
     bf_offset := 0; bf_done := true; bf_err := None |}.
Proof.
  intros Hsrc Hidx Hs. unfold refill, running, enc_fill. cbn [bf_state bf_buf bf_offset bf_done bf_err].
  destruct (Z.eqb_spec (es_index s) MaxUint32) as [He|_]; [lia|]. rewrite Hsrc.
  rewrite ReadFull_short by done. by case_decide.
Qed.

Lemma enc_refill_full s b o p :
  es_src s = {| src_content := p; src_fail := None |} → es_index s < MaxUint32 → ChunkSize <= blen p →
  refill enc_fill (running s b o) =
  running (enc_with s {| src_content := zdrop ChunkSize p; src_fail := None |} (es_index s + 1))
    (aead_seal (es_aead s) (enc_nonce s) (ztake ChunkSize p) (enc_aad s false)) 0.
Proof.
  intros Hsrc Hidx Hl. unfold refill, running, enc_fill. cbn [bf_state bf_buf bf_offset bf_done bf_err].
  destruct (Z.eqb_spec (es_index s) MaxUint32) as [He|_]; [lia|]. rewrite Hsrc.
  by rewrite ReadFull_full.
Qed.

Lemma enc_drain p s b o fuel :
  es_src s = {| src_content := p; src_fail := None |} →
  es_index s + blen p / ChunkSize < MaxUint32 → (length (chunks p) < fuel)%nat →
  drain enc_fill fuel (running s b o) =
  Some (zdrop o b ++ seal_from (es_aead s) (es_attachmentID s) (es_baseNonce s) (es_index s) (chunks p),
        io_EOF).
Proof.
  destruct sizes as (Hc & _). revert s b o fuel.
  induction p as [p IH] using bytes_ind. intros s b o fuel Hsrc Hidx Hfuel.
  destruct fuel as [|fuel]; [lia|]. rewrite drain_refill by done.
  pose proof (Z.div_pos (blen p) ChunkSize (blen_nonneg p) Hc) as Hdiv.
  destruct (Z.lt_ge_cases (blen p) ChunkSize) as [Hs|Hl].
  - rewrite (enc_refill_short s b o p), drain_done
      by (done || lia || (rewrite chunks_short in Hfuel by done; simpl in Hfuel; lia)).
    by rewrite seal_from_short.
  - rewrite (enc_refill_full s b o p) by (done || lia).
    rewrite chunks_long in Hfuel by done. simpl in Hfuel.
    rewrite (IH (zdrop ChunkSize p)); [|rewrite blen_zdrop; lia|done| |lia].
    + by rewrite zdrop_0, (seal_from_long _ _ _ _ p).
    + simpl. rewrite blen_zdrop by lia. rewrite (div_step (blen p)) in Hidx. lia.
Qed.

(** The index is a [uint32]. *)
Definition dec_running (s : dec_state) : Prop :=
  ds_headerRead s = true ∧ src_fail (ds_src s) = None ∧ ds_index s <= MaxUint32.

(** What the rest of a stream must be for the reader to accept it. *)
Definition accepts (s : dec_state) (p : bytes) : Prop :=
  src_content (ds_src s) =
    seal_from (ds_aead s) (ds_attachmentID s) (ds_baseNonce s) (ds_index s) (chunks p) ∧
  ds_produced s + blen p = ds_expected s ∧ ds_index s + blen p / ChunkSize < MaxUint32.

Lemma seal_inj k nonce aad p q : aead_seal k nonce p aad = aead_seal k nonce q aad → p = q.
Proof. intros Hs%aead_open_seal. pose proof (proj2 (aead_open_seal k nonce _ aad p) eq_refl). congruence. Qed.

Definition dec_next (s : dec_state) (rest : bytes) (produced : Z) : dec_state :=
  {| ds_src := {| src_content := rest; src_fail := None |}; ds_aead := ds_aead s;
     ds_attachmentID := ds_attachmentID s; ds_baseNonce := ds_baseNonce s;
     ds_index := ds_index s + 1; ds_expected := ds_expected s; ds_produced := produced;
     ds_headerRead := ds_headerRead s |}.

(** One refill of a running reader: it stops with an error, or delivers a full
    chunk and runs on, or delivers the last one. *)
Inductive dec_refill (s : dec_state) : buffered dec_state → Prop :=
| refill_error r e :
    bf_err r = Some e → e ≠ io_EOF → bf_buf r = [] → bf_offset r = 0 →
    (∀ p, ¬ accepts s p) → dec_refill s r
| refill_more c rest :
    blen c = ChunkSize → ds_index s < MaxUint32 →
    src_content (ds_src s) =
      seal_chunk (ds_aead s) (ds_attachmentID s) (ds_baseNonce s) (ds_index s) false c ++ rest →
    ds_produced s + ChunkSize <= ds_expected s →
    dec_refill s (running (dec_next s rest (ds_produced s + ChunkSize)) c 0)
| refill_last r p :
    bf_err r = None → bf_done r = true → bf_buf r = p → bf_offset r = 0 →
    blen p < ChunkSize → accepts s p → dec_refill s r.

Lemma accepts_length s p : accepts s p →
  blen (src_content (ds_src s)) = blen p + tagSize * (blen p / ChunkSize + 1).
Proof. intros (-> & _). by rewrite seal_from_length. Qed.

Lemma accepts_long s p :
  accepts s p → blockSize <= blen (src_content (ds_src s)) → ChunkSize <= blen p.
Proof.
  destruct sizes as (Hc & Hb & Ht & _). intros Ha Hlen. rewrite (accepts_length _ _ Ha) in Hlen.
  destruct (Z.lt_ge_cases (blen p) ChunkSize); [|done].
  rewrite Z.div_small in Hlen by (pose proof (blen_nonneg p); lia). lia.
Qed.

Lemma accepts_index s p : accepts s p → ds_index s < MaxUint32.
Proof.
  destruct sizes as (Hc & _). intros (_ & _ & Hi).
  pose proof (Z.div_pos (blen p) ChunkSize (blen_nonneg p) Hc). lia.
Qed.

Lemma dec_refill_spec s b o :
  dec_running s → dec_refill s (refill dec_fill (running s b o)).
Proof.
  destruct sizes as (Hc & Hb & Ht & _). intros (Hh & Hf & Hi).
  unfold refill, running, dec_fill. cbn [bf_state bf_buf bf_offset bf_done bf_err]. rewrite Hh. cbn [negb].
  unfold fill_chunk. cbn [bf_state]. destruct (ds_src s) as [content fail] eqn:Esrc. simpl in Hf. subst fail.
  destruct (Z.eqb_spec (ds_index s) MaxUint32) as [Hmax|Hmax].
  { eapply refill_error; try done. intros p Hp%accepts_index. lia. }
  destruct (Z.le_gt_cases blockSize (blen content)) as [Hfull|Hshort].
  - rewrite ReadFull_full by done. unfold dec_open. simpl.
    rewrite blen_ztake by (pose proof (blen_nonneg content); lia).
    destruct (Z.ltb_spec blockSize tagSize); [lia|].
    assert (Hhead : ∀ p, accepts s p →
      ztake blockSize content = seal_chunk (ds_aead s) (ds_attachmentID s) (ds_baseNonce s) (ds_index s) false
        (ztake ChunkSize p) ∧ ChunkSize <= blen p).
    { intros p Hp. assert (Hl : ChunkSize <= blen p) by (apply (accepts_long s); [done|by rewrite Esrc]).
      split; [|done]. destruct Hp as (Hcont & _). rewrite Esrc in Hcont. simpl in Hcont.
      by apply seal_from_open in Hcont as (_ & ? & _). }
    destruct (aead_open _ _ _ _) as [c|] eqn:Eo.
    2:{ eapply refill_error; try done. intros p Hp%Hhead. destruct Hp as [Hp _].
        unfold seal_chunk in Hp. apply (aead_open_seal (H := cipher)) in Hp. congruence. }
    apply aead_open_seal in Eo.
    assert (Hlc : blen c = ChunkSize).
    { apply (f_equal blen) in Eo. rewrite aead_seal_length, blen_ztake in Eo by (pose proof (blen_nonneg content); lia). lia. }
    rewrite Hlc, orb_false_r.
    destruct (Z.ltb_spec (ds_expected s) (ds_produced s + ChunkSize)) as [Hover|Hok].
    { eapply refill_error; try done. intros p Hp. destruct (Hhead p Hp) as [_ Hl].
      destruct Hp as (_ & Hsum & _). lia. }
    apply (refill_more s c (zdrop blockSize content)); [done| | |lia].
    + lia.
    + rewrite Esrc. simpl. rewrite <-(ztake_zdrop blockSize content) at 1. by rewrite Eo.
  - rewrite ReadFull_short by done. case_decide as Hnil.
    { simpl. eapply refill_error; try done. intros p Hp%accepts_length.
      rewrite Esrc in Hp. simpl in Hp. subst content. change (blen []) with 0 in Hp.
      pose proof (Z.div_pos (blen p) ChunkSize (blen_nonneg p) Hc). pose proof (blen_nonneg p). lia. }
    simpl. unfold dec_open. simpl.
    assert (Hlast : ∀ p, accepts s p → blen p < ChunkSize ∧
      content = seal_chunk (ds_aead s) (ds_attachmentID s) (ds_baseNonce s) (ds_index s) true p).
    { intros p Hp. pose proof (accepts_length _ _ Hp) as Hlen. rewrite Esrc in Hlen. simpl in Hlen.
      assert (Hs : blen p < ChunkSize).
      { destruct (Z.lt_ge_cases (blen p) ChunkSize) as [|Hl]; [done|].
        pose proof (Z.div_pos (blen p) ChunkSize (blen_nonneg p) Hc). lia. }
      split; [done|]. destruct Hp as (Hcont & _). rewrite Esrc in Hcont. simpl in Hcont.
      by rewrite seal_from_short in Hcont. }
    destruct (Z.ltb_spec (blen content) tagSize).
    { eapply refill_error; try done. intros p (Hs & Hp)%Hlast. apply (f_equal blen) in Hp.
      rewrite (seal_chunk_length _ _ _ (laws := laws)) in Hp. pose proof (blen_nonneg p). lia. }
    destruct (aead_open _ _ _ _) as [c|] eqn:Eo.
    2:{ eapply refill_error; try done. intros p (_ & Hp)%Hlast.
        unfold seal_chunk in Hp. apply (aead_open_seal (H := cipher)) in Hp. congruence. }
    apply aead_open_seal in Eo.
    assert (Hlc : blen c < ChunkSize).
    { apply (f_equal blen) in Eo. rewrite aead_seal_length in Eo. lia. }
    simpl. destruct (Z.eqb_spec (ds_produced s + blen c) (ds_expected s)) as [Heq|Hne].
    + rewrite orb_false_r. destruct (Z.ltb_spec (ds_expected s) (ds_produced s + blen c)); [lia|].
      eapply (refill_last s _ c); try done. split_and!; [|done|].
      * rewrite Esrc. simpl. by rewrite seal_from_short.
      * rewrite Z.div_small by (pose proof (blen_nonneg c); lia). lia.
    + rewrite orb_true_r. eapply refill_error; try done. intros p Hp.
      destruct (Hlast p Hp) as [Hs Hp']. destruct Hp as (_ & Hsum & _).
      assert (p = c) as ->; [|done].
      rewrite Eo in Hp'. symmetry. by apply seal_inj in Hp'.
Qed.

Lemma accepts_next s c rest q :
  blen c = ChunkSize →
  src_content (ds_src s) =
    seal_chunk (ds_aead s) (ds_attachmentID s) (ds_baseNonce s) (ds_index s) false c ++ rest →
  accepts s (c ++ q) ↔ accepts (dec_next s rest (ds_produced s + ChunkSize)) q.
Proof.
  destruct sizes as (Hc & Hb & Ht & _). intros Hl Hcont. unfold accepts. simpl. rewrite Hcont.
  assert (Hlong : ChunkSize <= blen (c ++ q)) by (rewrite blen_app; pose proof (blen_nonneg q); lia).
  rewrite (seal_from_long _ _ _ _ (c ++ q)), ztake_app, zdrop_app by done.
  rewrite (div_step (blen (c ++ q))), blen_app, Hl. replace (ChunkSize + blen q - ChunkSize) with (blen q) by lia.
  split; intros (H1 & H2 & H3); (split; [|split; lia]).
  - by apply app_inv_head in H1.
  - by rewrite H1.
Qed.

Lemma accepts_head s c rest p :
  src_content (ds_src s) =
    seal_chunk (ds_aead s) (ds_attachmentID s) (ds_baseNonce s) (ds_index s) false c ++ rest →
  blen c = ChunkSize → accepts s p → p = c ++ zdrop ChunkSize p.
Proof.
  destruct sizes as (Hc & Hb & Ht & _). intros Hcont Hl Hp.
  assert (Hsl : blen (seal_chunk (ds_aead s) (ds_attachmentID s) (ds_baseNonce s) (ds_index s) false c) = blockSize)
    by (rewrite (seal_chunk_length _ _ _ (laws := laws)); lia).
  assert (Hlong : ChunkSize <= blen p).
  { apply (accepts_long s); [done|]. rewrite Hcont, blen_app, Hsl. pose proof (blen_nonneg rest). lia. }
  destruct Hp as (Hp & _). rewrite Hcont in Hp. apply seal_from_open in Hp as (_ & Hp & _); [|done..].
  rewrite ztake_app in Hp by done. apply seal_inj in Hp. by rewrite Hp, ztake_zdrop.
Qed.

Lemma dec_drain fuel s b o :
  dec_running s → (length (src_content (ds_src s)) + 2 <= fuel)%nat →
  ∃ out e, drain dec_fill fuel (running s b o) = Some (zdrop o b ++ out, e) ∧
    (e = io_EOF → accepts s out) ∧ (∀ p, accepts s p → out = p ∧ e = io_EOF).
Proof.
  destruct sizes as (Hc & Hb & Ht & _). revert s b o. induction fuel as [|fuel IH]; intros s b o Hrun Hfuel; [lia|].
  rewrite drain_refill by done. simpl bf_offset. simpl bf_buf.
  destruct (dec_refill_spec s b o Hrun) as [r e He Hne Hbuf Hoff Hno|c rest Hl Hi Hcont Hle|r p He Hd Hbuf Hoff Hs Hp].
  - rewrite (drain_err _ _ _ e) by (done || lia). rewrite Hbuf, Hoff. exists [], e.
    split; [done|]. split; [done|]. intros p Hp. by destruct (Hno p).
  - destruct (IH (dec_next s rest (ds_produced s + ChunkSize)) c 0) as (out & e & -> & Heof & Hacc).
    { destruct Hrun as (? & ? & ?). split_and!; [done..|simpl; lia]. }
    { simpl. rewrite Hcont, length_app in Hfuel.
      pose proof (seal_chunk_length (ds_aead s) (ds_attachmentID s) (ds_baseNonce s) (ds_index s) false c) as Hsl.
      unfold blen in Hsl at 1. pose proof (blen_nonneg c). lia. }
    exists (c ++ out), e. rewrite zdrop_0. split; [done|]. split.
    + intros ->. apply (accepts_next s c rest out Hl Hcont). by apply Heof.
    + intros p Hp. pose proof (accepts_head s c rest p Hcont Hl Hp) as Hsplit.
      rewrite Hsplit in Hp |- *. apply (accepts_next s c rest _ Hl Hcont) in Hp.
      destruct (Hacc _ Hp) as [-> ->]. done.
  - rewrite drain_done by (done || lia). rewrite Hbuf, Hoff, zdrop_0. exists p, io_EOF.
    split; [done|]. split; [done|]. intros q Hq. split; [|done].
    destruct Hp as (Hp & Hsum & _). destruct Hq as (Hq & Hsum' & _).
    assert (blen q < ChunkSize) by lia.
    rewrite Hp, !seal_from_short in Hq by done. by apply seal_inj in Hq.
Qed.

(** *** The header *)

Definition dec_start (k : aead_key) (id base content : bytes) (i size : Z) : dec_state :=
  {| ds_src := {| src_content := content; src_fail := None |}; ds_aead := k; ds_attachmentID := id;
     ds_baseNonce := base; ds_index := i; ds_expected := size; ds_produced := i * ChunkSize;
     ds_headerRead := true |}.

Definition dec_initial (k : aead_key) (id content : bytes) (size : Z) : dec_state :=
  {| ds_src := {| src_content := content; src_fail := None |}; ds_aead := k; ds_attachmentID := id;
     ds_baseNonce := replicate 8 0; ds_index := 0; ds_expected := size; ds_produced := 0;
     ds_headerRead := false |}.

Lemma header_refill k id content size :
  headerSize <= blen content → magic_ok (ztake headerSize content) = true →
  refill dec_fill (running (dec_initial k id content size) [] 0) =
  refill dec_fill (running (dec_start k id (zdrop 4 (ztake headerSize content)) (zdrop headerSize content) 0 size) [] 0).
Proof.
  intros Hl Hm. unfold refill at 1, running, dec_fill. cbn [bf_state bf_buf bf_offset bf_done bf_err].
  unfold dec_initial at 1. cbn [ds_headerRead negb]. unfold readHeader. cbn [bf_state ds_src dec_initial].
  rewrite ReadFull_full by done. rewrite Hm. reflexivity.
Qed.

Lemma header_refused k id content size :
  blen content < headerSize ∨ magic_ok (ztake headerSize content) = false →
  ∃ e, bf_err (refill dec_fill (running (dec_initial k id content size) [] 0)) = Some e ∧ e ≠ io_EOF.
Proof.
  intros H. unfold refill, running, dec_fill. cbn [bf_state bf_buf bf_offset bf_done bf_err].
  unfold dec_initial at 1. cbn [ds_headerRead negb]. unfold readHeader. cbn [bf_state ds_src dec_initial].
  destruct (Z.lt_ge_cases (blen content) headerSize) as [Hs|Hl].
  - rewrite ReadFull_short by done. case_decide; (eexists; split; [reflexivity|done]).
  - rewrite ReadFull_full by done. destruct H as [?|Hm]; [lia|]. rewrite Hm. simpl.
    eexists. split; [reflexivity|done].
Qed.

Lemma envelope_magic k id base p : magic_ok (ztake headerSize (envelope k id base p)) = true.
Proof. reflexivity. Qed.
End Drain.

(** ** The data key and its ring *)

Record Binding : Type := {
  AttachmentID : bytes;
  WorkspaceID : bytes;
  PlaintextSize : Z;
  Binding_KeyWrapVersion : Z;
  ContentEnvelopeVersion : Z
}.

Record wireBinding : Type := {
  keyWrapVersion : Z;
  contentEnvelopeVersion : Z;
  plaintextSize : Z
}.

Definition Binding_validate (b : Binding) : result wireBinding :=
  if PlaintextSize b <? 0 then Fail (ErrWrap "plaintext size must not be negative" ErrInvalidBinding)
  else if negb (Binding_KeyWrapVersion b =? KeyWrapVersion)
  then Fail (ErrWrap "key wrap version" ErrUnsupportedVersion)
  else if negb (ContentEnvelopeVersion b =? EnvelopeVersion)
  then Fail (ErrWrap "content envelope version" ErrUnsupportedVersion)
  else Ok {| keyWrapVersion := Binding_KeyWrapVersion b;
             contentEnvelopeVersion := ContentEnvelopeVersion b;
             plaintextSize := PlaintextSize b |}.

(** [keyIDPattern]: a lower-case letter or digit, then up to 63 of those, dots,
    underscores and hyphens. *)
Definition key_id_first (c : Z) : bool :=
  ((0x61 <=? c) && (c <=? 0x7A)) || ((0x30 <=? c) && (c <=? 0x39)).
Definition key_id_rest (c : Z) : bool := key_id_first c || (c ∈? [0x2E; 0x5F; 0x2D]).
Definition keyIDPattern (s : string) : bool :=
  match str_bytes s with
  | [] => false
  | c :: cs => key_id_first c && forallb key_id_rest cs && (blen cs <=? 63)
  end.

Definition validateKeyID (keyID : string) : result string :=
  let trimmed := TrimSpace keyID in
  if trimmed == "" then Fail (ErrWrap "key id is required" ErrInvalidKey)
  else if (len trimmed >? maxKeyIDLength) || negb (keyIDPattern trimmed)
  then Fail (ErrWrap "key id must match the pattern" ErrInvalidKey)
  else Ok trimmed.

Section Keyring.
Context {cipher : AEAD}.
(** [base64.StdEncoding.DecodeString] and [sha256.Sum256]. *)
Context (base64_decode : string → option bytes) (sha256 : bytes → bytes).

Definition decodeMasterKey (base64Key : string) : result bytes :=
  let trimmed := TrimSpace base64Key in
  if trimmed == "" then Fail (ErrWrap "master key is required" ErrInvalidKey)
  else match base64_decode trimmed with
       | None => Fail (ErrWrap "master key must be standard base64" ErrInvalidKey)
       | Some key =>
           if negb (blen key =? KeySize)
           then Fail (ErrWrap "master key must decode to 32 bytes" ErrInvalidKey) else Ok key
       end.

Definition newKeyEncryptionKey (base64Key : string) : result aead_key :=
  key ← decodeMasterKey base64Key;
  newAEAD key.

Record Keyring : Type := { activeID : string; keys : gmap string aead_key }.

(** The loop of [addPrevious] over the comma-separated entries. *)
Fixpoint addPrevious_entries (entries : list string) (r : Keyring) : result Keyring :=
  match entries with
  | [] => Ok r
  | entry :: entries =>
      let entry := TrimSpace entry in
      if entry == "" then addPrevious_entries entries r
      else match Cut ":" entry with
           | None => Fail (ErrWrap "previous keys must be id:key pairs" ErrInvalidKey)
           | Some (rawID, rawKey) =>
               id ← validateKeyID rawID;
               match keys r !! id with
               | Some _ => Fail (ErrWrap "duplicate key id" ErrInvalidKey)
               | None =>
                   key ← newKeyEncryptionKey rawKey;
                   addPrevious_entries entries {| activeID := activeID r; keys := <[id := key]> (keys r) |}
               end
           end
  end.

Definition addPrevious (previous : string) (r : Keyring) : result Keyring :=
  addPrevious_entries (Split "," previous) r.

Definition NewKeyring (active_id activeKey previous : string) : result Keyring :=
  id ← validateKeyID active_id;
  active ← newKeyEncryptionKey activeKey;
  addPrevious previous {| activeID := id; keys := {[id := active]} |}.

Definition dekAAD (keyID : string) (binding : Binding) (wire : wireBinding) : bytes :=
  dekMagic ++ big_endian 2 (keyWrapVersion wire) ++ big_endian 2 (contentEnvelopeVersion wire) ++
  AttachmentID binding ++ WorkspaceID binding ++ sha256 (str_bytes keyID) ++
  big_endian 8 (plaintextSize wire).

(** [nonce] is what the random source delivered. *)
Definition wrap (k : aead_key) (nonce dataKey : bytes) (keyID : string) (binding : Binding)
    : result bytes :=
  if negb (blen dataKey =? KeySize) then Fail (ErrWrap "data key must be 32 bytes" ErrInvalidKey)
  else
    wire ← Binding_validate binding;
    Ok (nonce ++ aead_seal k nonce dataKey (dekAAD keyID binding wire)).

Definition unwrap (k : aead_key) (wrapped : bytes) (keyID : string) (binding : Binding)
    : result bytes :=
  wire ← Binding_validate binding;
  if blen wrapped <? nonceSize + tagSize then Fail (ErrWrap "wrapped key is malformed" ErrCiphertext)
  else match aead_open k (ztake nonceSize wrapped) (zdrop nonceSize wrapped) (dekAAD keyID binding wire) with
       | None => Fail (ErrWrap "wrapped key" ErrCiphertext)
       | Some dataKey =>
           if negb (blen dataKey =? KeySize) then Fail (ErrWrap "wrapped key length" ErrCiphertext)
           else Ok dataKey
       end.

(** A nil ring is [None]. *)
Definition ActiveKeyID (r : option Keyring) : string :=
  match r with Some r => activeID r | None => "" end.

Definition Wrap (r : option Keyring) (nonce dataKey : bytes) (binding : Binding)
    : result (bytes * string) :=
  match r with
  | None => Fail (ErrWrap "key ring unavailable" ErrInvalidKey)
  | Some r =>
      match keys r !! activeID r with
      | None => Fail (ErrWrap "key ring has no active key" ErrInvalidKey)
      | Some active =>
          sealed ← wrap active nonce dataKey (activeID r) binding;
          Ok (sealed, activeID r)
      end
  end.

Definition Unwrap (r : option Keyring) (wrapped : bytes) (keyID : string) (binding : Binding)
    : result bytes :=
  match r with
  | None => Fail (ErrWrap "key ring unavailable" ErrInvalidKey)
  | Some r =>
      match keys r !! keyID with
      | None => Fail (ErrWrap "key id is not configured" ErrUnknownKey)
      | Some key => unwrap key wrapped keyID binding
      end
  end.

Lemma addPrevious_entries_Ok entries r r' :
  addPrevious_entries entries r = Ok r' → keys r ⊆ keys r' ∧ activeID r' = activeID r.
Proof.
  revert r. induction entries as [|entry entries IH]; intros r; simpl.
  { by intros [= <-]. }
  case_bool_decide; [apply IH|]. destruct (Cut _ _) as [[rawID rawKey]|]; [|done].
  intros Hadd. apply bind_Ok in Hadd as (id & _ & Hadd). destruct (keys r !! id) eqn:E; [done|].
  apply bind_Ok in Hadd as (key & _ & Hadd). apply IH in Hadd as [Hsub Hid]. split; [|done].
  etrans; [|exact Hsub]. by apply insert_subseteq.
Qed.

Lemma NewKeyring_active i k p r :
  NewKeyring i k p = Ok r → ∃ key, keys r !! activeID r = Some key ∧ newKeyEncryptionKey k = Ok key.
Proof.
  unfold NewKeyring, addPrevious. intros Hadd. apply bind_Ok in Hadd as (id & _ & Hadd).
  apply bind_Ok in Hadd as (key & Hk & Hadd). apply addPrevious_entries_Ok in Hadd as [Hsub Hid]. simpl in *.
  exists key. split; [|done]. rewrite Hid. eapply lookup_weaken; [|done]. apply lookup_singleton_eq.
Qed.
End Keyring.

(** ** Reading a stream to its end *)

(** What [io.ReadAll] collects from reads into slices of [n] bytes. *)
Fixpoint read_all {S} (fill : buffered S → buffered S) (fuel : nat) (n : Z) (r : buffered S)
    : option (bytes * error) :=
  match fuel with
  | O => None
  | Datatypes.S fuel =>
      match Read fill r n with
      | None => None
      | Some (piece, Some e, _) => Some (piece, e)
      | Some (piece, None, r') =>
          match read_all fill fuel n r' with
          | Some (out, e) => Some (piece ++ out, e)
          | None => None
          end
      end
  end.

(** Reads of [n] bytes deliver exactly [out] and then the error [e]: no more reads
    are needed than there are bytes, and one for the error. *)
Definition reads {S} (fill : buffered S → buffered S) (n : Z) (r : buffered S) (out : bytes)
    (e : error) : Prop :=
  ∀ fuel, (length out < fuel)%nat → read_all fill fuel n r = Some (out, e).

(** The nonces an encrypting reader seals under, over its first refills. *)
Fixpoint sealed_nonces {cipher : AEAD} (fuel : nat) (r : buffered enc_state) : list bytes :=
  match fuel with
  | O => []
  | S fuel =>
      if bf_err r is Some _ then [] else if bf_done r then [] else
        let r' := refill enc_fill r in
        match bf_err r' with
        | Some _ => []
        | None => enc_nonce (bf_state r) :: sealed_nonces fuel r'
        end
  end.

Section Reading.
Context {S : Type} (fill : buffered S → buffered S).

(** A refill leaves something to read, or the end, or an error. *)
Definition progresses : Prop := ∀ r,
  let r' := refill fill r in
  bf_offset r' = 0 ∧ (bf_buf r' = [] → is_Some (bf_err r') ∨ bf_done r' = true).

Definition in_buffer (r : buffered S) : Prop := 0 <= bf_offset r <= blen (bf_buf r).

Definition advance (r : buffered S) (k : Z) : buffered S :=
  {| bf_state := bf_state r; bf_buf := bf_buf r; bf_offset := bf_offset r + k;
     bf_done := bf_done r; bf_err := bf_err r |}.

Lemma drain_advance f r piece rest out e :
  in_buffer r → zdrop (bf_offset r) (bf_buf r) = piece ++ rest → drain fill f r = Some (out, e) →
  ∃ out', out = piece ++ out' ∧ drain fill f (advance r (blen piece)) = Some (out', e).
Proof.
  intros Hb Hsplit. destruct f as [|f]; [done|]. simpl.
  assert (Hz : zdrop (bf_offset r + blen piece) (bf_buf r) = rest).
  { unfold zdrop. rewrite Z2Nat.inj_add, <-drop_drop by (unfold in_buffer in Hb; pose proof (blen_nonneg piece); lia).
    fold (zdrop (bf_offset r) (bf_buf r)). rewrite Hsplit. by apply zdrop_app. }
  assert (Hr : refill fill (advance r (blen piece)) = refill fill r) by done.
  rewrite Hz, Hr, Hsplit. destruct (bf_err r); [intros [= <- <-]; eauto|].
  destruct (bf_done r); [intros [= <- <-]; eauto|].
  destruct (drain fill f (refill fill r)) as [[o e']|]; [|done]. intros [= <- <-].
  exists (rest ++ o). by rewrite app_assoc.
Qed.

Lemma Read_available r n :
  in_buffer r → bf_offset r ≠ blen (bf_buf r) → 0 < n →
  ∃ piece rest, piece ≠ [] ∧ zdrop (bf_offset r) (bf_buf r) = piece ++ rest ∧
    in_buffer (advance r (blen piece)) ∧ ∀ f, read_loop fill (Datatypes.S f) r = Some (None, r) ∧
    Read fill r n = Some (piece, None, advance r (blen piece)).
Proof.
  unfold in_buffer. intros Hb Hne Hn. set (avail := zdrop (bf_offset r) (bf_buf r)).
  assert (Ha : blen avail = blen (bf_buf r) - bf_offset r) by (apply blen_zdrop; lia).
  exists (ztake n avail), (zdrop n avail). split_and!.
  - intros Hnil. assert (Hl : blen (ztake n avail) = 0) by (by rewrite Hnil).
    unfold blen, ztake in Hl. rewrite length_take in Hl. unfold blen in Ha, Hne, Hb. lia.
  - by rewrite ztake_zdrop.
  - cbn. pose proof (blen_nonneg (ztake n avail)). lia.
  - cbn. assert (blen (ztake n avail) <= blen avail); [|lia].
    unfold blen, ztake. rewrite length_take. lia.
  - intros f. unfold Read. simpl. unfold exhausted. destruct (Z.eqb_spec (bf_offset r) (blen (bf_buf r))); done.
Qed.

Lemma Read_spec f r n out e :
  progresses → in_buffer r → 0 < n → drain fill f r = Some (out, e) →
  (out = [] ∧ ∃ r' f', Read fill r n = Some ([], Some e, r') ∧ in_buffer r' ∧ drain fill f' r' = Some ([], e)) ∨
  ∃ piece r' out' f', piece ≠ [] ∧ Read fill r n = Some (piece, None, r') ∧ in_buffer r' ∧
    out = piece ++ out' ∧ drain fill f' r' = Some (out', e).
Proof.
  intros Hp Hb Hn Hd. destruct (decide (bf_offset r = blen (bf_buf r))) as [Heq|Hne].
  - destruct f as [|f]; [done|]. pose proof Hd as Hd0. simpl in Hd. rewrite zdrop_all in Hd by lia.
    assert (Hx : exhausted r = true) by (unfold exhausted; by rewrite Heq, Z.eqb_refl).
    unfold Read. cbn [read_loop]. rewrite Hx.
    destruct (bf_err r) as [x|]; [injection Hd as <- <-; left; eauto 10|].
    destruct (bf_done r); [injection Hd as <- <-; left; eauto 10|].
    destruct (drain fill f (refill fill r)) as [[o e']|] eqn:Hd'; [|done]. injection Hd as -> ->.
    destruct (Hp r) as [Hoff Hend]. set (r1 := refill fill r) in *.
    destruct (Z.eqb_spec 0 (blen (bf_buf r1))) as [Hz|Hz].
    + assert (Hx1 : exhausted r1 = true) by (unfold exhausted; by rewrite Hoff, <-Hz). rewrite Hx1.
      assert (Hb1 : in_buffer r1) by (unfold in_buffer; lia).
      left. symmetry in Hz. apply blen_nil in Hz. destruct f as [|f]; [done|]. pose proof Hd' as Hd1. simpl in Hd'.
      rewrite Hz in Hd', Hend. rewrite zdrop_all in Hd' by (rewrite Hoff; done).
      destruct (bf_err r1) as [x|]; [injection Hd' as <- <-; eauto 10|].
      destruct Hend as [[? ?]|Hend]; [done..|]. rewrite Hend in Hd' |- *. injection Hd' as <- <-. eauto 10.
    + right. assert (Hb1 : in_buffer r1) by (unfold in_buffer; pose proof (blen_nonneg (bf_buf r1)); lia).
      assert (Hx1 : exhausted r1 = false) by (unfold exhausted; rewrite Hoff; by apply Z.eqb_neq).
      destruct (Read_available r1 n Hb1) as (piece & rest & Hne & Hsp & Hb2 & Hr); [lia|done|].
      destruct (drain_advance f r1 piece rest out e Hb1 Hsp Hd') as (out' & -> & Hd2).
      destruct (Hr 0%nat) as [_ Hr']. unfold Read in Hr'. cbn [read_loop] in Hr'. rewrite Hx1 in Hr' |- *.
      exists piece, (advance r1 (blen piece)), out', f. by split_and!.
  - right. destruct (Read_available r n Hb Hne Hn) as (piece & rest & Hpne & Hsp & Hb2 & Hr).
    destruct (drain_advance f r piece rest out e Hb Hsp Hd) as (out' & -> & Hd2).
    exists piece, (advance r (blen piece)), out', f. split_and!; try done. apply (Hr 0%nat).
Qed.

Lemma read_all_drain f r n out e :
  progresses → in_buffer r → 0 < n → drain fill f r = Some (out, e) → reads fill n r out e.
Proof.
  intros Hp Hb Hn Hd g Hg. revert f r out Hb Hd Hg. induction g as [|g IH]; intros f r out Hb Hd Hg; [lia|].
  simpl. destruct (Read_spec f r n out e Hp Hb Hn Hd)
    as [(-> & r' & f' & -> & _)|(piece & r' & out' & f' & Hne & -> & Hb' & -> & Hd')]; [done|].
  rewrite length_app in Hg. destruct piece as [|c piece]; [done|]. simpl in Hg.
  rewrite (IH f' r' out'); [done..|]. lia.
Qed.
End Reading.

(** ** Properties *)

(** The low bytes do not depend on what is above them. *)
Lemma big_endian_mod w k z : (w <= k)%nat → big_endian w z = big_endian w (z mod 256 ^ Z.of_nat k).
Proof.
  induction w as [|w IH]; intros Hw; simpl; [done|]. f_equal; [|apply IH; lia].
  assert (Hp : 0 < 256 ^ Z.of_nat w) by (apply Z.pow_pos_nonneg; lia).
  replace (Z.of_nat k) with (Z.of_nat w + Z.of_nat (k - w)) by lia.
  rewrite Z.pow_add_r, Z.rem_mul_r by lia.
  rewrite Z.add_comm, Z.mul_comm, Z.div_add_l, (Z.div_small (z mod _)) by (try apply Z.mod_pos_bound; lia).
  rewrite Z.add_0_r. replace (k - w)%nat with (S (k - w - 1)) by lia.
  rewrite Nat2Z.inj_succ, Z.pow_succ_r by lia.
  rewrite Z.rem_mul_r by (try apply Z.pow_pos_nonneg; lia).
  rewrite Z.mul_comm, Z.mod_add by lia. by rewrite Z.mod_mod by lia.
Qed.

Lemma big_endian_inj w a b :
  0 <= a < 256 ^ Z.of_nat w → 0 <= b < 256 ^ Z.of_nat w →
  big_endian w a = big_endian w b → a = b.
Proof.
  revert a b. induction w as [|w IH]; intros a b Ha Hb; [simpl in *; lia|].
  rewrite Nat2Z.inj_succ, Z.pow_succ_r in Ha, Hb by lia. simpl. intros [= Hd Hrest].
  assert (Hpow : 0 < 256 ^ Z.of_nat w) by (apply Z.pow_pos_nonneg; lia).
  set (m := 256 ^ Z.of_nat w) in *.
  rewrite !Z.mod_small in Hd by (split; [apply Z.div_pos|apply Z.div_lt_upper_bound]; lia).
  assert (Hmod : ∀ z, big_endian w z = big_endian w (z mod m)).
  { intros z. clear -Hpow. subst m. apply (big_endian_mod w w z). lia. }
  rewrite (Hmod a), (Hmod b) in Hrest. apply IH in Hrest; [|apply Z.mod_pos_bound; lia..].
  rewrite (Z.div_mod a m), (Z.div_mod b m) by lia. congruence.
Qed.

Section Properties.
Context {cipher : AEAD} {laws : AEADLaws cipher}.

Lemma seal_nonempty key nonce p aad : aead_seal key nonce p aad ≠ [].
Proof.
  intros Hs. apply (f_equal blen) in Hs. rewrite aead_seal_length in Hs.
  pose proof (blen_nonneg p). unfold tagSize in Hs. change (blen []) with 0 in Hs. lia.
Qed.

Lemma enc_progresses : progresses enc_fill.
Proof.
  intros r. cbv zeta. unfold refill, enc_fill. cbn [bf_state bf_buf bf_offset bf_done bf_err].
  destruct (_ =? _); [split; [done|]; intros _; left; eauto|].
  destruct (ReadFull _ _) as [[plain err] src]. destruct err as [e|]; [destruct (_ || _)|].
  - split; [done|]. by right.
  - split; [done|]. intros _. left. eauto.
  - split; [done|]. simpl. by intros ?%seal_nonempty.
Qed.

Lemma dec_open_progress r block final :
  bf_offset r = 0 → (final = false → blen block = blockSize) →
  bf_offset (dec_open r block final) = 0 ∧
  (final = false → bf_buf (dec_open r block final) = [] → is_Some (bf_err (dec_open r block final))).
Proof.
  destruct sizes as (Hc & Hbs & Ht & _). intros Ho Hl. unfold dec_open.
  destruct (_ <? _); [simpl; eauto|]. destruct (aead_open _ _ _ _) as [plain|] eqn:Eo; [|simpl; eauto].
  apply aead_open_seal in Eo. destruct (_ || _); [simpl; eauto|]. split; [done|]. simpl.
  intros Hf ->. specialize (Hl Hf). rewrite Eo, aead_seal_length in Hl. change (blen []) with 0 in Hl. lia.
Qed.

Lemma fill_chunk_progress r :
  bf_offset r = 0 → bf_offset (fill_chunk r) = 0 ∧
  (bf_buf (fill_chunk r) = [] → is_Some (bf_err (fill_chunk r)) ∨ bf_done (fill_chunk r) = true).
Proof.
  destruct sizes as (Hc & Hbs & Ht & _). intros Ho. unfold fill_chunk. destruct (_ =? _); [simpl; eauto|].
  unfold ReadFull. destruct (Z.leb_spec blockSize (blen (src_content (ds_src (bf_state r))))) as [Hl|_].
  - destruct (dec_open_progress (dec_set_src r {| src_content := zdrop blockSize (src_content (ds_src (bf_state r)));
      src_fail := src_fail (ds_src (bf_state r)) |}) (ztake blockSize (src_content (ds_src (bf_state r)))) false)
      as [Hof Herr]; [done|intros _; apply blen_ztake; lia|]. auto.
  - assert (Hlast : ∀ r' b, bf_offset r' = 0 → bf_offset (dec_set_done (dec_open r' b true)) = 0 ∧
      (bf_buf (dec_set_done (dec_open r' b true)) = [] →
       is_Some (bf_err (dec_set_done (dec_open r' b true))) ∨ bf_done (dec_set_done (dec_open r' b true)) = true)).
    { intros r' b Hr. split; [|by right]. by apply (dec_open_progress r' b true). }
    repeat case_match; simplify_eq/=; eauto.
Qed.

Lemma dec_progresses : progresses dec_fill.
Proof.
  intros r. cbv zeta. unfold refill, dec_fill. cbn [bf_state].
  destruct (negb _); [|by apply fill_chunk_progress].
  unfold readHeader. cbn [bf_state]. destruct (ReadFull _ _) as [[h err] src].
  destruct err as [e|]; [destruct (_ || _); simpl; eauto|].
  destruct (negb (magic_ok h)); [simpl; eauto|]. by apply fill_chunk_progress.
Qed.

Lemma enc_refill_index r :
  bf_err (refill enc_fill r) = None →
  es_index (bf_state r) ≠ MaxUint32 ∧
  es_baseNonce (bf_state (refill enc_fill r)) = es_baseNonce (bf_state r) ∧
  (bf_done (refill enc_fill r) = true ∨
   es_index (bf_state (refill enc_fill r)) = es_index (bf_state r) + 1).
Proof.
  unfold refill, enc_fill. cbn [bf_state bf_buf bf_offset bf_done bf_err].
  destruct (Z.eqb_spec (es_index (bf_state r)) MaxUint32); [done|].
  destruct (ReadFull _ _) as [[plain err] src]. destruct err as [e|]; [destruct (_ || _)|]; simpl;
    intros Hnone; split_and?; auto; done.
Qed.

(** The nonces of later refills carry later indices, all below the limit. *)
Lemma sealed_nonces_index fuel r nonce :
  es_index (bf_state r) <= MaxUint32 → nonce ∈ sealed_nonces fuel r →
  ∃ i, es_index (bf_state r) <= i < MaxUint32 ∧ nonce = chunkNonce (es_baseNonce (bf_state r)) i.
Proof.
  revert r. induction fuel as [|fuel IH]; intros r Hi; simpl; [by intros ?%elem_of_nil|].
  destruct (bf_err r); [by intros ?%elem_of_nil|]. destruct (bf_done r); [by intros ?%elem_of_nil|].
  destruct (bf_err (refill enc_fill r)) eqn:He; [by intros ?%elem_of_nil|].
  destruct (enc_refill_index r He) as (Hne & Hb & Hnext).
  intros [->|Hin]%elem_of_cons; [exists (es_index (bf_state r)); split; [lia|done]|].
  destruct Hnext as [Hd|Hnext].
  - destruct fuel; simpl in Hin; [by apply elem_of_nil in Hin|]. rewrite He, Hd in Hin. by apply elem_of_nil in Hin.
  - apply IH in Hin as (i & Hle & ->); [|lia]. exists i. rewrite Hb. split; [lia|done].
Qed.

Lemma sealed_nonces_NoDup fuel r :
  0 <= es_index (bf_state r) <= MaxUint32 → NoDup (sealed_nonces fuel r).
Proof.
  revert r. induction fuel as [|fuel IH]; intros r Hi; simpl; [constructor|].
  destruct (bf_err r); [constructor|]. destruct (bf_done r); [constructor|].
  destruct (bf_err (refill enc_fill r)) eqn:He; [constructor|].
  destruct (enc_refill_index r He) as (Hne & Hb & Hnext). destruct Hnext as [Hd|Hnext].
  - destruct fuel; simpl; [|rewrite He, Hd]; repeat constructor; by apply not_elem_of_nil.
  - constructor; [|apply IH; lia]. intros (i & Hle & Heq)%sealed_nonces_index; [|lia].
    unfold enc_nonce, chunkNonce in Heq. rewrite Hb in Heq. apply app_inv_head in Heq.
    apply big_endian_inj in Heq; [lia| |]; change (256 ^ Z.of_nat 4) with 4294967296; unfold MaxUint32 in *; lia.
Qed.

Lemma newAEAD_Ok k : blen k = KeySize → newAEAD k = Ok (aead_new k).
Proof. intros Hk. unfold newAEAD. by rewrite Hk. Qed.

Lemma newDecryptingReader_Ok content k id size :
  blen k = KeySize → 0 <= size →
  newDecryptingReader {| src_content := content; src_fail := None |} k id size =
  Ok (running (dec_initial (aead_new k) id content size) [] 0).
Proof.
  intros Hk Hs. unfold newDecryptingReader. destruct (Z.ltb_spec size 0); [lia|].
  by rewrite newAEAD_Ok.
Qed.

(** A reader started in the middle accepts exactly the rest of the stream. *)
Lemma start_drain key id base content i size fuel :
  i <= MaxUint32 → (length content + 2 <= fuel)%nat →
  ∃ out e, drain dec_fill fuel (running (dec_start key id base content i size) [] 0) = Some (out, e) ∧
    (e = io_EOF ↔ content = seal_from key id base i (chunks out) ∧ i * ChunkSize + blen out = size ∧
                  i + blen out / ChunkSize < MaxUint32) ∧
    (∀ p, content = seal_from key id base i (chunks p) → i * ChunkSize + blen p = size →
          i + blen p / ChunkSize < MaxUint32 → out = p ∧ e = io_EOF).
Proof.
  intros Hi Hf.
  destruct (dec_drain fuel (dec_start key id base content i size) [] 0) as (out & e & -> & He & Hp);
    [by split_and!|done|].
  exists out, e. split; [done|]. split; [split|].
  - intros Heof. by apply He.
  - intros (H1 & H2 & H3). by apply (Hp out).
  - intros p H1 H2 H3. by apply (Hp p).
Qed.

(** The whole reader, header included. *)
Lemma initial_drain key id content size fuel :
  (length content + 2 <= fuel)%nat →
  ∃ out e, drain dec_fill fuel (running (dec_initial key id content size) [] 0) = Some (out, e) ∧
    (e = io_EOF ↔ (∃ base, blen base = baseNonceSize ∧ content = envelope key id base out) ∧
                  blen out = size ∧ size / ChunkSize < MaxUint32) ∧
    (∀ base p, blen base = baseNonceSize → content = envelope key id base p → blen p = size →
       size / ChunkSize < MaxUint32 → out = p ∧ e = io_EOF).
Proof.
  intros Hf. destruct fuel as [|fuel]; [lia|]. destruct sizes as (Hc & _ & _ & Hh).
  destruct (decide (headerSize <= blen content ∧ magic_ok (ztake headerSize content) = true)) as [[Hl Hm]|Hbad].
  - rewrite drain_refill, header_refill by done.
    set (base := zdrop 4 (ztake headerSize content)).
    destruct (start_drain key id base (zdrop headerSize content) 0 size (S fuel)) as (out & e & Hd & He & Hp).
    { done. }
    { unfold zdrop. rewrite length_drop. lia. }
    rewrite drain_refill in Hd by done.
    destruct (drain dec_fill fuel _) as [[out' e']|]; [|done]. simpl in Hd. injection Hd as -> ->.
    exists out, e. split; [done|].
    assert (Hbase : blen base = baseNonceSize).
    { subst base. rewrite blen_zdrop; rewrite blen_ztake by lia; [done|lia]. }
    assert (Hcont : content = magic ++ base ++ zdrop headerSize content).
    { subst base. unfold magic_ok in Hm. apply bool_decide_eq_true_1 in Hm.
      rewrite <-(ztake_zdrop headerSize content) at 1.
      rewrite <-(ztake_zdrop 4 (ztake headerSize content)) at 1. by rewrite Hm, <-app_assoc. }
    split.
    + rewrite He. split.
      * intros (H1 & H2 & H3). assert (blen out = size) as <- by lia. split; [|done]. exists base.
        split; [done|]. rewrite Hcont at 1. unfold envelope. by rewrite H1.
      * intros ((base' & Hb' & Henv) & <- & H3). split_and!; [|lia|lia].
        rewrite Henv. unfold envelope. rewrite app_assoc, zdrop_app by (rewrite blen_app, Hb'; done).
        assert (base' = base) as ->; [|done]. subst base. rewrite Henv. unfold envelope.
        rewrite (app_assoc magic), ztake_app by (rewrite blen_app, Hb'; done). by rewrite zdrop_app.
    + intros base' p Hb' Henv <- H3. apply Hp; [|lia|lia].
      assert (base' = base) as <-.
      { subst base. rewrite Henv. unfold envelope.
        rewrite (app_assoc magic), ztake_app by (rewrite blen_app, Hb'; done). by rewrite zdrop_app. }
      rewrite Henv. unfold envelope. by rewrite app_assoc, zdrop_app by (rewrite blen_app, Hb'; done).
  - assert (Hno : ∀ base p, blen base = baseNonceSize → content ≠ envelope key id base p).
    { intros base p Hb ->. apply Hbad. split; [|done]. unfold envelope. rewrite !blen_app, Hb.
      pose proof (blen_nonneg (seal_from key id base 0 (chunks p))).
      change (blen magic) with 4. change baseNonceSize with 8. lia. }
    destruct (header_refused key id content size) as (e & He & Hne).
    { destruct (Z.lt_ge_cases (blen content) headerSize); [by left|right].
      apply not_true_is_false. intros Hm. by apply Hbad. }
    rewrite drain_refill, (drain_err _ _ _ e) by (done || lia).
    eexists _, e. split; [done|]. split; [split; [done|]|].
    + intros ((base & Hb & Henv) & _). exfalso. exact (Hno _ _ Hb Henv).
    + intros base p Hb Henv. exfalso. exact (Hno _ _ Hb Henv).
Qed.

(** C2. Decrypting succeeds exactly on envelopes.  Reads of any size come to an
    end, and that end is the end of file - rather than an error - if and only if
    the stream is the envelope, under that key and attachment, of precisely the
    bytes that were delivered, with the declared length: a truncated, extended,
    reordered or altered stream, one of another attachment, or one of another
    length always ends in an error. *)
Theorem decrypt_exact content k id size n :
  blen k = KeySize → 0 <= size → size / ChunkSize < MaxUint32 → 0 < n →
  ∃ r out e,
    NewDecryptingReader {| src_content := content; src_fail := None |} k id size = Ok r ∧
    reads dec_fill n r out e ∧
    (e = io_EOF ↔
     (∃ base, blen base = baseNonceSize ∧ content = envelope (aead_new k) id base out) ∧ blen out = size).
Proof.
  intros Hk Hs Hmax Hn. unfold NewDecryptingReader. rewrite newDecryptingReader_Ok by done.
  destruct (initial_drain (aead_new k) id content size _ (le_n _)) as (out & e & Hd & He & _).
  eexists _, out, e. split; [done|]. split; [|rewrite He; tauto].
  eapply read_all_drain; [apply dec_progresses|done|done|exact Hd].
Qed.

(** C1. Encrypting and decrypting are inverse, at the advertised size: what reads
    of any size of the encrypting reader deliver for a plaintext is its envelope,
    of exactly [CiphertextSize] bytes, and reads of any size of the decrypting
    reader given that size and that stream deliver the plaintext and the end of
    file. *)
Theorem encrypt_decrypt p base k id n m :
  blen k = KeySize → blen base = baseNonceSize → blen p / ChunkSize < MaxUint32 → 0 < n → 0 < m →
  ∃ enc dec stream,
    NewEncryptingReader base {| src_content := p; src_fail := None |} k id = Ok enc ∧
    reads enc_fill n enc stream io_EOF ∧ blen stream = CiphertextSize (blen p) ∧
    NewDecryptingReader {| src_content := stream; src_fail := None |} k id (blen p) = Ok dec ∧
    reads dec_fill m dec p io_EOF.
Proof.
  intros Hk Hb Hmax Hn Hm. destruct sizes as (Hc & Hbs & Ht & Hh). pose proof (blen_nonneg p) as Hp0.
  unfold NewEncryptingReader, NewDecryptingReader. rewrite newAEAD_Ok by done.
  eexists _, _, (envelope (aead_new k) id base p). split; [done|].
  assert (Hlen : blen (envelope (aead_new k) id base p) =
    headerSize + blen p + tagSize * (blen p / ChunkSize + 1)).
  { unfold envelope. rewrite !blen_app, Hb, (seal_from_length _ _ _ (laws := laws)).
    change (blen magic) with 4. change baseNonceSize with 8. lia. }
  split; [|split; [|split]].
  - pose proof (enc_drain p {| es_src := {| src_content := p; src_fail := None |}; es_aead := aead_new k;
      es_attachmentID := id; es_baseNonce := base; es_index := 0 |} (magic ++ base) 0 _ eq_refl ltac:(simpl; lia)
      (le_n _)) as Hd.
    cbn [es_aead es_attachmentID es_baseNonce es_index] in Hd. rewrite zdrop_0, <-app_assoc in Hd.
    eapply read_all_drain; [apply enc_progresses| |done|exact Hd].
    unfold in_buffer. cbn [bf_offset bf_buf]. pose proof (blen_nonneg (magic ++ base)). lia.
  - rewrite Hlen. unfold CiphertextSize. rewrite Z.quot_div_nonneg, Z.rem_mod_nonneg by lia.
    rewrite Hbs. pose proof (Z.div_mod (blen p) ChunkSize ltac:(lia)). lia.
  - by apply newDecryptingReader_Ok.
  - destruct (initial_drain (aead_new k) id (envelope (aead_new k) id base p) (blen p) _ (le_n _))
      as (out & e & Hd & _ & Hp). destruct (Hp base p) as [-> ->]; [done..|].
    eapply read_all_drain; [apply dec_progresses|done|done|exact Hd].
Qed.

Lemma seal_from_skip key id base n i p :
  Z.of_nat n * ChunkSize <= blen p →
  zdrop (Z.of_nat n * blockSize) (seal_from key id base i (chunks p)) =
  seal_from key id base (i + Z.of_nat n) (chunks (zdrop (Z.of_nat n * ChunkSize) p)).
Proof.
  destruct sizes as (Hc & Hbs & Ht & _). revert i p. induction n as [|n IH]; intros i p Hn.
  { simpl. by rewrite !zdrop_0, Z.add_0_r. }
  assert (Hdd : ∀ a b l, 0 <= a → 0 <= b → zdrop (a + b) l = zdrop b (zdrop a l)).
  { intros a b l Ha Hb. unfold zdrop. by rewrite Z2Nat.inj_add, drop_drop by lia. }
  rewrite Nat2Z.inj_succ in Hn |- *. rewrite !Z.mul_succ_l, (Z.add_comm (Z.of_nat n * _)), (Z.add_comm (Z.of_nat n * ChunkSize)).
  rewrite !Hdd by lia. rewrite (seal_from_long _ _ _ _ p) by lia.
  rewrite zdrop_app by (rewrite (seal_chunk_length _ _ _ (laws := laws)), blen_ztake by lia; lia).
  rewrite IH by (rewrite blen_zdrop; lia). f_equal. lia.
Qed.

(** The reader opened at a chunk delivers the plaintext from that chunk on. *)
Lemma chunk_reader_drain p base k id i :
  blen k = KeySize → blen base = baseNonceSize → blen p / ChunkSize < MaxUint32 →
  0 <= i → i * ChunkSize <= blen p →
  let env := envelope (aead_new k) id base p in
  ∃ r f,
    NewChunkReader (ztake EnvelopeHeaderSize env)
      {| src_content := zdrop (headerSize + i * blockSize) env; src_fail := None |} k id (blen p) i = Ok r ∧
    in_buffer r ∧ drain dec_fill f r = Some (zdrop (i * ChunkSize) p, io_EOF).
Proof.
  intros Hk Hb Hmax Hi Hip. cbv zeta. destruct sizes as (Hc & Hbs & Ht & Hh).
  assert (Hile : i <= blen p / ChunkSize) by (apply Z.div_le_lower_bound; lia).
  set (env := envelope (aead_new k) id base p) in *.
  assert (Hhead : ztake EnvelopeHeaderSize env = magic ++ base).
  { subst env. unfold envelope. rewrite app_assoc. apply ztake_app. rewrite blen_app, Hb. done. }
  assert (Htail : zdrop (headerSize + i * blockSize) env =
    seal_from (aead_new k) id base i (chunks (zdrop (i * ChunkSize) p))).
  { unfold zdrop at 1. rewrite Z2Nat.inj_add, <-drop_drop by lia.
    change (zdrop (i * blockSize) (zdrop headerSize env) = seal_from (aead_new k) id base i (chunks (zdrop (i * ChunkSize) p))).
    subst env. unfold envelope. rewrite app_assoc, zdrop_app by (rewrite blen_app, Hb; done).
    pose proof (seal_from_skip (aead_new k) id base (Z.to_nat i) 0 p) as Hskip.
    rewrite !Z2Nat.id in Hskip by lia. apply Hskip. lia. }
  unfold NewChunkReader. rewrite newDecryptingReader_Ok by lia || done. cbn [mbind result_bind].
  rewrite Hhead, Htail.
  assert (Hhl : (blen (magic ++ base) =? headerSize) = true) by (rewrite blen_app, Hb; done).
  rewrite Hhl. change (magic_ok (magic ++ base)) with true. cbn [negb orb].
  destruct (Z.ltb_spec (blen p) (i * ChunkSize)); [lia|].
  assert (Hlr : blen (zdrop (i * ChunkSize) p) = blen p - i * ChunkSize) by (apply blen_zdrop; lia).
  destruct (start_drain (aead_new k) id base
    (seal_from (aead_new k) id base i (chunks (zdrop (i * ChunkSize) p))) i (blen p) _ ltac:(lia) (le_n _)) as (out & e & Hd & _ & Hp).
  destruct (Hp (zdrop (i * ChunkSize) p) eq_refl) as [-> ->]; [lia| |].
  { rewrite Hlr. replace (blen p - i * ChunkSize) with (blen p + - i * ChunkSize) by lia.
    rewrite Z.div_add by lia. lia. }
  eexists _, _. split; [done|]. split; [done|exact Hd].
Qed.

Lemma ChunkLocation_spec off size :
  0 <= off <= size → size / ChunkSize < MaxUint32 →
  ∃ i, ChunkLocation off = (i, headerSize + i * blockSize, off - i * ChunkSize) ∧ 0 <= i ∧
    i * ChunkSize <= off < (i + 1) * ChunkSize.
Proof.
  intros Hoff Hmax. destruct sizes as (Hc & _). exists (off / ChunkSize).
  pose proof (Z.div_pos off ChunkSize ltac:(lia) Hc). pose proof (Z.div_le_mono off size ChunkSize Hc ltac:(lia)).
  pose proof (Z.div_mod off ChunkSize ltac:(lia)). pose proof (Z.mod_pos_bound off ChunkSize Hc).
  unfold ChunkLocation. destruct (Z.ltb_spec off 0); [lia|]. rewrite Z.quot_div_nonneg, Z.rem_mod_nonneg by lia.
  destruct (Z.ltb_spec MaxUint32 (off / ChunkSize)); [lia|]. split; [|lia]. f_equal. lia.
Qed.

(** Random access.  For an offset inside the plaintext, the reader opened at
    the chunk [ChunkLocation] names - with the header and the ciphertext from the
    offset it names - delivers the plaintext from that chunk on, and skipping the
    bytes it names gives the plaintext from the requested offset. *)
Theorem random_access p base k id off n :
  blen k = KeySize → blen base = baseNonceSize → blen p / ChunkSize < MaxUint32 →
  0 <= off <= blen p → 0 < n →
  let env := envelope (aead_new k) id base p in
  let '(index, cipher_offset, skip) := ChunkLocation off in
  ∃ r rest,
    NewChunkReader (ztake EnvelopeHeaderSize env)
      {| src_content := zdrop cipher_offset env; src_fail := None |} k id (blen p) index = Ok r ∧
    reads dec_fill n r rest io_EOF ∧ zdrop skip rest = zdrop off p.
Proof.
  intros Hk Hb Hmax Hoff Hn. cbv zeta. destruct sizes as (Hc & _).
  destruct (ChunkLocation_spec off (blen p) Hoff Hmax) as (i & -> & Hi & Hio).
  destruct (chunk_reader_drain p base k id i Hk Hb Hmax Hi ltac:(lia)) as (r & f & -> & Hbuf & Hd).
  exists r, (zdrop (i * ChunkSize) p). split; [done|].
  split; [by eapply read_all_drain; [apply dec_progresses| | |]|].
  unfold zdrop. rewrite drop_drop. f_equal. lia.
Qed.

(** A nonce is never used twice under a data key.  Whatever the source of the
    plaintext delivers and however long it is, all the chunks one encrypting
    reader seals are sealed under different nonces: the chunk counter never wraps
    around. *)
Theorem nonces_never_repeat base src k id r fuel :
  NewEncryptingReader base src k id = Ok r → NoDup (sealed_nonces fuel r).
Proof.
  intros (key & _ & [= <-])%bind_Ok. apply sealed_nonces_NoDup. simpl. unfold MaxUint32. lia.
Qed.
End Properties.

Section Rotation.
Context {cipher : AEAD} {laws : AEADLaws cipher}.
Context (base64_decode : string → option bytes) (sha256 : bytes → bytes).

Lemma addPrevious_entries_elem entries r r' entry rawID rawKey id key :
  addPrevious_entries base64_decode entries r = Ok r' → entry ∈ entries → TrimSpace entry ≠ "" →
  Cut ":" (TrimSpace entry) = Some (rawID, rawKey) → validateKeyID rawID = Ok id →
  newKeyEncryptionKey base64_decode rawKey = Ok key → keys r' !! id = Some key.
Proof.
  revert r. induction entries as [|e0 entries IH]; intros r; simpl; [by intros _ ?%elem_of_nil|].
  intros Hadd [<-|Hin]%elem_of_cons Hne Hcut Hid Hkey.
  - rewrite bool_decide_false in Hadd by done. rewrite Hcut, Hid in Hadd. simpl in Hadd.
    destruct (keys r !! id) eqn:E; [done|]. rewrite Hkey in Hadd. simpl in Hadd.
    apply addPrevious_entries_Ok in Hadd as [Hsub _]. eapply lookup_weaken; [|exact Hsub]. simpl.
    by rewrite lookup_insert_eq.
  - destruct (TrimSpace e0 == ""); [by eapply IH|].
    destruct (Cut ":" (TrimSpace e0)) as [[id0 key0]|]; [|done].
    apply bind_Ok in Hadd as (id1 & _ & Hadd). destruct (keys r !! id1); [done|].
    apply bind_Ok in Hadd as (key1 & _ & Hadd). by eapply IH.
Qed.

Lemma unwrap_wrap key nonce dataKey keyID b wrapped :
  blen nonce = nonceSize → wrap sha256 key nonce dataKey keyID b = Ok wrapped →
  unwrap sha256 key wrapped keyID b = Ok dataKey.
Proof.
  intros Hn. unfold wrap, unwrap. destruct (Z.eqb_spec (blen dataKey) KeySize) as [Hk|]; [|done]. simpl.
  intros (wire & Hw & [= <-])%bind_Ok. rewrite Hw. simpl. rewrite ztake_app, zdrop_app by done.
  rewrite blen_app, Hn, aead_seal_length, Hk. change (nonceSize + (KeySize + tagSize) <? nonceSize + tagSize) with false.
  cbn match. pose proof (proj2 (aead_open_seal key nonce _ (dekAAD sha256 keyID b wire) dataKey) eq_refl) as ->.
  by rewrite Hk.
Qed.

(** A key rotation loses no data key.  What a ring wraps it unwraps, and so
    does any later ring, under whatever active key, that lists the first one's
    active key among its previous keys under the identifier that was returned. *)
Theorem key_rotation activeID1 key1 previous1 ring1 nonce dataKey b wrapped keyID
    activeID2 key2 previous2 ring2 entry rawID :
  NewKeyring base64_decode activeID1 key1 previous1 = Ok ring1 → blen nonce = nonceSize →
  Wrap sha256 (Some ring1) nonce dataKey b = Ok (wrapped, keyID) →
  NewKeyring base64_decode activeID2 key2 previous2 = Ok ring2 →
  entry ∈ Split "," previous2 → TrimSpace entry ≠ "" → Cut ":" (TrimSpace entry) = Some (rawID, key1) →
  validateKeyID rawID = Ok keyID →
  keyID = ActiveKeyID (Some ring1) ∧ Unwrap sha256 (Some ring1) wrapped keyID b = Ok dataKey ∧
  Unwrap sha256 (Some ring2) wrapped keyID b = Ok dataKey.
Proof.
  intros H1 Hn Hw H2 Hin Hne Hcut Hid.
  destruct (NewKeyring_active base64_decode _ _ _ _ H1) as (key & Hkey & Hnew).
  unfold Wrap in Hw. rewrite Hkey in Hw. apply bind_Ok in Hw as (sealed & Hw & [= -> <-]).
  apply unwrap_wrap in Hw; [|done]. split; [done|]. unfold Unwrap. rewrite Hkey. split; [done|].
  unfold NewKeyring, addPrevious in H2. apply bind_Ok in H2 as (id2 & _ & H2).
  apply bind_Ok in H2 as (k2 & _ & H2). by rewrite (addPrevious_entries_elem _ _ _ _ _ _ _ _ H2 Hin Hne Hcut Hid Hnew).
Qed.
End Rotation.

(** ** Witnesses *)

(** A cipher that keeps the laws and hides nothing: the tag is sixteen zeros. *)
#[global] Instance toy_cipher : AEAD := {
  aead_key := bytes;
  aead_new := id;
  aead_seal _ _ p _ := p ++ replicate 16 0;
  aead_open _ _ c _ :=
    let p := take (length c - 16) c in
    if decide (c = p ++ replicate 16 0) then Some p else None
}.

#[global] Instance toy_laws : AEADLaws toy_cipher.
Proof.
  split.
  - intros k nonce c aad p. cbn [aead_open aead_seal toy_cipher]. case_decide as Hc; split; intros Heq; simplify_eq; try done.
    + by rewrite length_app, length_replicate, Nat.add_sub, take_app_length.
    + destruct Hc. by rewrite length_app, length_replicate, Nat.add_sub, take_app_length.
  - intros k nonce p aad. cbn [aead_seal toy_cipher]. unfold blen. rewrite length_app, length_replicate. unfold tagSize. lia.
Qed.

Definition toy_key : bytes := replicate 32 7.

Lemma three_below : 3 / ChunkSize < MaxUint32.
Proof. destruct sizes as (? & _). rewrite Z.div_small; [done|]. split; [lia|]. vm_compute. done. Qed.

Lemma decrypt_exact_witness :
  ∃ r out e,
    NewDecryptingReader {| src_content := [1; 2; 3]; src_fail := None |} toy_key [9] 3 = Ok r ∧
    reads dec_fill 2 r out e ∧
    (e = io_EOF ↔
     (∃ base, blen base = baseNonceSize ∧ [1; 2; 3] = envelope (aead_new toy_key) [9] base out) ∧ blen out = 3).
Proof. apply decrypt_exact; [done|lia|apply three_below|lia]. Defined.

Lemma encrypt_decrypt_witness :
  ∃ enc dec stream,
    NewEncryptingReader (replicate 8 5) {| src_content := [1; 2; 3]; src_fail := None |} toy_key [9] = Ok enc ∧
    reads enc_fill 2 enc stream io_EOF ∧ blen stream = CiphertextSize (blen [1; 2; 3]) ∧
    NewDecryptingReader {| src_content := stream; src_fail := None |} toy_key [9] (blen [1; 2; 3]) = Ok dec ∧
    reads dec_fill 1 dec [1; 2; 3] io_EOF.
Proof. apply encrypt_decrypt; [done|done|apply three_below|lia|lia]. Defined.

Lemma random_access_witness :
  let env := envelope (aead_new toy_key) [9] (replicate 8 5) [1; 2; 3] in
  let '(index, cipher_offset, skip) := ChunkLocation 2 in
  ∃ r rest,
    NewChunkReader (ztake EnvelopeHeaderSize env)
      {| src_content := zdrop cipher_offset env; src_fail := None |} toy_key [9] (blen [1; 2; 3]) index = Ok r ∧
    reads dec_fill 2 r rest io_EOF ∧ zdrop skip rest = zdrop 2 [1; 2; 3].
Proof.
  apply (random_access [1; 2; 3] (replicate 8 5) toy_key [9] 2 2);
    [done|done|apply three_below|unfold blen; simpl; lia|lia].
Defined.

Lemma nonces_never_repeat_witness :
  match NewEncryptingReader (replicate 8 5) {| src_content := [1; 2; 3]; src_fail := None |} toy_key [9] with
  | Ok r => NoDup (sealed_nonces 5 r) ∧ length (sealed_nonces 5 r) = 1%nat
  | Fail _ => False
  end.
Proof.
  split; [|by vm_compute].
  apply (nonces_never_repeat (replicate 8 5) {| src_content := [1; 2; 3]; src_fail := None |} toy_key [9]).
  reflexivity.
Defined.

(** A base64 of two words, and a digest. *)
Definition toy_base64 (s : string) : option bytes :=
  if decide (s = "AAAA") then Some (replicate 32 1)
  else if decide (s = "BBBB") then Some (replicate 32 2) else None.
Definition toy_sha256 (b : bytes) : bytes := replicate 32 0.

Definition toy_binding : Binding :=
  {| AttachmentID := replicate 16 3; WorkspaceID := replicate 16 4; PlaintextSize := 3;
     Binding_KeyWrapVersion := KeyWrapVersion; ContentEnvelopeVersion := EnvelopeVersion |}.

Definition toy_wrapped : bytes := replicate 12 6 ++ toy_key ++ replicate 16 0.

Lemma key_rotation_witness :
  match NewKeyring toy_base64 "k1" "AAAA" "", NewKeyring toy_base64 "k2" "BBBB" "k1:AAAA" with
  | Ok ring1, Ok ring2 =>
      Wrap toy_sha256 (Some ring1) (replicate 12 6) toy_key toy_binding = Ok (toy_wrapped, "k1") ∧
      "k1" = ActiveKeyID (Some ring1) ∧ Unwrap toy_sha256 (Some ring1) toy_wrapped "k1" toy_binding = Ok toy_key ∧
      Unwrap toy_sha256 (Some ring2) toy_wrapped "k1" toy_binding = Ok toy_key
  | _, _ => False
  end.
Proof.
  destruct (NewKeyring toy_base64 "k1" "AAAA" "") as [ring1|] eqn:E1; [|by vm_compute in E1].
  destruct (NewKeyring toy_base64 "k2" "BBBB" "k1:AAAA") as [ring2|] eqn:E2; [|by vm_compute in E2].
  assert (Hw : Wrap toy_sha256 (Some ring1) (replicate 12 6) toy_key toy_binding = Ok (toy_wrapped, "k1")).
  { vm_compute in E1. injection E1 as <-. by vm_compute. }
  split; [exact Hw|].
  apply (key_rotation toy_base64 toy_sha256 "k1" "AAAA" "" ring1 (replicate 12 6) toy_key toy_binding toy_wrapped "k1"
    "k2" "BBBB" "k1:AAAA" ring2 "k1:AAAA" "k1" E1 eq_refl Hw E2).
  - change (Split "," "k1:AAAA") with ["k1:AAAA"%string]. by apply list_elem_of_singleton.
  - by vm_compute.
  - by vm_compute.
  - by vm_compute.
Defined.
