(* ===== verification/AttachmentRange.v ===== *)
(** * Seekable reads of an encrypted object

    [services/file-service/internal/service]: attachment_range.go, and the part
    of attachment_service.go that opens a stored object, over the streams of
    [Envelope].

    Storage is outside: each operation is given what the object store answers
    during it, and the errors it answers with are its own.  Parsing an identifier
    ([uuid.Parse]) is a parameter. *)

From stdpp Require Import prelude gmap strings sorting.
From Stdlib Require Import ZArith Lia.
From S2P Require Import Prelude GoStrings Envelope.
Local Open Scope Z_scope.

Definition ErrInvalidInput : error := ErrNew "domain.ErrInvalidInput".
Definition ErrNotFound : error := ErrNew "domain.ErrNotFound".
Definition ErrUnavailable : error := ErrNew "domain.ErrUnavailable".

(** [io.Seeker]. *)
Definition io_SeekStart : Z := 0.
Definition io_SeekCurrent : Z := 1.
Definition io_SeekEnd : Z := 2.

(** What the object store answers: the whole object, the object from an offset,
    and what closing a body reports. *)
Record ObjectStore : Type := {
  Open : result Source;
  OpenRange : Z → result Source;
  CloseBody : option error
}.

Record encryptedObject : Type := {
  eo_objectID : string;
  eo_workspaceID : string;
  eo_size : Z;
  eo_wrappedDEK : bytes;
  eo_kekKeyID : string;
  eo_keyWrapVersion : Z;
  eo_envelopeVersion : Z
}.

Section Reader.
Context {cipher : AEAD}.

(** The context, the logger and the store, which is an argument of the operations,
    are left out; [body] is open exactly when [stream] is. *)
Record rangeReader : Type := {
  rr_object : encryptedObject;
  rr_dataKey : bytes;
  rr_objectID : bytes;
  rr_header : option bytes;
  rr_pos : Z;
  rr_streamPos : Z;
  rr_stream : option (buffered dec_state)
}.

Definition rr_with (r : rangeReader) (header : option bytes) (pos streamPos : Z)
    (stream : option (buffered dec_state)) : rangeReader :=
  {| rr_object := rr_object r; rr_dataKey := rr_dataKey r; rr_objectID := rr_objectID r;
     rr_header := header; rr_pos := pos; rr_streamPos := streamPos; rr_stream := stream |}.

Definition Seek (r : rangeReader) (offset whence : Z) : result Z * rangeReader :=
  let seek next :=
    if (next <? 0) || (eo_size (rr_object r) <? next)
    then (Fail (ErrWrap "seek out of range" ErrInvalidInput), r)
    else (Ok next, rr_with r (rr_header r) next (rr_streamPos r) (rr_stream r)) in
  if whence =? io_SeekStart then seek offset
  else if whence =? io_SeekCurrent then seek (int64 (rr_pos r + offset))
  else if whence =? io_SeekEnd then seek (int64 (eo_size (rr_object r) + offset))
  else (Fail (ErrWrap "unknown seek whence" ErrInvalidInput), r).

Definition closeStream (st : ObjectStore) (r : rangeReader) : option error * rangeReader :=
  match rr_stream r with
  | None => (None, r)
  | Some _ => (CloseBody st, rr_with r (rr_header r) (rr_pos r) (rr_streamPos r) None)
  end.

Definition openStoredObject (st : ObjectStore) : result Source :=
  match Open st with
  | Ok body => Ok body
  | Fail err => if negb (errors_Is err ErrNotFound) then Fail err
                else Fail (ErrWrap "attachment object unavailable" ErrUnavailable)
  end.

Definition storageError (err : error) : error :=
  if negb (errors_Is err ErrNotFound) then err else ErrWrap "attachment object unavailable" ErrUnavailable.

Definition openFromStart (st : ObjectStore) (r : rangeReader) : option error * rangeReader :=
  match openStoredObject st with
  | Fail err => (Some err, r)
  | Ok body =>
      match NewDecryptingReader body (rr_dataKey r) (rr_objectID r) (eo_size (rr_object r)) with
      | Fail err => (Some (ErrWrap "prepare attachment envelope" err), r)
      | Ok plaintext => (None, rr_with r (rr_header r) (rr_pos r) (rr_streamPos r) (Some plaintext))
      end
  end.

Definition loadHeader (st : ObjectStore) (r : rangeReader) : option error * rangeReader :=
  match rr_header r with
  | Some _ => (None, r)
  | None =>
      match OpenRange st 0 with
      | Fail err => (Some (storageError err), r)
      | Ok body =>
          let '(header, err, _) := ReadFull body EnvelopeHeaderSize in
          match err with
          | Some _ => (Some (ErrWrap "attachment object unreadable" ErrUnavailable), r)
          | None => (None, rr_with r (Some header) (rr_pos r) (rr_streamPos r) (rr_stream r))
          end
      end
  end.

(** [io.CopyN(io.Discard, plaintext, n)]: reads of at most 8192 bytes until [n]
    are gone or a read fails. *)
Fixpoint discard (fuel : nat) (n : Z) (plaintext : buffered dec_state)
    : option (option error * buffered dec_state) :=
  match fuel with
  | O => None
  | S fuel =>
      if n <=? 0 then Some (None, plaintext)
      else match Read dec_fill plaintext (Z.min 8192 n) with
           | None => None
           | Some (_, Some err, plaintext) => Some (Some err, plaintext)
           | Some (piece, None, plaintext) => discard fuel (n - blen piece) plaintext
           end
  end.

Definition openFromChunk (st : ObjectStore) (r : rangeReader) (offset : Z) : option (option error * rangeReader) :=
  let '(err, r) := loadHeader st r in
  match err with
  | Some err => Some (Some err, r)
  | None =>
      let '(chunkIndex, ciphertextOffset, skip) := ChunkLocation offset in
      match OpenRange st ciphertextOffset with
      | Fail err => Some (Some (storageError err), r)
      | Ok body =>
          match NewChunkReader (default [] (rr_header r)) body (rr_dataKey r) (rr_objectID r)
                  (eo_size (rr_object r)) chunkIndex with
          | Fail err => Some (Some (ErrWrap "prepare attachment envelope" err), r)
          | Ok plaintext =>
              match (if skip >? 0 then discard (S (Z.to_nat skip)) skip plaintext else Some (None, plaintext)) with
              | None => None
              | Some (Some err, _) => Some (Some (ErrWrap "seek attachment content" err), r)
              | Some (None, plaintext) =>
                  Some (None, rr_with r (rr_header r) (rr_pos r) (rr_streamPos r) (Some plaintext))
              end
          end
      end
  end.

Definition openAt (st : ObjectStore) (r : rangeReader) (offset : Z) : option (option error * rangeReader) :=
  let '(err, r) := closeStream st r in
  match err with
  | Some err => Some (Some err, r)
  | None =>
      let r := rr_with r (rr_header r) offset offset (rr_stream r) in
      if offset =? 0 then Some (openFromStart st r) else openFromChunk st r offset
  end.

(** [Read] into a slice of length [n]; [None] when a loop ran out of turns. *)
Definition rr_Read (st : ObjectStore) (r : rangeReader) (n : Z) : option (bytes * option error * rangeReader) :=
  let opened :=
    if match rr_stream r with None => true | Some _ => false end || negb (rr_streamPos r =? rr_pos r)
    then openAt st r (rr_pos r) else Some (None, r) in
  match opened with
  | None => None
  | Some (Some err, r) => Some ([], Some err, r)
  | Some (None, r) =>
      match rr_stream r with
      | None => None
      | Some stream =>
          match Read dec_fill stream n with
          | None => None
          | Some (piece, err, stream) =>
              let pos := rr_pos r + blen piece in
              Some (piece, err, rr_with r (rr_header r) pos pos (Some stream))
          end
      end
  end.

(** [openEncryptedObject]: the versions, the identifiers, the data key, and then
    the stream from its start. *)
Context (parse_uuid : string → option bytes) (sha256 : bytes → bytes).

Definition openEncryptedObject (st : ObjectStore) (keys : option Keyring) (object : encryptedObject)
    : option (result rangeReader) :=
  if negb (eo_envelopeVersion object =? EnvelopeVersion)
  then Some (Fail (ErrNew "unsupported envelope version"))
  else match parse_uuid (eo_objectID object) with
       | None => Some (Fail (ErrNew "invalid stored object id"))
       | Some objectID =>
           match parse_uuid (eo_workspaceID object) with
           | None => Some (Fail (ErrNew "invalid stored workspace id"))
           | Some workspaceID =>
               match Unwrap sha256 keys (eo_wrappedDEK object) (eo_kekKeyID object)
                       {| AttachmentID := objectID; WorkspaceID := workspaceID;
                          PlaintextSize := eo_size object;
                          Binding_KeyWrapVersion := eo_keyWrapVersion object;
                          ContentEnvelopeVersion := eo_envelopeVersion object |} with
               | Fail err => Some (Fail (ErrWrap "unwrap attachment key" err))
               | Ok dataKey =>
                   match openAt st {| rr_object := object; rr_dataKey := dataKey; rr_objectID := objectID;
                                      rr_header := None; rr_pos := 0; rr_streamPos := 0; rr_stream := None |} 0 with
                   | None => None
                   | Some (Some err, _) => Some (Fail err)
                   | Some (None, reader) => Some (Ok reader)
                   end
               end
           end
       end.
End Reader.

(** ** An abstract file *)

Inductive op : Type :=
| OpRead (n : Z)
| OpSeek (offset whence : Z).

Inductive output : Type :=
| Bytes (piece : bytes)
| Sought (pos : Z)
| Failed (err : error).

(** One operation of the reader during which the store answers [st]. *)
Definition reader_step {cipher : AEAD} (r : rangeReader) (o : ObjectStore * op) : option (output * rangeReader) :=
  match o with
  | (st, OpRead n) =>
      '(piece, err, r) ← rr_Read st r n;
      Some (match err with None => Bytes piece | Some e => Failed e end, r)
  | (_, OpSeek offset whence) =>
      let '(answer, r) := Seek r offset whence in
      Some (match answer with Ok pos => Sought pos | Fail e => Failed e end, r)
  end.

Fixpoint reader_run {cipher : AEAD} (r : rangeReader) (ops : list (ObjectStore * op))
    : option (list output * rangeReader) :=
  match ops with
  | [] => Some ([], r)
  | o :: ops =>
      '(out, r) ← reader_step r o;
      '(outs, r) ← reader_run r ops;
      Some (out :: outs, r)
  end.

(** The position a seek asks for. *)
Definition seek_target (size pos offset whence : Z) : option Z :=
  if whence =? io_SeekStart then Some offset
  else if whence =? io_SeekCurrent then Some (pos + offset)
  else if whence =? io_SeekEnd then Some (size + offset)
  else None.

(** The store gave everything it was asked for. *)
Definition available (st : ObjectStore) : Prop :=
  is_ok (Open st) = true ∧ (∀ off, is_ok (OpenRange st off) = true) ∧ CloseBody st = None.

(** A file of content [p]: reads deliver the bytes at the position, and the end of
    file exactly at its end; only a store that fails makes a read fail, and the
    position is then where it was. *)
Inductive file_step (p : bytes) (pos : Z) : ObjectStore * op → output → Z → Prop :=
| file_seek st offset whence next :
    seek_target (blen p) pos offset whence = Some next → 0 <= next <= blen p →
    file_step p pos (st, OpSeek offset whence) (Sought next) next
| file_seek_refused st offset whence e :
    errors_Is e ErrInvalidInput = true →
    (∀ next, seek_target (blen p) pos offset whence = Some next → ¬ (0 <= next <= blen p)) →
    file_step p pos (st, OpSeek offset whence) (Failed e) pos
| file_read st n piece :
    piece ≠ [] → blen piece <= n → piece = ztake (blen piece) (zdrop pos p) →
    file_step p pos (st, OpRead n) (Bytes piece) (pos + blen piece)
| file_eof st n : pos = blen p → file_step p pos (st, OpRead n) (Failed io_EOF) pos
| file_unavailable st n e : ¬ available st → file_step p pos (st, OpRead n) (Failed e) pos.

Inductive file_run (p : bytes) : Z → list (ObjectStore * op) → list output → Prop :=
| file_run_nil pos : file_run p pos [] []
| file_run_cons pos o out pos' ops outs :
    file_step p pos o out pos' → file_run p pos' ops outs → file_run p pos (o :: ops) (out :: outs).

(** ** The reader over a faithful store *)

Section Faithful.
Context {cipher : AEAD} {laws : AEADLaws cipher}.
Context (k id base p : bytes) (Hk : blen k = KeySize) (Hb : blen base = baseNonceSize)
        (Hmax : blen p / ChunkSize < MaxUint32).

Let stored := envelope (aead_new k) id base p.

(** The store may fail, but answers with nothing but the object. *)
Definition faithful (st : ObjectStore) : Prop :=
  (∀ body, Open st = Ok body → body = {| src_content := stored; src_fail := None |}) ∧
  (∀ off body, 0 <= off → OpenRange st off = Ok body →
     body = {| src_content := zdrop off stored; src_fail := None |}).

(** A stream that has the plaintext from a position left to deliver. *)
Definition serves (stream : buffered dec_state) (pos : Z) : Prop :=
  0 <= pos <= blen p ∧ in_buffer stream ∧ ∃ f, drain dec_fill f stream = Some (zdrop pos p, io_EOF).

Record reader_ok (r : rangeReader) : Prop := {
  ok_key : rr_dataKey r = k;
  ok_id : rr_objectID r = id;
  ok_size : eo_size (rr_object r) = blen p;
  ok_pos : 0 <= rr_pos r <= blen p;
  ok_header : ∀ h, rr_header r = Some h → h = ztake EnvelopeHeaderSize stored;
  ok_stream : ∀ s, rr_stream r = Some s → serves s (rr_streamPos r)
}.

Lemma zdrop_zdrop a b (l : bytes) : 0 <= a → 0 <= b → zdrop b (zdrop a l) = zdrop (a + b) l.
Proof. intros Ha Hb0. unfold zdrop. by rewrite drop_drop, Z2Nat.inj_add. Qed.

Lemma Read_length {S} (fill : buffered S → buffered S) r n piece err r' :
  0 <= n → Read fill r n = Some (piece, err, r') → blen piece <= n.
Proof.
  unfold Read. intros Hn. destruct (read_loop fill 3 r) as [[[e|] r1]|]; [| |done]; intros [= <- <- <-]; [done|].
  unfold blen, ztake. rewrite length_take. lia.
Qed.

(** One read of a stream that serves a position. *)
Lemma serves_Read s pos n :
  serves s pos → 0 < n →
  ∃ piece err s', Read dec_fill s n = Some (piece, err, s') ∧ serves s' (pos + blen piece) ∧ blen piece <= n ∧
    ((err = None ∧ piece ≠ [] ∧ zdrop pos p = piece ++ zdrop (pos + blen piece) p) ∨
     (err = Some io_EOF ∧ piece = [] ∧ pos = blen p)).
Proof.
  intros (Hpos & Hbuf & f & Hd) Hn.
  destruct (Read_spec dec_fill f s n _ _ dec_progresses Hbuf Hn Hd)
    as [(Hnil & s' & f' & Hr & Hbuf' & Hd')|(piece & s' & out & f' & Hne & Hr & Hbuf' & Hout & Hd')].
  - assert (Hend : pos = blen p).
    { assert (Hl : blen (zdrop pos p) = 0) by (by rewrite Hnil). rewrite blen_zdrop in Hl by lia. lia. }
    exists [], (Some io_EOF), s'. change (blen []) with 0. rewrite Z.add_0_r. split; [done|].
    split; [|split; [lia|by right]]. split; [done|]. split; [done|]. exists f'. by rewrite Hd', Hnil.
  - assert (Hl : blen (zdrop pos p) = blen piece + blen out) by (by rewrite Hout, blen_app).
    rewrite blen_zdrop in Hl by lia. pose proof (blen_nonneg piece). pose proof (blen_nonneg out).
    assert (Ho : out = zdrop (pos + blen piece) p).
    { rewrite <-zdrop_zdrop by lia. rewrite Hout. by rewrite zdrop_app. }
    exists piece, None, s'. split; [done|]. split; [|split].
    + split; [lia|]. split; [done|]. exists f'. by rewrite <-Ho.
    + eapply Read_length; [|exact Hr]. lia.
    + left. by rewrite <-Ho.
Qed.

Lemma serves_discard fuel n s pos :
  serves s pos → 0 <= n → pos + n <= blen p → (Z.to_nat n < fuel)%nat →
  ∃ s', discard fuel n s = Some (None, s') ∧ serves s' (pos + n).
Proof.
  revert n s pos. induction fuel as [|fuel IH]; intros n s pos Hs Hn Hle Hf; [lia|]. simpl.
  destruct (Z.leb_spec n 0) as [|Hpos]; [exists s; by replace (pos + n) with pos by lia|].
  destruct (serves_Read s pos (Z.min 8192 n) Hs ltac:(lia)) as (piece & err & s' & -> & Hs' & Hl & Hc).
  destruct Hc as [(-> & Hne & _)|(_ & _ & Hend)]; [|lia].
  assert (Hpl : 0 < blen piece).
  { destruct piece as [|b piece]; [done|]. unfold blen. simpl. lia. }
  destruct (IH (n - blen piece) s' (pos + blen piece) Hs') as (s2 & -> & Hs2); [lia..|].
  exists s2. split; [done|]. by replace (pos + n) with (pos + blen piece + (n - blen piece)) by lia.
Qed.

Lemma stored_header : EnvelopeHeaderSize <= blen stored.
Proof.
  unfold stored, envelope. rewrite !blen_app, Hb. pose proof (blen_nonneg (seal_from (aead_new k) id base 0 (chunks p))).
  change (blen magic) with 4. change EnvelopeHeaderSize with 12. change baseNonceSize with 8. lia.
Qed.

Lemma with_ok r header pos streamPos stream :
  reader_ok r → 0 <= pos <= blen p → (∀ h, header = Some h → h = ztake EnvelopeHeaderSize stored) →
  (∀ s, stream = Some s → serves s streamPos) → reader_ok (rr_with r header pos streamPos stream).
Proof. intros [? ? ? ? ? ?] ? ? ?. by split. Qed.

(** What an attempt to open a stream at a position leaves behind. *)
Definition opens (st : ObjectStore) (pos : Z) (answer : option (option error * rangeReader)) : Prop :=
  ∃ err r, answer = Some (err, r) ∧ reader_ok r ∧ rr_pos r = pos ∧
    ((err = None ∧ rr_streamPos r = pos ∧ is_Some (rr_stream r)) ∨ (is_Some err ∧ ¬ available st)).

Lemma openFromStart_spec st r :
  reader_ok r → faithful st → rr_pos r = 0 → rr_streamPos r = 0 → rr_stream r = None →
  opens st 0 (Some (openFromStart st r)).
Proof.
  intros Hr [Ho _] Hp Hs Hn. unfold openFromStart, openStoredObject.
  destruct (Open st) as [body|err] eqn:E.
  - rewrite (Ho body eq_refl), (ok_key r Hr), (ok_id r Hr), (ok_size r Hr). unfold NewDecryptingReader.
    pose proof (blen_nonneg p). rewrite newDecryptingReader_Ok by done. cbn match.
    eexists None, _. split; [reflexivity|]. split; [|split; [done|left; by eauto]].
    apply with_ok; [done|lia|apply (ok_header r Hr)|]. intros s [= <-]. rewrite Hs. split; [lia|]. split; [done|].
    destruct (initial_drain (aead_new k) id stored (blen p) _ (le_n _)) as (out & e & Hd & _ & Hall).
    destruct (Hall base p) as [-> ->]; [done..|]. eexists. rewrite zdrop_0. exact Hd.
  - destruct (negb _); (eexists (Some _), r; split; [reflexivity|]; split; [done|]; split; [done|];
      right; split; [by eauto|]; intros (Hok & _); by rewrite E in Hok).
Qed.

Lemma loadHeader_spec st r :
  reader_ok r → faithful st → rr_stream r = None →
  ∃ err r', loadHeader st r = (err, r') ∧ reader_ok r' ∧ rr_pos r' = rr_pos r ∧ rr_streamPos r' = rr_streamPos r ∧
    rr_stream r' = None ∧
    ((err = None ∧ rr_header r' = Some (ztake EnvelopeHeaderSize stored)) ∨ (is_Some err ∧ ¬ available st)).
Proof.
  intros Hr [_ Hrange] Hn. unfold loadHeader. destruct (rr_header r) as [h|] eqn:Eh.
  - exists None, r. split_and!; try done. left. split; [done|]. by rewrite (ok_header r Hr h Eh) in Eh.
  - destruct (OpenRange st 0) as [body|err] eqn:E.
    + rewrite (Hrange 0 body ltac:(lia) E), zdrop_0, ReadFull_full by apply stored_header. cbn match.
      eexists None, _. split; [reflexivity|]. split; [|by split_and!; auto].
      apply with_ok; [done|apply (ok_pos r Hr)|by intros h [= <-]|]. rewrite Hn. done.
    + eexists (Some _), r. split; [reflexivity|]. split_and!; try done. right. split; [by eauto|].
      intros (_ & Hok & _). specialize (Hok 0). by rewrite E in Hok.
Qed.

Lemma openFromChunk_spec st r :
  reader_ok r → faithful st → rr_streamPos r = rr_pos r → rr_stream r = None →
  opens st (rr_pos r) (openFromChunk st r (rr_pos r)).
Proof.
  intros Hr Hst Hs Hn. unfold openFromChunk. set (off := rr_pos r) in *.
  destruct (loadHeader_spec st r Hr Hst Hn) as (err & r1 & -> & Hr1 & Hp1 & Hs1 & Hn1 & [[-> Hh]|[[e ->] Hun]]).
  2:{ eexists (Some _), r1. split; [reflexivity|]. split; [done|]. split; [done|]. right. by eauto. }
  destruct (ChunkLocation_spec off (blen p)) as (i & -> & Hi & Hio); [apply (ok_pos r Hr)|done|].
  pose proof sizes as (Hc & Hbs & Ht & Hhs).
  destruct (OpenRange st (headerSize + i * blockSize)) as [body|err] eqn:E.
  2:{ eexists (Some _), r1. split; [reflexivity|]. split; [done|]. split; [done|]. right. split; [by eauto|].
      intros (_ & Hok & _). specialize (Hok (headerSize + i * blockSize)). by rewrite E in Hok. }
  destruct Hst as [_ Hrange]. assert (Hoff : 0 <= headerSize + i * blockSize) by nia.
  rewrite (Hrange _ body Hoff E), Hh, (ok_key r1 Hr1), (ok_id r1 Hr1), (ok_size r1 Hr1).
  pose proof (ok_pos r Hr) as Hpos. fold off in Hpos. cbn [default from_option Datatypes.id].
  pose proof (chunk_reader_drain p base k id i Hk Hb Hmax Hi ltac:(lia)) as Hchunk. cbv zeta in Hchunk.
  fold stored in Hchunk. destruct Hchunk as (s & f & -> & Hbuf & Hd).
  assert (Hsv : serves s (i * ChunkSize)) by (split; [lia|eauto]).
  assert (Hskip : ∃ s', (if off - i * ChunkSize >? 0 then discard (S (Z.to_nat (off - i * ChunkSize))) (off - i * ChunkSize) s
                         else Some (None, s)) = Some (None, s') ∧ serves s' off).
  { destruct (Z.gtb_spec (off - i * ChunkSize) 0).
    - destruct (serves_discard (S (Z.to_nat (off - i * ChunkSize))) (off - i * ChunkSize) s (i * ChunkSize) Hsv)
        as (s' & -> & Hs'); [lia..|]. exists s'. split; [done|]. by replace off with (i * ChunkSize + (off - i * ChunkSize)) by lia.
    - exists s. split; [done|]. by replace off with (i * ChunkSize) by lia. }
  destruct Hskip as (s' & -> & Hs'). eexists None, _. split; [reflexivity|].
  split; [|split; [done|left; split_and!; [done|by rewrite <-Hs, <-Hs1|by eauto] ] ].
  apply with_ok; [done|apply (ok_pos r1 Hr1)|by intros h [= <-]|].
  intros s2 [= <-]. by rewrite Hs1, Hs.
Qed.

Lemma openAt_spec st r :
  reader_ok r → faithful st → opens st (rr_pos r) (openAt st r (rr_pos r)).
Proof.
  intros Hr Hst. unfold openAt, closeStream.
  assert (Hgo : ∀ r1, reader_ok r1 → rr_pos r1 = rr_pos r → rr_stream r1 = None →
    opens st (rr_pos r) (let r1 := rr_with r1 (rr_header r1) (rr_pos r) (rr_pos r) (rr_stream r1) in
      if rr_pos r =? 0 then Some (openFromStart st r1) else openFromChunk st r1 (rr_pos r))).
  { intros r1 Hr1 Hp Hn. cbv zeta. rewrite Hn.
    assert (Hok : reader_ok (rr_with r1 (rr_header r1) (rr_pos r) (rr_pos r) None)).
    { apply with_ok; [done|rewrite <-Hp; apply (ok_pos r1 Hr1)|apply (ok_header r1 Hr1)|done]. }
    destruct (Z.eqb_spec (rr_pos r) 0) as [Hz|_].
    - rewrite Hz in Hok |- *. by apply openFromStart_spec.
    - pose proof (openFromChunk_spec st _ Hok Hst eq_refl eq_refl) as H. exact H. }
  destruct (rr_stream r) as [s|] eqn:Es; [|by apply Hgo].
  assert (Hr1 : reader_ok (rr_with r (rr_header r) (rr_pos r) (rr_streamPos r) None)).
  { apply with_ok; [done|apply (ok_pos r Hr)|apply (ok_header r Hr)|done]. }
  destruct (CloseBody st) as [e|] eqn:E.
  - eexists (Some e), _. split; [reflexivity|]. split; [done|]. split; [done|]. right. split; [by eauto|].
    intros (_ & _ & Hok). congruence.
  - apply (Hgo _ Hr1); done.
Qed.

(** The reader moves as the file does. *)
Lemma rr_Read_spec st r n :
  reader_ok r → faithful st → 0 < n →
  ∃ piece err r', rr_Read st r n = Some (piece, err, r') ∧ reader_ok r' ∧
    file_step p (rr_pos r) (st, OpRead n) (match err with None => Bytes piece | Some e => Failed e end) (rr_pos r').
Proof.
  intros Hr Hst Hn. unfold rr_Read.
  assert (Hopened : opens st (rr_pos r)
    (if (match rr_stream r with Some _ => false | None => true end || negb (rr_streamPos r =? rr_pos r))
     then openAt st r (rr_pos r) else Some (None, r))).
  { destruct (_ || _) eqn:E; [by apply openAt_spec|]. apply orb_false_iff in E as [Es Ep].
    apply negb_false_iff, Z.eqb_eq in Ep. exists None, r. split_and!; try done. left. split_and!; try done.
    destruct (rr_stream r); [eauto|done]. }
  destruct Hopened as (err & r1 & -> & Hr1 & Hp1 & [(-> & Hs1 & [s Hs])|[[e ->] Hun]]).
  - rewrite Hs. pose proof (ok_stream r1 Hr1 s Hs) as Hsv. rewrite Hs1 in Hsv.
    destruct (serves_Read s (rr_pos r) n Hsv Hn) as (piece & err & s' & -> & Hsv' & Hl & Hcase).
    eexists piece, err, _. split; [reflexivity|]. rewrite Hp1.
    assert (Hr' : reader_ok (rr_with r1 (rr_header r1) (rr_pos r + blen piece) (rr_pos r + blen piece) (Some s'))).
    { apply with_ok; [done|apply Hsv'|apply (ok_header r1 Hr1)|by intros s2 [= <-] ]. }
    split; [done|]. cbn [rr_pos rr_with]. destruct Hcase as [(-> & Hne & Hsplit)|(-> & -> & Hend)].
    + apply file_read; [done|done|]. rewrite Hsplit. symmetry. by apply ztake_app.
    + change (blen []) with 0. rewrite Z.add_0_r. by apply file_eof.
  - eexists [], (Some e), r1. split; [reflexivity|]. split; [done|]. rewrite Hp1. by apply file_unavailable.
Qed.

(** Seeking is exact although positions are added in 64 bits. *)
Lemma Seek_spec r offset whence :
  reader_ok r → in_int64 offset →
  ∃ answer r', Seek r offset whence = (answer, r') ∧ reader_ok r' ∧ ∀ st,
    file_step p (rr_pos r) (st, OpSeek offset whence) (match answer with Ok pos => Sought pos | Fail e => Failed e end)
      (rr_pos r').
Proof.
  intros Hr Hoff. pose proof (ok_size r Hr) as Hsize. pose proof (ok_pos r Hr) as Hpos.
  pose proof sizes as (Hc & _).
  assert (Hsmall : blen p < 2 ^ 62).
  { assert (Hlt : blen p < MaxUint32 * ChunkSize) by (pose proof (Z.mul_succ_div_gt (blen p) ChunkSize Hc); nia).
    assert (Hcs : ChunkSize = 65536) by (vm_compute; done). rewrite Hcs in Hlt. unfold MaxUint32 in Hlt. lia. }
  assert (Hgo : ∀ target next,
    seek_target (blen p) (rr_pos r) offset whence = Some target →
    (0 <= next <= blen p → next = target) → (0 <= target <= blen p → next = target) →
    ∃ answer r', (if (next <? 0) || (blen p <? next) then (Fail (ErrWrap "seek out of range" ErrInvalidInput), r)
                  else (Ok next, rr_with r (rr_header r) next (rr_streamPos r) (rr_stream r))) = (answer, r') ∧
      reader_ok r' ∧ ∀ st, file_step p (rr_pos r) (st, OpSeek offset whence)
        (match answer with Ok pos => Sought pos | Fail e => Failed e end) (rr_pos r')).
  { intros target next Ht H1 H2. destruct (_ || _) eqn:E.
    - exists (Fail (ErrWrap "seek out of range" ErrInvalidInput)), r. split; [done|]. split; [done|]. intros st.
      apply file_seek_refused; [done|]. intros t Ht' Hin. rewrite Ht in Ht'. injection Ht' as <-.
      rewrite (H2 Hin) in E. lia.
    - assert (Hin : 0 <= next <= blen p) by lia. eexists (Ok next), _. split; [done|]. split.
      + apply with_ok; [done|done|apply (ok_header r Hr)|apply (ok_stream r Hr)].
      + intros st. cbn [rr_pos rr_with]. apply file_seek; [|done]. by rewrite (H1 Hin). }
  assert (Hwrap : ∀ a, 0 <= a <= blen p →
    (0 <= int64 (a + offset) <= blen p → int64 (a + offset) = a + offset) ∧
    (0 <= a + offset <= blen p → int64 (a + offset) = a + offset)).
  { intros a Ha. unfold in_int64, MinInt64, MaxInt64 in Hoff. split; intros H.
    - destruct (Z.le_gt_cases (a + offset) MaxInt64) as [Hle|Hgt].
      + apply int64_id. unfold in_int64, MinInt64, MaxInt64 in *. lia.
      + exfalso. unfold int64, MaxInt64 in *.
        replace (a + offset + 2 ^ 63) with (a + offset - 2 ^ 63 + 1 * 2 ^ 64) in H by lia.
        rewrite Z.mod_add in H by lia. rewrite Z.mod_small in H by lia. lia.
    - apply int64_id. unfold in_int64, MinInt64, MaxInt64. lia. }
  unfold Seek. rewrite Hsize. unfold seek_target in Hgo |- *.
  destruct (whence =? io_SeekStart) eqn:E1; [by apply (Hgo offset offset)|].
  destruct (whence =? io_SeekCurrent) eqn:E2.
  { destruct (Hwrap (rr_pos r) Hpos) as [H1 H2]. by apply (Hgo (rr_pos r + offset)). }
  destruct (whence =? io_SeekEnd) eqn:E3.
  { destruct (Hwrap (blen p)) as [H1 H2]; [pose proof (blen_nonneg p); lia|]. by apply (Hgo (blen p + offset)). }
  eexists (Fail _), r. split; [done|]. split; [done|]. intros st. apply file_seek_refused; [done|].
  intros next. unfold seek_target. by rewrite E1, E2, E3.
Qed.

Definition op_ok (o : ObjectStore * op) : Prop :=
  match o.2 with OpRead n => 0 < n | OpSeek offset _ => in_int64 offset end.

Lemma reader_step_spec r o :
  reader_ok r → faithful o.1 → op_ok o →
  ∃ out r', reader_step r o = Some (out, r') ∧ reader_ok r' ∧ file_step p (rr_pos r) o out (rr_pos r').
Proof.
  intros Hr Hst Ho. destruct o as [st [n|offset whence]]; cbn in *.
  - destruct (rr_Read_spec st r n Hr Hst Ho) as (piece & err & r' & -> & Hr' & Hstep). cbn. eauto.
  - destruct (Seek_spec r offset whence Hr Ho) as (answer & r' & -> & Hr' & Hstep). cbn. eauto.
Qed.

Lemma reader_run_spec ops r :
  reader_ok r → Forall faithful ops.*1 → Forall op_ok ops →
  ∃ outs r', reader_run r ops = Some (outs, r') ∧ file_run p (rr_pos r) ops outs.
Proof.
  revert r. induction ops as [|o ops IH]; intros r Hr Hst Ho; simpl.
  { eexists [], r. split; [done|]. constructor. }
  simpl in Hst. apply Forall_cons in Hst as [Hst Hsts]. apply Forall_cons in Ho as [Ho Hos].
  destruct (reader_step_spec r o Hr Hst Ho) as (out & r1 & Heq & Hr1 & Hstep).
  destruct (IH r1 Hr1 Hsts Hos) as (outs & r2 & Heq2 & Hrun).
  cbn [mbind option_bind]. rewrite Heq. cbn [mbind option_bind]. rewrite Heq2. cbn.
  exists (out :: outs), r2. split; [done|]. by econstructor.
Qed.

Lemma initial_ok object :
  eo_size object = blen p →
  reader_ok {| rr_object := object; rr_dataKey := k; rr_objectID := id; rr_header := None; rr_pos := 0;
               rr_streamPos := 0; rr_stream := None |}.
Proof. intros Hs. pose proof (blen_nonneg p). split; simpl; done || lia. Qed.
End Faithful.

Lemma unwrap_length {cipher : AEAD} sha256 keys wrapped keyID b dataKey :
  Unwrap sha256 keys wrapped keyID b = Ok dataKey → blen dataKey = KeySize.
Proof.
  unfold Unwrap. destruct keys as [ring|]; [|done]. destruct (Envelope.keys ring !! keyID); [|done].
  unfold unwrap. intros (wire & _ & H)%bind_Ok. destruct (_ <? _); [done|].
  destruct (aead_open _ _ _ _) as [d|]; [|done].
  destruct (Z.eqb_spec (blen d) KeySize) as [Hl|]; [|done]. by injection H as <-.
Qed.

(** Opening the envelope of some content, and using what was opened. *)
Lemma open_then_run {cipher : AEAD} {laws : AEADLaws cipher} (parse_uuid : string → option bytes)
    (sha256 : bytes → bytes) (keys : option Keyring) (object : encryptedObject) (objectID workspaceID dataKey : bytes)
    (base p : bytes) (st : ObjectStore) (ops : list (ObjectStore * op)) :
  parse_uuid (eo_objectID object) = Some objectID → parse_uuid (eo_workspaceID object) = Some workspaceID →
  eo_envelopeVersion object = EnvelopeVersion →
  Unwrap sha256 keys (eo_wrappedDEK object) (eo_kekKeyID object)
    {| AttachmentID := objectID; WorkspaceID := workspaceID; PlaintextSize := eo_size object;
       Binding_KeyWrapVersion := eo_keyWrapVersion object; ContentEnvelopeVersion := eo_envelopeVersion object |}
    = Ok dataKey →
  eo_size object = blen p → blen base = baseNonceSize → blen p / ChunkSize < MaxUint32 →
  faithful dataKey objectID base p st → Forall (faithful dataKey objectID base p) ops.*1 → Forall op_ok ops →
  (∃ e, openEncryptedObject parse_uuid sha256 st keys object = Some (Fail e) ∧ ¬ available st) ∨
  ∃ r, openEncryptedObject parse_uuid sha256 st keys object = Some (Ok r) ∧
    ∃ outs r', reader_run r ops = Some (outs, r') ∧ file_run p 0 ops outs.
Proof.
  intros Hid Hws Hv Hu Hsize Hb Hmax Hst Hsts Hops. pose proof (unwrap_length _ _ _ _ _ _ Hu) as Hk.
  unfold openEncryptedObject. rewrite Hid, Hws, Hu, Hv, Z.eqb_refl. cbn [negb].
  pose proof (initial_ok dataKey objectID base p object Hsize) as H0.
  destruct (openAt_spec dataKey objectID base p Hk Hb Hmax st _ H0 Hst) as (err & r & Ho & Hr & Hp & Hcase).
  cbn [rr_pos] in Ho, Hp. rewrite Ho. destruct Hcase as [(-> & _)|[[e ->] Hun]]; [right|left; by eauto].
  exists r. split; [done|]. rewrite <-Hp. by apply (reader_run_spec dataKey objectID base p Hk Hb Hmax).
Qed.

(** * Theorems *)


(** An object of three bytes under the toy cipher, read backwards. *)
Definition ex_ring : option Keyring := Some {| activeID := "k1"; keys := {["k1" := toy_key]} |}.
Definition ex_object : encryptedObject :=
  {| eo_objectID := "o"; eo_workspaceID := "w"; eo_size := 3; eo_wrappedDEK := toy_wrapped; eo_kekKeyID := "k1";
     eo_keyWrapVersion := KeyWrapVersion; eo_envelopeVersion := EnvelopeVersion |}.
Definition ex_stored : bytes := magic ++ replicate 8 5 ++ [1; 2; 3] ++ replicate 16 0.
Definition ex_store : ObjectStore :=
  {| Open := Ok {| src_content := ex_stored; src_fail := None |};
     OpenRange off := Ok {| src_content := zdrop off ex_stored; src_fail := None |}; CloseBody := None |}.
Definition ex_outage : ObjectStore :=
  {| Open := Fail ErrNotFound; OpenRange _ := Fail ErrNotFound; CloseBody := None |}.
Definition ex_parse (s : string) : option bytes := Some (if s == "o" then replicate 16 3 else replicate 16 4).
Definition ex_ops : list (ObjectStore * op) :=
  [(ex_outage, OpRead 9); (ex_store, OpSeek (-1) io_SeekEnd); (ex_outage, OpRead 2); (ex_store, OpRead 2);
   (ex_store, OpSeek 4 io_SeekStart); (ex_store, OpRead 1)].

Lemma ex_faithful st : st ∈ [ex_store; ex_outage] → faithful toy_key (replicate 16 3) (replicate 8 5) [1; 2; 3] st.
Proof.
  assert (He : envelope (aead_new toy_key) (replicate 16 3) (replicate 8 5) [1; 2; 3] = ex_stored).
  { unfold envelope, ex_stored. rewrite chunks_short by (vm_compute; reflexivity). reflexivity. }
  intros Hin. unfold faithful. rewrite He. rewrite !elem_of_cons, elem_of_nil in Hin.
  destruct Hin as [-> |[-> |[]]]; split; simpl.
  - by intros body [= <-].
  - by intros off body _ [= <-].
  - done.
  - done.
Qed.


(** The same run, evaluated. *)
Example ex_run_outputs :
  (match openEncryptedObject ex_parse toy_sha256 ex_store ex_ring ex_object with
   | Some (Ok r) => fst <$> reader_run r ex_ops
   | _ => None
   end) = Some [Bytes [1; 2; 3]; Sought 2; Failed (ErrWrap "attachment object unavailable" ErrUnavailable);
                Bytes [3]; Failed (ErrWrap "seek out of range" ErrInvalidInput); Failed io_EOF].
Proof. vm_compute. reflexivity. Qed.
