(* ===== verification/LinkFetch.v ===== *)
(** * Outbound fetches of user-supplied links

    [libs/go/platform/linkfetch]: policy.go, the rules on addresses and URLs, and
    fetch.go, the dialer, the redirect rules and the bounds on what is read.

    An address is the integer [net/netip] keeps, with its predicates as they are
    defined there; a [*url.URL] is the fields the rules read.  Parsing a URL, an
    address or a media type is a parameter, as are the resolver, the sockets and
    the servers: each hop of a fetch is given what they answer during that hop. *)

From stdpp Require Import prelude gmap strings sorting.
From Stdlib Require Import ZArith Lia.
From S2P Require Import Prelude GoStrings.
Local Open Scope Z_scope.

Definition ErrInvalidURL : error := ErrNew "linkfetch.ErrInvalidURL".
Definition ErrURLNotAllowed : error := ErrNew "linkfetch.ErrURLNotAllowed".
Definition ErrRedirectRefused : error := ErrNew "linkfetch.ErrRedirectRefused".
Definition ErrUnsupportedContentType : error := ErrNew "linkfetch.ErrUnsupportedContentType".
Definition ErrTimeout : error := ErrNew "linkfetch.ErrTimeout".
Definition ErrUpstream : error := ErrNew "linkfetch.ErrUpstream".

(** ** Addresses *)

(** [netip.Addr]: the zero value, 32 bits, or 128 bits and a zone. *)
Inductive Addr : Type :=
| AddrZero
| Addr4 (a : Z)
| Addr6 (a : Z) (zone : string).

#[export] Instance Addr_eq_dec : EqDecision Addr.
Proof. solve_decision. Defined.

Definition IsValid (ip : Addr) : bool := ip != AddrZero.
Definition Is4In6 (a : Z) : bool := Z.shiftr a 32 =? 0xffff.
Definition Unmap (ip : Addr) : Addr :=
  match ip with
  | Addr6 a zone => if Is4In6 a then Addr4 (Z.land a 0xffffffff) else ip
  | _ => ip
  end.

(** The [i]th byte of an IPv4 address, and the [i]th byte and 16-bit word of an
    IPv6 one. *)
Definition v4 (a : Z) (i : Z) : Z := Z.land (Z.shiftr a (24 - 8 * i)) 0xff.
Definition v6 (a : Z) (i : Z) : Z := Z.land (Z.shiftr a (120 - 8 * i)) 0xff.
Definition v6u16 (a : Z) (i : Z) : Z := Z.land (Z.shiftr a (112 - 16 * i)) 0xffff.

Definition IsUnspecified (ip : Addr) : bool := (ip == Addr4 0) || (ip == Addr6 0 "").
Definition IsLoopback (ip : Addr) : bool :=
  match ip with
  | AddrZero => false
  | Addr4 a => v4 a 0 =? 127
  | Addr6 a _ => a =? 1
  end.
Definition IsPrivate (ip : Addr) : bool :=
  match ip with
  | AddrZero => false
  | Addr4 a =>
      (v4 a 0 =? 10) || ((v4 a 0 =? 172) && (Z.land (v4 a 1) 0xf0 =? 16)) || ((v4 a 0 =? 192) && (v4 a 1 =? 168))
  | Addr6 a _ => Z.land (v6 a 0) 0xfe =? 0xfc
  end.
Definition IsLinkLocalUnicast (ip : Addr) : bool :=
  match ip with
  | AddrZero => false
  | Addr4 a => (v4 a 0 =? 169) && (v4 a 1 =? 254)
  | Addr6 a _ => Z.land (v6u16 a 0) 0xffc0 =? 0xfe80
  end.
Definition IsLinkLocalMulticast (ip : Addr) : bool :=
  match ip with
  | AddrZero => false
  | Addr4 a => (v4 a 0 =? 224) && (v4 a 1 =? 0) && (v4 a 2 =? 0)
  | Addr6 a _ => Z.land (v6u16 a 0) 0xff0f =? 0xff02
  end.
Definition IsInterfaceLocalMulticast (ip : Addr) : bool :=
  match ip with Addr6 a _ => Z.land (v6u16 a 0) 0xff0f =? 0xff01 | _ => false end.
Definition IsMulticast (ip : Addr) : bool :=
  match ip with
  | AddrZero => false
  | Addr4 a => Z.land (v4 a 0) 0xf0 =? 0xe0
  | Addr6 a _ => v6 a 0 =? 0xff
  end.
Definition Zone (ip : Addr) : string := match ip with Addr6 _ zone => zone | _ => "" end.

(** [netip.Prefix] and its [Contains]. *)
Record Prefix : Type := { px_ip : Addr; px_bits : Z }.

Definition Contains (p : Prefix) (ip : Addr) : bool :=
  match px_ip p, ip with
  | Addr4 base, Addr4 a => Z.shiftr (Z.lxor a base) (32 - px_bits p) =? 0
  | Addr6 base _, Addr6 a zone => (zone == "") && (Z.shiftr (Z.lxor a base) (128 - px_bits p) =? 0)
  | _, _ => false
  end.

Definition prefix4 (b0 b1 b2 b3 bits : Z) : Prefix :=
  {| px_ip := Addr4 (b0 * 2 ^ 24 + b1 * 2 ^ 16 + b2 * 2 ^ 8 + b3); px_bits := bits |}.
(** The first four of the eight words; the rest are zero in every entry. *)
Definition prefix6 (w0 w1 w2 w3 bits : Z) : Prefix :=
  {| px_ip := Addr6 (w0 * 2 ^ 112 + w1 * 2 ^ 96 + w2 * 2 ^ 80 + w3 * 2 ^ 64) ""; px_bits := bits |}.

Definition blockedPrefixes : list Prefix :=
  [prefix4 0 0 0 0 8; prefix4 100 64 0 0 10; prefix4 192 0 0 0 24; prefix4 198 18 0 0 15; prefix4 240 0 0 0 4;
   prefix6 0 0 0 0 96; prefix6 0x64 0xff9b 0 0 96; prefix6 0x64 0xff9b 1 0 48; prefix6 0x2002 0 0 0 16;
   prefix6 0x2001 0xdb8 0 0 32; prefix6 0x100 0 0 0 64].

Definition AddrAllowed (addr : Addr) : bool :=
  let addr := Unmap addr in
  if negb (IsValid addr) || IsUnspecified addr || IsLoopback addr || IsPrivate addr ||
     IsLinkLocalUnicast addr || IsLinkLocalMulticast addr || IsInterfaceLocalMulticast addr || IsMulticast addr
  then false
  else if Zone addr != "" then false
  else forallb (λ prefix, negb (Contains prefix addr)) blockedPrefixes.

(** ** URLs *)

Definition MaxURLLength : Z := 2048.

(** The fields the rules read of a [*url.URL]. *)
Record URL : Type := {
  u_Scheme : string;
  u_Opaque : string;
  u_User : bool;
  u_Host : string;
  u_Hostname : string;
  u_Port : string;
  u_Path : string;
  u_Fragment : string
}.

Section Policy.
(** [url.Parse] and [netip.ParseAddr]. *)
Context (url_Parse : string → option URL) (ParseAddr : string → option Addr).

Definition defaultPort (scheme : string) : string := if scheme == "https" then "443" else "80".

Definition checkRequestScheme (parsed : URL) : result string :=
  let scheme := lower (u_Scheme parsed) in
  if (scheme != "http") && (scheme != "https")
  then Fail (ErrWrap "only http and https are supported" ErrURLNotAllowed)
  else if u_Opaque parsed != "" then Fail (ErrWrap "url is malformed" ErrInvalidURL)
  else if u_User parsed then Fail (ErrWrap "url must not carry credentials" ErrURLNotAllowed)
  else Ok scheme.

(** [strings.ContainsAny(host, " \t\r\n")]. *)
Definition blank_in (host : string) : bool := existsb (λ b, b ∈? [32; 9; 13; 10]) (str_bytes host).

Definition checkRequestAuthority (parsed : URL) (scheme : string) : option error :=
  let host := u_Hostname parsed in
  if (host == "") || blank_in host then Some (ErrWrap "url has no valid host" ErrInvalidURL)
  else if (u_Port parsed != "") && (u_Port parsed != defaultPort scheme)
  then Some (ErrWrap "only the default port is supported" ErrURLNotAllowed)
  else match ParseAddr host with
       | Some addr => if negb (AddrAllowed addr)
                      then Some (ErrWrap "destination is not permitted" ErrURLNotAllowed) else None
       | None => None
       end.

Definition CheckRequestURL (parsed : URL) : option error :=
  match checkRequestScheme parsed with
  | Fail err => Some err
  | Ok scheme => checkRequestAuthority parsed scheme
  end.

Definition ParseURL (raw : string) : result URL :=
  let raw := TrimSpace raw in
  if raw == "" then Fail (ErrWrap "url is required" ErrInvalidURL)
  else if len raw >? MaxURLLength then Fail (ErrWrap "url is too long" ErrInvalidURL)
  else match url_Parse raw with
       | None => Fail (ErrWrap "url is malformed" ErrInvalidURL)
       | Some parsed =>
           match CheckRequestURL parsed with
           | Some err => Fail err
           | None => Ok {| u_Scheme := u_Scheme parsed; u_Opaque := u_Opaque parsed; u_User := u_User parsed;
                           u_Host := lower (u_Host parsed); u_Hostname := lower (u_Hostname parsed);
                           u_Port := u_Port parsed; u_Path := u_Path parsed; u_Fragment := "" |}
           end
       end.
End Policy.

(** ** The dialer *)

Definition ResolveAndValidate (resolve : string → result (list Addr)) (host : string) : result (list Addr) :=
  match resolve host with
  | Fail _ => Fail (ErrWrap "host could not be resolved" ErrUpstream)
  | Ok [] => Fail (ErrWrap "destination is not permitted" ErrURLNotAllowed)
  | Ok addrs => if forallb AddrAllowed addrs then Ok addrs
                else Fail (ErrWrap "destination is not permitted" ErrURLNotAllowed)
  end.

(** The attempts in order, and the error when none succeeds ([connect] answers
    [None] when the connection is made). *)
Fixpoint connectValidated (connect : Addr → string → option error) (addrs : list Addr) (port : string)
    (lastErr : option error) : list (Addr * string) * option error :=
  match addrs with
  | [] => ([], lastErr)
  | addr :: addrs =>
      match connect (Unmap addr) port with
      | None => ([(Unmap addr, port)], None)
      | Some err =>
          let '(attempts, result) := connectValidated connect addrs port (Some err) in
          ((Unmap addr, port) :: attempts, result)
      end
  end.

Definition dial (resolve : string → result (list Addr)) (connect : Addr → string → option error)
    (host port : string) : list (Addr * string) * option error :=
  match ResolveAndValidate resolve host with
  | Fail err => ([], Some err)
  | Ok addrs => connectValidated connect addrs port None
  end.

(** ** One exchange and its redirects *)

Definition MaxDocumentBytes : Z := Z.shiftl 512 10.
Definition MaxImageBytes : Z := Z.shiftl 3 20.
Definition MaxRedirects : Z := 3.

Record Response : Type := {
  StatusCode : Z;
  ContentType : string;
  ContentLength : Z;
  Body : list Z;
  BodyErr : option error
}.

(** What a server answers, as [http.Client] takes it: a redirect with its parsed
    [Location], any other response, or a failure of the transport. *)
Inductive reply : Type :=
| Redirected (next : URL)
| Answered (response : Response)
| Broken (err : error).

(** What one hop meets. *)
Record Hop : Type := {
  h_resolve : string → result (list Addr);
  h_connect : Addr → string → option error;
  h_policy : URL → option error;
  h_reply : reply
}.

(** [*hopRefusal]: it unwraps to its cause, and also to [ErrRedirectRefused], which
    nothing here asks about. *)
Definition hopRefusal (cause : error) : error := ErrStruct "hopRefusal" "" 0 cause.
Fixpoint as_hopRefusal (err : error) : option error :=
  match err with
  | ErrNew _ => None
  | ErrWrap _ inner => as_hopRefusal inner
  | ErrStruct type _ _ inner => if type == "hopRefusal" then Some err else as_hopRefusal inner
  end.

(** [*url.Error], in which [http.Client] returns every failure. *)
Definition urlError (err : error) : error := ErrWrap "url.Error" err.

(** A [net.Error] is carried with its [Timeout] as the number. *)
Definition isTimeout (err : error) : bool :=
  match errors_As err "net.Error" with Some (_, timeout) => timeout =? 1 | None => false end.

Definition classifyTransportError (err : error) : error :=
  match as_hopRefusal err with
  | Some refusal => refusal
  | None =>
      if errors_Is err ErrURLNotAllowed then ErrWrap "destination is not permitted" ErrURLNotAllowed
      else if errors_Is err ErrInvalidURL then ErrWrap "url is malformed" ErrInvalidURL
      else if errors_Is err context_DeadlineExceeded || isTimeout err
      then ErrWrap "upstream did not answer in time" ErrTimeout
      else ErrWrap "upstream could not be read" ErrUpstream
  end.

Section Fetch.
Context (ParseAddr : string → option Addr).

(** [via] is the number of requests already made; [hop] tells whether the caller
    has a policy. *)
Definition checkRedirect (hop : bool) (policy : URL → option error) (next : URL) (via : Z) : option error :=
  if MaxRedirects <=? via then Some (ErrWrap "too many redirects" ErrUpstream)
  else match CheckRequestURL ParseAddr next with
       | Some err => Some err
       | None => if negb hop then None
                 else match policy next with Some err => Some (hopRefusal err) | None => None end
       end.

(** The host and port [http.Transport] dials. *)
Definition dial_port (u : URL) : string := if u_Port u == "" then defaultPort (lower (u_Scheme u)) else u_Port u.

(** [client.Do]: the requests made, each with the connections attempted for it,
    and the response with the URL that gave it; [None] when [fuel] requests were
    not enough. *)
Fixpoint client_Do (fuel : nat) (env : nat → Hop) (hop : bool) (via : nat) (u : URL)
    : option (list (URL * list (Addr * string)) * result (URL * Response)) :=
  match fuel with
  | O => None
  | S fuel =>
      let h := env via in
      let '(attempts, failed) := dial (h_resolve h) (h_connect h) (u_Hostname u) (dial_port u) in
      match failed with
      | Some err => Some ([(u, attempts)], Fail (urlError err))
      | None =>
          match h_reply h with
          | Broken err => Some ([(u, attempts)], Fail (urlError err))
          | Answered response => Some ([(u, attempts)], Ok (u, response))
          | Redirected next =>
              match checkRedirect hop (h_policy (env (S via))) next (Z.of_nat (S via)) with
              | Some err => Some ([(u, attempts)], Fail (urlError err))
              | None =>
                  match client_Do fuel env hop (S via) next with
                  | None => None
                  | Some (visits, answer) => Some ((u, attempts) :: visits, answer)
                  end
              end
          end
      end
  end.

(** ** What is read of a response *)

Context (ParseMediaType : string → option string).

Record fetchKind : Type := { fk_allowed : string → bool; fk_maxBytes : Z }.

Definition documentKind : fetchKind :=
  {| fk_allowed := λ mediaType, mediaType == "text/html"; fk_maxBytes := MaxDocumentBytes |}.
Definition imageKind : fetchKind :=
  {| fk_allowed := λ mediaType, String.prefix "image/" mediaType; fk_maxBytes := MaxImageBytes |}.

Definition checkContentType (header : string) (allowed : string → bool) : option error :=
  if TrimSpace header == "" then Some (ErrWrap "response declared no content type" ErrUnsupportedContentType)
  else match ParseMediaType header with
       | None => Some (ErrWrap "response content type is malformed" ErrUnsupportedContentType)
       | Some mediaType =>
           if negb (allowed (lower (TrimSpace mediaType)))
           then Some (ErrWrap "response media type is not accepted" ErrUnsupportedContentType) else None
       end.

Definition checkResponse (response : Response) (kind : fetchKind) : option error :=
  if StatusCode response != 200 then Some (ErrWrap "unexpected upstream status" ErrUpstream)
  else match checkContentType (ContentType response) (fk_allowed kind) with
       | Some err => Some err
       | None => if ContentLength response >? fk_maxBytes kind
                 then Some (ErrWrap "response is too large" ErrUpstream) else None
       end.

(** [io.ReadAll(io.LimitReader(body, maxBytes+1))]: the limit hides an error that
    comes after it. *)
Definition readBoundedBody (response : Response) (maxBytes : Z) : result (list Z) :=
  let data := take (Z.to_nat (maxBytes + 1)) (Body response) in
  let err := if Z.of_nat (length (Body response)) <? maxBytes + 1 then BodyErr response else None in
  match err with
  | Some err => Fail (classifyTransportError err)
  | None => if Z.of_nat (length data) >? maxBytes then Fail (ErrWrap "response is too large" ErrUpstream)
            else Ok data
  end.

Definition fetch (env : nat → Hop) (hop : bool) (target : URL) (kind : fetchKind)
    : list (URL * list (Addr * string)) * result (URL * list Z) :=
  match CheckRequestURL ParseAddr target with
  | Some err => ([], Fail err)
  | None =>
      match client_Do (Z.to_nat MaxRedirects) env hop 0 target with
      | None => ([], Fail ErrUpstream)
      | Some (visits, Fail err) => (visits, Fail (classifyTransportError err))
      | Some (visits, Ok (final, response)) =>
          match checkResponse response kind with
          | Some err => (visits, Fail err)
          | None =>
              match readBoundedBody response (fk_maxBytes kind) with
              | Fail err => (visits, Fail err)
              | Ok body => (visits, Ok (final, body))
              end
          end
      end
  end.

Definition FetchDocument (env : nat → Hop) (hop : bool) (target : URL)
    : list (URL * list (Addr * string)) * result (URL * list Z) :=
  fetch env hop target documentKind.

Definition FetchImage (env : nat → Hop) (hop : bool) (target : URL)
    : list (URL * list (Addr * string)) * result (list Z) :=
  let '(visits, answer) := fetch env hop target imageKind in
  (visits, match answer with Ok (_, body) => Ok body | Fail err => Fail err end).
End Fetch.

(** ** The address policy as a table *)

(** A CIDR block: the addresses from [base], of which the low [width - bits] bits
    are zero, that agree with it on the others. *)
Definition in_block (width : Z) (block : Z * Z) (a : Z) : Prop :=
  fst block <= a < fst block + 2 ^ (width - snd block).

#[export] Instance in_block_dec width block a : Decision (in_block width block a).
Proof. unfold in_block. apply _. Defined.

Definition cidr4 (b0 b1 b2 b3 bits : Z) : Z * Z := (b0 * 2 ^ 24 + b1 * 2 ^ 16 + b2 * 2 ^ 8 + b3, bits).
Definition cidr6 (w0 w1 w2 w3 bits : Z) : Z * Z := (w0 * 2 ^ 112 + w1 * 2 ^ 96 + w2 * 2 ^ 80 + w3 * 2 ^ 64, bits).

(** This network, private use, carrier-grade NAT, loopback, link local, IETF
    protocol assignments, benchmarking, multicast, reserved. *)
Definition refused4 : list (Z * Z) :=
  [cidr4 0 0 0 0 8; cidr4 10 0 0 0 8; cidr4 100 64 0 0 10; cidr4 127 0 0 0 8; cidr4 169 254 0 0 16;
   cidr4 172 16 0 0 12; cidr4 192 0 0 0 24; cidr4 192 168 0 0 16; cidr4 198 18 0 0 15; cidr4 224 0 0 0 4;
   cidr4 240 0 0 0 4].

(** IPv4-compatible (with the unspecified address and loopback), NAT64, 6to4,
    documentation, discard only, unique local, link local, multicast. *)
Definition refused6 : list (Z * Z) :=
  [cidr6 0 0 0 0 96; cidr6 0x64 0xff9b 0 0 96; cidr6 0x64 0xff9b 1 0 48; cidr6 0x2002 0 0 0 16;
   cidr6 0x2001 0xdb8 0 0 32; cidr6 0x100 0 0 0 64; cidr6 0xfc00 0 0 0 7; cidr6 0xfe80 0 0 0 10;
   cidr6 0xff00 0 0 0 8].

Definition addr_wf (ip : Addr) : Prop :=
  match ip with AddrZero => True | Addr4 a => 0 <= a < 2 ^ 32 | Addr6 a _ => 0 <= a < 2 ^ 128 end.

Lemma shiftr_div a n : 0 <= n → Z.shiftr a n = a / 2 ^ n.
Proof. apply Z.shiftr_div_pow2. Qed.

Lemma same_prefix a q n :
  0 <= n → (Z.shiftr (Z.lxor a (q * 2 ^ n)) n =? 0) = true ↔ q * 2 ^ n <= a < q * 2 ^ n + 2 ^ n.
Proof.
  intros Hn. assert (Hp : 0 < 2 ^ n) by (apply Z.pow_pos_nonneg; lia).
  rewrite Z.eqb_eq, Z.shiftr_lxor, Z.lxor_eq_0_iff, !shiftr_div, Z.div_mul by lia. split.
  - intros <-. pose proof (Z.div_mod a (2 ^ n)). pose proof (Z.mod_pos_bound a (2 ^ n)). nia.
  - intros H. symmetry. apply (Z.div_unique_pos a (2 ^ n) q (a - q * 2 ^ n)); lia.
Qed.

(** A bit field of an address, as a block. *)
Lemma field_eq a shift w c :
  0 <= shift → 0 <= w → 0 <= a < 2 ^ (shift + w) →
  Z.land (Z.shiftr a shift) (Z.ones w) = c ↔ c * 2 ^ shift <= a < c * 2 ^ shift + 2 ^ shift.
Proof.
  intros Hs Hw Ha. assert (Hp : 0 < 2 ^ shift) by (apply Z.pow_pos_nonneg; lia).
  rewrite Z.land_ones, shiftr_div by lia. rewrite Z.pow_add_r in Ha by lia.
  rewrite Z.mod_small by (split; [apply Z.div_pos; lia|apply Z.div_lt_upper_bound; lia]). split.
  - intros <-. pose proof (Z.div_mod a (2 ^ shift)). pose proof (Z.mod_pos_bound a (2 ^ shift)). nia.
  - intros H. symmetry. apply (Z.div_unique_pos a (2 ^ shift) c (a - c * 2 ^ shift)); lia.
Qed.

(** Masking off the low [k] bits of a field. *)
Lemma land_high x k w :
  0 <= k → 0 <= w → 0 <= x < 2 ^ (k + w) → Z.land x (Z.shiftl (Z.ones w) k) = (x / 2 ^ k) * 2 ^ k.
Proof.
  intros Hk Hw Hx. rewrite <-shiftr_div, <-Z.shiftl_mul_pow2 by lia. apply Z.bits_inj'. intros i Hi.
  rewrite Z.land_spec, !Z.shiftl_spec by lia. destruct (Z.lt_ge_cases i k).
  - rewrite !(Z.testbit_neg_r _ (i - k)) by lia. apply andb_false_r.
  - rewrite Z.shiftr_spec by lia. replace (i - k + k) with i by lia.
    rewrite Z.testbit_ones_nonneg by lia. destruct (Z.ltb_spec (i - k) w); [by rewrite andb_true_r|].
    rewrite andb_false_r. symmetry. destruct (decide (x = 0)) as [->|]; [apply Z.bits_0|].
    apply Z.bits_above_log2; [lia|]. apply Z.log2_lt_pow2; [lia|].
    eapply Z.lt_le_trans; [apply Hx|]. apply Z.pow_le_mono_r; lia.
Qed.

Lemma block_base base n : 0 <= n → base mod 2 ^ n = 0 → base = base / 2 ^ n * 2 ^ n.
Proof. intros. pose proof (Z.div_mod base (2 ^ n)). pose proof (Z.pow_pos_nonneg 2 n). lia. Qed.

Lemma contains4 b0 b1 b2 b3 bits a :
  0 <= bits <= 32 → (b0 * 2 ^ 24 + b1 * 2 ^ 16 + b2 * 2 ^ 8 + b3) mod 2 ^ (32 - bits) = 0 →
  Contains (prefix4 b0 b1 b2 b3 bits) (Addr4 a) = true ↔ in_block 32 (cidr4 b0 b1 b2 b3 bits) a.
Proof.
  intros Hb Hm. unfold Contains, prefix4, in_block, cidr4. cbn [px_ip px_bits fst snd].
  set (base := b0 * 2 ^ 24 + b1 * 2 ^ 16 + b2 * 2 ^ 8 + b3) in *.
  rewrite (block_base base (32 - bits)) by lia. apply same_prefix; lia.
Qed.

Lemma contains6 w0 w1 w2 w3 bits a :
  0 <= bits <= 128 → (w0 * 2 ^ 112 + w1 * 2 ^ 96 + w2 * 2 ^ 80 + w3 * 2 ^ 64) mod 2 ^ (128 - bits) = 0 →
  Contains (prefix6 w0 w1 w2 w3 bits) (Addr6 a "") = true ↔ in_block 128 (cidr6 w0 w1 w2 w3 bits) a.
Proof.
  intros Hb Hm. unfold Contains, prefix6, in_block, cidr6. cbn [px_ip px_bits fst snd].
  set (base := w0 * 2 ^ 112 + w1 * 2 ^ 96 + w2 * 2 ^ 80 + w3 * 2 ^ 64) in *.
  rewrite (block_base base (128 - bits)) by lia. change (("" : string) == "") with true.
  rewrite andb_true_l. apply same_prefix; lia.
Qed.

Lemma forall_contains4 a :
  forallb (λ prefix, negb (Contains prefix (Addr4 a))) blockedPrefixes = true ↔
  ¬ in_block 32 (cidr4 0 0 0 0 8) a ∧ ¬ in_block 32 (cidr4 100 64 0 0 10) a ∧ ¬ in_block 32 (cidr4 192 0 0 0 24) a ∧
  ¬ in_block 32 (cidr4 198 18 0 0 15) a ∧ ¬ in_block 32 (cidr4 240 0 0 0 4) a.
Proof.
  unfold blockedPrefixes. cbn [forallb]. rewrite !andb_true_iff, !negb_true_iff, <-!not_true_iff_false.
  rewrite !contains4 by (vm_compute; intuition congruence).
  assert (Hno : ∀ w0 w1 w2 w3 n, Contains (prefix6 w0 w1 w2 w3 n) (Addr4 a) ≠ true) by done.
  intuition eauto using Hno.
Qed.

Lemma forall_contains6 a :
  forallb (λ prefix, negb (Contains prefix (Addr6 a ""))) blockedPrefixes = true ↔
  ¬ in_block 128 (cidr6 0 0 0 0 96) a ∧ ¬ in_block 128 (cidr6 0x64 0xff9b 0 0 96) a ∧
  ¬ in_block 128 (cidr6 0x64 0xff9b 1 0 48) a ∧ ¬ in_block 128 (cidr6 0x2002 0 0 0 16) a ∧
  ¬ in_block 128 (cidr6 0x2001 0xdb8 0 0 32) a ∧ ¬ in_block 128 (cidr6 0x100 0 0 0 64) a.
Proof.
  unfold blockedPrefixes. cbn [forallb]. rewrite !andb_true_iff, !negb_true_iff, <-!not_true_iff_false.
  rewrite !contains6 by (vm_compute; intuition congruence).
  assert (Hno : ∀ b0 b1 b2 b3 n, Contains (prefix4 b0 b1 b2 b3 n) (Addr6 a "") ≠ true) by done.
  intuition eauto using Hno.
Qed.

Lemma v4_byte a i : 0 <= i <= 3 → v4 a i = (a / 2 ^ (24 - 8 * i)) mod 256.
Proof. intros. unfold v4. by rewrite (Z.land_ones _ 8), shiftr_div by lia. Qed.

Lemma bytes4 a :
  0 <= a < 2 ^ 32 →
  ∃ b0 b1 b2 b3, 0 <= b0 < 256 ∧ 0 <= b1 < 256 ∧ 0 <= b2 < 256 ∧ 0 <= b3 < 256 ∧
    a = b0 * 2 ^ 24 + b1 * 2 ^ 16 + b2 * 2 ^ 8 + b3 ∧ v4 a 0 = b0 ∧ v4 a 1 = b1 ∧ v4 a 2 = b2.
Proof.
  intros Ha. exists (v4 a 0), (v4 a 1), (v4 a 2), (v4 a 3). rewrite !v4_byte by lia. cbn.
  split_and!; try reflexivity; Z.to_euclidean_division_equations; lia.
Qed.

Lemma high_nibble x : 0 <= x < 256 → Z.land x 0xf0 = x / 16 * 16.
Proof. intros. apply (land_high x 4 4); lia. Qed.

(** The first word of an IPv6 address; every test reads it or the whole address. *)
Lemma word6 a :
  0 <= a < 2 ^ 128 →
  ∃ w r, 0 <= w < 65536 ∧ 0 <= r < 2 ^ 112 ∧ a = w * 2 ^ 112 + r ∧ v6u16 a 0 = w ∧ v6 a 0 = w / 256.
Proof.
  intros Ha. exists (a / 2 ^ 112), (a mod 2 ^ 112). unfold v6u16, v6.
  rewrite (Z.land_ones _ 16), (Z.land_ones _ 8), !shiftr_div by lia. cbn.
  split_and!; Z.to_euclidean_division_equations; lia.
Qed.

Lemma multicast_word w c : 0 <= w < 65536 → c / 256 = 255 → Z.land w 0xff0f = c → w / 256 = 255.
Proof.
  intros Hw Hc E. pose proof (f_equal (λ x, Z.shiftr x 8) E) as Hs. cbv beta in Hs.
  rewrite Z.shiftr_land, (shiftr_div c), (shiftr_div w) in Hs by lia.
  change (Z.shiftr 0xff0f 8) with (Z.ones 8) in Hs. rewrite Z.land_ones in Hs by lia.
  change (2 ^ 8) with 256 in Hs. rewrite Hc in Hs. Z.to_euclidean_division_equations. lia.
Qed.

Lemma unmap_wf ip : addr_wf ip → addr_wf (Unmap ip).
Proof.
  destruct ip as [|a|a zone]; cbn; [done..|]. intros Ha. destruct (Is4In6 a); [|done].
  cbn. change 0xffffffff with (Z.ones 32). rewrite Z.land_ones by lia. by apply Z.mod_pos_bound.
Qed.

Lemma unspecified4 a : IsUnspecified (Addr4 a) = (a =? 0).
Proof.
  apply eq_true_iff_eq. unfold IsUnspecified. rewrite orb_true_iff, !bool_decide_eq_true, Z.eqb_eq. naive_solver.
Qed.

(** The tests that read the bytes of an IPv4 address. *)
Lemma early4 a :
  0 <= a < 2 ^ 32 →
  (IsUnspecified (Addr4 a) || IsLoopback (Addr4 a) || IsPrivate (Addr4 a) || IsLinkLocalUnicast (Addr4 a) ||
   IsLinkLocalMulticast (Addr4 a) || IsInterfaceLocalMulticast (Addr4 a) || IsMulticast (Addr4 a)) = true ↔
  a = 0 ∨ in_block 32 (cidr4 127 0 0 0 8) a ∨ in_block 32 (cidr4 10 0 0 0 8) a ∨
  in_block 32 (cidr4 172 16 0 0 12) a ∨ in_block 32 (cidr4 192 168 0 0 16) a ∨
  in_block 32 (cidr4 169 254 0 0 16) a ∨ in_block 32 (cidr4 224 0 0 0 4) a.
Proof.
  intros Ha. destruct (bytes4 a Ha) as (b0 & b1 & b2 & b3 & B0 & B1 & B2 & B3 & Ea & V0 & V1 & V2).
  cbn [IsLoopback IsPrivate IsLinkLocalUnicast IsLinkLocalMulticast IsInterfaceLocalMulticast IsMulticast].
  rewrite unspecified4, V0, V1, V2, !high_nibble, !orb_true_iff, !andb_true_iff, !Z.eqb_eq by lia.
  assert (E1 : b1 / 16 * 16 = 16 ↔ 16 <= b1 < 32) by (Z.to_euclidean_division_equations; lia).
  assert (E0 : b0 / 16 * 16 = 224 ↔ in_block 32 (cidr4 224 0 0 0 4) a)
    by (unfold in_block, cidr4; cbn; Z.to_euclidean_division_equations; lia).
  assert (D8 : ∀ c, in_block 32 (cidr4 c 0 0 0 8) a ↔ b0 = c) by (intros c; unfold in_block, cidr4; cbn; lia).
  assert (D16 : ∀ c d, 0 <= d < 256 → in_block 32 (cidr4 c d 0 0 16) a ↔ b0 = c ∧ b1 = d)
    by (intros c d Hd; unfold in_block, cidr4; cbn; lia).
  assert (D12 : in_block 32 (cidr4 172 16 0 0 12) a ↔ b0 = 172 ∧ 16 <= b1 < 32)
    by (unfold in_block, cidr4; cbn; lia).
  rewrite E0, E1, !D8, !D16, D12 by lia.
  assert (Hz : a = 0 → b0 = 0) by lia.
  assert (Hm : b0 = 224 → in_block 32 (cidr4 224 0 0 0 4) a) by (unfold in_block, cidr4; cbn; lia).
  clear - Hz Hm. intuition discriminate.
Qed.

Lemma early6 a zone :
  0 <= a < 2 ^ 128 →
  (IsUnspecified (Addr6 a zone) || IsLoopback (Addr6 a zone) || IsPrivate (Addr6 a zone) ||
   IsLinkLocalUnicast (Addr6 a zone) || IsLinkLocalMulticast (Addr6 a zone) ||
   IsInterfaceLocalMulticast (Addr6 a zone) || IsMulticast (Addr6 a zone)) = true ↔
  (a = 0 ∧ zone = "") ∨ a = 1 ∨ in_block 128 (cidr6 0xfc00 0 0 0 7) a ∨ in_block 128 (cidr6 0xfe80 0 0 0 10) a ∨
  in_block 128 (cidr6 0xff00 0 0 0 8) a.
Proof.
  intros Ha. destruct (word6 a Ha) as (w & r & W & R & Ea & V & V').
  cbn [IsLoopback IsPrivate IsLinkLocalUnicast IsLinkLocalMulticast IsInterfaceLocalMulticast IsMulticast].
  rewrite V, V', !orb_true_iff, !Z.eqb_eq.
  assert (L : Z.land (w / 256) 0xfe = w / 256 / 2 * 2)
    by (apply (land_high (w / 256) 1 7); Z.to_euclidean_division_equations; lia).
  assert (L' : Z.land w 0xffc0 = w / 64 * 64) by (apply (land_high w 6 10); lia).
  rewrite L, L'. clear L L'.
  pose proof (multicast_word w 0xff02 W eq_refl). pose proof (multicast_word w 0xff01 W eq_refl).
  assert (Hu : IsUnspecified (Addr6 a zone) = true ↔ a = 0 ∧ zone = "").
  { unfold IsUnspecified. rewrite orb_true_iff, !bool_decide_eq_true.
    split; [intros [?|?]; split; congruence|intros [-> ->]; by right]. }
  rewrite Hu. clear Hu V V' Ha. unfold in_block, cidr6. cbn.
  assert (Hw : (w / 256 = 255 ↔ 255 * 2 ^ 120 <= a < 2 ^ 128) ∧
               (w / 256 / 2 * 2 = 252 ↔ 252 * 2 ^ 120 <= a < 254 * 2 ^ 120) ∧
               (w / 64 * 64 = 0xfe80 ↔ 0xfe80 * 2 ^ 112 <= a < 0xfec0 * 2 ^ 112))
    by (subst a; split_and!; Z.to_euclidean_division_equations; lia).
  cbn in Hw. intuition.
Qed.

Lemma AddrAllowed_unmapped ip :
  Unmap ip = ip → IsValid ip = true →
  AddrAllowed ip = true ↔
  (IsUnspecified ip || IsLoopback ip || IsPrivate ip || IsLinkLocalUnicast ip || IsLinkLocalMulticast ip ||
   IsInterfaceLocalMulticast ip || IsMulticast ip) ≠ true ∧
  Zone ip = "" ∧ forallb (λ prefix, negb (Contains prefix ip)) blockedPrefixes = true.
Proof.
  intros Hu Hv. unfold AddrAllowed. rewrite Hu, Hv. cbn [negb orb].
  generalize (forallb (λ prefix, negb (Contains prefix ip)) blockedPrefixes) as blocked.
  destruct (_ || IsMulticast ip); [by split; [|intros [? _] ]|]. intros blocked.
  case_bool_decide; cbn; [by split; [|intros (_ & _ & ?)]|by split; [|intros (_ & ? & _)] ].
Qed.

Lemma AddrAllowed4 a :
  0 <= a < 2 ^ 32 → AddrAllowed (Addr4 a) = true ↔ Forall (λ block, ¬ in_block 32 block a) refused4.
Proof.
  intros Ha. rewrite (AddrAllowed_unmapped (Addr4 a)), early4, forall_contains4 by done.
  unfold refused4. rewrite !Forall_cons, Forall_nil. cbn [Zone].
  assert (Hz : a = 0 → in_block 32 (cidr4 0 0 0 0 8) a) by (unfold in_block, cidr4; cbn; lia).
  clear - Hz. intuition.
Qed.

Lemma AddrAllowed6 a zone :
  0 <= a < 2 ^ 128 → Is4In6 a = false →
  AddrAllowed (Addr6 a zone) = true ↔ zone = "" ∧ Forall (λ block, ¬ in_block 128 block a) refused6.
Proof.
  intros Ha H4. rewrite (AddrAllowed_unmapped (Addr6 a zone)), early6 by (try done; cbn; by rewrite H4).
  unfold refused6. rewrite !Forall_cons, Forall_nil. cbn [Zone].
  assert (Hz : a = 0 ∨ a = 1 → in_block 128 (cidr6 0 0 0 0 96) a) by (unfold in_block, cidr6; cbn; lia).
  destruct (decide (zone = "")) as [->|]; [|by split; [intros (_ & ? & _)|intros [? _] ] ].
  rewrite forall_contains6. clear - Hz. intuition.
Qed.

(** The addresses a server-side fetch may reach. *)
Definition public (ip : Addr) : Prop :=
  match Unmap ip with
  | AddrZero => False
  | Addr4 a => Forall (λ block, ¬ in_block 32 block a) refused4
  | Addr6 a zone => zone = "" ∧ Forall (λ block, ¬ in_block 128 block a) refused6
  end.

Lemma AddrAllowed_Unmap ip : AddrAllowed ip = AddrAllowed (Unmap ip).
Proof. unfold AddrAllowed. destruct ip as [|a|a zone]; cbn [Unmap]; [done..|]. by destruct (Is4In6 a) eqn:E; cbn [Unmap]; rewrite ?E. Qed.

Lemma AddrAllowed_public ip : addr_wf ip → AddrAllowed ip = true ↔ public ip.
Proof.
  intros Hwf. rewrite AddrAllowed_Unmap. apply unmap_wf in Hwf. unfold public.
  destruct (Unmap ip) as [|a|a zone] eqn:E; [done|by apply AddrAllowed4|].
  apply AddrAllowed6; [done|]. destruct ip as [| |a' zone']; cbn in E; try done.
  destruct (Is4In6 a') eqn:E'; congruence.
Qed.

(** ** What a fetch reaches *)

Section FetchTheory.
Context (ParseAddr : string → option Addr) (ParseMediaType : string → option string).
Context (env : nat → Hop) (hop : bool).

(** A connection attempt is allowed at a hop for a URL when the hop's resolver
    answered only allowed addresses and the attempt is to one of them, on the
    scheme's default port. *)
Definition attempts_ok (h : Hop) (u : URL) (attempts : list (Addr * string)) : Prop :=
  attempts = [] ∨
  ∃ addrs, h_resolve h (u_Hostname u) = Ok addrs ∧ forallb AddrAllowed addrs = true ∧
    attempts `prefix_of` ((λ addr, (Unmap addr, defaultPort (lower (u_Scheme u)))) <$> addrs).

(** The [i]th request of a fetch of [target]. *)
Definition visit_ok (target : URL) (i : nat) (visit : URL * list (Addr * string)) : Prop :=
  CheckRequestURL ParseAddr (fst visit) = None ∧
  attempts_ok (env i) (fst visit) (snd visit) ∧
  match i with
  | O => fst visit = target
  | S before => h_reply (env before) = Redirected (fst visit) ∧ (hop = true → h_policy (env i) (fst visit) = None)
  end.

Lemma connectValidated_attempts connect addrs port lastErr :
  fst (connectValidated connect addrs port lastErr) `prefix_of` ((λ addr, (Unmap addr, port)) <$> addrs).
Proof.
  revert lastErr. induction addrs as [|addr addrs IH]; intros lastErr; cbn; [done|].
  destruct (connect (Unmap addr) port) as [err|]; [|by apply prefix_cons, prefix_nil].
  specialize (IH (Some err)). destruct (connectValidated _ _ _ _). by apply prefix_cons.
Qed.

Lemma CheckRequestURL_port u :
  CheckRequestURL ParseAddr u = None → dial_port u = defaultPort (lower (u_Scheme u)).
Proof.
  unfold CheckRequestURL, checkRequestScheme, dial_port. destruct (_ && _); [done|].
  destruct (u_Opaque u != ""); [done|]. destruct (u_User u); [done|]. unfold checkRequestAuthority.
  destruct (_ || _); [done|]. repeat case_bool_decide; naive_solver.
Qed.

Lemma dial_ok h u :
  CheckRequestURL ParseAddr u = None →
  attempts_ok h u (fst (dial (h_resolve h) (h_connect h) (u_Hostname u) (dial_port u))).
Proof.
  intros Hu. unfold attempts_ok, dial, ResolveAndValidate.
  destruct (h_resolve h (u_Hostname u)) as [[|addr addrs]|err]; [by left| |by left].
  destruct (forallb AddrAllowed (addr :: addrs)) eqn:Hall; [|by left]. right. exists (addr :: addrs).
  split; [done|]. split; [done|]. rewrite <-CheckRequestURL_port by done. apply connectValidated_attempts.
Qed.

Lemma checkRedirect_spec policy next via :
  checkRedirect ParseAddr hop policy next via = None →
  via < MaxRedirects ∧ CheckRequestURL ParseAddr next = None ∧ (hop = true → policy next = None).
Proof.
  unfold checkRedirect. destruct (Z.leb_spec MaxRedirects via); [done|].
  destruct (CheckRequestURL ParseAddr next); [done|]. destruct hop; cbn; [|done]. by destruct (policy next).
Qed.

Lemma client_Do_S fuel via u :
  client_Do ParseAddr (S fuel) env hop via u =
  let h := env via in
  let '(attempts, failed) := dial (h_resolve h) (h_connect h) (u_Hostname u) (dial_port u) in
  match failed with
  | Some err => Some ([(u, attempts)], Fail (urlError err))
  | None =>
      match h_reply h with
      | Broken err => Some ([(u, attempts)], Fail (urlError err))
      | Answered response => Some ([(u, attempts)], Ok (u, response))
      | Redirected next =>
          match checkRedirect ParseAddr hop (h_policy (env (S via))) next (Z.of_nat (S via)) with
          | Some err => Some ([(u, attempts)], Fail (urlError err))
          | None =>
              match client_Do ParseAddr fuel env hop (S via) next with
              | None => None
              | Some (visits, answer) => Some ((u, attempts) :: visits, answer)
              end
          end
      end
  end.
Proof. done. Qed.

(** From the [via]th request on: the fetch ends within [MaxRedirects] requests,
    each of them checked, and an answer is the last one's. *)
Lemma client_Do_visits target fuel : ∀ via u,
  (via + S fuel = Z.to_nat MaxRedirects)%nat →
  (∀ attempts, attempts_ok (env via) u attempts → visit_ok target via (u, attempts)) →
  CheckRequestURL ParseAddr u = None →
  ∃ visits answer, client_Do ParseAddr (S fuel) env hop via u = Some (visits, answer) ∧
    (length visits <= S fuel)%nat ∧
    (∀ i visit, visits !! i = Some visit → visit_ok target (via + i) visit) ∧
    (∀ final response, answer = Ok (final, response) →
      ∃ attempts, last visits = Some (final, attempts) ∧
        h_reply (env (via + (length visits - 1))) = Answered response).
Proof.
  induction fuel as [|fuel IH]; intros via u Hvia Hok Hu; pose proof (dial_ok (env via) u Hu) as Hd;
    rewrite client_Do_S; cbv zeta; destruct (dial _ _ _ _) as [attempts failed]; cbn in Hd; specialize (Hok _ Hd).
  all: assert (Hone : ∀ i visit, [(u, attempts)] !! i = Some visit → visit_ok target (via + i) visit)
    by (intros [|i] visit; cbn; [intros [= <-]; by rewrite Nat.add_0_r|done]).
  all: destruct failed as [err|]; [eexists _, _; split_and!; [done|cbn; lia|done|done]|].
  all: destruct (h_reply (env via)) as [next|response|err] eqn:Hreply;
    [|eexists _, _; split_and!; [done|cbn; lia|done|];
      intros final r [= <- <-]; exists attempts; by rewrite Nat.add_0_r
     |eexists _, _; split_and!; [done|cbn; lia|done|done]].
  all: destruct (checkRedirect _ _ _ _ _) as [err|] eqn:Hr;
    [eexists _, _; split_and!; [done|cbn; lia|done|done]|].
  all: apply checkRedirect_spec in Hr as (Hlt & Hnext & Hpolicy).
  - unfold MaxRedirects in *. lia.
  - destruct (IH (S via) next) as (visits & answer & E & Hlen & Hall & Hans); [lia| |done|].
    { intros attempts' Ha. unfold visit_ok. cbn. auto. }
    rewrite E. eexists _, _. split_and!; [done|cbn; lia| |].
    + intros [|i] visit; cbn; [intros [= <-]; by rewrite Nat.add_0_r|]. intros Hi.
      replace (via + S i)%nat with (S via + i)%nat by lia. by apply Hall.
    + intros final r ->. destruct (Hans _ _ eq_refl) as (attempts' & Hlast & Hrep). exists attempts'.
      destruct visits as [|v visits]; [done|]. split; [by rewrite last_cons, Hlast|].
      rewrite <-Hrep. f_equal. f_equal. cbn. lia.
Qed.

Lemma attempts_public h u attempts addr port :
  attempts_ok h u attempts → (addr, port) ∈ attempts →
  port = defaultPort (lower (u_Scheme u)) ∧
  ∃ resolved a, h_resolve h (u_Hostname u) = Ok resolved ∧ a ∈ resolved ∧ addr = Unmap a ∧ (addr_wf a → public a).
Proof.
  intros [->|(addrs & Hres & Hall & Hpre)] Hin; [by apply elem_of_nil in Hin|].
  apply (elem_of_prefix _ _ _ Hin) in Hpre. apply list_elem_of_fmap in Hpre as (a & [= -> ->] & Ha).
  split; [done|]. exists addrs, a. split_and!; [done..|]. intros Hwf. apply AddrAllowed_public; [done|].
  rewrite forallb_forall in Hall. apply Hall. by apply list_elem_of_In.
Qed.

Lemma readBoundedBody_Ok response maxBytes body :
  0 <= maxBytes → readBoundedBody response maxBytes = Ok body →
  body = Body response ∧ BodyErr response = None ∧ Z.of_nat (length body) <= maxBytes.
Proof.
  intros Hm. unfold readBoundedBody. rewrite length_take.
  destruct (Z.ltb_spec (Z.of_nat (length (Body response))) (maxBytes + 1)).
  - destruct (BodyErr response); [done|]. case_match; [done|]. intros [= <-].
    rewrite take_ge by lia. split_and!; [done..|lia].
  - destruct (Z.gtb_spec (Z.of_nat (Nat.min (Z.to_nat (maxBytes + 1)) (length (Body response)))) maxBytes); [done|lia].
Qed.

Lemma checkResponse_None response kind :
  checkResponse ParseMediaType response kind = None →
  StatusCode response = 200 ∧ ContentLength response <= fk_maxBytes kind ∧
  ∃ mediaType, ParseMediaType (ContentType response) = Some mediaType ∧
    fk_allowed kind (lower (TrimSpace mediaType)) = true.
Proof.
  unfold checkResponse, checkContentType. case_bool_decide as Hs; cbn; [|done].
  case_bool_decide; cbn; [done|]. destruct (ParseMediaType _) as [mediaType|]; [|done].
  destruct (fk_allowed kind _) eqn:Ha; cbn; [|done]. destruct (Z.gtb_spec (ContentLength response) (fk_maxBytes kind)); [done|].
  eauto.
Qed.

Lemma fetch_spec target kind visits answer :
  0 <= fk_maxBytes kind →
  fetch ParseAddr ParseMediaType env hop target kind = (visits, answer) →
  Z.of_nat (length visits) <= MaxRedirects ∧
  (∀ i visit, visits !! i = Some visit → visit_ok target i visit) ∧
  (∀ final body, answer = Ok (final, body) →
    ∃ attempts response mediaType,
      last visits = Some (final, attempts) ∧ h_reply (env (length visits - 1)) = Answered response ∧
      StatusCode response = 200 ∧ ParseMediaType (ContentType response) = Some mediaType ∧
      fk_allowed kind (lower (TrimSpace mediaType)) = true ∧
      body = Body response ∧ BodyErr response = None ∧ Z.of_nat (length body) <= fk_maxBytes kind).
Proof.
  intros Hm. unfold fetch. destruct (CheckRequestURL ParseAddr target) eqn:Hu; [by intros [= <- <-]|].
  change (Z.to_nat MaxRedirects) with 3%nat. destruct (client_Do_visits target 2 0 target) as (vs & ans & -> & Hlen & Hall & Hans); [done|done|done|].
  assert (Hl : Z.of_nat (length vs) <= MaxRedirects) by (unfold MaxRedirects; lia).
  destruct ans as [[final response]|err]; [|by intros [= <- <-]].
  destruct (checkResponse ParseMediaType response kind) as [err|] eqn:Hc; [by intros [= <- <-]|].
  destruct (readBoundedBody response (fk_maxBytes kind)) as [body|err] eqn:Hb; intros [= <- <-]; [|done].
  split_and!; [done..|]. intros final' body' [= <- <-].
  destruct (Hans _ _ eq_refl) as (attempts & Hlast & Hrep).
  apply checkResponse_None in Hc as (? & ? & mediaType & ? & ?). apply readBoundedBody_Ok in Hb as (? & ? & ?); [|done].
  exists attempts, response, mediaType. auto 10.
Qed.
End FetchTheory.

(** ** Properties *)

(** The chain of predicates and prefixes that decides which address a fetch may
    open a connection to is the table of refused blocks: an address is allowed
    exactly when, an IPv4-mapped one being taken as its IPv4 address, it lies in no
    refused IPv4 block or carries no zone and lies in no refused IPv6 block.  The
    blocks hold loopback, private, link-local, carrier-grade, multicast and reserved
    addresses, and the IPv6 ranges that embed an IPv4 address. *)
Theorem AddrAllowed_iff (ip : Addr) (H : addr_wf ip) : AddrAllowed ip = true ↔ public ip.
Proof. by apply AddrAllowed_public. Qed.

(** C3. Whatever the resolver, the sockets, the servers and their redirects answer, a
    fetch makes at most [MaxRedirects] requests, each for a URL that passed the URL
    rules and, when it was redirected to, the caller's policy; it only attempts
    connections to the addresses the resolver gave during that very request, all of
    them found public, on the default port of the scheme.  What it returns is the
    whole body of the last response, of status 200, of an accepted media type and
    within the limit of the kind. *)
Theorem fetch_reaches_only_public (ParseAddr : string → option Addr) (ParseMediaType : string → option string)
    (env : nat → Hop) (hop : bool) (target : URL) (kind : fetchKind)
    (visits : list (URL * list (Addr * string))) (answer : result (URL * list Z))
    (Hmax : 0 <= fk_maxBytes kind)
    (Hfetch : fetch ParseAddr ParseMediaType env hop target kind = (visits, answer)) :
  Z.of_nat (length visits) <= MaxRedirects ∧
  (∀ i u attempts, visits !! i = Some (u, attempts) →
    CheckRequestURL ParseAddr u = None ∧
    match i with
    | O => u = target
    | S before => h_reply (env before) = Redirected u ∧ (hop = true → h_policy (env i) u = None)
    end ∧
    ∀ addr port, (addr, port) ∈ attempts →
      port = defaultPort (lower (u_Scheme u)) ∧
      ∃ resolved a, h_resolve (env i) (u_Hostname u) = Ok resolved ∧ a ∈ resolved ∧ addr = Unmap a ∧
        (addr_wf a → public a)) ∧
  (∀ final body, answer = Ok (final, body) →
    ∃ attempts response mediaType,
      last visits = Some (final, attempts) ∧ h_reply (env (length visits - 1)%nat) = Answered response ∧
      StatusCode response = 200 ∧ ParseMediaType (ContentType response) = Some mediaType ∧
      fk_allowed kind (lower (TrimSpace mediaType)) = true ∧
      body = Body response ∧ BodyErr response = None ∧ Z.of_nat (length body) <= fk_maxBytes kind).
Proof.
  apply fetch_spec in Hfetch as (Hlen & Hall & Hans); [|done]. split_and!; [done| |done].
  intros i u attempts Hi. destruct (Hall i _ Hi) as (Hu & Hok & Hlink). split_and!; [done..|].
  intros addr port. by apply attempts_public.
Qed.

(** ** Examples *)

Definition ex_url (scheme host path : string) : URL :=
  {| u_Scheme := scheme; u_Opaque := ""; u_User := false; u_Host := host; u_Hostname := host; u_Port := "";
     u_Path := path; u_Fragment := "" |}.
Definition ex_public : Addr := Addr4 (93 * 2 ^ 24 + 184 * 2 ^ 16 + 216 * 2 ^ 8 + 34).
Definition ex_mapped : Addr := Addr6 (0xffff * 2 ^ 32 + (93 * 2 ^ 24 + 184 * 2 ^ 16 + 216 * 2 ^ 8 + 35)) "".
Definition ex_page : Response :=
  {| StatusCode := 200; ContentType := "text/html; charset=utf-8"; ContentLength := -1; Body := [60; 112; 62];
     BodyErr := None |}.
Definition ex_hop (reply : reply) : Hop :=
  {| h_resolve := λ _, Ok [ex_public; ex_mapped];
     h_connect := λ addr _, if addr == ex_public then Some (ErrNew "connection refused") else None;
     h_policy := λ _, None; h_reply := reply |}.
(** One redirect, then a page. *)
Definition ex_env (i : nat) : Hop :=
  match i with
  | O => ex_hop (Redirected (ex_url "https" "example.org" "/page"))
  | _ => ex_hop (Answered ex_page)
  end.
Definition ex_media (header : string) : option string := Some "text/html".

Example ex_fetch :
  FetchDocument (λ _, None) ex_media ex_env true (ex_url "http" "example.com" "/") =
  ([(ex_url "http" "example.com" "/", [(ex_public, "80"); (Unmap ex_mapped, "80")]);
    (ex_url "https" "example.org" "/page", [(ex_public, "443"); (Unmap ex_mapped, "443")])],
   Ok (ex_url "https" "example.org" "/page", [60; 112; 62])).
Proof. vm_compute. reflexivity. Qed.

Lemma AddrAllowed_iff_witness : AddrAllowed ex_mapped = true ↔ public ex_mapped.
Proof. apply (AddrAllowed_iff ex_mapped). vm_compute. split; congruence. Defined.

Lemma fetch_reaches_only_public_witness :
  ∃ visits answer,
    fetch (λ _, None) ex_media ex_env true (ex_url "http" "example.com" "/") documentKind = (visits, answer) ∧
    Z.of_nat (length visits) = 2 ∧ Z.of_nat (length visits) <= MaxRedirects.
Proof.
  eexists _, _. split; [vm_compute; reflexivity|]. split; [reflexivity|].
  refine (proj1 (fetch_reaches_only_public (λ _, None) ex_media ex_env true (ex_url "http" "example.com" "/")
    documentKind _ _ _ _)); vm_compute; [congruence|reflexivity].
Defined.

(** A host that resolves to a public and a private address is not connected to. *)
Example ex_mixed_answer :
  dial (λ _, Ok [ex_public; Addr4 (10 * 2 ^ 24 + 1)]) (λ _ _, None) "example.com" "443" =
  ([], Some (ErrWrap "destination is not permitted" ErrURLNotAllowed)).
Proof. vm_compute. reflexivity. Qed.

(** Three redirects to a page: the third is refused, so two are followed. *)
Definition ex_three (i : nat) : Hop :=
  if (i <? 3)%nat then ex_hop (Redirected (ex_url "http" "example.com" "/next")) else ex_hop (Answered ex_page).

Example two_redirects_followed :
  let '(visits, answer) := FetchDocument (λ _, None) ex_media ex_three false (ex_url "http" "example.com" "/") in
  (length visits, answer) = (3%nat, Fail (ErrWrap "upstream could not be read" ErrUpstream)).
Proof. vm_compute. reflexivity. Qed.

(** Deprecated site-local addresses, fec0::/10, pass the policy. *)
Example site_local_allowed : AddrAllowed (Addr6 (0xfec0 * 2 ^ 112 + 1) "") = true.
Proof. vm_compute. reflexivity. Qed.
