(* ===== verification/Transactions.v ===== *)
(** * Transactions of a store

    What the stores of the services rely on of PostgreSQL at READ COMMITTED, as
    an interface.  An operation of a store is the tree of the statements it sends
    ([Tx]); a statement reads the committed state under the writes of its own
    transaction, may wait for a lock, and answers or fails.  Advisory locks and row
    locks are held until the transaction ends; a commit makes its writes visible
    at once, and a transaction that ends without one leaves no trace.

    [safe] is a logic of assertions that the locks held make stable, and
    [step_ok] is its soundness for every interleaving; [ordered] is a discipline
    of acquisition, and [progress] its freedom from deadlock. *)

From stdpp Require Import prelude gmap strings sorting.
From Stdlib Require Import ZArith Lia.
From S2P Require Import Prelude GoStrings.
Local Open Scope Z_scope.

(** [pg_advisory_xact_lock] on a key, a row locked [FOR UPDATE] (or written), and a
    row locked [FOR SHARE]. *)
Inductive Lock : Type :=
| LockKey (key : string)
| LockRow (id : string)
| LockShare (id : string).

#[export] Instance Lock_eq_dec : EqDecision Lock.
Proof. solve_decision. Defined.

(** A schema with its statements.  [hash] is [hashtextextended]: an advisory lock is
    taken on the number a key hashes to.  [request] is the locks a statement takes
    and [exec] what it answers and writes, given what its environment contributes,
    the locks of the other transactions, the clock and the state it sees. *)
Class Store : Type := {
  DB : Type;
  Write : Type;
  Env : Type;
  Stmt : Type → Type;
  hash : string → Z;
  env_fault : Env → option error;
  env_lost : Env → bool;
  apply_write : DB → Write → DB;
  request : ∀ {B}, Stmt B → Env → list Lock → Time → DB → list Lock;
  exec : ∀ {B}, Stmt B → Env → list Lock → Time → DB → result B * list Write
}.

(** A transaction: the statements in order, each answer decided on by the rest; a
    commit with the users whose change is announced with it; the answer to the
    caller, which rolls back what was not committed. *)
Inductive Tx {store : Store} (A : Type) : Type :=
| Return (a : A)
| Do {B : Type} (s : Stmt B) (k : result B → Tx A)
| Commit (announce : list string) (k : result unit → Tx A).
Arguments Return {store A} a.
Arguments Do {store A B} s k.
Arguments Commit {store A} announce k.

Section Transactions.
Context {store : Store} {A : Type}.

Definition conflict (l l' : Lock) : bool :=
  match l, l' with
  | LockKey k, LockKey k' => hash k =? hash k'
  | LockRow id, LockRow id' | LockRow id, LockShare id' | LockShare id, LockRow id' => id == id'
  | _, _ => false
  end.

Definition apply_writes (db : DB) (writes : list Write) : DB := foldl apply_write db writes.

Record Thread : Type := {
  th_prog : Tx A;
  th_writes : list Write;
  th_held : list Lock
}.

Definition begin (p : Tx A) : Thread := {| th_prog := p; th_writes := []; th_held := [] |}.

(** A requested lock is held by another transaction. *)
Definition waits (req others : list Lock) : bool := existsb (λ l, existsb (conflict l) others) req.

(** One step of a transaction: [None] when it waits or is over.  A commit may fail,
    and one whose acknowledgement is lost has happened all the same. *)
Definition thread_step (env : Env) (others : list Lock) (now : Time) (db : DB) (th : Thread) : option (DB * Thread) :=
  match th_prog th with
  | Return _ => None
  | Do s k =>
      let view := apply_writes db (th_writes th) in
      let req := request s env others now view in
      if waits req others then None
      else let '(answer, writes) :=
             match env_fault env with
             | Some err => (Fail err, [])
             | None => exec s env others now view
             end in
           Some (db, {| th_prog := k answer; th_writes := th_writes th ++ writes; th_held := req ++ th_held th |})
  | Commit _ k =>
      match env_fault env with
      | None => Some (apply_writes db (th_writes th), begin (k (Ok ())))
      | Some err =>
          Some (if env_lost env then apply_writes db (th_writes th) else db, begin (k (Fail err)))
      end
  end.

Record Config : Type := { c_db : DB; c_now : Time; c_threads : gmap nat Thread }.

(** The locks of the transactions but the [i]th. *)
Definition others (threads : gmap nat Thread) (i : nat) : list Lock :=
  mjoin ((λ kv, th_held (snd kv)) <$> map_to_list (delete i threads)).

(** Operations begin, take their steps in any order, and end; the clock runs. *)
Inductive step (admissible : Tx A → Prop) (c : Config) : Config → Prop :=
| step_begin i p :
    admissible p → c_threads c !! i = None →
    step admissible c {| c_db := c_db c; c_now := c_now c; c_threads := <[i := begin p]> (c_threads c) |}
| step_run i env th db' th' :
    c_threads c !! i = Some th →
    thread_step env (others (c_threads c) i) (c_now c) (c_db c) th = Some (db', th') →
    step admissible c {| c_db := db'; c_now := c_now c; c_threads := <[i := th']> (c_threads c) |}
| step_end i th a :
    c_threads c !! i = Some th → th_prog th = Return a →
    step admissible c {| c_db := c_db c; c_now := c_now c; c_threads := delete i (c_threads c) |}
| step_tick now' :
    c_now c <= now' → step admissible c {| c_db := c_db c; c_now := now'; c_threads := c_threads c |}.

Definition compat (held held' : list Lock) : Prop := ∀ l l', l ∈ held → l' ∈ held' → conflict l l' = false.

Lemma conflict_sym l l' : conflict l l' = conflict l' l.
Proof.
  destruct l, l'; cbn; try done; [apply Z.eqb_sym|..]; by apply bool_decide_ext.
Qed.

Lemma compat_sym held held' : compat held held' → compat held' held.
Proof. intros H l l' ??. rewrite conflict_sym. auto. Qed.

Lemma elem_of_others threads i l :
  l ∈ others threads i ↔ ∃ j th, j ≠ i ∧ threads !! j = Some th ∧ l ∈ th_held th.
Proof.
  unfold others. rewrite list_elem_of_join. setoid_rewrite list_elem_of_fmap. split.
  - intros (held & Hl & [j th] & -> & Hj%elem_of_map_to_list). apply lookup_delete_Some in Hj as [? ?]. eauto 6.
  - intros (j & th & Hj & Hth & Hl). exists (th_held th). split; [done|]. exists (j, th). split; [done|].
    apply elem_of_map_to_list. by rewrite lookup_delete_ne.
Qed.

Lemma waits_false req others : waits req others = false ↔ compat req others.
Proof.
  unfold waits, compat. rewrite existsb_false_Forall, Forall_forall. setoid_rewrite existsb_false_Forall.
  setoid_rewrite Forall_forall. naive_solver.
Qed.
End Transactions.
Arguments Thread {store} A.
Arguments Config {store} A.

(** The composition of an operation and a helper that runs inside its transaction. *)
Fixpoint tx_bind {store : Store} {A B : Type} (t : Tx A) (f : A → Tx B) : Tx B :=
  match t with
  | Return a => f a
  | Do s k => Do s (λ r, tx_bind (k r) f)
  | Commit announce k => Commit announce (λ r, tx_bind (k r) f)
  end.

(** ** Assertions kept by locks *)

(** What holds of the committed state at rest, what a transaction that holds some
    locks may count on from the others, and what its own commit owes them. *)
Class Protocol (store : Store) : Type := {
  Inv : DB → Time → Prop;
  Rely : list Lock → DB → Time → DB → Time → Prop;
  Guar : list Lock → DB → Time → DB → Prop;
  Inv_tick db now now' : now <= now' → Inv db now → Inv db now';
  Rely_tick held db now now' : now <= now' → Inv db now → Rely held db now db now';
  Guar_Rely mine other db db' now :
    compat mine other → Inv db now → Inv db' now → Guar mine db now db' → Rely other db now db' now
}.

Section Logic.
Context {store : Store} {protocol : Protocol store} {A : Type}.

Definition stable (held : list Lock) (P : DB → Time → Prop) : Prop :=
  ∀ db now db' now', Inv db now → Inv db' now' → Rely held db now db' now' → P db now → P db' now'.

(** A transaction that holds [held], has written [writes], and where [P] holds of
    the committed state, keeps the invariant and its promise when it commits. *)
Fixpoint safe (held : list Lock) (writes : list Write) (P : DB → Time → Prop) (t : Tx A) : Prop :=
  match t with
  | Return _ => True
  | Do s k =>
      (∀ req err, safe (req ++ held) writes (λ _ _, True) (k (Fail err))) ∧
      ∀ env others db now,
        Inv db now → P db now →
        let view := apply_writes db writes in
        let req := request s env others now view in
        compat req others →
        let '(answer, new) := exec s env others now view in
        ∃ P', stable (req ++ held) P' ∧ P' db now ∧ safe (req ++ held) (writes ++ new) P' (k answer)
  | Commit _ k =>
      (∀ db now, Inv db now → P db now →
        Inv (apply_writes db writes) now ∧ Guar held db now (apply_writes db writes)) ∧
      ∀ r, safe [] [] (λ _ _, True) (k r)
  end.

Definition thread_ok (db : DB) (now : Time) (th : Thread A) : Prop :=
  ∃ P, stable (th_held th) P ∧ P db now ∧ safe (th_held th) (th_writes th) P (th_prog th).

Record config_ok (c : Config A) : Prop := {
  ok_inv : Inv (c_db c) (c_now c);
  ok_threads i th : c_threads c !! i = Some th → thread_ok (c_db c) (c_now c) th;
  ok_locks i j th th' :
    i ≠ j → c_threads c !! i = Some th → c_threads c !! j = Some th' → compat (th_held th) (th_held th')
}.

Definition safe_tx (p : Tx A) : Prop := safe [] [] (λ _ _, True) p.

Lemma stable_True held : stable held (λ _ _, True).
Proof. by intros ????. Qed.

Lemma begin_ok db now p : safe_tx p → thread_ok db now (begin p).
Proof. intros Hp. exists (λ _ _, True). auto using stable_True. Qed.

(** A step of one transaction keeps its own assertion, the invariant, and what the
    others rely on. *)
Lemma thread_step_ok env others db now th db' th' :
  Inv db now → thread_ok db now th → compat (th_held th) others →
  thread_step env others now db th = Some (db', th') →
  Inv db' now ∧ thread_ok db' now th' ∧ compat (th_held th') others ∧
  (∀ held, compat (th_held th) held → Rely held db now db' now) ∧
  (db' = db ∨ Guar (th_held th) db now db').
Proof.
  intros HI (P & Hstable & HP & Hsafe) Hcompat. unfold thread_step.
  assert (Hrefl : ∀ held, Rely held db now db now) by (intros; by apply Rely_tick).
  destruct (th_prog th) as [a|B s k|announce k] eqn:Hprog; [done| |].
  - cbn [safe] in Hsafe. destruct Hsafe as [Hfault Hsafe].
    specialize (Hsafe env others db now HI HP). cbv zeta in Hsafe |- *.
    set (req := request s env others now _) in *.
    destruct (waits req others) eqn:Hw; [done|]. apply waits_false in Hw. specialize (Hsafe Hw).
    assert (Hheld : compat (req ++ th_held th) others) by (intros l l' [|]%elem_of_app; auto).
    destruct (env_fault env) as [err|].
    + intros [= <- <-]. rewrite app_nil_r. split_and!; [done| |done|done|by left].
      exists (λ _ _, True). split_and!; [apply stable_True|done|apply Hfault].
    + destruct (exec s env others now _) as [answer new]. intros [= <- <-].
      destruct Hsafe as (P' & ? & ? & ?). split_and!; [done| |done|done|by left]. by exists P'.
  - cbn [safe] in Hsafe. destruct Hsafe as [Hcommit Hsafe]. destruct (Hcommit db now HI HP) as [HI' HG].
    assert (Hbegin : ∀ r db0, thread_ok db0 now (begin (k r))) by (intros; apply begin_ok, Hsafe).
    assert (Hnone : ∀ r, compat (th_held (begin (k r))) others) by (intros r l l' Hl; by apply elem_of_nil in Hl).
    assert (HR : ∀ held, compat (th_held th) held → Rely held db now (apply_writes db (th_writes th)) now)
      by (intros; by eapply Guar_Rely).
    destruct (env_fault env) as [err|]; [destruct (env_lost env)|]; intros [= <- <-]; split_and!; auto.
Qed.

Lemma thread_ok_stable db now db' now' th :
  Inv db now → Inv db' now' → Rely (th_held th) db now db' now' → thread_ok db now th → thread_ok db' now' th.
Proof.
  intros HI HI' HR (P & Hs & HP & Hsafe). exists P. split_and!; [done| |done]. exact (Hs _ _ _ _ HI HI' HR HP).
Qed.

Lemma step_ok admissible c c' :
  (∀ p, admissible p → safe_tx p) → step admissible c c' → config_ok c → config_ok c'.
Proof.
  intros Hadm Hstep [HI Hth Hlk].
  destruct Hstep as [i p Hp Hi|i env th db' th' Hi Hrun|i th a Hi Hret|now' Hnow]; cbn in *.
  - split; cbn; [done| |].
    + intros j th [[<- <-]|[_ ?]]%lookup_insert_Some; [by apply begin_ok, Hadm|eauto].
    + intros j j' th th' Hne [[<- <-]|[_ ?]]%lookup_insert_Some [[<- <-]|[_ ?]]%lookup_insert_Some;
        [done|by intros l l' ?%elem_of_nil|by intros l l' _ ?%elem_of_nil|by eauto].
  - assert (Hcompat : compat (th_held th) (others (c_threads c) i)).
    { intros l l' Hl (j & thj & Hj & Hthj & Hl')%elem_of_others. by eapply (Hlk i j). }
    destruct (thread_step_ok env _ _ _ _ _ _ HI (Hth i th Hi) Hcompat Hrun) as (HI' & Hok & Hheld & HR & _).
    assert (Hother : ∀ j thj, j ≠ i → c_threads c !! j = Some thj → compat (th_held th') (th_held thj)).
    { intros j thj Hne Hj l l' Hl Hl'. apply Hheld; [done|]. apply elem_of_others. eauto. }
    split; cbn; [done| |].
    + intros j thj [[<- <-]|[Hne Hj]]%lookup_insert_Some; [done|].
      eapply thread_ok_stable; [exact HI|exact HI'| |by eapply Hth]. apply HR. by eapply (Hlk i j).
    + intros j j' thj thj' Hne [[<- <-]|[? Hj]]%lookup_insert_Some [[<- <-]|[? Hj']]%lookup_insert_Some;
        [done|by eauto|apply compat_sym; by eauto|by eauto].
  - split; cbn; [done| |].
    + intros j thj [_ ?]%lookup_delete_Some. eauto.
    + intros j j' thj thj' Hne [_ ?]%lookup_delete_Some [_ ?]%lookup_delete_Some. eauto.
  - assert (HI' : Inv (c_db c) now') by (by eapply Inv_tick).
    split; cbn; [done| |done]. intros j thj Hj.
    eapply thread_ok_stable; [exact HI|exact HI'|by apply Rely_tick|eauto].
Qed.

(** What a step does to the committed state. *)
Lemma step_guar admissible c c' :
  step admissible c c' → config_ok c →
  c_db c' = c_db c ∨ (c_now c' = c_now c ∧ ∃ held, Guar held (c_db c) (c_now c) (c_db c')).
Proof.
  intros Hstep [HI Hth Hlk]. destruct Hstep as [|i env th db' th' Hi Hrun| |]; [by left| |by left..]. cbn in *.
  assert (Hcompat : compat (th_held th) (others (c_threads c) i)).
  { intros l l' Hl (j & thj & Hj & Hthj & Hl')%elem_of_others. by eapply (Hlk i j). }
  destruct (thread_step_ok env _ _ _ _ _ _ HI (Hth i th Hi) Hcompat Hrun) as (_ & _ & _ & _ & [?|?]); [by left|right].
  eauto.
Qed.

Definition initial (db : DB) (now : Time) : Config A := {| c_db := db; c_now := now; c_threads := ∅ |}.

Lemma reachable_ok admissible db now c :
  (∀ p, admissible p → safe_tx p) → Inv db now → rtc (step admissible) (initial db now) c → config_ok c.
Proof.
  intros Hadm HI Hsteps. assert (Hinit : config_ok (initial db now)).
  { split; cbn; [done|intros ?? Hi|intros ???? _ Hi]; by rewrite lookup_empty in Hi. }
  revert Hinit. induction Hsteps as [c|c c1 c2 Hstep _ IH]; [done|]. intros Hc. by eapply IH, step_ok.
Qed.
End Logic.

(** An operation whose answer is worked on after the transaction. *)
Lemma safe_bind_return {store : Store} {protocol : Protocol store} {A B : Type} (t : Tx A) (f : A → Tx B) held writes P :
  (∀ a, ∃ b, f a = Return b) → safe held writes P t → safe held writes P (tx_bind t f).
Proof.
  intros Hf. revert held writes P. induction t as [a|C s k IH|announce k IH]; intros held writes P; cbn.
  - intros _. by destruct (Hf a) as [b ->].
  - intros [Hfault Hs]. split; [intros; by apply IH|]. intros env others db now HI HP Hc.
    specialize (Hs env others db now HI HP Hc). destruct (exec _ _ _ _ _) as [answer new].
    destruct Hs as (P' & ? & ? & ?). exists P'. auto.
  - intros [Hc Hk]. split; [done|]. intros r. by apply IH.
Qed.

(** ** Freedom from deadlock *)

Section Deadlock.
Context {store : Store} {A : Type}.

Definition is_key (l : Lock) : Prop := match l with LockKey _ => True | _ => False end.

(** Keys are taken before rows and in their order, and one row at a time: a
    transaction that holds a row only asks for that row again. *)
Definition acquirable (held : list Lock) (l : Lock) : Prop :=
  match l with
  | LockKey k => ∀ l', l' ∈ held → match l' with LockKey k' => String.le k' k | _ => False end
  | LockRow id => Forall is_key held ∨ LockRow id ∈ held
  | LockShare id => Forall is_key held
  end.

Fixpoint ordered (held : list Lock) (t : Tx A) : Prop :=
  match t with
  | Return _ => True
  | Do s k =>
      ∀ env others now db,
        let req := request s env others now db in
        Forall (acquirable held) req ∧ ordered (req ++ held) (k (fst (exec s env others now db))) ∧
        ∀ err, ordered (req ++ held) (k (Fail err))
  | Commit _ k => ∀ r, ordered [] (k r)
  end.

Record config_ordered (c : Config A) : Prop := {
  ordered_threads i th : c_threads c !! i = Some th → ordered (th_held th) (th_prog th);
  ordered_locks i j th th' :
    i ≠ j → c_threads c !! i = Some th → c_threads c !! j = Some th' → compat (th_held th) (th_held th')
}.

(** The [i]th transaction is over, or can take its next step. *)
Definition can_step (env : Env) (c : Config A) (i : nat) (th : Thread A) : Prop :=
  (∃ a, th_prog th = Return a) ∨ is_Some (thread_step env (others (c_threads c) i) (c_now c) (c_db c) th).

Lemma can_step_or_waits env c i th :
  can_step env c i th ∨
  ∃ B (s : Stmt B) k l l' j th',
    th_prog th = Do s k ∧ l ∈ request s env (others (c_threads c) i) (c_now c) (apply_writes (c_db c) (th_writes th)) ∧
    j ≠ i ∧ c_threads c !! j = Some th' ∧ l' ∈ th_held th' ∧ conflict l l' = true.
Proof.
  unfold can_step, thread_step. destruct (th_prog th) as [a|B s k|announce k] eqn:E; [eauto| |].
  - destruct (waits _ _) eqn:Hw; [right|left; right; destruct (env_fault env); [|destruct (exec _ _ _ _ _)]; eauto].
    unfold waits in Hw. apply existsb_true_Exists in Hw as (l & Hl & Hw).
    apply existsb_true_Exists in Hw as (l' & (j & th' & Hj & Hth' & Hl')%elem_of_others & Hc).
    exists B, s, k, l, l', j, th'. auto 10.
  - left; right. destruct (env_fault env); eauto.
Qed.

Lemma ordered_requests env oth now db th B (s : Stmt B) k l :
  ordered (th_held th) (th_prog th) → th_prog th = Do s k → l ∈ request s env oth now db → acquirable (th_held th) l.
Proof.
  intros Ho Hprog Hl. rewrite Hprog in Ho. destruct (Ho env oth now db) as [Hreq _].
  rewrite Forall_forall in Hreq. auto.
Qed.

Lemma row_holder_steps env c i th l :
  config_ordered c → c_threads c !! i = Some th → l ∈ th_held th → ¬ is_key l → can_step env c i th.
Proof.
  intros [Hord Hlk] Hi Hl Hrow.
  destruct (can_step_or_waits env c i th) as [|(B & s & k & a & b & j & th' & Hprog & Ha & Hj & Hth' & Hb & Hc)]; [done|].
  exfalso. specialize (ordered_requests _ _ _ _ _ _ _ _ _ (Hord i th Hi) Hprog Ha) as Hacq.
  destruct a as [key|id|id]; cbn [acquirable] in Hacq.
  - specialize (Hacq l Hl). by destruct l.
  - destruct Hacq as [Hkeys|Hmine].
    + rewrite Forall_forall in Hkeys. auto.
    + by rewrite (Hlk i j th th' (not_eq_sym Hj) Hi Hth' _ _ Hmine Hb) in Hc.
  - rewrite Forall_forall in Hacq. auto.
Qed.

Context (hash_inj : ∀ k k' : string, hash k = hash k' → k = k').

(** The [i]th transaction asks for [key], which another one holds. *)
Definition waits_for (env : Env) (c : Config A) (i : nat) (key : string) : Prop :=
  ∃ th B (s : Stmt B) k j th',
    c_threads c !! i = Some th ∧ th_prog th = Do s k ∧
    LockKey key ∈ request s env (others (c_threads c) i) (c_now c) (apply_writes (c_db c) (th_writes th)) ∧
    j ≠ i ∧ c_threads c !! j = Some th' ∧ LockKey key ∈ th_held th'.

Lemma steps_or_waits_for env c i th :
  config_ordered c → c_threads c !! i = Some th →
  (∃ j th', c_threads c !! j = Some th' ∧ can_step env c j th') ∨ ∃ key, waits_for env c i key.
Proof.
  intros Hc Hi.
  destruct (can_step_or_waits env c i th) as [|(B & s & k & a & b & j & th' & Hprog & Ha & Hj & Hth' & Hb & Hab)]; [eauto|].
  destruct b as [key|id|id].
  - right. destruct a as [key'| |]; [|done..]. cbn in Hab. apply Z.eqb_eq, hash_inj in Hab as ->.
    exists key. unfold waits_for. naive_solver.
  - left. exists j, th'. split; [done|]. eapply row_holder_steps; [done..|]. by intros [].
  - left. exists j, th'. split; [done|]. eapply row_holder_steps; [done..|]. by intros [].
Qed.

Lemma greatest_key (W : nat → string → Prop) (l : list nat) :
  l ≠ [] → (∀ i, i ∈ l → ∃ key, W i key) →
  ∃ i key, i ∈ l ∧ W i key ∧ ∀ j, j ∈ l → ∃ key', W j key' ∧ String.le key' key.
Proof.
  induction l as [|i l IH]; intros Hne Hall; [done|].
  destruct (Hall i) as [key Hkey]; [by left|]. destruct l as [|i' l].
  - exists i, key. split_and!; [by left|done|]. intros j ->%list_elem_of_singleton. by exists key.
  - destruct IH as (j & key' & Hj & Hw & Hmax); [done|intros; apply Hall; by right|].
    destruct (total String.le key key') as [Hle|Hle].
    + exists j, key'. split_and!; [by right|done|]. intros x [->|Hx]%elem_of_cons; [by exists key|auto].
    + exists i, key. split_and!; [by left|done|]. intros x [->|Hx]%elem_of_cons; [by exists key|].
      destruct (Hmax x Hx) as (key'' & ? & ?). exists key''. split; [done|]. by etrans.
Qed.

(** Whatever the locks held, some transaction can go on. *)
Lemma progress env c :
  config_ordered c → c_threads c ≠ ∅ → ∃ i th, c_threads c !! i = Some th ∧ can_step env c i th.
Proof.
  intros Hc Hne. set (l := (map_to_list (c_threads c)).*1).
  assert (Hl : ∀ i, i ∈ l ↔ is_Some (c_threads c !! i)).
  { intros i. unfold l. rewrite list_elem_of_fmap. split.
    - intros ([j th] & -> & Hj%elem_of_map_to_list). by exists th.
    - intros [th Hi]. exists (i, th). split; [done|]. by apply elem_of_map_to_list. }
  assert (Hdec : (∃ i th, c_threads c !! i = Some th ∧ can_step env c i th) ∨
                 ∀ i, i ∈ l → ∃ key, waits_for env c i key).
  { assert (Hsub : ∀ i, i ∈ l → is_Some (c_threads c !! i)) by (intros i; apply Hl). clear Hl.
    induction l as [|i l IH]; [right; by intros ? ?%elem_of_nil|].
    destruct (Hsub i) as [th Hi]; [by left|].
    destruct (steps_or_waits_for env c i th Hc Hi) as [(j & th' & ? & ?)|[key Hkey]]; [left; eauto|].
    destruct IH as [|Hrest]; [intros; apply Hsub; by right|by left|]. right. intros x [->|Hx]%elem_of_cons; eauto. }
  destruct Hdec as [|Hall]; [done|].
  destruct (greatest_key (waits_for env c) l) as (i & key & Hi & Hw & Hmax); [|done|].
  { intros Hnil. apply Hne, map_empty. intros i. destruct (c_threads c !! i) eqn:E; [|done].
    assert (Hin : i ∈ l) by (apply Hl; by rewrite E). rewrite Hnil in Hin. by apply elem_of_nil in Hin. }
  destruct Hw as (th & B & s & k & j & th' & Hth & _ & _ & Hj & Hth' & Hheld).
  destruct (Hmax j) as (key' & (thj & B' & s' & k' & j' & th'' & Hthj & Hprog & Hreq & Hj' & Hth'' & Hheld') & Hle).
  { apply Hl. by exists th'. }
  assert (thj = th') as -> by congruence. destruct Hc as [Hord Hlk].
  specialize (ordered_requests _ _ _ _ _ _ _ _ _ (Hord j _ Hthj) Hprog Hreq (LockKey key) Hheld) as Hge. cbn in Hge.
  assert (key' = key) as -> by (by apply (anti_symm String.le)).
  specialize (Hlk j j' _ _ (not_eq_sym Hj') Hthj Hth'' _ _ Hheld Hheld'). cbn in Hlk. by rewrite Z.eqb_refl in Hlk.
Qed.

(** The discipline is kept by every step. *)
Lemma thread_step_ordered env oth now db th db' th' :
  ordered (th_held th) (th_prog th) → thread_step env oth now db th = Some (db', th') →
  ordered (th_held th') (th_prog th') ∧ (compat (th_held th) oth → compat (th_held th') oth).
Proof.
  unfold thread_step. destruct (th_prog th) as [a|B s k|announce k]; [done| |].
  - intros Ho. cbv zeta. destruct (waits _ _) eqn:Hw; [done|]. apply waits_false in Hw.
    destruct (Ho env oth now (apply_writes db (th_writes th))) as (_ & Hok & Hfail). revert Hok.
    destruct (env_fault env); [|destruct (exec _ _ _ _ _)]; intros Hok [= <- <-];
      (split; [done || apply Hfail|intros Hheld a b [|]%elem_of_app Hb; auto]).
  - cbn. intros Ho. destruct (env_fault env); intros [= <- <-]; cbn;
      (split; [apply Ho|intros _ a b Ha; by apply elem_of_nil in Ha]).
Qed.

Lemma step_ordered admissible c c' :
  (∀ p, admissible p → ordered [] p) → step admissible c c' → config_ordered c → config_ordered c'.
Proof.
  intros Hadm Hstep [Hth Hlk].
  destruct Hstep as [i p Hp Hi|i env th db' th' Hi Hrun|i th a Hi Hret|now' Hnow]; cbn in *.
  - split; cbn.
    + intros j th [[<- <-]|[_ ?]]%lookup_insert_Some; [by apply Hadm|eauto].
    + intros j j' th th' Hne [[<- <-]|[_ ?]]%lookup_insert_Some [[<- <-]|[_ ?]]%lookup_insert_Some;
        [done|by intros l l' ?%elem_of_nil|by intros l l' _ ?%elem_of_nil|by eauto].
  - destruct (thread_step_ordered _ _ _ _ _ _ _ (Hth i th Hi) Hrun) as [Ho Hcompat].
    assert (Hother : ∀ j thj, j ≠ i → c_threads c !! j = Some thj → compat (th_held th') (th_held thj)).
    { intros j thj Hne Hj l l' Hl Hl'. apply Hcompat; [|done|apply elem_of_others; eauto].
      intros a b Ha (x & thx & Hx & Hthx & Hb)%elem_of_others. by eapply (Hlk i x). }
    split; cbn.
    + intros j thj [[<- <-]|[Hne Hj]]%lookup_insert_Some; [done|eauto].
    + intros j j' thj thj' Hne [[<- <-]|[? Hj]]%lookup_insert_Some [[<- <-]|[? Hj']]%lookup_insert_Some;
        [done|by eauto|apply compat_sym; by eauto|by eauto].
  - split; cbn.
    + intros j thj [_ ?]%lookup_delete_Some. eauto.
    + intros j j' thj thj' Hne [_ ?]%lookup_delete_Some [_ ?]%lookup_delete_Some. eauto.
  - by split.
Qed.

Lemma reachable_ordered admissible db now c :
  (∀ p, admissible p → ordered [] p) → rtc (step admissible) (initial db now) c → config_ordered c.
Proof.
  intros Hadm Hsteps. assert (Hinit : config_ordered (initial db now)).
  { split; cbn; [intros ?? Hi|intros ???? _ Hi]; by rewrite lookup_empty in Hi. }
  revert Hinit. induction Hsteps as [c|c c1 c2 Hstep _ IH]; [done|]. intros Hc. by eapply IH, step_ordered.
Qed.
End Deadlock.

Lemma ordered_bind_return {store : Store} {A B : Type} (t : Tx A) (f : A → Tx B) held :
  (∀ a, ∃ b, f a = Return b) → ordered held t → ordered held (tx_bind t f).
Proof.
  intros Hf. revert held. induction t as [a|C s k IH|announce k IH]; intros held; cbn.
  - intros _. by destruct (Hf a) as [b ->].
  - intros Hs env others now db. destruct (Hs env others now db) as (? & ? & ?).
    split; [done|]. split; [by apply IH|]. intros. by apply IH.
  - intros Hk r. by apply IH.
Qed.

(** ** Every operation ends *)

Section Bounds.
Context {store : Store} {A : Type}.

(** At most [n] statements and commits on every path. *)
Fixpoint bounded (t : Tx A) (n : nat) : Prop :=
  match t, n with
  | Return _, _ => True
  | Do _ k, S n => ∀ r, bounded (k r) n
  | Commit _ k, S n => ∀ r, bounded (k r) n
  | _, O => False
  end.

Lemma bounded_le t n m : (n <= m)%nat → bounded t n → bounded t m.
Proof.
  revert n m. induction t as [a|B s k IH|announce k IH]; intros n m Hle; cbn; [done|..];
    (destruct n as [|n]; [done|]; destruct m as [|m]; [lia|]; intros Hk r; apply (IH r n); [lia|apply Hk]).
Qed.

Lemma thread_step_bounded env oth now db th db' th' n :
  bounded (th_prog th) n → thread_step env oth now db th = Some (db', th') →
  ∃ m, n = S m ∧ bounded (th_prog th') m.
Proof.
  unfold thread_step. destruct (th_prog th) as [a|B s k|announce k]; [done| |]; (destruct n as [|n]; [done|]); cbn.
  - intros Hk. destruct (waits _ _); [done|]. destruct (env_fault env); [|destruct (exec _ _ _ _ _)];
      intros [= <- <-]; exists n; split; [done|apply Hk|done|apply Hk].
  - intros Hk. destruct (env_fault env); intros [= <- <-]; exists n; (split; [done|apply Hk]).
Qed.

Lemma reachable_bounded admissible n db now c :
  (∀ p, admissible p → bounded p n) → rtc (step admissible) (initial db now) c →
  ∀ i th, c_threads c !! i = Some th → bounded (th_prog th) n.
Proof.
  intros Hadm Hsteps. assert (Hinit : ∀ i th, c_threads (initial (A := A) db now) !! i = Some th → bounded (th_prog th) n)
    by (intros i th Hi; cbn in Hi; by rewrite lookup_empty in Hi).
  revert Hinit. induction Hsteps as [c|c c1 c2 Hstep _ IH]; [done|]. intros Hc. apply IH.
  destruct Hstep as [i p Hp Hi|i env th db' th' Hi Hrun|i th a Hi Hret|now' Hnow]; cbn; [..|done].
  - intros j th [[_ <-]|[_ ?]]%lookup_insert_Some; [by apply Hadm|eauto].
  - intros j thj [[_ <-]|[_ ?]]%lookup_insert_Some; [|eauto].
    destruct (thread_step_bounded _ _ _ _ _ _ _ _ (Hc i th Hi) Hrun) as (m & -> & Hm).
    eapply bounded_le; [|exact Hm]. lia.
  - intros j thj [_ ?]%lookup_delete_Some. eauto.
Qed.

(** What is left to do, a budget per transaction. *)
Definition total (budgets : gmap nat nat) : nat := map_fold (λ _ n acc, (S n + acc)%nat) O budgets.

Lemma total_delete budgets i n : budgets !! i = Some n → total budgets = (S n + total (delete i budgets))%nat.
Proof. intros Hi. unfold total. rewrite (map_fold_delete_L _ _ i n _); [done| |done]. intros. lia. Qed.

Lemma total_insert budgets i n m : budgets !! i = Some n → (total (<[i := m]> budgets) + n = total budgets + m)%nat.
Proof.
  intros Hi. rewrite (total_delete _ _ _ Hi), (total_delete (<[i := m]> budgets) i m) by apply lookup_insert_eq.
  rewrite delete_insert_eq. lia.
Qed.

Lemma total_const n (threads : gmap nat (Thread A)) : total ((λ _, n) <$> threads) = (size threads * S n)%nat.
Proof.
  induction threads as [|i th threads Hi IH] using map_ind; [done|].
  rewrite fmap_insert, (total_delete _ i n) by apply lookup_insert_eq.
  rewrite delete_insert_id, IH, map_size_insert_None by (rewrite ?lookup_fmap, ?Hi; done). lia.
Qed.
End Bounds.
