(* ===== verification/Calls.v ===== *)
(** * Calls

    [services/chat-service/internal]: domain/call.go, the transactions of
    storage/call_store.go over [chat.calls] and [chat.call_participant_leases]
    (migrations 000019, 000028 and 000035), and service/call_service.go.

    Each operation of the store is the tree of its statements; [call_store] says
    what a statement locks, answers and writes.  What the statements read of other
    tables (memberships, visibility), random identifiers, the row a conversation
    event is written to and failures come from the environment of the statement. *)

From stdpp Require Import prelude gmap strings sorting.
From Stdlib Require Import ZArith Lia.
From S2P Require Import Prelude GoStrings Workspace Transactions.
Local Open Scope Z_scope.

(** ** domain/call.go *)

Abbreviation CallType := string (only parsing).
Definition CallTypeAudio : CallType := "audio".
Definition CallTypeVideo : CallType := "video".
Definition CallType_Valid (t : CallType) : bool := (t == CallTypeAudio) || (t == CallTypeVideo).

Abbreviation CallTargetType := string (only parsing).
Definition CallTargetUser : CallTargetType := "user".
Definition CallTargetChannel : CallTargetType := "channel".
Definition CallTargetDM : CallTargetType := "dm".
Definition CallTargetType_Valid (t : CallTargetType) : bool :=
  (t == CallTargetUser) || (t == CallTargetChannel) || (t == CallTargetDM).

Abbreviation CallStatus := string (only parsing).
Definition CallStatusRinging : CallStatus := "ringing".
Definition CallStatusActive : CallStatus := "active".
Definition CallStatusDeclined : CallStatus := "declined".
Definition CallStatusCancelled : CallStatus := "cancelled".
Definition CallStatusTimedOut : CallStatus := "timed_out".
Definition CallStatusEnded : CallStatus := "ended".
Definition CallStatus_Valid (s : CallStatus) : bool :=
  s ∈? [CallStatusRinging; CallStatusActive; CallStatusDeclined; CallStatusCancelled; CallStatusTimedOut;
        CallStatusEnded].
Definition CallStatus_Terminal (s : CallStatus) : bool :=
  (s == CallStatusDeclined) || (s == CallStatusCancelled) || (s == CallStatusTimedOut) || (s == CallStatusEnded).

(** A row of [chat.calls] as [scanCall] reads it: a NULL callee is the empty
    string. *)
Record Call : Type := {
  call_ID : string;
  call_WorkspaceID : string;
  call_RequestID : string;
  call_CallerID : string;
  call_CalleeID : string;
  call_TargetType : CallTargetType;
  call_TargetID : string;
  call_Type : CallType;
  call_Status : CallStatus;
  call_Version : Z;
  call_CreatedAt : Time;
  call_UpdatedAt : Time;
  call_ExpiresAt : Time;
  call_AcceptedAt : option Time;
  call_EndedAt : option Time
}.

#[export] Instance Call_eq_dec : EqDecision Call.
Proof. solve_decision. Defined.

Definition IsDirect (c : Call) : bool :=
  (call_TargetType c == CallTargetUser) || ((call_TargetType c == "") && (call_CalleeID c != "")).
Definition IsParticipant (c : Call) (userID : string) : bool :=
  IsDirect c && ((userID == call_CallerID c) || (userID == call_CalleeID c)).
Definition IsResource (c : Call) : bool :=
  (call_TargetType c == CallTargetChannel) || (call_TargetType c == CallTargetDM).

Definition ErrCallParticipantBusy : error := ErrWrap "call participant already in another call" ErrConflict.
Definition ErrCallParticipationStale : error := ErrWrap "call participation is no longer current" ErrConflict.

(** ** The tables *)

(** A participant lease; a lease older than the fencing has no participation. *)
Record Lease : Type := {
  lease_participation : option string;
  lease_expires_at : Time
}.

#[export] Instance Lease_eq_dec : EqDecision Lease.
Proof. solve_decision. Defined.

Record CallDB : Type := {
  calls : gmap string Call;
  leases : gmap (string * string) Lease
}.

Inductive CallWrite : Type :=
| PutCall (c : Call)
| PutLease (callID userID : string) (l : Lease)
| DeleteLease (callID userID : string).

Definition call_apply (db : CallDB) (w : CallWrite) : CallDB :=
  match w with
  | PutCall c => {| calls := <[call_ID c := c]> (calls db); leases := leases db |}
  | PutLease callID userID l => {| calls := calls db; leases := <[(callID, userID) := l]> (leases db) |}
  | DeleteLease callID userID => {| calls := calls db; leases := delete (callID, userID) (leases db) |}
  end.

Definition find_call (p : Call → bool) (db : CallDB) : option Call :=
  head (filter (λ c, p c = true) ((map_to_list (calls db)).*2)).

Definition live_leases (db : CallDB) (now : Time) (callID : string) : bool :=
  existsb (λ kv, (fst (fst kv) == callID) && (now <? lease_expires_at (snd kv))) (map_to_list (leases db)).

(** The two arms of the query that tells whether a participant is in another call. *)
Definition direct_engagement (workspaceID : string) (users : list string) (c : Call) : bool :=
  (call_WorkspaceID c == workspaceID) && (call_TargetType c == "user") &&
  (call_Status c ∈? ["ringing"; "active"]) &&
  ((call_CallerID c ∈? users) || (call_CalleeID c ∈? users)).

Definition lease_engagement (db : CallDB) (now : Time) (workspaceID : string) (users : list string)
    (except : option string) (kv : string * string * Lease) : bool :=
  match calls db !! fst (fst kv) with
  | None => false
  | Some c =>
      (call_WorkspaceID c == workspaceID) && (call_Status c == "active") &&
      (call_TargetType c ∈? ["channel"; "dm"]) && (snd (fst kv) ∈? users) &&
      (now <? lease_expires_at (snd kv)) && negb (Some (call_ID c) == except)
  end.

Definition busy_query (db : CallDB) (now : Time) (workspaceID : string) (users : list string)
    (except : option string) : bool :=
  existsb (direct_engagement workspaceID users) ((map_to_list (calls db)).*2) ||
  existsb (lease_engagement db now workspaceID users except) (map_to_list (leases db)).

(** The checks and unique indexes of [chat.calls]. *)
Definition calls_check (c : Call) : bool :=
  CallType_Valid (call_Type c) && CallStatus_Valid (call_Status c) && (0 <? call_Version c) &&
  (((call_TargetType c == "user") && (call_CalleeID c != "") && (call_TargetID c == call_CalleeID c) &&
    (call_CallerID c != call_CalleeID c)) ||
   ((call_TargetType c ∈? ["channel"; "dm"]) && (call_CalleeID c == ""))).

Definition same_request (workspaceID callerID requestID : string) (c : Call) : bool :=
  (call_WorkspaceID c == workspaceID) && (call_CallerID c == callerID) && (call_RequestID c == requestID).

Definition active_for (workspaceID : string) (targetType : CallTargetType) (targetID : string) (c : Call) : bool :=
  (call_WorkspaceID c == workspaceID) && (call_TargetType c == targetType) && (call_TargetID c == targetID) &&
  (call_Status c == "active").

Definition unique_violation : error := ErrStruct "PgError" "23505" 0 (ErrNew "unique violation").
Definition call_check_violation : error := ErrStruct "PgError" "23514" 0 (ErrNew "check violation").
Definition pgx_ErrNoRows : error := ErrNew "pgx.ErrNoRows".

Definition insert_call (db : CallDB) (c : Call) : result Call * list CallWrite :=
  match calls db !! call_ID c with
  | Some _ => (Fail unique_violation, [])
  | None =>
      if negb (calls_check c) then (Fail call_check_violation, [])
      else match find_call (same_request (call_WorkspaceID c) (call_CallerID c) (call_RequestID c)) db with
           | Some _ => (Fail unique_violation, [])
           | None =>
               if (call_TargetType c ∈? ["channel"; "dm"]) && (call_Status c == "active") &&
                  match find_call (active_for (call_WorkspaceID c) (call_TargetType c) (call_TargetID c)) db with
                  | Some _ => true
                  | None => false
                  end
               then (Fail unique_violation, [])
               else (Ok c, [PutCall c])
           end
  end.

(** The row [updateCallStatus] writes. *)
Definition with_status (c : Call) (status : CallStatus) (now : Time) : Call :=
  {| call_ID := call_ID c; call_WorkspaceID := call_WorkspaceID c; call_RequestID := call_RequestID c;
     call_CallerID := call_CallerID c; call_CalleeID := call_CalleeID c; call_TargetType := call_TargetType c;
     call_TargetID := call_TargetID c; call_Type := call_Type c; call_Status := status;
     call_Version := call_Version c + 1; call_CreatedAt := call_CreatedAt c; call_UpdatedAt := now;
     call_ExpiresAt := call_ExpiresAt c;
     call_AcceptedAt := if status == "active" then Some now else call_AcceptedAt c;
     call_EndedAt := if status ∈? ["declined"; "cancelled"; "timed_out"; "ended"] then Some now else call_EndedAt c |}.

(** ** The statements *)

Record CreateCallInput : Type := {
  cc_WorkspaceID : string;
  cc_RequestID : string;
  cc_CallerID : string;
  cc_CalleeID : string;
  cc_Type : CallType;
  cc_ExpiresAt : Time
}.

Record CreateResourceCallInput : Type := {
  cr_WorkspaceID : string;
  cr_RequestID : string;
  cr_CallerID : string;
  cr_TargetType : CallTargetType;
  cr_TargetID : string;
  cr_Type : CallType;
  cr_ExpiresAt : Time
}.

(** What the two events of a call fill in of a [ConversationEventInput]. *)
Record ConversationEventInput : Type := {
  ce_WorkspaceID : string;
  ce_ActorID : string;
  ce_ChannelID : string;
  ce_DMConversationID : string;
  ce_Event : string;
  ce_CallID : string;
  ce_CallType : string;
  ce_CallDurationSeconds : Z
}.

(** What the environment of a statement contributes: a failure, whether a failing
    commit took effect, [gen_random_uuid()], the active members of a workspace,
    who may reach a call target, and the message an event was written to. *)
Record CallEnv : Type := {
  e_fault : option error;
  e_lost : bool;
  e_newID : string;
  e_member : string → string → bool;
  e_authorized : string → string → CallTargetType → string → bool;
  e_event : string
}.

Inductive CallStmt : Type → Type :=
| BeginTx : CallStmt unit
| AdvisoryLock (key : string) : CallStmt unit
| SelectByRequest (workspaceID callerID requestID : string) : CallStmt (option Call)
| CountMembers (workspaceID callerID calleeID : string) : CallStmt Z
| SelectBusy (workspaceID : string) (users : list string) (except : option string) : CallStmt bool
| InsertDirect (input : CreateCallInput) : CallStmt Call
| SelectActiveForUpdate (workspaceID : string) (targetType : CallTargetType) (targetID : string) : CallStmt (option Call)
| InsertResource (input : CreateResourceCallInput) : CallStmt Call
| SelectAuthorized (workspaceID actorID : string) (targetType : CallTargetType) (targetID : string) : CallStmt bool
| SelectParticipation (callID userID : string) : CallStmt (option (option string))
| UpsertLease (callID userID participationID : string) (expiresAt : Time) : CallStmt unit
| RenewLease (callID userID : string) (fence : option string) (expiresAt : Time) : CallStmt (option bool)
| ReleaseLease (callID userID : string) (fence : option string) : CallStmt bool
| SelectCallForUpdate (workspaceID callID : string) : CallStmt (option Call)
| SelectCallForShare (workspaceID callID : string) : CallStmt (option Call)
| SelectRemaining (callID : string) : CallStmt bool
| SelectLeaseholders (callID : string) : CallStmt (list string)
| SelectClock : CallStmt Time
| UpdateStatus (callID : string) (status : CallStatus) : CallStmt Call
| InsertEvent (input : ConversationEventInput) : CallStmt string
| SweepScan : CallStmt CallDB
| SweepUpdate (snapshot : CallDB) (limit : Z) : CallStmt (list Call).

Definition call_row (db : CallDB) (workspaceID callID : string) : option Call :=
  match calls db !! callID with
  | Some c => if call_WorkspaceID c == workspaceID then Some c else None
  | None => None
  end.

(** A new row, with the defaults of the table. *)
Definition direct_row (env : CallEnv) (now : Time) (input : CreateCallInput) : Call :=
  {| call_ID := e_newID env; call_WorkspaceID := cc_WorkspaceID input; call_RequestID := cc_RequestID input;
     call_CallerID := cc_CallerID input; call_CalleeID := cc_CalleeID input; call_TargetType := "user";
     call_TargetID := cc_CalleeID input; call_Type := cc_Type input; call_Status := "ringing";
     call_Version := 1; call_CreatedAt := now; call_UpdatedAt := now; call_ExpiresAt := cc_ExpiresAt input;
     call_AcceptedAt := None; call_EndedAt := None |}.

Definition resource_row (env : CallEnv) (now : Time) (input : CreateResourceCallInput) : Call :=
  {| call_ID := e_newID env; call_WorkspaceID := cr_WorkspaceID input; call_RequestID := cr_RequestID input;
     call_CallerID := cr_CallerID input; call_CalleeID := ""; call_TargetType := cr_TargetType input;
     call_TargetID := cr_TargetID input; call_Type := cr_Type input; call_Status := "active";
     call_Version := 1; call_CreatedAt := now; call_UpdatedAt := now; call_ExpiresAt := cr_ExpiresAt input;
     call_AcceptedAt := Some now; call_EndedAt := None |}.

(** The condition of the sweep on a row, the leases being those of its snapshot. *)
Definition sweep_due (snapshot : CallDB) (now : Time) (c : Call) : bool :=
  ((call_Status c == "ringing") && (call_ExpiresAt c <=? now)) ||
  ((call_Status c == "active") && (call_TargetType c ∈? ["channel"; "dm"]) &&
   negb (live_leases snapshot now (call_ID c))).

Definition sweep_le (c c' : Call) : Prop :=
  call_UpdatedAt c < call_UpdatedAt c' ∨
  (call_UpdatedAt c = call_UpdatedAt c' ∧ String.le (call_ID c) (call_ID c')).
#[export] Instance sweep_le_dec c c' : Decision (sweep_le c c').
Proof. unfold sweep_le. apply _. Defined.

Definition newest_first (c c' : Call) : Prop := call_CreatedAt c' <= call_CreatedAt c.
#[export] Instance newest_first_dec c c' : Decision (newest_first c c').
Proof. unfold newest_first. apply _. Defined.

Definition sweep_next (c : Call) : CallStatus := if call_Status c == "ringing" then "timed_out" else "ended".

(** [SKIP LOCKED], and the row as it is once locked: a row that was written since the
    snapshot is tested again, one that was only locked is not. *)
Definition sweep_lockable (locked : string → bool) (snapshot : CallDB) (now : Time) (db : CallDB) (c : Call)
    : option Call :=
  if locked (call_ID c) then None
  else match calls db !! call_ID c with
       | None => None
       | Some c' => if (c' == c) || sweep_due snapshot now c' then Some c' else None
       end.

Definition sweep_rows (locked : string → bool) (snapshot : CallDB) (limit : Z) (now : Time) (db : CallDB)
    : list Call :=
  take (Z.to_nat limit)
    (omap (sweep_lockable locked snapshot now db)
      (merge_sort sweep_le (filter (λ c, sweep_due snapshot now c = true) ((map_to_list (calls snapshot)).*2)))).

(** [hashtextextended(key, 0)], which numbers the advisory locks. *)
Class AdvisoryHash : Type := hashtextextended : string → Z.

Section Store.
Context {advisory : AdvisoryHash}.

Definition row_locked (others : list Lock) (id : string) : bool :=
  existsb (λ l, match l with LockRow id' | LockShare id' => id == id' | LockKey _ => false end) others.

Definition call_request {B} (s : CallStmt B) (env : CallEnv) (others : list Lock) (now : Time) (db : CallDB)
    : list Lock :=
  match s with
  | AdvisoryLock key => [LockKey key]
  | InsertDirect _ | InsertResource _ => [LockRow (e_newID env)]
  | SelectActiveForUpdate workspaceID targetType targetID =>
      match find_call (active_for workspaceID targetType targetID) db with
      | Some c => [LockRow (call_ID c)]
      | None => []
      end
  | SelectCallForUpdate workspaceID callID =>
      match call_row db workspaceID callID with Some c => [LockRow (call_ID c)] | None => [] end
  | SelectCallForShare workspaceID callID =>
      match call_row db workspaceID callID with Some c => [LockShare (call_ID c)] | None => [] end
  | UpdateStatus callID _ => [LockRow callID]
  | SweepUpdate snapshot limit =>
      (λ c, LockRow (call_ID c)) <$> sweep_rows (row_locked others) snapshot limit now db
  | _ => []
  end.

Definition call_exec {B} (s : CallStmt B) (env : CallEnv) (others : list Lock) (now : Time) (db : CallDB)
    : result B * list CallWrite :=
  match s in CallStmt B return result B * list CallWrite with
  | BeginTx => (Ok tt, [])
  | AdvisoryLock _ => (Ok tt, [])
  | SelectByRequest workspaceID callerID requestID =>
      (Ok (find_call (same_request workspaceID callerID requestID) db), [])
  | CountMembers workspaceID callerID calleeID =>
      (Ok (Z.of_nat (length (filter (λ u, e_member env workspaceID u = true)
                               (remove_dups [callerID; calleeID])))), [])
  | SelectBusy workspaceID users except => (Ok (busy_query db now workspaceID users except), [])
  | InsertDirect input => insert_call db (direct_row env now input)
  | SelectActiveForUpdate workspaceID targetType targetID =>
      (Ok (find_call (active_for workspaceID targetType targetID) db), [])
  | InsertResource input => insert_call db (resource_row env now input)
  | SelectAuthorized workspaceID actorID targetType targetID =>
      (Ok (e_authorized env workspaceID actorID targetType targetID), [])
  | SelectParticipation callID userID => (Ok (lease_participation <$> leases db !! (callID, userID)), [])
  | UpsertLease callID userID participationID expiresAt =>
      (Ok tt, [PutLease callID userID {| lease_participation := Some participationID; lease_expires_at := expiresAt |}])
  | RenewLease callID userID fence expiresAt =>
      match leases db !! (callID, userID) with
      | Some l =>
          if lease_participation l == fence
          then (Ok (Some (lease_expires_at l <=? now)),
                [PutLease callID userID {| lease_participation := fence; lease_expires_at := expiresAt |}])
          else (Ok None, [])
      | None => (Ok None, [])
      end
  | ReleaseLease callID userID fence =>
      match leases db !! (callID, userID) with
      | Some l => if lease_participation l == fence then (Ok true, [DeleteLease callID userID]) else (Ok false, [])
      | None => (Ok false, [])
      end
  | SelectCallForUpdate workspaceID callID => (Ok (call_row db workspaceID callID), [])
  | SelectCallForShare workspaceID callID => (Ok (call_row db workspaceID callID), [])
  | SelectRemaining callID => (Ok (live_leases db now callID), [])
  | SelectLeaseholders callID =>
      (Ok (snd <$> filter (λ k, fst k = callID) ((map_to_list (leases db)).*1)), [])
  | SelectClock => (Ok now, [])
  | UpdateStatus callID status =>
      match calls db !! callID with
      | Some c => let c' := with_status c status now in (Ok c', [PutCall c'])
      | None => (Fail pgx_ErrNoRows, [])
      end
  | InsertEvent _ => (Ok (e_event env), [])
  | SweepScan => (Ok db, [])
  | SweepUpdate snapshot limit =>
      let rows := (λ c, with_status c (sweep_next c) now) <$> sweep_rows (row_locked others) snapshot limit now db in
      (Ok rows, PutCall <$> rows)
  end.

#[export] Instance call_store : Store := {|
  DB := CallDB; Write := CallWrite; Env := CallEnv; Stmt := CallStmt; hash := hashtextextended;
  env_fault := e_fault; env_lost := e_lost; apply_write := call_apply;
  request := @call_request; exec := @call_exec
|}.
End Store.

(** ** The operations of the store *)

Section Operations.
Context {advisory : AdvisoryHash}.

Definition query {B} (s : CallStmt B) : Tx (result B) := Do (store := call_store) s Return.
(** [tx.Commit], and [commitAnnounced] when users are given: the announcement opens
    before the commit, and its failure is a failure to commit. *)
Definition commit (announce : list string) : Tx (result unit) := Commit announce Return.

#[local] Instance tx_mbind : MBind Tx := λ A B f t, tx_bind t f.

(** [if err != nil { return fail(err) }], around the rest of an operation. *)
Notation "'try!' x ':=' t 'else' err '=>' e ';;' k" :=
  (tx_bind t (λ r, match r with Ok x => k | Fail err => Return e end))
  (at level 100, x pattern, t at level 99, err name, e at level 99, k at level 200, right associativity).

Fixpoint lockSorted (keys : list string) : Tx (result unit) :=
  match keys with
  | [] => Return (Ok tt)
  | key :: keys =>
      try! _ := query (AdvisoryLock key) else err => Fail (ErrWrap "lock call participant" err) ;;
      lockSorted keys
  end.

Definition lockCallKeys (keys : list string) : Tx (result unit) := lockSorted (merge_sort String.le keys).

Definition CreateCall (input : CreateCallInput) : Tx (result (Call * bool)) :=
  try! _ := query BeginTx else err => Fail (ErrWrap "begin create call" err) ;;
  try! _ := lockCallKeys [cc_CallerID input; cc_CalleeID input] else err => Fail err ;;
  try! existing := query (SelectByRequest (cc_WorkspaceID input) (cc_CallerID input) (cc_RequestID input))
    else err => Fail (ErrWrap "find idempotent call" err) ;;
  match existing with
  | Some existing =>
      if (call_CalleeID existing != cc_CalleeID input) || (call_Type existing != cc_Type input)
      then Return (Fail ErrConflict)
      else
        try! _ := commit [] else err => Fail (ErrWrap "commit idempotent call create" err) ;;
        Return (Ok (existing, false))
  | None =>
      try! memberCount := query (CountMembers (cc_WorkspaceID input) (cc_CallerID input) (cc_CalleeID input))
        else err => Fail (ErrWrap "authorize call participants" err) ;;
      if memberCount != 2 then Return (Fail ErrForbidden)
      else
        try! busy := query (SelectBusy (cc_WorkspaceID input) [cc_CallerID input; cc_CalleeID input] None)
          else err => Fail (ErrWrap "check active calls" err) ;;
        if (busy : bool) then Return (Fail ErrCallParticipantBusy)
        else
          try! call := query (InsertDirect input) else err => Fail (ErrWrap "insert call" err) ;;
          try! _ := commit [] else err => Fail (ErrWrap "commit call create" err) ;;
          Return (Ok (call, true))
  end.

Definition authorizeResourceTarget (workspaceID actorID : string) (targetType : CallTargetType) (targetID : string)
    : Tx (result bool) :=
  if (targetType == CallTargetChannel) || (targetType == CallTargetDM) then
    try! authorized := query (SelectAuthorized workspaceID actorID targetType targetID)
      else err => Fail (ErrWrap "authorize call resource" err) ;;
    Return (Ok authorized)
  else Return (Fail ErrInvalidInput).

Definition callParticipantBusy (workspaceID actorID exceptCallID : string) : Tx (result bool) :=
  try! busy := query (SelectBusy workspaceID [actorID] (Some exceptCallID))
    else err => Fail (ErrWrap "check active calls" err) ;;
  Return (Ok busy).

(** [participationID] is what [uuid.NewString] answers. *)
Definition admitCallPresence (participationID callID actorID : string) (expiresAt : Time) : Tx (result string) :=
  try! _ := query (UpsertLease callID actorID participationID expiresAt)
    else err => Fail (ErrWrap "admit call presence" err) ;;
  Return (Ok participationID).

Definition currentParticipationID (callID actorID : string) : Tx (result string) :=
  try! participationID := query (SelectParticipation callID actorID)
    else err => Fail (ErrWrap "read current participation id" err) ;;
  Return (Ok match participationID with Some p => default "" p | None => "" end).

Definition call_event (event workspaceID : string) (call : Call) (duration : Z) : option ConversationEventInput :=
  let input channel dm :=
    {| ce_WorkspaceID := workspaceID; ce_ActorID := call_CallerID call; ce_ChannelID := channel;
       ce_DMConversationID := dm; ce_Event := event; ce_CallID := call_ID call; ce_CallType := call_Type call;
       ce_CallDurationSeconds := duration |} in
  if call_TargetType call == CallTargetChannel then Some (input (call_TargetID call) "")
  else if call_TargetType call == CallTargetDM then Some (input "" (call_TargetID call))
  else None.

Definition insertCallEndedEvent (workspaceID : string) (call : Call) : Tx (result string) :=
  let duration := match call_AcceptedAt call, call_EndedAt call with
                  | Some accepted, Some ended => Z.quot (time_Sub ended accepted) Second
                  | _, _ => 0
                  end in
  match call_event "call_ended" workspaceID call duration with
  | None => Return (Ok "")
  | Some input =>
      try! id := query (InsertEvent input) else err => Fail (ErrWrap "insert conversation event" err) ;;
      Return (Ok id)
  end.

Definition insertCallStartedEvent (workspaceID : string) (call : Call) : Tx (result string) :=
  match call_event "call_started" workspaceID call 0 with
  | None => Return (Ok "")
  | Some input =>
      try! id := query (InsertEvent input) else err => Fail (ErrWrap "insert conversation event" err) ;;
      Return (Ok id)
  end.

Definition CreateResourceCall (participationID : string) (input : CreateResourceCallInput)
    : Tx (result (Call * bool * string * string)) :=
  try! _ := query BeginTx else err => Fail (ErrWrap "begin create resource call" err) ;;
  let lockKey := cr_WorkspaceID input +:+ ":" +:+ cr_TargetType input +:+ ":" +:+ cr_TargetID input in
  try! _ := lockCallKeys [lockKey; cr_CallerID input] else err => Fail err ;;
  try! existing := query (SelectByRequest (cr_WorkspaceID input) (cr_CallerID input) (cr_RequestID input))
    else err => Fail (ErrWrap "find idempotent resource call" err) ;;
  match existing with
  | Some existing =>
      if (call_TargetType existing != cr_TargetType input) || (call_TargetID existing != cr_TargetID input) ||
         (call_Type existing != cr_Type input)
      then Return (Fail ErrConflict)
      else
        try! replayParticipationID := currentParticipationID (call_ID existing) (cr_CallerID input)
          else err => Fail err ;;
        if replayParticipationID == "" then Return (Fail ErrCallParticipationStale)
        else
          try! _ := commit [] else err => Fail (ErrWrap "commit idempotent resource call" err) ;;
          Return (Ok (existing, false, replayParticipationID, ""))
  | None =>
      try! authorized := authorizeResourceTarget (cr_WorkspaceID input) (cr_CallerID input) (cr_TargetType input)
                           (cr_TargetID input) else err => Fail err ;;
      if negb authorized then Return (Fail ErrForbidden)
      else
        try! found := query (SelectActiveForUpdate (cr_WorkspaceID input) (cr_TargetType input) (cr_TargetID input))
          else err => Fail (ErrWrap "find active resource call" err) ;;
        let justCreated := match found with Some _ => false | None => true end in
        try! active := match found with Some active => Return (Ok active) | None => query (InsertResource input) end
          else err => Fail (ErrWrap "insert resource call" err) ;;
        try! busy := callParticipantBusy (cr_WorkspaceID input) (cr_CallerID input) (call_ID active)
          else err => Fail err ;;
        if (busy : bool) then Return (Fail ErrCallParticipantBusy)
        else
          try! participationID := admitCallPresence participationID (call_ID active) (cr_CallerID input)
                                    (cr_ExpiresAt input) else err => Fail err ;;
          try! eventMessageID := (if justCreated then insertCallStartedEvent (cr_WorkspaceID input) active
                                  else Return (Ok "")) else err => Fail err ;;
          try! _ := commit [cr_CallerID input] else err => Fail (ErrWrap "commit resource call" err) ;;
          Return (Ok (active,
                      (call_RequestID active == cr_RequestID input) && (call_CallerID active == cr_CallerID input),
                      participationID, eventMessageID))
  end.

Record RenewCallPresenceInput : Type := {
  rp_WorkspaceID : string;
  rp_CallID : string;
  rp_ActorID : string;
  rp_ExpiresAt : Time;
  rp_ParticipationID : string
}.

Inductive leaseRenewal : Type := leaseNotRenewed | leaseExtended | leaseRevived.

Definition moved (r : leaseRenewal) (actorID : string) : list string :=
  match r with leaseRevived => [actorID] | _ => [] end.

Definition fence_of (participationID : string) : option string :=
  if participationID != "" then Some participationID else None.

Definition renewCallPresenceFenced (callID actorID participationID : string) (expiresAt : Time)
    : Tx (result leaseRenewal) :=
  try! lapsed := query (RenewLease callID actorID (fence_of participationID) expiresAt)
    else err => Fail (ErrWrap "renew call presence" err) ;;
  Return (Ok match lapsed with None => leaseNotRenewed | Some true => leaseRevived | Some false => leaseExtended end).

Definition RenewCallPresence (input : RenewCallPresenceInput) : Tx (result unit) :=
  try! _ := query BeginTx else err => Fail (ErrWrap "begin call presence" err) ;;
  try! _ := lockCallKeys [rp_ActorID input] else err => Fail err ;;
  try! row := query (SelectCallForShare (rp_WorkspaceID input) (rp_CallID input))
    else err => Fail (ErrWrap "read call presence target" err) ;;
  match row with
  | None => Return (Fail ErrNotFound)
  | Some call =>
      if negb (IsResource call) || (call_Status call != CallStatusActive) then Return (Fail ErrNotFound)
      else
        try! authorized := authorizeResourceTarget (rp_WorkspaceID input) (rp_ActorID input) (call_TargetType call)
                             (call_TargetID call) else err => Fail err ;;
        if negb authorized then Return (Fail ErrNotFound)
        else
          try! busy := callParticipantBusy (rp_WorkspaceID input) (rp_ActorID input) (call_ID call)
            else err => Fail err ;;
          if (busy : bool) then Return (Fail ErrCallParticipantBusy)
          else
            try! renewal := renewCallPresenceFenced (call_ID call) (rp_ActorID input) (rp_ParticipationID input)
                              (rp_ExpiresAt input) else err => Fail err ;;
            match renewal with
            | leaseNotRenewed => Return (Fail ErrCallParticipationStale)
            | _ =>
                try! _ := commit (moved renewal (rp_ActorID input)) else err => Fail (ErrWrap "commit call presence" err) ;;
                Return (Ok tt)
            end
  end.

Record JoinResourceCallInput : Type := {
  jr_WorkspaceID : string;
  jr_CallID : string;
  jr_ActorID : string;
  jr_TargetType : CallTargetType;
  jr_TargetID : string;
  jr_ExpiresAt : Time
}.

Definition JoinResourceCall (participationID : string) (input : JoinResourceCallInput) : Tx (result (Call * string)) :=
  try! _ := query BeginTx else err => Fail (ErrWrap "begin join resource call" err) ;;
  try! _ := lockCallKeys [jr_ActorID input] else err => Fail err ;;
  try! row := query (SelectCallForUpdate (jr_WorkspaceID input) (jr_CallID input))
    else err => Fail (ErrWrap "lock call for join" err) ;;
  match row with
  | None => Return (Fail ErrNotFound)
  | Some call =>
      if negb (IsResource call) then Return (Fail ErrNotFound)
      else if (call_TargetType call != jr_TargetType input) || (call_TargetID call != jr_TargetID input)
      then Return (Fail ErrNotFound)
      else if call_Status call != CallStatusActive then Return (Fail ErrConflict)
      else
        try! authorized := authorizeResourceTarget (jr_WorkspaceID input) (jr_ActorID input) (call_TargetType call)
                             (call_TargetID call) else err => Fail err ;;
        if negb authorized then Return (Fail ErrNotFound)
        else
          try! busy := callParticipantBusy (jr_WorkspaceID input) (jr_ActorID input) (call_ID call)
            else err => Fail err ;;
          if (busy : bool) then Return (Fail ErrCallParticipantBusy)
          else
            try! participationID := admitCallPresence participationID (call_ID call) (jr_ActorID input)
                                      (jr_ExpiresAt input) else err => Fail err ;;
            try! _ := commit [jr_ActorID input] else err => Fail (ErrWrap "commit join resource call" err) ;;
            Return (Ok (call, participationID))
  end.

Record TransitionCallResult : Type := {
  tr_Call : option Call;
  tr_Changed : bool;
  tr_TimedOut : bool;
  tr_Released : bool;
  tr_EventMessageID : string
}.

(** [TransitionCallResult{}], whose call is the zero one. *)
Definition no_transition : TransitionCallResult :=
  {| tr_Call := None; tr_Changed := false; tr_TimedOut := false; tr_Released := false; tr_EventMessageID := "" |}.

Record LeaveResourceCallInput : Type := {
  lr_WorkspaceID : string;
  lr_CallID : string;
  lr_ActorID : string;
  lr_ParticipationID : string
}.

Definition updateCallStatus (callID : string) (status : CallStatus) : Tx (result Call) :=
  try! call := query (UpdateStatus callID status) else err => Fail (ErrWrap "update call status" err) ;;
  Return (Ok call).

Definition released (call : Call) (changed : bool) : TransitionCallResult :=
  {| tr_Call := Some call; tr_Changed := changed; tr_TimedOut := false; tr_Released := true; tr_EventMessageID := "" |}.

Definition unchanged (call : Call) : TransitionCallResult :=
  {| tr_Call := Some call; tr_Changed := false; tr_TimedOut := false; tr_Released := false; tr_EventMessageID := "" |}.

Definition LeaveResourceCall (input : LeaveResourceCallInput) : Tx (TransitionCallResult * option error) :=
  let fail err := (no_transition, Some err) in
  try! _ := query BeginTx else err => fail (ErrWrap "begin call leave" err) ;;
  try! _ := lockCallKeys [lr_ActorID input] else err => fail err ;;
  try! row := query (SelectCallForUpdate (lr_WorkspaceID input) (lr_CallID input))
    else err => fail (ErrWrap "lock call for leave" err) ;;
  match row with
  | None => Return (fail ErrNotFound)
  | Some call =>
      if negb (IsResource call) then Return (fail ErrNotFound)
      else
        try! hadLease := query (ReleaseLease (call_ID call) (lr_ActorID input) (fence_of (lr_ParticipationID input)))
          else err => fail (ErrWrap "release call participant lease" err) ;;
        if negb hadLease then
          try! authorized := authorizeResourceTarget (lr_WorkspaceID input) (lr_ActorID input) (call_TargetType call)
                               (call_TargetID call) else err => fail err ;;
          if negb authorized then Return (fail ErrNotFound)
          else
            try! _ := commit [] else err => fail (ErrWrap "commit call leave" err) ;;
            Return (unchanged call, None)
        else if call_Status call != CallStatusActive then
          try! _ := commit [lr_ActorID input] else err => fail (ErrWrap "commit call leave" err) ;;
          Return (released call false, None)
        else
          try! remaining := query (SelectRemaining (call_ID call))
            else err => fail (ErrWrap "check remaining call participants" err) ;;
          if (remaining : bool) then
            try! _ := commit [lr_ActorID input] else err => fail (ErrWrap "commit call leave" err) ;;
            Return (released call false, None)
          else
            try! ended := updateCallStatus (call_ID call) CallStatusEnded else err => fail err ;;
            try! _ := commit [lr_ActorID input] else err => fail (ErrWrap "commit call leave" err) ;;
            Return (released ended true, None)
  end.

Abbreviation CallAction := string (only parsing).
Definition CallActionAccept : CallAction := "accept".
Definition CallActionDecline : CallAction := "decline".
Definition CallActionCancel : CallAction := "cancel".
Definition CallActionEnd : CallAction := "end".

Record TransitionCallInput : Type := {
  tc_WorkspaceID : string;
  tc_CallID : string;
  tc_ActorID : string;
  tc_Action : CallAction
}.

Definition authorizeCallTransition (call : Call) (actorID : string) (action : CallAction)
    : result (CallStatus * bool) :=
  if IsResource call then
    if (action != CallActionEnd) || (actorID != call_CallerID call) then Fail ErrNotFound
    else if call_Status call == CallStatusEnded then Ok (CallStatusEnded, true)
    else if call_Status call != CallStatusActive then Fail ErrConflict
    else Ok (CallStatusEnded, false)
  else
    let decide requiredActor from to :=
      if (requiredActor != "") && (actorID != requiredActor) then Fail ErrNotFound
      else if call_Status call == to then Ok (to, true)
      else if call_Status call != from then Fail ErrConflict
      else Ok (to, false) in
    if action == CallActionAccept then decide (call_CalleeID call) CallStatusRinging CallStatusActive
    else if action == CallActionDecline then decide (call_CalleeID call) CallStatusRinging CallStatusDeclined
    else if action == CallActionCancel then decide (call_CallerID call) CallStatusRinging CallStatusCancelled
    else if action == CallActionEnd then decide "" CallStatusActive CallStatusEnded
    else Fail ErrInvalidInput.

Definition participationChangedBy (call : Call) (next : CallStatus) : Tx (result (list string)) :=
  if (call_Status call != CallStatusActive) && (next != CallStatusActive) then Return (Ok [])
  else if negb (IsResource call) then Return (Ok [call_CallerID call; call_CalleeID call])
  else
    try! users := query (SelectLeaseholders (call_ID call)) else err => Fail (ErrWrap "read call participants" err) ;;
    Return (Ok users).

Definition commitTransition (call : Call) (next : CallStatus) : Tx (result unit) :=
  try! affected := participationChangedBy call next else err => Fail err ;;
  commit affected.

(** The clock is read only for a call that rings; [time.Time{}] otherwise. *)
Definition TransitionCall (input : TransitionCallInput) : Tx (TransitionCallResult * option error) :=
  let fail err := (no_transition, Some err) in
  try! _ := query BeginTx else err => fail (ErrWrap "begin call transition" err) ;;
  try! row := query (SelectCallForUpdate (tc_WorkspaceID input) (tc_CallID input))
    else err => fail (ErrWrap "lock call" err) ;;
  match row with
  | None => Return (fail ErrNotFound)
  | Some call =>
      if (IsResource call && (call_CallerID call != tc_ActorID input)) ||
         (negb (IsResource call) && negb (IsParticipant call (tc_ActorID input)))
      then Return (fail ErrNotFound)
      else
        try! databaseNow := (if call_Status call == CallStatusRinging then query SelectClock
                             else Return (Ok time_zero)) else err => fail (ErrWrap "read database clock" err) ;;
        if (call_Status call == CallStatusRinging) && negb (time_After (call_ExpiresAt call) databaseNow) then
          try! expired := updateCallStatus (call_ID call) CallStatusTimedOut else err => fail err ;;
          try! _ := commit [] else err => fail (ErrWrap "commit call timeout" err) ;;
          Return ({| tr_Call := Some expired; tr_Changed := true; tr_TimedOut := true; tr_Released := false;
                     tr_EventMessageID := "" |}, Some ErrConflict)
        else
          match authorizeCallTransition call (tc_ActorID input) (tc_Action input) with
          | Fail err => Return (fail err)
          | Ok (_, true) =>
              try! _ := commit [] else err => fail (ErrWrap "commit idempotent call transition" err) ;;
              Return (unchanged call, None)
          | Ok (next, false) =>
              try! updated := updateCallStatus (call_ID call) next else err => fail err ;;
              try! eventMessageID := (if IsResource call then insertCallEndedEvent (tc_WorkspaceID input) updated
                                      else Return (Ok "")) else err => fail err ;;
              try! _ := commitTransition call next else err => fail (ErrWrap "commit call transition" err) ;;
              Return ({| tr_Call := Some updated; tr_Changed := true; tr_TimedOut := false; tr_Released := false;
                         tr_EventMessageID := eventMessageID |}, None)
          end
  end.

(** One statement, which commits by itself: the snapshot it scans and the moment it
    locks its rows are two instants. *)
Definition ExpireDueCalls (limit : Z) : Tx (result (list Call)) :=
  try! snapshot := query SweepScan else err => Fail (ErrWrap "expire due calls" err) ;;
  try! rows := query (SweepUpdate snapshot limit) else err => Fail (ErrWrap "expire due calls" err) ;;
  try! _ := commit [] else err => Fail (ErrWrap "iterate expired calls" err) ;;
  Return (Ok rows).

(** The two reads, each one statement. *)
Definition CurrentCallForUser (env : CallEnv) (db : CallDB) (workspaceID userID callID : string) : result Call :=
  let ongoing c := call_Status c ∈? ["ringing"; "active"] in
  let rows := (map_to_list (calls db)).*2 in
  let found :=
    if callID != "" then
      find_call (λ c, (call_WorkspaceID c == workspaceID) && (call_ID c == callID) && ongoing c &&
        (((call_TargetType c == "user") && ((call_CallerID c == userID) || (call_CalleeID c == userID))) ||
         ((call_TargetType c ∈? ["channel"; "dm"]) &&
          e_authorized env workspaceID userID (call_TargetType c) (call_TargetID c)))) db
    else
      head (merge_sort newest_first (filter (λ c, (call_WorkspaceID c == workspaceID) && ongoing c &&
        ((call_CallerID c == userID) || ((call_TargetType c == "user") && (call_CalleeID c == userID))) = true) rows)) in
  match e_fault env with
  | Some err => Fail (ErrWrap "get current call" err)
  | None => match found with Some c => Ok c | None => Fail ErrNotFound end
  end.

Record ActiveResourceCallResult : Type := {
  ar_Call : option Call;
  ar_Authorized : bool;
  ar_ObservedAt : Time
}.

Definition ActiveResourceCall (env : CallEnv) (now : Time) (db : CallDB) (workspaceID actorID : string)
    (targetType : CallTargetType) (targetID : string) : result ActiveResourceCallResult :=
  if (targetType == CallTargetChannel) || (targetType == CallTargetDM) then
    match e_fault env with
    | Some err => Fail (ErrWrap "check active resource call" err)
    | None =>
        let authorized := e_authorized env workspaceID actorID targetType targetID in
        Ok {| ar_Call := if authorized then find_call (active_for workspaceID targetType targetID) db else None;
              ar_Authorized := authorized; ar_ObservedAt := now |}
    end
  else Fail ErrInvalidInput.

(** ** service/call_service.go *)

(** What the publisher is told, in order. *)
Inductive CallEvent : Type :=
| PublishCall (call : Call)
| PublishConversationEvent (workspaceID targetType targetID messageID : string).

Record StartCallInput : Type := {
  sc_WorkspaceID : string;
  sc_RequestID : string;
  sc_CallerID : string;
  sc_CalleeID : string;
  sc_TargetType : CallTargetType;
  sc_TargetID : string;
  sc_Type : CallType
}.

Record JoinCallInput : Type := {
  jc_WorkspaceID : string;
  jc_ActorID : string;
  jc_CallID : string;
  jc_TargetType : CallTargetType;
  jc_TargetID : string
}.

(** The service has a store; [timeout] and [now] are its fields, [now] the instant its
    clock answers, and [publisher] tells whether it has one. [uuid_Parse] is
    [uuid.Parse] followed by [String]. *)
Context (uuid_Parse : string → option string) (timeout : Duration) (now : Time) (publisher : bool).

Definition canonicalUUID (value : string) : option string := uuid_Parse value.

Definition canonicalParticipationID (value : string) : option string :=
  if value == "" then Some "" else canonicalUUID value.

Definition publish (call : option Call) : list CallEvent :=
  match call with Some call => if publisher then [PublishCall call] else [] | None => [] end.

Definition publishConversationEvent (workspaceID targetType targetID messageID : string) : list CallEvent :=
  if negb publisher || (messageID == "") then []
  else [PublishConversationEvent workspaceID targetType targetID messageID].

Definition expiry : Time := time_Add now timeout.

Definition Start (participationID : string) (input : StartCallInput) : Tx (result (Call * string) * list CallEvent) :=
  let invalid := Return (Fail ErrInvalidInput, []) in
  match canonicalUUID (sc_WorkspaceID input), canonicalUUID (sc_RequestID input), canonicalUUID (sc_CallerID input) with
  | Some workspaceID, Some requestID, Some callerID =>
      if negb (CallType_Valid (sc_Type input)) || (timeout <=? 0) then invalid
      else if sc_CalleeID input == "" then
        if (sc_TargetType input != CallTargetChannel) && (sc_TargetType input != CallTargetDM) then invalid
        else match canonicalUUID (sc_TargetID input) with
             | None => invalid
             | Some targetID =>
                 created ← CreateResourceCall participationID
                   {| cr_WorkspaceID := workspaceID; cr_RequestID := requestID; cr_CallerID := callerID;
                      cr_TargetType := sc_TargetType input; cr_TargetID := targetID; cr_Type := sc_Type input;
                      cr_ExpiresAt := expiry |};
                 match created with
                 | Fail err => Return (Fail err, [])
                 | Ok (call, created, participationID, eventMessageID) =>
                     Return (Ok (call, participationID),
                       (if created || (call_Status call == CallStatusActive) then publish (Some call) else []) ++
                       publishConversationEvent workspaceID (call_TargetType call) (call_TargetID call) eventMessageID)
                 end
             end
      else if (sc_TargetType input != "") || (sc_TargetID input != "") then invalid
      else match canonicalUUID (sc_CalleeID input) with
           | None => invalid
           | Some calleeID =>
               if callerID == calleeID then invalid
               else
                 created ← CreateCall
                   {| cc_WorkspaceID := workspaceID; cc_RequestID := requestID; cc_CallerID := callerID;
                      cc_CalleeID := calleeID; cc_Type := sc_Type input; cc_ExpiresAt := expiry |};
                 match created with
                 | Fail err => Return (Fail err, [])
                 | Ok (call, created) => Return (Ok (call, ""), if (created : bool) then publish (Some call) else [])
                 end
           end
  | _, _, _ => invalid
  end.

Definition Presence (workspaceID actorID callID participationID : string) : Tx (result unit) :=
  match canonicalUUID workspaceID, canonicalUUID actorID, canonicalUUID callID,
        canonicalParticipationID participationID with
  | Some workspaceID, Some actorID, Some callID, Some participationID =>
      if timeout <=? 0 then Return (Fail ErrInvalidInput)
      else RenewCallPresence {| rp_WorkspaceID := workspaceID; rp_CallID := callID; rp_ActorID := actorID;
                                rp_ExpiresAt := expiry; rp_ParticipationID := participationID |}
  | _, _, _, _ => Return (Fail ErrInvalidInput)
  end.

Definition transition (workspaceID actorID callID : string) (action : CallAction)
    : Tx (option Call * option error * list CallEvent) :=
  match canonicalUUID workspaceID, canonicalUUID actorID, canonicalUUID callID with
  | Some workspaceID, Some actorID, Some callID =>
      '(result, err) ← TransitionCall {| tc_WorkspaceID := workspaceID; tc_CallID := callID; tc_ActorID := actorID;
                                         tc_Action := action |};
      Return (tr_Call result, err,
        (if tr_Changed result then publish (tr_Call result) else []) ++
        match tr_Call result with
        | Some call => publishConversationEvent workspaceID (call_TargetType call) (call_TargetID call)
                         (tr_EventMessageID result)
        | None => publishConversationEvent workspaceID "" "" (tr_EventMessageID result)
        end)
  | _, _, _ => Return (None, Some ErrInvalidInput, [])
  end.

Definition Accept (workspaceID actorID callID : string) := transition workspaceID actorID callID CallActionAccept.
Definition Decline (workspaceID actorID callID : string) := transition workspaceID actorID callID CallActionDecline.
Definition Cancel (workspaceID actorID callID : string) := transition workspaceID actorID callID CallActionCancel.
Definition End_ (workspaceID actorID callID : string) := transition workspaceID actorID callID CallActionEnd.

Definition Leave (workspaceID actorID callID participationID : string)
    : Tx (option Call * bool * option error * list CallEvent) :=
  match canonicalUUID workspaceID, canonicalUUID actorID, canonicalUUID callID,
        canonicalParticipationID participationID with
  | Some workspaceID, Some actorID, Some callID, Some participationID =>
      '(result, err) ← LeaveResourceCall {| lr_WorkspaceID := workspaceID; lr_CallID := callID; lr_ActorID := actorID;
                                            lr_ParticipationID := participationID |};
      Return (tr_Call result, tr_Released result, err, if tr_Changed result then publish (tr_Call result) else [])
  | _, _, _, _ => Return (None, false, Some ErrInvalidInput, [])
  end.

Definition Join (participationID : string) (input : JoinCallInput) : Tx (result (Call * string)) :=
  match canonicalUUID (jc_WorkspaceID input), canonicalUUID (jc_ActorID input), canonicalUUID (jc_CallID input),
        canonicalUUID (jc_TargetID input) with
  | Some workspaceID, Some actorID, Some callID, Some targetID =>
      if (timeout <=? 0) || ((jc_TargetType input != CallTargetChannel) && (jc_TargetType input != CallTargetDM))
      then Return (Fail ErrInvalidInput)
      else JoinResourceCall participationID
             {| jr_WorkspaceID := workspaceID; jr_CallID := callID; jr_ActorID := actorID;
                jr_TargetType := jc_TargetType input; jr_TargetID := targetID; jr_ExpiresAt := expiry |}
  | _, _, _, _ => Return (Fail ErrInvalidInput)
  end.

Definition ExpireDue : Tx (option error * list CallEvent) :=
  expired ← ExpireDueCalls 100;
  match expired with
  | Fail err => Return (Some err, [])
  | Ok calls => Return (None, calls ≫= λ call, publish (Some call))
  end.

Definition ResourceSync (env : CallEnv) (observed : Time) (db : CallDB) (workspaceID actorID : string)
    (targetType : CallTargetType) (targetID : string) : result (option Call * Time) :=
  match canonicalUUID workspaceID, canonicalUUID actorID, canonicalUUID targetID with
  | Some workspaceID, Some actorID, Some targetID =>
      if (targetType != CallTargetChannel) && (targetType != CallTargetDM) then Fail ErrInvalidInput
      else match ActiveResourceCall env observed db workspaceID actorID targetType targetID with
           | Ok result => Ok (ar_Call result, ar_ObservedAt result)
           | Fail err => Fail err
           end
  | _, _, _ => Fail ErrInvalidInput
  end.

Definition Current (env : CallEnv) (db : CallDB) (workspaceID actorID callID : string) : result Call :=
  match canonicalUUID workspaceID, canonicalUUID actorID, canonicalParticipationID callID with
  | Some workspaceID, Some actorID, Some callID => CurrentCallForUser env db workspaceID actorID callID
  | _, _, _ => Fail ErrInvalidInput
  end.
End Operations.
