(* ===== verification/CallsProtocol.v ===== *)
(** * Calls under interleaving

    The operations of [Calls] as concurrent transactions.  Every operation takes the
    advisory locks of the people and of the target it touches; the protocol below
    says what these locks protect, and each operation is shown to respect it.  What
    follows holds however the statements of any number of operations interleave,
    fail, and lose their acknowledgements: a person is in one call at a time, a
    target has one active call, calls only move along their life cycle, and no set
    of operations waits in a circle. *)

From stdpp Require Import prelude gmap strings sorting.
From Stdlib Require Import ZArith Lia.
From S2P Require Import Prelude GoStrings Workspace Transactions Calls.
Local Open Scope Z_scope.

(** ** What is at stake *)

Definition live_status (s : CallStatus) : Prop := s = "ringing" ∨ s = "active".
Definition resource_type (t : CallTargetType) : Prop := t = "channel" ∨ t = "dm".

(** [user] takes part in the call [id]: a direct call that rings or is active, or an
    active resource call in which the user holds a lease that has not expired. *)
Definition engaged (db : CallDB) (now : Time) (workspaceID user id : string) : Prop :=
  ∃ c, calls db !! id = Some c ∧ call_WorkspaceID c = workspaceID ∧
    ((call_TargetType c = "user" ∧ live_status (call_Status c) ∧ (call_CallerID c = user ∨ call_CalleeID c = user)) ∨
     (resource_type (call_TargetType c) ∧ call_Status c = "active" ∧
      ∃ l, leases db !! (id, user) = Some l ∧ now < lease_expires_at l)).

Record call_wf (id : string) (c : Call) : Prop := {
  wf_id : call_ID c = id;
  wf_check : calls_check c = true;
  wf_resource : resource_type (call_TargetType c) → call_Status c = "active" ∨ call_Status c = "ended";
  wf_ended : CallStatus_Terminal (call_Status c) = true ↔ is_Some (call_EndedAt c);
  wf_accepted : call_Status c = "active" → is_Some (call_AcceptedAt c)
}.

Record calls_inv (db : CallDB) (now : Time) : Prop := {
  inv_wf id c : calls db !! id = Some c → call_wf id c;
  inv_lease id user l :
    leases db !! (id, user) = Some l → ∃ c, calls db !! id = Some c ∧ resource_type (call_TargetType c);
  inv_request id id' c c' :
    calls db !! id = Some c → calls db !! id' = Some c' →
    call_WorkspaceID c = call_WorkspaceID c' → call_CallerID c = call_CallerID c' →
    call_RequestID c = call_RequestID c' → id = id';
  inv_target id id' c c' :
    calls db !! id = Some c → calls db !! id' = Some c' →
    resource_type (call_TargetType c) → call_Status c = "active" → call_Status c' = "active" →
    call_WorkspaceID c = call_WorkspaceID c' → call_TargetType c = call_TargetType c' →
    call_TargetID c = call_TargetID c' → id = id';
  inv_exclusive workspaceID user id id' :
    engaged db now workspaceID user id → engaged db now workspaceID user id' → id = id'
}.

(** The life cycle: identity is fixed, the status only moves forward and every
    change of the row is a change of status that raises its version. *)
Definition status_le (s s' : CallStatus) : Prop :=
  s = s' ∨ (s = "ringing" ∧ s' ∈ ["active"; "declined"; "cancelled"; "timed_out"; "ended"]) ∨
  (s = "active" ∧ s' = "ended").

Record evolves (c c' : Call) : Prop := {
  ev_id : call_ID c' = call_ID c;
  ev_workspace : call_WorkspaceID c' = call_WorkspaceID c;
  ev_request : call_RequestID c' = call_RequestID c;
  ev_caller : call_CallerID c' = call_CallerID c;
  ev_callee : call_CalleeID c' = call_CalleeID c;
  ev_target_type : call_TargetType c' = call_TargetType c;
  ev_target : call_TargetID c' = call_TargetID c;
  ev_type : call_Type c' = call_Type c;
  ev_created : call_CreatedAt c' = call_CreatedAt c;
  ev_expires : call_ExpiresAt c' = call_ExpiresAt c;
  ev_status : status_le (call_Status c) (call_Status c');
  ev_version : c' = c ∨ (call_Status c' ≠ call_Status c ∧ call_Version c < call_Version c')
}.

(** The keys an operation that creates [c] holds. *)
Definition target_key (workspaceID : string) (targetType : CallTargetType) (targetID : string) : string :=
  workspaceID +:+ ":" +:+ targetType +:+ ":" +:+ targetID.

Definition call_keys (c : Call) : list string :=
  [call_CallerID c;
   if call_TargetType c == "user" then call_CalleeID c
   else target_key (call_WorkspaceID c) (call_TargetType c) (call_TargetID c)].

Section Protocol.
Context {advisory : AdvisoryHash}.

Definition holds_row (held : list Lock) (id : string) : Prop := LockRow id ∈ held ∨ LockShare id ∈ held.

Record calls_rely (held : list Lock) (db : CallDB) (now : Time) (db' : CallDB) (now' : Time) : Prop := {
  rely_clock : now <= now';
  rely_row id : holds_row held id → calls db' !! id = calls db !! id;
  rely_lease id user : LockKey user ∈ held ∨ LockRow id ∈ held → leases db' !! (id, user) = leases db !! (id, user);
  rely_new id c key :
    calls db' !! id = Some c → calls db !! id = None → key ∈ call_keys c → LockKey key ∉ held;
  rely_evolves id c : calls db !! id = Some c → ∃ c', calls db' !! id = Some c' ∧ evolves c c'
}.

Record calls_guar (held : list Lock) (db : CallDB) (now : Time) (db' : CallDB) : Prop := {
  guar_row id : calls db' !! id ≠ calls db !! id → LockRow id ∈ held;
  guar_lease id user :
    leases db' !! (id, user) ≠ leases db !! (id, user) → LockKey user ∈ held ∧ holds_row held id;
  guar_new id c key :
    calls db' !! id = Some c → calls db !! id = None → key ∈ call_keys c → LockKey key ∈ held;
  guar_fresh id user l :
    leases db' !! (id, user) = Some l → leases db !! (id, user) ≠ Some l →
    ∃ c, calls db' !! id = Some c ∧ call_Status c = "active";
  guar_evolves id c : calls db !! id = Some c → ∃ c', calls db' !! id = Some c' ∧ evolves c c'
}.

Lemma call_evolves_refl c : evolves c c.
Proof. split; try done; by left. Qed.

Lemma status_le_trans s s' s'' : status_le s s' → status_le s' s'' → status_le s s''.
Proof. unfold status_le. set_solver. Qed.

Lemma status_le_antisym s s' : status_le s s' → status_le s' s → s = s'.
Proof. unfold status_le. set_solver. Qed.

Lemma status_le_live s s' : status_le s s' → live_status s' → live_status s.
Proof.
  unfold status_le, live_status. intros [->|[[-> _]|[-> ->] ] ]; [done|by left|by right].
Qed.

Lemma status_le_ended s : status_le "ended" s → s = "ended".
Proof. by intros [->|[[? _]|[? _] ] ]. Qed.

Lemma evolves_trans c c' c'' : evolves c c' → evolves c' c'' → evolves c c''.
Proof.
  intros H1 H2. destruct (ev_version _ _ H2) as [->|[Hs2 Hv2]]; [done|].
  destruct (ev_version _ _ H1) as [->|[Hs1 Hv1]]; [done|].
  destruct H1 as [? ? ? ? ? ? ? ? ? ? Hst1 _], H2 as [? ? ? ? ? ? ? ? ? ? Hst2 _].
  split; try congruence; [by eapply status_le_trans|]. right. split; [|lia].
  intros E. rewrite E in Hs2, Hst2. by apply Hs1, status_le_antisym.
Qed.

Lemma engaged_later db now now' ws user id : now <= now' → engaged db now' ws user id → engaged db now ws user id.
Proof.
  intros Hle (c & Hc & Hws & [Hd|(Hr & Hs & l & Hl & Hlt)]); exists c; (split; [done|]; split; [done|]); [by left|right].
  split; [done|]. split; [done|]. exists l. split; [done|lia].
Qed.

Lemma calls_inv_tick db now now' : now <= now' → calls_inv db now → calls_inv db now'.
Proof. intros Hle []. split; try done. intros. eapply inv_exclusive0; by eapply engaged_later. Qed.

Lemma calls_rely_tick held db now now' : now <= now' → calls_rely held db now db now'.
Proof. intros. split; try done; [congruence|]. intros id c ?. exists c. split; [done|apply call_evolves_refl]. Qed.

Lemma conflict_refl l : (∀ id, l ≠ LockShare id) → conflict l l = true.
Proof. destruct l as [k|id|id]; intros Hl; cbn; [apply Z.eqb_refl|by case_bool_decide|by destruct (Hl id)]. Qed.

Lemma compat_absurd mine other l l' :
  compat mine other → l ∈ mine → l' ∈ other → conflict l l' = true → False.
Proof. intros Hc ?? E. by rewrite (Hc l l') in E. Qed.

Lemma calls_guar_rely mine other db db' now :
  compat mine other → calls_guar mine db now db' → calls_rely other db now db' now.
Proof.
  intros Hc [Hrow Hlease Hnew _ Hev].
  assert (Hkey : ∀ key, LockKey key ∈ mine → LockKey key ∈ other → False).
  { intros key ??. eapply (compat_absurd _ _ _ _ Hc); [done..|]. by apply conflict_refl. }
  assert (Hrows : ∀ id, LockRow id ∈ mine → holds_row other id → False).
  { intros id ? [?|?]; eapply (compat_absurd _ _ _ _ Hc); try done; cbn; by case_bool_decide. }
  split; [lia| | |eauto|done].
  - intros id Hid. destruct (decide (calls db' !! id = calls db !! id)) as [|Hne]; [done|]. exfalso. eauto.
  - intros id user Hh.
    destruct (decide (leases db' !! (id, user) = leases db !! (id, user))) as [|Hne]; [done|]. exfalso.
    apply Hlease in Hne as [Hu Hid]. destruct Hh as [|Hid']; [eauto|].
    destruct Hid as [Hid|Hid]; [eapply Hrows; [done|by left]|].
    eapply (compat_absurd _ _ _ _ Hc Hid Hid'). cbn. by case_bool_decide.
Qed.

#[export] Instance calls_protocol : Protocol call_store.
Proof.
  refine {| Inv := calls_inv : @DB call_store → Time → Prop; Rely := calls_rely; Guar := calls_guar |}.
  - exact calls_inv_tick.
  - intros held db now now' Hle _. by apply calls_rely_tick.
  - intros mine other db db' now Hc _ _. by apply calls_guar_rely.
Defined.
End Protocol.

(** ** Assertions the locks make stable *)

Section Stability.
Context {advisory : AdvisoryHash}.

Definition row_is (id : string) (row : option Call) (db : CallDB) (_ : Time) : Prop := calls db !! id = row.
Definition idle (workspaceID user : string) (except : option string) (db : CallDB) (now : Time) : Prop :=
  ∀ id, engaged db now workspaceID user id → Some id = except.
Definition no_call (p : Call → bool) (db : CallDB) (_ : Time) : Prop :=
  ∀ id c, calls db !! id = Some c → p c = false.
Definition lease_is (id user : string) (lease : option Lease) (db : CallDB) (_ : Time) : Prop :=
  leases db !! (id, user) = lease.

Lemma rely_back held db now db' now' id c' :
  calls_rely held db now db' now' → calls db' !! id = Some c' →
  (calls db !! id = None ∧ ∀ key, key ∈ call_keys c' → LockKey key ∉ held) ∨
  ∃ c, calls db !! id = Some c ∧ evolves c c'.
Proof.
  intros [_ _ _ Hnew Hev] Hc'. destruct (calls db !! id) as [c|] eqn:Hc; [right|left; eauto].
  destruct (Hev id c Hc) as (c'' & Hc'' & ?). exists c. split; [done|]. congruence.
Qed.

Lemma evolves_engagement id db now db' now' ws user c c' :
  calls_inv db now → evolves c c' → now <= now' → calls db !! id = Some c → calls db' !! id = Some c' →
  leases db' !! (id, user) = leases db !! (id, user) →
  engaged db' now' ws user id → engaged db now ws user id.
Proof.
  intros Hinv Hev Hle Hc Hc' Hl (c0 & Hc0 & Hws & Hcase). rewrite Hc' in Hc0. injection Hc0 as <-.
  destruct Hev as [_ Ews _ Ecaller Ecallee Etype _ _ _ _ Est _].
  exists c. split; [done|]. split; [congruence|]. destruct Hcase as [(Ht & Hs & Hu)|(Ht & Hs & l & Hlease & Hlt)].
  - left. split; [congruence|]. split; [|by rewrite <-Ecaller, <-Ecallee].
    by eapply status_le_live.
  - right. rewrite <-Etype. split; [done|]. split.
    + destruct (wf_resource _ _ (inv_wf _ _ Hinv id c Hc)) as [|E]; [by rewrite <-Etype|done|].
      rewrite E, Hs in Est. by apply status_le_ended in Est.
    + exists l. rewrite <-Hl. split; [done|lia].
Qed.

Lemma stable_row held id row : holds_row held id → stable held (row_is id row).
Proof. intros Hh db now db' now' _ _ HR. unfold row_is. by rewrite (rely_row _ _ _ _ _ HR). Qed.

Lemma stable_lease held id user lease : LockKey user ∈ held → stable held (lease_is id user lease).
Proof. intros Hh db now db' now' _ _ HR. unfold lease_is. rewrite (rely_lease _ _ _ _ _ HR); auto. Qed.

Lemma stable_idle held ws user except : LockKey user ∈ held → stable held (idle ws user except).
Proof.
  intros Hh db now db' now' HI _ HR Hidle id Heng. apply Hidle.
  assert (Hl : leases db' !! (id, user) = leases db !! (id, user)) by (eapply rely_lease; [done|by left]).
  destruct Heng as (c' & Hc' & Hcase). destruct (rely_back _ _ _ _ _ _ _ HR Hc') as [[Hnone Hkeys]|(c & Hc & Hev)].
  - exfalso. destruct Hcase as (_ & [(Ht & _ & Hu)|(Ht & _ & l & Hlease & _)]).
    + eapply (Hkeys user); [|done]. unfold call_keys. rewrite (bool_decide_eq_true_2 _ Ht).
      destruct Hu as [->| ->]; set_solver.
    + rewrite Hl in Hlease. destruct (inv_lease _ _ HI _ _ _ Hlease) as (c & ? & _). congruence.
  - eapply evolves_engagement; [done|done|by eapply rely_clock|done|done|done|]. by exists c'.
Qed.

Lemma stable_no_request held ws caller req :
  LockKey caller ∈ held → stable held (no_call (same_request ws caller req)).
Proof.
  intros Hh db now db' now' HI _ HR Hno id c' Hc'.
  destruct (rely_back _ _ _ _ _ _ _ HR Hc') as [[_ Hkeys]|(c & Hc & Hev)].
  - unfold same_request. destruct (decide (call_CallerID c' = caller)) as [E|E].
    + exfalso. eapply (Hkeys caller); [|done]. rewrite <-E. by left.
    + rewrite (bool_decide_eq_false_2 _ E), andb_false_r. done.
  - rewrite <-(Hno id c Hc). unfold same_request. by destruct Hev as [_ -> -> -> _ _ _ _ _ _ _ _].
Qed.

Lemma active_for_true ws tt tid c :
  active_for ws tt tid c = true ↔
  call_WorkspaceID c = ws ∧ call_TargetType c = tt ∧ call_TargetID c = tid ∧ call_Status c = "active".
Proof. unfold active_for. rewrite !andb_true_iff, !bool_decide_eq_true. tauto. Qed.

Lemma same_request_true ws caller req c :
  same_request ws caller req c = true ↔
  call_WorkspaceID c = ws ∧ call_CallerID c = caller ∧ call_RequestID c = req.
Proof. unfold same_request. rewrite !andb_true_iff, !bool_decide_eq_true. tauto. Qed.

Lemma stable_no_active held ws tt tid :
  resource_type tt → LockKey (target_key ws tt tid) ∈ held → stable held (no_call (active_for ws tt tid)).
Proof.
  intros Hr Hh db now db' now' HI _ HR Hno id c' Hc'. apply not_true_iff_false. intros Ha.
  apply active_for_true in Ha as (<- & <- & <- & Hs).
  destruct (rely_back _ _ _ _ _ _ _ HR Hc') as [[_ Hkeys]|(c & Hc & Hev)].
  - eapply (Hkeys (target_key _ _ _)); [|exact Hh]. unfold call_keys. right.
    rewrite bool_decide_eq_false_2 by (destruct Hr as [->| ->]; done). by left.
  - destruct Hev as [_ Ews _ _ _ Etype Etarget _ _ _ Est _].
    assert (Hactive : call_Status c = "active").
    { destruct (wf_resource _ _ (inv_wf _ _ HI id c Hc)) as [|E]; [by rewrite <-Etype|done|].
      rewrite E, Hs in Est. by apply status_le_ended in Est. }
    specialize (Hno id c Hc). apply not_true_iff_false in Hno. apply Hno, active_for_true.
    by rewrite <-Ews, <-Etype, <-Etarget.
Qed.

Lemma stable_and held (P Q : @DB call_store → Time → Prop) :
  stable held P → stable held Q → stable held (λ db now, P db now ∧ Q db now).
Proof. intros HP HQ db now db' now' ? ? HR [??]. split; [by eapply (HP db now)|by eapply (HQ db now)]. Qed.

Lemma stable_const held (P : Prop) : stable held (λ (_ : @DB call_store) (_ : Time), P).
Proof. by intros ????. Qed.
End Stability.

(** ** What the writes keep *)

Section Writes.
Context {advisory : AdvisoryHash}.

Lemma guar_refl held db now : calls_guar held db now db.
Proof. split; try done; [congruence|]. intros id c Hc. exists c. split; [done|apply call_evolves_refl]. Qed.

Lemma evolves_keys c c' : evolves c c' → call_keys c' = call_keys c.
Proof. intros [_ E1 _ E2 E3 E4 E5 _ _ _ _ _]. unfold call_keys. by rewrite E1, E2, E3, E4, E5. Qed.

Lemma guar_trans held db db' db'' now :
  leases db' ⊆ leases db → calls_guar held db now db' → calls_guar held db' now db'' → calls_guar held db now db''.
Proof.
  intros Hsub [R1 L1 N1 _ E1] [R2 L2 N2 F2 E2]. split.
  - intros id Hne. destruct (decide (calls db' !! id = calls db !! id)) as [E|]; [rewrite <-E in Hne|]; auto.
  - intros id user Hne. destruct (decide (leases db' !! (id, user) = leases db !! (id, user))) as [E|]; [|auto].
    rewrite <-E in Hne. auto.
  - intros id c'' key Hc'' Hnone Hkey. destruct (calls db' !! id) as [c'|] eqn:Hc'; [|eauto].
    destruct (E2 id c' Hc') as (c & ? & Hev). assert (c = c'') as -> by congruence.
    rewrite (evolves_keys _ _ Hev) in Hkey. eauto.
  - intros id user l Hl Hne. apply (F2 id user l Hl). intros Hl'. apply Hne. by eapply lookup_weaken.
  - intros id c Hc. destruct (E1 id c Hc) as (c' & Hc' & ?). destruct (E2 id c' Hc') as (c'' & ? & ?).
    exists c''. split; [done|by eapply evolves_trans].
Qed.

(** What holds after a write, with what it owes. *)
Definition kept (held : list Lock) (db : CallDB) (now : Time) (db' : CallDB) : Prop :=
  calls_inv db' now ∧ calls_guar held db now db'.

Lemma kept_refl held db now : calls_inv db now → kept held db now db.
Proof. intros. split; [done|apply guar_refl]. Qed.

Lemma kept_trans held db db' db'' now :
  leases db' ⊆ leases db → kept held db now db' → kept held db' now db'' → kept held db now db''.
Proof. intros ? [_ ?] [? ?]. split; [done|by eapply guar_trans]. Qed.

Lemma calls_put db c id : calls (call_apply db (PutCall c)) !! id = if decide (call_ID c = id) then Some c else calls db !! id.
Proof. cbn. case_decide; [subst; apply lookup_insert_eq|by apply lookup_insert_ne]. Qed.

Lemma engaged_put_ne db c now ws user id :
  call_ID c ≠ id → engaged (call_apply db (PutCall c)) now ws user id ↔ engaged db now ws user id.
Proof. intros Hne. unfold engaged. rewrite calls_put, decide_False by done. done. Qed.

(** A new call, of which nobody named is engaged elsewhere. *)
Lemma kept_new held db now c :
  calls_inv db now → calls db !! call_ID c = None → call_wf (call_ID c) c →
  no_call (same_request (call_WorkspaceID c) (call_CallerID c) (call_RequestID c)) db now →
  (resource_type (call_TargetType c) → call_Status c = "active" →
   no_call (active_for (call_WorkspaceID c) (call_TargetType c) (call_TargetID c)) db now) →
  (call_TargetType c = "user" → idle (call_WorkspaceID c) (call_CallerID c) None db now ∧
                                idle (call_WorkspaceID c) (call_CalleeID c) None db now) →
  LockRow (call_ID c) ∈ held → (∀ key, key ∈ call_keys c → LockKey key ∈ held) →
  kept held db now (call_apply db (PutCall c)).
Proof.
  intros HI Hnone Hwf Hreq Hactive Hidle Hrow Hkeys.
  assert (Hnolease : ∀ user l, leases db !! (call_ID c, user) = Some l → False).
  { intros user l Hl. destruct (inv_lease _ _ HI _ _ _ Hl) as (? & ? & _). congruence. }
  split; split.
  - intros id c'. rewrite calls_put. case_decide as E; [intros [= <-]; by rewrite <-E|]. apply HI.
  - intros id user l Hl. destruct (inv_lease _ _ HI _ _ _ Hl) as (c' & Hc' & Ht). exists c'.
    rewrite calls_put, decide_False; [done|]. intros <-. congruence.
  - intros id id' c1 c2. rewrite !calls_put. intros H1 H2 Hw Hc Hr.
    destruct (decide (call_ID c = id)) as [E1|E1]; destruct (decide (call_ID c = id')) as [E2|E2]; [congruence| | |].
    + injection H1 as <-. specialize (Hreq _ _ H2). apply not_true_iff_false in Hreq. destruct Hreq. by apply same_request_true.
    + injection H2 as <-. specialize (Hreq _ _ H1). apply not_true_iff_false in Hreq. destruct Hreq. by apply same_request_true.
    + by eapply (inv_request _ _ HI).
  - intros id id' c1 c2. rewrite !calls_put. intros H1 H2 Hr Hs1 Hs2 Hw Ht Htid.
    destruct (decide (call_ID c = id)) as [E1|E1]; destruct (decide (call_ID c = id')) as [E2|E2]; [congruence| | |].
    + injection H1 as <-. specialize (Hactive Hr Hs1 _ _ H2). apply not_true_iff_false in Hactive.
      destruct Hactive. by apply active_for_true.
    + injection H2 as <-. rewrite Ht in Hr. specialize (Hactive Hr Hs2 _ _ H1). apply not_true_iff_false in Hactive.
      destruct Hactive. by apply active_for_true.
    + by eapply (inv_target _ _ HI).
  - intros ws user id id' He He'.
    assert (Hnew : ∀ id0, engaged (call_apply db (PutCall c)) now ws user (call_ID c) →
                          engaged db now ws user id0 → False).
    { intros id0 (c' & Hc' & Hws & Hcase) He0. rewrite calls_put, decide_True in Hc' by done. injection Hc' as <-.
      destruct Hcase as [(Ht & _ & Hu)|(_ & _ & l & Hl & _)]; [|by eapply Hnolease].
      destruct (Hidle Ht) as [Hi1 Hi2]. subst ws. destruct Hu as [<-|<-]; [by specialize (Hi1 _ He0)|by specialize (Hi2 _ He0)]. }
    destruct (decide (call_ID c = id)) as [<-|Hne]; destruct (decide (call_ID c = id')) as [<-|Hne'].
    + done.
    + rewrite engaged_put_ne in He' by done. by destruct (Hnew id').
    + rewrite engaged_put_ne in He by done. by destruct (Hnew id).
    + rewrite engaged_put_ne in He, He' by done. by eapply (inv_exclusive _ _ HI).
  - intros id. rewrite calls_put. by case_decide as E; [rewrite <-E|].
  - done.
  - intros id c' key. rewrite calls_put. case_decide; [intros [= <-] _; auto|congruence].
  - done.
  - intros id c' Hc'. exists c'. rewrite calls_put, decide_False by congruence. split; [done|apply call_evolves_refl].
Qed.

(** A row moves along the life cycle. *)
Lemma kept_evolve held db now c c' :
  calls_inv db now → calls db !! call_ID c = Some c → evolves c c' → call_wf (call_ID c) c' →
  LockRow (call_ID c) ∈ held → kept held db now (call_apply db (PutCall c')).
Proof.
  intros HI Hc Hev Hwf Hrow. assert (Eid : call_ID c' = call_ID c) by apply (ev_id _ _ Hev).
  assert (Hback : ∀ id x', calls (call_apply db (PutCall c')) !! id = Some x' →
                           ∃ x, calls db !! id = Some x ∧ evolves x x').
  { intros id x'. rewrite calls_put. case_decide as E.
    - intros [= <-]. exists c. by rewrite <-E, Eid.
    - intros Hx. exists x'. split; [done|apply call_evolves_refl]. }
  assert (Heng : ∀ ws user id, engaged (call_apply db (PutCall c')) now ws user id → engaged db now ws user id).
  { intros ws user id He. pose proof He as (x' & Hx' & _). destruct (Hback id x' Hx') as (x & Hx & Hxx).
    by eapply (evolves_engagement id db now (call_apply db (PutCall c')) now ws user x x'). }
  split; split.
  - intros id x'. rewrite calls_put. case_decide as E; [intros [= <-]; by rewrite <-E, Eid|apply HI].
  - intros id user l Hl. destruct (inv_lease _ _ HI _ _ _ Hl) as (x & Hx & Ht).
    rewrite calls_put. case_decide as E; [|eauto]. exists c'. split; [done|].
    assert (x = c) as -> by congruence. by rewrite (ev_target_type _ _ Hev).
  - intros id id' x' y' Hx Hy. destruct (Hback _ _ Hx) as (x & ? & [_ E1 E2 E3 _ _ _ _ _ _ _ _]).
    destruct (Hback _ _ Hy) as (y & ? & [_ F1 F2 F3 _ _ _ _ _ _ _ _]).
    rewrite E1, E2, E3, F1, F2, F3. by eapply (inv_request _ _ HI).
  - intros id id' x' y' Hx Hy. destruct (Hback _ _ Hx) as (x & Hx0 & [_ E1 _ _ _ E2 E3 _ _ _ Ex _]).
    destruct (Hback _ _ Hy) as (y & Hy0 & [_ F1 _ _ _ F2 F3 _ _ _ Ey _]).
    rewrite E1, E2, E3, F1, F2, F3. intros Hr Hs Hs' Hw Ht Htid.
    assert (Hactive : ∀ id z z', calls db !! id = Some z → resource_type (call_TargetType z) →
      status_le (call_Status z) (call_Status z') → call_Status z' = "active" → call_Status z = "active").
    { intros id0 z z' Hz Hzr Hle Hz'. destruct (wf_resource _ _ (inv_wf _ _ HI _ _ Hz) Hzr) as [|E]; [done|].
      rewrite E in Hle. apply status_le_ended in Hle. congruence. }
    eapply (inv_target _ _ HI); try done; eapply Hactive; try done. by rewrite <-Ht.
  - intros ws user id id' He He'. eapply (inv_exclusive _ _ HI); by apply Heng.
  - intros id. rewrite calls_put, Eid. by case_decide as E; [rewrite <-E|].
  - done.
  - intros id x' key Hx' Hnone _. destruct (Hback _ _ Hx') as (x & ? & _). congruence.
  - done.
  - intros id x Hx. rewrite calls_put. case_decide as E.
    + exists c'. split; [done|]. assert (x = c) as -> by congruence. done.
    + exists x. split; [done|apply call_evolves_refl].
Qed.

(** A user enters, or stays in, an active resource call. *)
Lemma kept_lease held db now c user l :
  calls_inv db now → calls db !! call_ID c = Some c → resource_type (call_TargetType c) → call_Status c = "active" →
  idle (call_WorkspaceID c) user (Some (call_ID c)) db now →
  LockKey user ∈ held → holds_row held (call_ID c) →
  kept held db now (call_apply db (PutLease (call_ID c) user l)).
Proof.
  intros HI Hc Ht Hactive Hidle Hkey Hrow.
  set (db' := call_apply db (PutLease (call_ID c) user l)).
  assert (Hold : ∀ ws u id, engaged db' now ws u id → engaged db now ws u id ∨ (ws = call_WorkspaceID c ∧ u = user ∧ id = call_ID c)).
  { intros ws u id (x & Hx & Hws & Hcase). destruct (decide ((call_ID c, user) = (id, u))) as [[= <- <-]|Hne].
    - right. cbn in Hx. split; [congruence|done].
    - left. exists x. split; [done|]. split; [done|]. destruct Hcase as [?|(? & ? & l' & Hl' & ?)]; [by left|right].
      split; [done|]. split; [done|]. exists l'. split; [|done]. cbn in Hl'. by rewrite lookup_insert_ne in Hl'. }
  split; split; try apply HI.
  - intros id u l'. cbn. destruct (decide ((call_ID c, user) = (id, u))) as [[= <- <-]|Hne]; [eauto|].
    rewrite lookup_insert_ne by done. apply HI.
  - intros ws u id id' He%Hold He'%Hold.
    assert (Hsame : ∀ id0, engaged db now (call_WorkspaceID c) user id0 → id0 = call_ID c)
      by (intros id0 H0; specialize (Hidle id0 H0); congruence).
    destruct He as [He|(-> & -> & ->)], He' as [He'|(? & ? & ?)]; subst; [by eapply (inv_exclusive _ _ HI)| | |done].
    + auto.
    + symmetry. auto.
  - done.
  - intros id u. cbn. destruct (decide ((call_ID c, user) = (id, u))) as [[= <- <-]|Hne]; [done|].
    by rewrite lookup_insert_ne.
  - intros id x key Hx Hnone. cbn in Hx. congruence.
  - intros id u l'. cbn. destruct (decide ((call_ID c, user) = (id, u))) as [[= <- <-]|Hne]; [eauto|].
    by rewrite lookup_insert_ne.
  - intros id x Hx. exists x. split; [done|apply call_evolves_refl].
Qed.

Lemma kept_release held db now id user :
  calls_inv db now → LockKey user ∈ held → holds_row held id →
  kept held db now (call_apply db (DeleteLease id user)).
Proof.
  intros HI Hkey Hrow. set (db' := call_apply db (DeleteLease id user)).
  assert (Hold : ∀ ws u i, engaged db' now ws u i → engaged db now ws u i).
  { intros ws u i (x & Hx & Hws & Hcase). exists x. split; [done|]. split; [done|].
    destruct Hcase as [?|(? & ? & l' & Hl' & ?)]; [by left|right].
    split; [done|]. split; [done|]. exists l'. split; [|done]. cbn in Hl'. by apply lookup_delete_Some in Hl' as [_ ?]. }
  split; split; try apply HI.
  - intros i u l Hl. cbn in Hl. apply lookup_delete_Some in Hl as [_ Hl]. by eapply (inv_lease _ _ HI).
  - intros ws u i i' He%Hold He'%Hold. by eapply (inv_exclusive _ _ HI).
  - done.
  - intros i u. cbn. destruct (decide ((id, user) = (i, u))) as [[= <- <-]|Hne]; [done|].
    by rewrite lookup_delete_ne.
  - intros i x key Hx Hnone. cbn in Hx. congruence.
  - intros i u l Hl. cbn in Hl. by apply lookup_delete_Some in Hl as [_ ->].
  - intros i x Hx. exists x. split; [done|apply call_evolves_refl].
Qed.
End Writes.

(** ** The statements against the assertions *)

Lemma find_call_Some p db c : find_call p db = Some c → ∃ id, calls db !! id = Some c ∧ p c = true.
Proof.
  intros H. apply head_elem_of, list_elem_of_filter in H as [Hp H].
  apply list_elem_of_fmap in H as ([id c'] & -> & H%elem_of_map_to_list). eauto.
Qed.

Lemma find_call_None p db now : find_call p db = None → no_call p db now.
Proof.
  unfold find_call. intros H id c Hc. apply not_true_iff_false. intros Hp.
  destruct (filter _ _) as [|c' l] eqn:E; [|done].
  assert (Hin : c ∈ filter (λ c, p c = true) ((map_to_list (calls db)).*2)).
  { apply list_elem_of_filter. split; [done|]. apply list_elem_of_fmap. exists (id, c). split; [done|].
    by apply elem_of_map_to_list. }
  rewrite E in Hin. by apply elem_of_nil in Hin.
Qed.

Lemma no_call_None p db now : no_call p db now → find_call p db = None.
Proof.
  intros H. destruct (find_call p db) as [c|] eqn:E; [|done].
  apply find_call_Some in E as (id & Hc & Hp). by rewrite (H id c Hc) in Hp.
Qed.

Lemma busy_query_idle db now ws users except user :
  calls_inv db now → busy_query db now ws users except = false → user ∈ users → idle ws user except db now.
Proof.
  intros HI H Hu. unfold busy_query in H. apply orb_false_iff in H as [Hd Hl].
  apply existsb_false_Forall in Hd, Hl. rewrite Forall_forall in Hd. rewrite Forall_forall in Hl.
  intros id (c & Hc & Hws & Hcase).
  assert (Eid : call_ID c = id) by apply (wf_id _ _ (inv_wf _ _ HI _ _ Hc)).
  destruct Hcase as [(Ht & Hs & Hpeople)|(Ht & Hs & l & Hlease & Hlt)].
  - exfalso. assert (Htrue : direct_engagement ws users c = true).
    { unfold direct_engagement. rewrite !andb_true_iff, orb_true_iff, !bool_decide_eq_true.
      split_and!; [done|done|by destruct Hs as [->| ->]; set_solver|by destruct Hpeople as [->| ->]; auto]. }
    rewrite (Hd c) in Htrue; [done|]. apply list_elem_of_fmap. exists (id, c). split; [done|].
    by apply elem_of_map_to_list.
  - destruct (decide (Some (call_ID c) = except)) as [<-|Hne]; [by rewrite Eid|]. exfalso.
    assert (Htrue : lease_engagement db now ws users except (id, user, l) = true).
    { unfold lease_engagement. cbn. rewrite Hc, !andb_true_iff, negb_true_iff, !bool_decide_eq_true,
        bool_decide_eq_false, Z.ltb_lt. split_and!; [done|done|by destruct Ht as [->| ->]; set_solver|done..]. }
    rewrite (Hl (id, user, l)) in Htrue; [done|]. by apply elem_of_map_to_list.
Qed.

Lemma insert_call_Ok db c c' new :
  insert_call db c = (Ok c', new) →
  c' = c ∧ new = [PutCall c] ∧ calls db !! call_ID c = None ∧ calls_check c = true.
Proof.
  unfold insert_call. destruct (calls db !! call_ID c); [done|]. destruct (calls_check c); [|done].
  destruct (find_call _ db); [done|]. destruct (_ && _); [done|]. by intros [= <- <-].
Qed.

(** No insertion a transaction tries is refused by a unique index, but for the
    primary key. *)
Lemma insert_call_fresh db now c :
  calls db !! call_ID c = None → calls_check c = true →
  no_call (same_request (call_WorkspaceID c) (call_CallerID c) (call_RequestID c)) db now →
  (resource_type (call_TargetType c) →
   no_call (active_for (call_WorkspaceID c) (call_TargetType c) (call_TargetID c)) db now) →
  insert_call db c = (Ok c, [PutCall c]).
Proof.
  intros Hnone Hcheck Hreq Hact. unfold insert_call. rewrite Hnone, Hcheck, (no_call_None _ _ _ Hreq). cbn.
  case_bool_decide as Ht; [|done]. rewrite (no_call_None _ db now); [by rewrite andb_false_r|].
  apply Hact. unfold resource_type. set_solver.
Qed.

Lemma new_row_wf c :
  calls_check c = true → (call_TargetType c ∈ ["channel"; "dm"] → call_Status c = "active") →
  (call_Status c = "ringing" ∨ (call_Status c = "active" ∧ is_Some (call_AcceptedAt c))) →
  call_EndedAt c = None → call_wf (call_ID c) c.
Proof.
  intros Hcheck Hr Hs He. split; [done|done| | |].
  - intros Ht. left. apply Hr. destruct Ht as [->| ->]; set_solver.
  - rewrite He. destruct Hs as [->|[-> _] ]; (split; [done|by intros []]).
  - destruct Hs as [->|[_ ?] ]; [done|]. done.
Qed.

Lemma with_status_ok id c s now :
  call_wf id c → status_le (call_Status c) s → s ≠ call_Status c →
  (resource_type (call_TargetType c) → s = "ended") →
  evolves c (with_status c s now) ∧ call_wf id (with_status c s now).
Proof.
  intros [Hid Hcheck Hres Hend Hacc] Hle Hne Hr. split.
  - split; try done. right. split; [done|cbn; lia].
  - assert (Hs : s ∈ ["active"; "declined"; "cancelled"; "timed_out"; "ended"]).
    { destruct Hle as [E|[[_ ?]|[_ ->] ] ]; [by destruct Hne|done|set_solver]. }
    split; [done| | | |].
    + unfold calls_check in *. cbn. rewrite !andb_true_iff in *. destruct Hcheck as [[[Ht _] Hv] Htarget].
      split_and!; [done| |apply Z.ltb_lt; apply Z.ltb_lt in Hv; lia|done].
      unfold CallStatus_Valid. apply bool_decide_eq_true. set_solver.
    + intros Ht. right. by apply Hr.
    + cbn. case_bool_decide as Hin.
      * split; [done|]. intros _. unfold CallStatus_Terminal.
        rewrite !elem_of_cons, elem_of_nil in Hin. destruct Hin as [->|[->|[->|[->|[] ] ] ] ]; done.
      * assert (s = "active") as -> by set_solver. rewrite <-Hend.
        destruct Hle as [E|[[-> _]|[_ ?] ] ]; [by destruct Hne|done|done].
    + cbn. intros ->. done.
Qed.

(** ** The steps of an operation *)

Create HintDb calls.
#[export] Hint Resolve stable_and stable_const stable_row stable_lease stable_idle stable_no_request
  stable_no_active : calls.
#[export] Hint Extern 5 (_ ∈ _) => set_solver : calls.

Section Steps.
Context {advisory : AdvisoryHash} {A : Type}.
Implicit Types (P Q : @DB call_store → Time → Prop) (held : list Lock) (writes : list CallWrite).

Lemma stable_mono held held' P : held ⊆ held' → stable held P → stable held' P.
Proof.
  intros Hsub HP db now db' now' HI HI' HR. apply HP; [done|done|].
  destruct HR as [Hn Hrow Hl Hnew Hev]. split; [done| | |set_solver|done].
  - intros id [?|?]; apply Hrow; [left|right]; set_solver.
  - intros id user [?|?]; apply Hl; [left|right]; set_solver.
Qed.

(** A statement, and what its answer lets the operation know. *)
Lemma safe_query {B} held writes P (s : CallStmt B) (k : B → Tx A) (fail : error → A) :
  (∀ env others db now,
    calls_inv db now → P db now →
    let view := apply_writes (store := call_store) db writes in
    compat (call_request s env others now view) others →
    match call_exec s env others now view with
    | (Ok x, new) => ∃ P', stable (call_request s env others now view ++ held) P' ∧ P' db now ∧
                           safe (call_request s env others now view ++ held) (writes ++ new) P' (k x)
    | (Fail _, _) => True
    end) →
  safe held writes P (tx_bind (query s) (λ r, match r with Ok x => k x | Fail err => Return (fail err) end)).
Proof.
  intros H. cbn [query tx_bind safe]. split; [done|].
  intros env others db now HI HP. cbv zeta. intros Hc. specialize (H env others db now HI HP Hc).
  cbn [exec request call_store] in *. destruct (call_exec s env others now _) as [[x|err] new]; [done|].
  exists (λ _ _, True). split_and!; [apply stable_True|done|done].
Qed.

(** One that takes no lock and writes nothing. *)
Lemma safe_read {B} held writes P (Q : B → @DB call_store → Time → Prop) (s : CallStmt B) (k : B → Tx A)
    (fail : error → A) :
  (∀ env others db now view, call_request s env others now view = [] ∧
    snd (call_exec s env others now view) = [] ∧
    (calls_inv db now → P db now → view = apply_writes (store := call_store) db writes →
     ∀ x, fst (call_exec s env others now view) = Ok x → Q x db now)) →
  (∀ x, stable held (Q x)) → (∀ x, safe held writes (Q x) (k x)) →
  safe held writes P (tx_bind (query s) (λ r, match r with Ok x => k x | Fail err => Return (fail err) end)).
Proof.
  intros Hs HQ Hk. apply safe_query. intros env others db now HI HP. cbv zeta. intros _.
  destruct (Hs env others db now (apply_writes (store := call_store) db writes)) as (-> & Hnew & Hans).
  specialize (Hans HI HP eq_refl). destruct (call_exec s env others now _) as [[x|err] new]; [|done].
  cbn in Hnew. subst new. rewrite app_nil_r. exists (Q x). auto.
Qed.

(** One whose answer tells nothing of the tables. *)
Lemma safe_ask {B} held writes P (s : CallStmt B) (k : B → Tx A) (fail : error → A) :
  (∀ env others now view, call_request s env others now view = [] ∧ snd (call_exec s env others now view) = []) →
  stable held P → (∀ x, safe held writes P (k x)) →
  safe held writes P (tx_bind (query s) (λ r, match r with Ok x => k x | Fail err => Return (fail err) end)).
Proof.
  intros Hs HP Hk. apply (safe_read _ _ _ (λ _, P)); [|done|done]. intros env others db now view.
  destruct (Hs env others now view). auto.
Qed.

Lemma safe_lockSorted held writes P keys (k : unit → Tx A) (fail : error → A) :
  stable held P →
  (∀ held', held ⊆ held' → (∀ key, key ∈ keys → LockKey key ∈ held') → safe held' writes P (k tt)) →
  safe held writes P
    (tx_bind (lockSorted keys) (λ r, match r with Ok x => k x | Fail err => Return (fail err) end)).
Proof.
  revert held. induction keys as [|key keys IH]; intros held HP Hk.
  - cbn. apply Hk; [done|]. intros key Hkey. by apply elem_of_nil in Hkey.
  - cbn [lockSorted query tx_bind safe]. split; [done|].
    intros env others db now HI HPdb. cbv zeta. intros _. cbn [exec request call_store call_exec call_request].
    exists P. rewrite app_nil_r. split; [eapply stable_mono; [|done]; set_solver|]. split; [done|].
    apply IH; [eapply stable_mono; [|done]; set_solver|]. intros held' Hsub Hkeys. apply Hk; [set_solver|].
    intros key' [->|?]%elem_of_cons; [set_solver|auto].
Qed.

Lemma safe_lockCallKeys held writes P keys (k : unit → Tx A) (fail : error → A) :
  stable held P →
  (∀ held', held ⊆ held' → (∀ key, key ∈ keys → LockKey key ∈ held') → safe held' writes P (k tt)) →
  safe held writes P
    (tx_bind (lockCallKeys keys) (λ r, match r with Ok x => k x | Fail err => Return (fail err) end)).
Proof.
  intros HP Hk. apply safe_lockSorted; [done|]. intros held' Hsub Hkeys. apply Hk; [done|].
  intros key Hkey. apply Hkeys. by rewrite merge_sort_Permutation.
Qed.

Lemma safe_authorize held writes P ws actor tt_ tid (k : bool → Tx A) (fail : error → A) :
  stable held P → (resource_type tt_ → ∀ b, safe held writes P (k b)) →
  safe held writes P (tx_bind (authorizeResourceTarget ws actor tt_ tid)
    (λ r, match r with Ok x => k x | Fail err => Return (fail err) end)).
Proof.
  intros HP Hk. unfold authorizeResourceTarget. destruct (_ || _) eqn:Ht; [|done].
  assert (Hr : resource_type tt_).
  { apply orb_true_iff in Ht. rewrite !bool_decide_eq_true in Ht. exact Ht. }
  cbn [query tx_bind safe]. split; [done|]. intros env others db now HI HPdb. cbv zeta. intros _.
  cbn [exec request call_store call_exec call_request]. rewrite app_nil_r. exists P. cbn. auto.
Qed.

(** A statement that takes no lock and whose write does not depend on what it sees. *)
Lemma safe_write {B} held writes P (s : CallStmt B) (x : B) (new : list CallWrite) (k : B → Tx A) (fail : error → A) :
  (∀ env others now view, call_request s env others now view = [] ∧ call_exec s env others now view = (Ok x, new)) →
  stable held P → safe held (writes ++ new) P (k x) →
  safe held writes P (tx_bind (query s) (λ r, match r with Ok x => k x | Fail err => Return (fail err) end)).
Proof.
  intros Hs HP Hk. apply safe_query. intros env others db now HI HPdb. cbv zeta. intros _.
  destruct (Hs env others now (apply_writes (store := call_store) db writes)) as [-> ->]. exists P. auto.
Qed.

(** The helpers that only wrap the failure of their statement. *)
Lemma safe_wrap {B C} held writes P (s : CallStmt B) (f : B → C) (wrap : error → error) (k : C → Tx A) (fail : error → A) :
  safe held writes P (tx_bind (query s) (λ r, match r with Ok x => k (f x) | Fail err => Return (fail (wrap err)) end)) →
  safe held writes P (tx_bind
    (tx_bind (query s) (λ r, match r with Ok x => Return (Ok (f x)) | Fail err => Return (Fail (wrap err)) end))
    (λ r, match r with Ok x => k x | Fail err => Return (fail err) end)).
Proof.
  cbn [query tx_bind safe]. intros [_ H]. split; [done|]. intros env others db now HI HP. specialize (H env others db now HI HP).
  cbv zeta in H |- *. intros Hc. specialize (H Hc). destruct (exec _ _ _ _ _) as [[x|err] new]; exact H.
Qed.

Lemma safe_admit held writes P participationID callID actor expires (k : string → Tx A) (fail : error → A) :
  stable held P →
  safe held (writes ++ [PutLease callID actor {| lease_participation := Some participationID; lease_expires_at := expires |}])
    P (k participationID) →
  safe held writes P (tx_bind (admitCallPresence participationID callID actor expires)
    (λ r, match r with Ok x => k x | Fail err => Return (fail err) end)).
Proof.
  intros HP Hk. apply (safe_wrap _ _ _ _ (λ _, participationID)).
  by eapply (safe_write _ _ _ _ tt [PutLease callID actor _]).
Qed.

Lemma safe_participation held writes P callID actor (k : string → Tx A) (fail : error → A) :
  stable held P → (∀ x, safe held writes P (k x)) →
  safe held writes P (tx_bind (currentParticipationID callID actor)
    (λ r, match r with Ok x => k x | Fail err => Return (fail err) end)).
Proof.
  intros HP Hk. apply (safe_wrap _ _ _ _ (λ p, match p with Some p => default "" p | None => "" end)).
  by apply safe_ask.
Qed.

Lemma safe_started held writes P ws call (k : string → Tx A) (fail : error → A) :
  stable held P → (∀ x, safe held writes P (k x)) →
  safe held writes P (tx_bind (insertCallStartedEvent ws call)
    (λ r, match r with Ok x => k x | Fail err => Return (fail err) end)).
Proof.
  intros HP Hk. unfold insertCallStartedEvent. destruct (call_event _ _ _ _) as [event|]; [|apply Hk].
  apply (safe_wrap _ _ _ _ id). by apply safe_ask.
Qed.

Lemma safe_ended held writes P ws call (k : string → Tx A) (fail : error → A) :
  stable held P → (∀ x, safe held writes P (k x)) →
  safe held writes P (tx_bind (insertCallEndedEvent ws call)
    (λ r, match r with Ok x => k x | Fail err => Return (fail err) end)).
Proof.
  intros HP Hk. unfold insertCallEndedEvent. destruct (call_event _ _ _ _) as [event|]; [|apply Hk].
  apply (safe_wrap _ _ _ _ id). by apply safe_ask.
Qed.

(** Nobody but a participant of [except] passes the busy test. *)
Lemma safe_busy held writes P ws actor except (k : bool → Tx A) (fail : error → A) :
  stable held P → LockKey actor ∈ held →
  (∀ db now, calls_inv db now → P db now →
    busy_query (apply_writes (store := call_store) db writes) now ws [actor] (Some except) = false →
    idle ws actor (Some except) db now) →
  safe held writes (λ db now, P db now ∧ idle ws actor (Some except) db now) (k false) →
  (∀ P', safe held writes P' (k true)) →
  safe held writes P (tx_bind (callParticipantBusy ws actor except)
    (λ r, match r with Ok x => k x | Fail err => Return (fail err) end)).
Proof.
  intros HP Hactor Hidle Hk Htrue. apply (safe_wrap _ _ _ _ id).
  apply (safe_read _ _ _ (λ x db now, P db now ∧ if (x : bool) then True else idle ws actor (Some except) db now)).
  - intros env others db now view. split_and!; [done..|]. intros HI HPdb -> x [= <-]. split; [done|].
    destruct (busy_query _ _ _ _ _) eqn:E; [done|]. by apply Hidle.
  - intros [|]; auto with calls.
  - intros [|]; [apply Htrue|exact Hk].
Qed.

Lemma safe_commit held writes P announce (a : A) (fail : error → A) :
  (∀ db now, calls_inv db now → P db now → kept held db now (apply_writes (store := call_store) db writes)) →
  safe held writes P (tx_bind (commit announce) (λ r, match r with Ok _ => Return a | Fail err => Return (fail err) end)).
Proof. intros H. cbn [commit tx_bind safe]. split; [done|]. by intros [|]. Qed.

(** A commit of nothing. *)
Lemma safe_commit_nil held P announce (a : A) (fail : error → A) :
  safe held [] P (tx_bind (commit announce) (λ r, match r with Ok _ => Return a | Fail err => Return (fail err) end)).
Proof. apply safe_commit. intros db now HI _. by apply kept_refl. Qed.
End Steps.

(** ** The operations keep the protocol *)

(** Close a branch that returns without a commit, by the test that leads there. *)
Ltac early :=
  match goal with
  | |- safe _ _ _ (if ?c then Return _ else _) => let E := fresh "Htest" in destruct c eqn:E; [done|]
  end.

Section Operations.
Context {advisory : AdvisoryHash}.

Lemma CreateCall_safe input : safe_tx (CreateCall input).
Proof.
  unfold safe_tx, CreateCall.
  apply safe_ask; [done|apply stable_True|intros _].
  apply safe_lockCallKeys; [apply stable_True|]. intros held _ Hkeys.
  assert (Hcaller : LockKey (cc_CallerID input) ∈ held) by (apply Hkeys; set_solver).
  assert (Hcallee : LockKey (cc_CalleeID input) ∈ held) by (apply Hkeys; set_solver).
  set (request := no_call (same_request (cc_WorkspaceID input) (cc_CallerID input) (cc_RequestID input))).
  apply (safe_read _ _ _ (λ x db now, match x with None => request db now | Some _ => True end)).
  { intros env others db now view. split_and!; [done..|]. intros _ _ -> x [= <-].
    destruct (find_call _ _) eqn:E; [done|]. by eapply find_call_None. }
  { intros [|]; [apply stable_True|by apply stable_no_request]. }
  intros [existing|]; [early; apply safe_commit_nil|].
  apply safe_ask; [done|by apply stable_no_request|]. intros count. early.
  set (free db now := idle (cc_WorkspaceID input) (cc_CallerID input) None db now ∧
                      idle (cc_WorkspaceID input) (cc_CalleeID input) None db now).
  assert (Hfree : ∀ held', held ⊆ held' → stable held' free).
  { intros held' Hsub. apply (stable_mono held); [done|]. unfold free. auto with calls. }
  apply (safe_read _ _ _ (λ x db now, request db now ∧ if (x : bool) then True else free db now)).
  { intros env others db now view. split_and!; [done..|]. intros HI Hreq -> x [= <-]. split; [done|].
    destruct (busy_query _ _ _ _ _) eqn:Hbusy; [done|]. split; (eapply busy_query_idle; [done..|set_solver]). }
  { intros [|]; apply stable_and; [by apply stable_no_request|apply stable_const|by apply stable_no_request|by apply Hfree]. }
  intros busy. destruct busy; [done|].
  apply safe_query. intros env others db now HI [Hreq Hfreedb]. cbv zeta. intros _.
  cbn [call_exec call_request apply_writes foldl].
  destruct (insert_call db (direct_row env now input)) as [[x|err] new] eqn:E; [|done].
  apply insert_call_Ok in E as (-> & -> & Hnone & Hcheck).
  exists (λ db now, (request db now ∧ free db now) ∧ row_is (e_newID env) None db now).
  split_and!; [|done..|].
  - apply stable_and; [|apply stable_row; left; set_solver].
    apply stable_and; [apply stable_no_request; set_solver|apply Hfree; set_solver].
  - apply safe_commit. clear db HI Hreq Hfreedb Hnone. intros db now' HI [[Hreq [Hf1 Hf2]] Hnone]. cbn.
    apply kept_new; cbn; [done|done| |done|by intros [|]|done|set_solver|set_solver].
    apply (new_row_wf (direct_row env now input)); [done|cbn; set_solver|by left|done].
Qed.

(** The row an operation has locked, as it knows it. *)
Definition locked_row (row : option Call) (ws : string) (db : CallDB) (now : Time) : Prop :=
  match row with
  | Some c => row_is (call_ID c) (Some c) db now ∧ call_WorkspaceID c = ws ∧ call_wf (call_ID c) c
  | None => True
  end.

(** From the call that is joined on: the busy test, the lease and the commit. *)
Lemma admission_safe {A} held ws call actor participationID expires (k : string → Tx A) (fail : error → A)
    (P : @DB call_store → Time → Prop) :
  stable held P → LockKey actor ∈ held →
  (safe held [PutLease (call_ID call) actor {| lease_participation := Some participationID; lease_expires_at := expires |}]
     (λ db now, P db now ∧ idle ws actor (Some (call_ID call)) db now) (k participationID)) →
  safe held [] P (tx_bind (callParticipantBusy ws actor (call_ID call))
    (λ r, match r with
          | Ok busy =>
              if busy then Return (fail ErrCallParticipantBusy)
              else tx_bind (admitCallPresence participationID (call_ID call) actor expires)
                     (λ r, match r with Ok pid => k pid | Fail err => Return (fail err) end)
          | Fail err => Return (fail err)
          end)).
Proof.
  intros HP Hactor Hk. apply safe_busy; [done|done| | |done].
  - intros db now HI _ Hbusy. eapply busy_query_idle; [done..|set_solver].
  - apply safe_admit; [auto with calls|]. apply Hk.
Qed.

Lemma admission_commit held ws call actor lease db now :
  calls_inv db now → locked_row (Some call) ws db now → resource_type (call_TargetType call) →
  call_Status call = "active" → idle ws actor (Some (call_ID call)) db now → LockKey actor ∈ held → holds_row held (call_ID call) →
  kept held db now (apply_writes (store := call_store) db [PutLease (call_ID call) actor lease]).
Proof. intros HI (Hrow & <- & _). intros. by apply (kept_lease held db now call). Qed.

Lemma call_row_Some db ws id c :
  call_row db ws id = Some c → calls db !! id = Some c ∧ call_WorkspaceID c = ws.
Proof. unfold call_row. destruct (calls db !! id) as [x|]; [|done]. case_bool_decide; [|done]. by intros [= <-]. Qed.

Lemma IsResource_type c : IsResource c = true ↔ resource_type (call_TargetType c).
Proof. unfold IsResource, resource_type. by rewrite orb_true_iff, !bool_decide_eq_true. Qed.

Lemma safe_select_row {A} held P (s : CallStmt (option Call)) (lock : string → Lock) ws id (k : option Call → Tx A)
    (fail : error → A) :
  (∀ env others now db, call_exec s env others now db = (Ok (call_row db ws id), []) ∧
     call_request s env others now db =
       match call_row db ws id with Some c => [lock (call_ID c)] | None => [] end) →
  (∀ id, lock id = LockRow id ∨ lock id = LockShare id) →
  stable held P →
  (∀ row, let held' := match row with Some c => [lock (call_ID c)] | None => [] end ++ held in
    stable held' (λ db now, P db now ∧ locked_row row ws db now) →
    (∀ c, row = Some c → holds_row held' (call_ID c)) →
    safe held' [] (λ db now, P db now ∧ locked_row row ws db now) (k row)) →
  safe held [] P (tx_bind (query s) (λ r, match r with Ok x => k x | Fail err => Return (fail err) end)).
Proof.
  intros Hs Hlock HP Hk. apply safe_query. intros env others db now HI HPdb. cbv zeta. intros _.
  destruct (Hs env others now (apply_writes (store := call_store) db [])) as [-> ->]. cbn [apply_writes foldl].
  specialize (Hk (call_row db ws id)). cbv zeta in Hk.
  assert (Hrow : ∀ c, call_row db ws id = Some c →
    holds_row (match call_row db ws id with Some c => [lock (call_ID c)] | None => [] end ++ held) (call_ID c)).
  { intros c E. rewrite E. destruct (Hlock (call_ID c)) as [->| ->]; [left|right]; set_solver. }
  exists (λ db' now', P db' now' ∧ locked_row (call_row db ws id) ws db' now').
  assert (Hst : stable (match call_row db ws id with Some c => [lock (call_ID c)] | None => [] end ++ held)
                  (λ db' now', P db' now' ∧ locked_row (call_row db ws id) ws db' now')).
  { apply stable_and; [eapply stable_mono; [|done]; set_solver|].
    destruct (call_row db ws id) as [c|]; cbn; [|apply stable_const].
    apply stable_and; [apply stable_row; by apply Hrow|apply stable_const]. }
  split_and!; [done|done| |by apply Hk].
  destruct (call_row db ws id) as [c|] eqn:E; [|done]. apply call_row_Some in E as [E ?].
  pose proof (inv_wf _ _ HI _ _ E) as Hwf. unfold locked_row, row_is. by rewrite (wf_id _ _ Hwf).
Qed.

Lemma JoinResourceCall_safe pid input : safe_tx (JoinResourceCall pid input).
Proof.
  unfold safe_tx, JoinResourceCall. apply safe_ask; [done|apply stable_True|intros _].
  apply safe_lockCallKeys; [apply stable_True|]. intros held _ Hkeys.
  assert (Hactor : LockKey (jr_ActorID input) ∈ held) by (apply Hkeys; set_solver).
  apply (safe_select_row _ _ _ LockRow (jr_WorkspaceID input) (jr_CallID input)); [done|by left|apply stable_True|].
  intros [call|] held' Hst Hrow; [|done]. specialize (Hrow call eq_refl). do 3 early.
  apply safe_authorize; [done|]. intros Ht b. early.
  apply admission_safe; [done|set_solver|]. apply safe_commit.
  intros db now HI [[_ Hcall] Hidle]. apply negb_false_iff, bool_decide_eq_true in Htest1.
  eapply admission_commit; [done..|set_solver|done].
Qed.

Lemma RenewCallPresence_safe input : safe_tx (RenewCallPresence input).
Proof.
  unfold safe_tx, RenewCallPresence. apply safe_ask; [done|apply stable_True|intros _].
  apply safe_lockCallKeys; [apply stable_True|]. intros held _ Hkeys.
  assert (Hactor : LockKey (rp_ActorID input) ∈ held) by (apply Hkeys; set_solver).
  apply (safe_select_row _ _ _ LockShare (rp_WorkspaceID input) (rp_CallID input)); [done|by right|apply stable_True|].
  intros [call|] held' Hst Hrow; [|done]. specialize (Hrow call eq_refl). early.
  apply safe_authorize; [done|]. intros Ht b. early.
  apply safe_busy; [done|set_solver| | |done].
  { intros db now HI _ Hbusy. eapply busy_query_idle; [done..|set_solver]. }
  apply (safe_wrap _ _ _ _ (λ lapsed, match lapsed with None => leaseNotRenewed | Some true => leaseRevived
                                                      | Some false => leaseExtended end)).
  apply safe_query. intros env others db now HI HP. cbv zeta. intros _. cbn [call_exec call_request app].
  destruct (leases (apply_writes (store := call_store) db []) !! (call_ID call, rp_ActorID input)) as [l|];
    [destruct (lease_participation l == fence_of (rp_ParticipationID input))|];
    cbv iota beta; [|exists (λ _ _, True); (split_and!; [apply stable_True|done|done])..].
  exists (λ db now, (True ∧ locked_row (Some call) (rp_WorkspaceID input) db now) ∧
                    idle (rp_WorkspaceID input) (rp_ActorID input) (Some (call_ID call)) db now).
  split_and!; [|apply HP..|]; [apply stable_and; [done|apply stable_idle; set_solver]|].
  apply orb_false_iff in Htest as [_ Hactive]. apply negb_false_iff, bool_decide_eq_true in Hactive.
  destruct (lease_expires_at l <=? now); apply safe_commit;
    (intros db0 now0 HI0 [[_ Hcall] Hidle]; eapply admission_commit; [done..|set_solver|done]).
Qed.

Lemma resource_row_kept held env t input db now :
  let row := resource_row env t input in
  calls_inv db now → calls db !! call_ID row = None → calls_check row = true →
  resource_type (cr_TargetType input) →
  no_call (same_request (cr_WorkspaceID input) (cr_CallerID input) (cr_RequestID input)) db now →
  no_call (active_for (cr_WorkspaceID input) (cr_TargetType input) (cr_TargetID input)) db now →
  LockRow (call_ID row) ∈ held → LockKey (cr_CallerID input) ∈ held →
  LockKey (target_key (cr_WorkspaceID input) (cr_TargetType input) (cr_TargetID input)) ∈ held →
  kept held db now (call_apply db (PutCall row)).
Proof.
  intros row HI Hnone Hcheck Ht Hreq Hvac Hrow Hactor Htarget.
  assert (Hnu : cr_TargetType input ≠ "user") by (by destruct Ht as [->| ->]).
  apply kept_new; [done|done| |done|done|by intros|done|].
  - apply new_row_wf; [done|done|right; split; [done|by eexists]|done].
  - intros key. unfold call_keys. cbn. rewrite bool_decide_eq_false_2 by done. set_solver.
Qed.

Lemma idle_before_put db c ws user now :
  calls db !! call_ID c = None → idle ws user (Some (call_ID c)) (call_apply db (PutCall c)) now →
  idle ws user (Some (call_ID c)) db now.
Proof.
  intros Hnone Hidle id He. apply Hidle. destruct (decide (call_ID c = id)) as [<-|Hne].
  - destruct He as (x & Hx & _). congruence.
  - by apply engaged_put_ne.
Qed.

Lemma idle_after_put db c ws user now :
  idle ws user (Some (call_ID c)) db now → idle ws user (Some (call_ID c)) (call_apply db (PutCall c)) now.
Proof.
  intros Hidle id He. destruct (decide (call_ID c = id)) as [<-|Hne]; [done|].
  apply Hidle. by rewrite engaged_put_ne in He.
Qed.

(** What [CreateResourceCall] knows when it has inserted its call. *)
Definition vacant_for (input : CreateResourceCallInput) (id : string) (db : CallDB) (now : Time) : Prop :=
  (no_call (same_request (cr_WorkspaceID input) (cr_CallerID input) (cr_RequestID input)) db now ∧
   no_call (active_for (cr_WorkspaceID input) (cr_TargetType input) (cr_TargetID input)) db now) ∧
  row_is id None db now.

Lemma vacant_stable held input id :
  resource_type (cr_TargetType input) → LockKey (cr_CallerID input) ∈ held →
  LockKey (target_key (cr_WorkspaceID input) (cr_TargetType input) (cr_TargetID input)) ∈ held →
  stable (LockRow id :: held) (vacant_for input id).
Proof.
  intros Ht ??. unfold vacant_for.
  repeat apply stable_and; [apply stable_no_request|apply stable_no_active|apply stable_row; left];
    first [done|set_solver].
Qed.

(** The rest of [CreateResourceCall] from there. *)
Lemma safe_created {A} held env t input pid (k : string → string → A) (fail : error → A) :
  let row := resource_row env t input in
  resource_type (cr_TargetType input) → calls_check row = true →
  LockKey (cr_CallerID input) ∈ held →
  LockKey (target_key (cr_WorkspaceID input) (cr_TargetType input) (cr_TargetID input)) ∈ held →
  safe (LockRow (call_ID row) :: held) [PutCall row] (vacant_for input (call_ID row))
    (tx_bind (callParticipantBusy (cr_WorkspaceID input) (cr_CallerID input) (call_ID row))
      (λ r, match r with
            | Ok busy =>
                if busy then Return (fail ErrCallParticipantBusy)
                else tx_bind (admitCallPresence pid (call_ID row) (cr_CallerID input) (cr_ExpiresAt input))
                  (λ r, match r with
                        | Ok pid =>
                            tx_bind (insertCallStartedEvent (cr_WorkspaceID input) row)
                              (λ r, match r with
                                    | Ok event =>
                                        tx_bind (commit [cr_CallerID input])
                                          (λ r, match r with
                                                | Ok _ => Return (k pid event)
                                                | Fail err => Return (fail (ErrWrap "commit resource call" err))
                                                end)
                                    | Fail err => Return (fail err)
                                    end)
                        | Fail err => Return (fail err)
                        end)
            | Fail err => Return (fail err)
            end)).
Proof.
  intros row Ht Hcheck Hactor Htarget. set (held' := LockRow (call_ID row) :: held).
  assert (Hst : stable held' (vacant_for input (call_ID row))) by (by apply vacant_stable).
  assert (Hnew : ∀ db now, calls_inv db now → vacant_for input (call_ID row) db now →
                           kept held' db now (call_apply db (PutCall row))).
  { intros db now HI [[Hreq Hvac] Hnone]. apply resource_row_kept; try done; unfold held'; set_solver. }
  apply safe_busy; [done|unfold held'; set_solver| | |done].
  - intros db now HI HP Hbusy. apply (idle_before_put db row); [apply HP|].
    eapply busy_query_idle; [by apply (Hnew db now)|done|set_solver].
  - assert (Hst' : stable held' (λ db now, vacant_for input (call_ID row) db now ∧
      idle (cr_WorkspaceID input) (cr_CallerID input) (Some (call_ID row)) db now))
      by (apply stable_and; [done|apply stable_idle; unfold held'; set_solver]).
    apply safe_admit; [done|]. apply safe_started; [done|]. intros event. apply safe_commit.
    intros db now HI [HP Hidle]. cbn [apply_writes foldl app].
    eapply kept_trans; [|by apply (Hnew db now)|]; [done|].
    apply (kept_lease held' _ now row); [by apply (Hnew db now)|apply lookup_insert_eq|done|done|
      by apply idle_after_put|unfold held'; set_solver|left; unfold held'; set_solver].
Qed.

Lemma CreateResourceCall_safe pid input : safe_tx (CreateResourceCall pid input).
Proof.
  unfold safe_tx, CreateResourceCall. apply safe_ask; [done|apply stable_True|intros _].
  apply safe_lockCallKeys; [apply stable_True|]. intros held _ Hkeys.
  assert (Hactor : LockKey (cr_CallerID input) ∈ held) by (apply Hkeys; set_solver).
  assert (Htarget : LockKey (target_key (cr_WorkspaceID input) (cr_TargetType input) (cr_TargetID input)) ∈ held)
    by (apply Hkeys; set_solver).
  set (request := no_call (same_request (cr_WorkspaceID input) (cr_CallerID input) (cr_RequestID input))).
  set (vacant := no_call (active_for (cr_WorkspaceID input) (cr_TargetType input) (cr_TargetID input))).
  assert (Hrequest : ∀ held', held ⊆ held' → stable held' request)
    by (intros; apply stable_no_request; set_solver).
  apply (safe_read _ _ _ (λ x db now, match x with None => request db now | Some _ => True end)).
  { intros env others db now view. split_and!; [done..|]. intros _ _ -> x [= <-].
    destruct (find_call _ _) eqn:E; [done|]. by eapply find_call_None. }
  { intros [|]; [apply stable_True|by apply Hrequest]. }
  intros [existing|].
  { early. apply safe_participation; [apply stable_True|]. intros p. early. apply safe_commit_nil. }
  apply safe_authorize; [by apply Hrequest|]. intros Ht b. early.
  assert (Hvacant : ∀ held', held ⊆ held' → stable held' vacant)
    by (intros; apply stable_no_active; [done|set_solver]).
  apply safe_query. intros env others db now HI Hreq. cbv zeta. intros _.
  cbn [call_exec call_request apply_writes foldl].
  destruct (find_call _ db) as [call|] eqn:Hfind.
  - apply find_call_Some in Hfind as (id & Hcall & Ha). apply active_for_true in Ha as (Hws & Htt & Htid & Hst).
    exists (locked_row (Some call) (cr_WorkspaceID input)). split_and!.
    + apply stable_and; [apply stable_row; left; set_solver|apply stable_const].
    + pose proof (inv_wf _ _ HI _ _ Hcall) as Hwf. unfold locked_row, row_is. by rewrite (wf_id _ _ Hwf).
    + cbn [tx_bind]. apply admission_safe; [|set_solver|].
      { apply stable_and; [apply stable_row; left; set_solver|apply stable_const]. }
      cbn [tx_bind]. apply safe_commit. intros db0 now0 HI0 [Hrow Hidle].
      eapply admission_commit; [done..|by rewrite Htt|done|done|set_solver|left; set_solver].
  - apply find_call_None with (now := now) in Hfind.
    exists (λ db now, request db now ∧ vacant db now). split_and!; [|done|done|].
    { apply stable_and; [by apply Hrequest|by apply Hvacant]. }
    cbn [app]. clear env others db now HI Hreq Hfind.
    apply safe_query. intros env others db now HI [Hreq Hvac]. cbv zeta. intros _.
    cbn [call_exec call_request apply_writes foldl].
    set (row := resource_row env now input).
    destruct (insert_call db row) as [[x|err] new] eqn:E; [|done].
    apply insert_call_Ok in E as (-> & -> & Hnone & Hcheck).
    exists (vacant_for input (call_ID row)). split_and!; [by apply vacant_stable|done..|].
    by apply (safe_created held env now input pid
      (λ p event, Ok (row, (call_RequestID row == cr_RequestID input) && (call_CallerID row == cr_CallerID input), p, event))
      Fail).
Qed.

(** [updateCallStatus] of a row the operation has locked. *)
Lemma safe_update {A} held writes P call status (k : Call → Tx A) (fail : error → A) :
  stable held P → LockRow (call_ID call) ∈ held →
  (∀ db now, P db now → calls (apply_writes (store := call_store) db writes) !! call_ID call = Some call) →
  (∀ db now, P db now → call_wf (call_ID call) call) →
  (call_wf (call_ID call) call → status_le (call_Status call) status ∧ status ≠ call_Status call ∧
    (resource_type (call_TargetType call) → status = "ended")) →
  (∀ held' call', held ⊆ held' → stable held' P → evolves call call' → call_wf (call_ID call) call' →
    safe held' (writes ++ [PutCall call']) P (k call')) →
  safe held writes P (tx_bind (updateCallStatus (call_ID call) status)
    (λ r, match r with Ok x => k x | Fail err => Return (fail err) end)).
Proof.
  intros HP Hlock Hview Hwf Hstatus Hk. apply (safe_wrap _ _ _ _ id). apply safe_query.
  intros env others db now HI HPdb. cbv zeta. intros _. cbn [call_exec call_request].
  rewrite (Hview db now HPdb). specialize (Hwf db now HPdb). destruct (Hstatus Hwf) as (Hle & Hne & Hres).
  destruct (with_status_ok _ _ status now Hwf Hle Hne Hres) as [Hev Hwf'].
  exists P. split; [eapply stable_mono; [|done]; set_solver|]. split; [done|].
  apply Hk; [set_solver|eapply stable_mono; [|done]; set_solver|done|done].
Qed.

Lemma LeaveResourceCall_safe input : safe_tx (LeaveResourceCall input).
Proof.
  unfold safe_tx, LeaveResourceCall. cbv zeta. apply safe_ask; [done|apply stable_True|intros _].
  apply safe_lockCallKeys; [apply stable_True|]. intros held _ Hkeys.
  assert (Hactor : LockKey (lr_ActorID input) ∈ held) by (apply Hkeys; set_solver).
  apply (safe_select_row _ _ _ LockRow (lr_WorkspaceID input) (lr_CallID input)); [done|by left|apply stable_True|].
  intros [call|] held' Hst Hrow; [|done]. specialize (Hrow call eq_refl). early.
  set (known db now := True ∧ locked_row (Some call) (lr_WorkspaceID input) db now) in *.
  set (w := DeleteLease (call_ID call) (lr_ActorID input)).
  assert (Hrelease : ∀ db now, calls_inv db now → known db now → kept held' db now (call_apply db w)).
  { intros db now HI _. apply kept_release; [done|unfold held'; set_solver|done]. }
  apply safe_query. intros env others db now HI HP. cbv zeta. intros _. cbn [call_exec call_request app].
  destruct (leases (apply_writes (store := call_store) db []) !! _) as [l|]; [destruct (_ == _)|];
    cbv iota beta; exists known; (split_and!; [done|apply HP..|]); clear db now HI HP; cbn [negb].
  2,3: apply safe_authorize; [done|]; intros _ b; early; apply safe_commit_nil.
  destruct (call_Status call != CallStatusActive) eqn:Hstatus; [by apply safe_commit|].
  apply safe_ask; [done|done|]. intros [|]; [by apply safe_commit|].
  apply negb_false_iff, bool_decide_eq_true in Hstatus.
  apply safe_update; [done|unfold held'; set_solver| | | |].
  - intros db now (_ & Hcall & _). exact Hcall.
  - by intros db now (_ & _ & _ & Hwf).
  - intros _. rewrite Hstatus. split_and!; [right; right; done|done|done].
  - intros held'' ended Hsub Hst' Hev Hwf. apply safe_commit. intros db now HI HP.
    assert (Hkept : kept held'' db now (call_apply db w)).
    { apply kept_release; [done|unfold held' in *; set_solver|destruct Hrow; [left|right]; set_solver]. }
    eapply kept_trans; [|exact Hkept|]; [apply delete_subseteq|]. destruct HP as (_ & Hcall & _).
    refine (kept_evolve held'' (call_apply db w) now call ended (proj1 Hkept) Hcall Hev Hwf _).
    unfold held' in *. set_solver.
Qed.

Lemma authorizeCallTransition_moves call actor action next :
  authorizeCallTransition call actor action = Ok (next, false) →
  status_le (call_Status call) next ∧ next ≠ call_Status call ∧
  (resource_type (call_TargetType call) → next = "ended").
Proof.
  assert (Hle : ∀ s s', (s = "ringing" ∧ s' ∈ ["active"; "declined"; "cancelled"]) ∨ (s = "active" ∧ s' = "ended") →
                        status_le s s' ∧ s' ≠ s).
  { intros s s' [[-> Hs]|[-> ->] ]; [|split; [right; by right|done] ]. split; [right; left; set_solver|].
    rewrite !elem_of_cons, elem_of_nil in Hs. by destruct Hs as [->|[->|[->|[] ] ] ]. }
  unfold authorizeCallTransition. destruct (IsResource call) eqn:Hres.
  - destruct (_ || _); [done|]. repeat case_bool_decide; cbn; intros; simplify_eq.
    split_and!; [apply Hle; by right|apply Hle; by right|done].
  - assert (Hno : resource_type (call_TargetType call) → next = "ended")
      by (intros Hr; apply IsResource_type in Hr; congruence).
    cbv zeta. repeat (case_bool_decide; cbn; try done); intros; simplify_eq;
      (split_and!; [apply Hle|apply Hle|done]); first [left; split; [done|set_solver]|right; done].
Qed.

Lemma safe_commitTransition {A} held writes P call next (a : A) (fail : error → A) :
  stable held P →
  (∀ db now, calls_inv db now → P db now → kept held db now (apply_writes (store := call_store) db writes)) →
  safe held writes P (tx_bind (commitTransition call next)
    (λ r, match r with Ok _ => Return a | Fail err => Return (fail err) end)).
Proof.
  intros HP Hk. unfold commitTransition, participationChangedBy.
  destruct (_ && _); [by apply safe_commit|]. destruct (negb _); [by apply safe_commit|].
  cbn [query tx_bind safe]. split; [done|]. intros env others db now HI HPdb. cbv zeta. intros _.
  cbn [exec request call_store call_exec call_request]. rewrite app_nil_r. exists P. split_and!; [done..|].
  by apply (safe_commit held writes P _ a fail).
Qed.

Lemma safe_clock {A} held writes P (b : bool) (k : Time → Tx A) (fail : error → A) :
  stable held P → (∀ x, safe held writes P (k x)) →
  safe held writes P (tx_bind (if b then query SelectClock else Return (Ok time_zero))
    (λ r, match r with Ok x => k x | Fail err => Return (fail err) end)).
Proof. intros HP Hk. destruct b; [by apply safe_ask|apply Hk]. Qed.

Lemma safe_event {A} held writes P (b : bool) ws call (k : string → Tx A) (fail : error → A) :
  stable held P → (∀ x, safe held writes P (k x)) →
  safe held writes P (tx_bind (if b then insertCallEndedEvent ws call else Return (Ok ""))
    (λ r, match r with Ok x => k x | Fail err => Return (fail err) end)).
Proof. intros HP Hk. destruct b; [by apply safe_ended|apply Hk]. Qed.

Lemma TransitionCall_safe input : safe_tx (TransitionCall input).
Proof.
  unfold safe_tx, TransitionCall. cbv zeta. apply safe_ask; [done|apply stable_True|intros _].
  apply (safe_select_row _ _ _ LockRow (tc_WorkspaceID input) (tc_CallID input)); [done|by left|apply stable_True|].
  intros [call|] held' Hst Hrow; [|done]. specialize (Hrow call eq_refl). early.
  set (known db now := True ∧ locked_row (Some call) (tc_WorkspaceID input) db now) in *.
  assert (Hview : ∀ db now, known db now → calls db !! call_ID call = Some call) by (by intros db now (_ & ? & _)).
  assert (Hwf : ∀ db now, known db now → call_wf (call_ID call) call) by (by intros db now (_ & _ & _ & ?)).
  assert (Hlock : LockRow (call_ID call) ∈ held') by (unfold held'; set_solver).
  assert (Hput : ∀ held'' call' db now, held' ⊆ held'' → evolves call call' → call_wf (call_ID call) call' →
    calls_inv db now → known db now → kept held'' db now (apply_writes (store := call_store) db [PutCall call'])).
  { intros held'' call' db now Hsub Hev Hwf' HI HP.
    refine (kept_evolve held'' db now call call' HI (Hview db now HP) Hev Hwf' _). set_solver. }
  apply safe_clock; [done|]. intros clock.
  destruct ((call_Status call == CallStatusRinging) && negb (time_After (call_ExpiresAt call) clock)) eqn:Hexpired.
  - apply andb_true_iff in Hexpired as [Hringing _]. apply bool_decide_eq_true in Hringing.
    apply safe_update; [done|done|exact Hview|exact Hwf| |].
    + intros Hwf0. rewrite Hringing. split_and!; [right; left; split; [done|set_solver]|done|].
      intros Ht. destruct (wf_resource _ _ Hwf0 Ht) as [E|E]; rewrite Hringing in E; done.
    + intros held'' expired Hsub Hst' Hev Hwf'. apply safe_commit. intros. by apply Hput.
  - destruct (authorizeCallTransition call (tc_ActorID input) (tc_Action input)) as [[next [|]]|err] eqn:Hauth;
      [apply safe_commit_nil| |done].
    apply authorizeCallTransition_moves in Hauth.
    apply safe_update; [done|done|exact Hview|exact Hwf|done|].
    intros held'' updated Hsub Hst' Hev Hwf'. cbn [app].
    apply safe_event; [done|]. intros event. apply safe_commitTransition; [done|]. intros. by apply Hput.
Qed.

Lemma NoDup_fmap_filter {X K} (f : X → K) (P : X → Prop) `{!∀ x, Decision (P x)} l :
  NoDup (f <$> l) → NoDup (f <$> filter P l).
Proof.
  induction l as [|x l IH]; [done|]. rewrite fmap_cons, NoDup_cons. intros [Hx Hl]. rewrite filter_cons.
  case_decide; [|auto]. rewrite fmap_cons, NoDup_cons. split; [|auto].
  intros (y & E & [_ Hy]%list_elem_of_filter)%list_elem_of_fmap. apply Hx, list_elem_of_fmap. eauto.
Qed.

Lemma NoDup_fmap_omap {X K} (f : X → K) (g : X → option X) l :
  (∀ x y, x ∈ l → g x = Some y → f y = f x) → NoDup (f <$> l) → NoDup (f <$> omap g l).
Proof.
  induction l as [|x l IH]; [done|]. intros Hg. rewrite fmap_cons, NoDup_cons. intros [Hx Hl].
  assert (Hrest : NoDup (f <$> omap g l)) by (apply IH; [intros; apply Hg; [by right|done]|done]).
  cbn. destruct (g x) as [y|] eqn:Hy; [|done]. rewrite fmap_cons, NoDup_cons. split; [|done].
  intros (z & E & (w & Hw & Hz)%list_elem_of_omap)%list_elem_of_fmap. apply Hx, list_elem_of_fmap.
  exists w. split; [|done]. rewrite <-(Hg x y), E by (by left || done). apply Hg; [by right|done].
Qed.

(** The rows the sweep takes are current, distinct and due. *)
Lemma sweep_rows_spec locked snapshot limit now db later :
  (∀ id c, calls snapshot !! id = Some c → call_ID c = id) → calls_inv db later →
  NoDup (call_ID <$> sweep_rows locked snapshot limit now db) ∧
  ∀ c, c ∈ sweep_rows locked snapshot limit now db →
    calls db !! call_ID c = Some c ∧ call_wf (call_ID c) c ∧ sweep_due snapshot now c = true.
Proof.
  intros Hids HI. unfold sweep_rows.
  set (due := filter (λ c, sweep_due snapshot now c = true) ((map_to_list (calls snapshot)).*2)).
  assert (Hdue : ∀ c, c ∈ due → sweep_due snapshot now c = true ∧ ∃ id, calls snapshot !! id = Some c).
  { intros c [Hc Hin]%list_elem_of_filter. split; [done|].
    apply list_elem_of_fmap in Hin as ([id c'] & -> & Hin%elem_of_map_to_list). eauto. }
  assert (Hlock : ∀ c c', sweep_lockable locked snapshot now db c = Some c' → c ∈ due →
    call_ID c' = call_ID c ∧ calls db !! call_ID c' = Some c' ∧ call_wf (call_ID c') c' ∧ sweep_due snapshot now c' = true).
  { intros c c' Hs Hc. unfold sweep_lockable in Hs. destruct (locked _); [done|].
    destruct (calls db !! call_ID c) as [x|] eqn:Hx; [|done]. pose proof (inv_wf _ _ HI _ _ Hx) as Hwf.
    pose proof (wf_id _ _ Hwf) as Eid. destruct (_ || _) eqn:Ht; [|done]. injection Hs as ->.
    rewrite Eid. split_and!; [done..|]. apply orb_true_iff in Ht as [->%bool_decide_eq_true|?]; [by apply Hdue|done]. }
  assert (Hsorted : ∀ c, c ∈ merge_sort sweep_le due ↔ c ∈ due) by (intros; by rewrite merge_sort_Permutation).
  split.
  - rewrite fmap_take. eapply sublist_NoDup; [|apply sublist_take].
    apply NoDup_fmap_omap; [intros c c' Hc%Hsorted Hs; by destruct (Hlock c c' Hs Hc)|].
    rewrite merge_sort_Permutation. apply NoDup_fmap_filter.
    replace (call_ID <$> (map_to_list (calls snapshot)).*2) with ((map_to_list (calls snapshot)).*1);
      [apply NoDup_fst_map_to_list|].
    rewrite <-list_fmap_compose. apply list_fmap_ext. intros i [id c] Hi. cbn. symmetry. apply Hids.
    apply elem_of_map_to_list. by eapply list_elem_of_lookup_2.
  - intros c' Hc'. apply subseteq_take, list_elem_of_omap in Hc' as (c & Hc%Hsorted & Hs).
    by destruct (Hlock c c' Hs Hc).
Qed.

Lemma kept_evolve_list held db now (l : list (Call * Call)) :
  calls_inv db now → NoDup (call_ID <$> l.*1) →
  (∀ c c', (c, c') ∈ l → calls db !! call_ID c = Some c ∧ evolves c c' ∧ call_wf (call_ID c) c' ∧
                         LockRow (call_ID c) ∈ held) →
  kept held db now (apply_writes (store := call_store) db (PutCall <$> l.*2)).
Proof.
  revert db. induction l as [|[c c'] l IH]; intros db HI Hnd Hl; [by apply kept_refl|].
  rewrite !fmap_cons, NoDup_cons in Hnd. destruct Hnd as [Hnew Hnd]. cbn [fst] in Hnew. destruct (Hl c c') as (Hc & Hev & Hwf & Hlock); [by left|].
  assert (Hkept : kept held db now (call_apply db (PutCall c'))) by (by apply (kept_evolve held db now c c')).
  eapply kept_trans; [|exact Hkept|]; [done|]. apply IH; [apply Hkept|done|].
  intros x x' Hx. destruct (Hl x x') as (Hxc & ? & ? & ?); [by right|]. split_and!; [|done..].
  rewrite calls_put, decide_False; [done|]. rewrite (ev_id _ _ Hev). intros E. apply Hnew. rewrite E.
  apply list_elem_of_fmap. exists x. split; [done|]. apply list_elem_of_fmap. by exists (x, x').
Qed.

Lemma sweep_next_moves snapshot now c :
  call_wf (call_ID c) c → sweep_due snapshot now c = true →
  status_le (call_Status c) (sweep_next c) ∧ sweep_next c ≠ call_Status c ∧
  (resource_type (call_TargetType c) → sweep_next c = "ended").
Proof.
  intros Hwf Hdue. unfold sweep_due, sweep_next in *. case_bool_decide as Hr; cbn in Hdue.
  - rewrite Hr. split_and!; [right; left; split; [done|set_solver]|done|].
    intros Ht. destruct (wf_resource _ _ Hwf Ht) as [E|E]; by rewrite Hr in E.
  - apply andb_true_iff in Hdue as [Hdue _]. apply andb_true_iff in Hdue as [->%bool_decide_eq_true _].
    split_and!; [by right; right|done|done].
Qed.

Lemma ExpireDueCalls_safe limit : safe_tx (ExpireDueCalls limit).
Proof.
  unfold safe_tx, ExpireDueCalls.
  set (scanned (snapshot : CallDB) := ∀ id c, calls snapshot !! id = Some c → call_ID c = id).
  apply (safe_read _ _ _ (λ snapshot _ _, scanned snapshot)).
  { intros env others db now view. split_and!; [done..|]. intros HI _ -> x [= <-] id c Hc.
    by apply (wf_id _ _ (inv_wf _ _ HI _ _ Hc)). }
  { intros. apply stable_const. }
  intros snapshot. apply safe_query. intros env others db now HI Hids. cbv zeta. intros _.
  cbn [call_exec call_request apply_writes foldl].
  set (rows := sweep_rows (row_locked others) snapshot limit now db).
  destruct (sweep_rows_spec (row_locked others) snapshot limit now db now Hids HI) as [Hnd Hrows]. fold rows in Hnd, Hrows.
  set (held := ((λ c, LockRow (call_ID c)) <$> rows) ++ []).
  assert (Hheld : ∀ c, c ∈ rows → LockRow (call_ID c) ∈ held).
  { intros c Hc. unfold held. rewrite app_nil_r. apply list_elem_of_fmap. by exists c. }
  exists (λ db _, ∀ c, c ∈ rows → calls db !! call_ID c = Some c). split_and!.
  - intros db0 now0 db1 now1 _ _ HR Hin c Hc. rewrite (rely_row _ _ _ _ _ HR); [by apply Hin|left; by apply Hheld].
  - intros c Hc. by apply Hrows.
  - apply safe_commit. intros db' now' HI' Hin.
    replace ([] ++ _) with (PutCall <$> ((λ c, (c, with_status c (sweep_next c) now)) <$> rows).*2)
      by (cbn; by rewrite <-!list_fmap_compose).
    apply kept_evolve_list; [done| |].
    { rewrite <-(list_fmap_compose _ fst rows). erewrite (list_fmap_ext _ id); [by rewrite list_fmap_id|done]. }
    intros c c' Hc. apply list_elem_of_fmap in Hc as (x & [= -> ->] & Hx).
    destruct (Hrows x Hx) as (_ & Hwf & Hdue). destruct (sweep_next_moves _ _ _ Hwf Hdue) as (Hle & Hne & Hres).
    destruct (with_status_ok _ _ _ now Hwf Hle Hne Hres). split_and!; [by apply Hin|done|done|by apply Hheld].
Qed.
End Operations.

(** ** The order of the locks *)

Section Order.
Context {advisory : AdvisoryHash} {A : Type}.

Lemma ordered_try {B} held (s : CallStmt B) (k : B → Tx A) (fail : error → A) :
  (∀ env others now db,
    let req := call_request s env others now db in
    Forall (acquirable held) req ∧
    match fst (call_exec s env others now db) with Ok x => ordered (req ++ held) (k x) | Fail _ => True end) →
  ordered held (tx_bind (query s) (λ r, match r with Ok x => k x | Fail err => Return (fail err) end)).
Proof.
  intros H. cbn [query tx_bind ordered]. intros env others now db. destruct (H env others now db) as [Hreq Hk].
  cbn [request exec call_store]. split; [done|]. split; [|done].
  assert (Hcases : ∀ held' (r : result B), match r with Ok x => ordered held' (k x) | Fail _ => True end →
    ordered held' (match r with Ok x => k x | Fail err => Return (fail err) end)) by (by intros held' []).
  exact (Hcases _ _ Hk).
Qed.

Lemma ordered_ask {B} held (s : CallStmt B) (k : B → Tx A) (fail : error → A) :
  (∀ env others now db, call_request s env others now db = []) → (∀ x, ordered held (k x)) →
  ordered held (tx_bind (query s) (λ r, match r with Ok x => k x | Fail err => Return (fail err) end)).
Proof.
  intros Hs Hk. apply ordered_try. intros env others now db. cbv zeta. rewrite Hs. split; [done|].
  destruct (fst (call_exec _ _ _ _ _)); [apply Hk|done].
Qed.

Lemma ordered_wrap {B C} held (s : CallStmt B) (f : B → C) (wrap : error → error) (k : C → Tx A) (fail : error → A) :
  ordered held (tx_bind (query s) (λ r, match r with Ok x => k (f x) | Fail err => Return (fail (wrap err)) end)) →
  ordered held (tx_bind
    (tx_bind (query s) (λ r, match r with Ok x => Return (Ok (f x)) | Fail err => Return (Fail (wrap err)) end))
    (λ r, match r with Ok x => k x | Fail err => Return (fail err) end)).
Proof.
  cbn [query tx_bind ordered]. intros H env others now db. destruct (H env others now db) as (? & Hk & ?).
  split; [done|]. split; [|done]. revert Hk. generalize (fst (exec s env others now db)). by intros [].
Qed.

Lemma ordered_lockSorted held keys (k : unit → Tx A) (fail : error → A) :
  StronglySorted String.le keys → Forall is_key held →
  (∀ key, key ∈ keys → acquirable held (LockKey key)) →
  (∀ held', Forall is_key held' → ordered held' (k tt)) →
  ordered held (tx_bind (lockSorted keys) (λ r, match r with Ok x => k x | Fail err => Return (fail err) end)).
Proof.
  intros Hsorted. revert held.
  induction Hsorted as [|key keys Hsorted IH Hkey]; intros held Hheld Hacq Hk; [by apply Hk|].
  cbn [lockSorted query tx_bind ordered]. intros env others now db. cbn [request exec call_store call_exec call_request fst].
  split; [repeat constructor; apply Hacq; by left|]. split; [|done].
  apply IH; [by constructor| |done]. intros key' Hkey' l [->|Hl]%elem_of_cons.
  - rewrite Forall_forall in Hkey. by apply Hkey.
  - apply (Hacq key'); [by right|done].
Qed.

Lemma ordered_lockCallKeys keys (k : unit → Tx A) (fail : error → A) :
  (∀ held, Forall is_key held → ordered held (k tt)) →
  ordered [] (tx_bind (lockCallKeys keys) (λ r, match r with Ok x => k x | Fail err => Return (fail err) end)).
Proof.
  intros Hk. apply ordered_lockSorted; [apply (StronglySorted_merge_sort String.le)|constructor| |done].
  intros key Hkey l Hl. by apply elem_of_nil in Hl.
Qed.

Lemma ordered_authorize held ws actor tt_ tid (k : bool → Tx A) (fail : error → A) :
  (∀ b, ordered held (k b)) →
  ordered held (tx_bind (authorizeResourceTarget ws actor tt_ tid)
    (λ r, match r with Ok x => k x | Fail err => Return (fail err) end)).
Proof.
  intros Hk. unfold authorizeResourceTarget. destruct (_ || _); [|done]. apply (ordered_wrap _ _ id). by apply ordered_ask.
Qed.

Lemma ordered_busy held ws actor except (k : bool → Tx A) (fail : error → A) :
  (∀ b, ordered held (k b)) →
  ordered held (tx_bind (callParticipantBusy ws actor except)
    (λ r, match r with Ok x => k x | Fail err => Return (fail err) end)).
Proof. intros Hk. apply (ordered_wrap _ _ id). by apply ordered_ask. Qed.

Lemma ordered_admit held pid callID actor expires (k : string → Tx A) (fail : error → A) :
  (∀ x, ordered held (k x)) →
  ordered held (tx_bind (admitCallPresence pid callID actor expires)
    (λ r, match r with Ok x => k x | Fail err => Return (fail err) end)).
Proof. intros Hk. apply (ordered_wrap _ _ (λ _, pid)). by apply ordered_ask. Qed.

Lemma ordered_started held ws call (k : string → Tx A) (fail : error → A) :
  (∀ x, ordered held (k x)) →
  ordered held (tx_bind (insertCallStartedEvent ws call)
    (λ r, match r with Ok x => k x | Fail err => Return (fail err) end)).
Proof.
  intros Hk. unfold insertCallStartedEvent. destruct (call_event _ _ _ _); [|apply Hk].
  apply (ordered_wrap _ _ id). by apply ordered_ask.
Qed.

Lemma ordered_ended held ws call (k : string → Tx A) (fail : error → A) :
  (∀ x, ordered held (k x)) →
  ordered held (tx_bind (insertCallEndedEvent ws call)
    (λ r, match r with Ok x => k x | Fail err => Return (fail err) end)).
Proof.
  intros Hk. unfold insertCallEndedEvent. destruct (call_event _ _ _ _); [|apply Hk].
  apply (ordered_wrap _ _ id). by apply ordered_ask.
Qed.

Lemma ordered_commit held announce (a : A) (fail : error → A) :
  ordered held (tx_bind (commit announce) (λ r, match r with Ok _ => Return a | Fail err => Return (fail err) end)).
Proof. by intros [|]. Qed.

(** A row locked in the second phase. *)
Lemma ordered_select held (s : CallStmt (option Call)) (lock : string → Lock) ws id (k : option Call → Tx A) (fail : error → A) :
  (∀ env others now db, call_exec s env others now db = (Ok (call_row db ws id), []) ∧
     call_request s env others now db = match call_row db ws id with Some c => [lock (call_ID c)] | None => [] end) →
  (∀ id, lock id = LockRow id ∨ lock id = LockShare id) → Forall is_key held →
  (∀ row, ordered (match row with Some c => [lock (call_ID c)] | None => [] end ++ held) (k row)) →
  ordered held (tx_bind (query s) (λ r, match r with Ok x => k x | Fail err => Return (fail err) end)).
Proof.
  intros Hs Hlock Hheld Hk. apply ordered_try. intros env others now db. cbv zeta.
  destruct (Hs env others now db) as [-> ->]. split; [|apply Hk].
  destruct (call_row db ws id) as [c|]; [|constructor]. repeat constructor.
  destruct (Hlock (call_ID c)) as [->| ->]; [by left|done].
Qed.

Lemma ordered_update held call status (k : Call → Tx A) (fail : error → A) :
  LockRow (call_ID call) ∈ held → (∀ x held', ordered held' (k x)) →
  ordered held (tx_bind (updateCallStatus (call_ID call) status)
    (λ r, match r with Ok x => k x | Fail err => Return (fail err) end)).
Proof.
  intros Hrow Hk. apply (ordered_wrap _ _ id), ordered_try. intros env others now db. cbn [call_request].
  split; [apply Forall_singleton; by right|]. by destruct (fst _).
Qed.
End Order.

Ltac early_ordered :=
  match goal with
  | |- ordered _ (if ?c then Return _ else _) => destruct c; [done|]
  end.

Section Orders.
Context {advisory : AdvisoryHash}.

Lemma CreateCall_ordered input : ordered [] (CreateCall input).
Proof.
  unfold CreateCall. apply ordered_ask; [done|intros _]. apply ordered_lockCallKeys. intros held Hheld.
  apply ordered_ask; [done|]. intros [existing|]; [early_ordered; apply ordered_commit|].
  apply ordered_ask; [done|]. intros count. early_ordered. apply ordered_ask; [done|]. intros busy. early_ordered.
  apply ordered_try. intros env others now db. cbn [call_request]. split; [apply Forall_singleton; by left|].
  destruct (fst _); [apply ordered_commit|done].
Qed.

Lemma CreateResourceCall_ordered pid input : ordered [] (CreateResourceCall pid input).
Proof.
  unfold CreateResourceCall. apply ordered_ask; [done|intros _]. apply ordered_lockCallKeys. intros held Hheld.
  apply ordered_ask; [done|]. intros [existing|].
  { early_ordered. apply (ordered_wrap _ _ (λ p, match p with Some p => default "" p | None => "" end)).
    apply ordered_ask; [done|]. intros p. early_ordered. apply ordered_commit. }
  apply ordered_authorize. intros b. early_ordered.
  apply ordered_try. intros env others now db. cbn [call_request call_exec fst].
  destruct (find_call _ db) as [call|].
  - split; [apply Forall_singleton; by left|]. cbn [tx_bind]. apply ordered_busy. intros busy. early_ordered.
    apply ordered_admit. intros p. cbn [tx_bind]. apply ordered_commit.
  - split; [constructor|]. apply ordered_try. intros env' others' now' db'. cbn [call_request].
    split; [apply Forall_singleton; by left|]. destruct (fst _) as [row|]; [|done].
    apply ordered_busy. intros busy. early_ordered. apply ordered_admit. intros p. apply ordered_started. intros event.
    apply ordered_commit.
Qed.

Lemma JoinResourceCall_ordered pid input : ordered [] (JoinResourceCall pid input).
Proof.
  unfold JoinResourceCall. apply ordered_ask; [done|intros _]. apply ordered_lockCallKeys. intros held Hheld.
  apply (ordered_select _ _ LockRow (jr_WorkspaceID input) (jr_CallID input)); [done|by left|done|].
  intros [call|]; [|done]. do 3 early_ordered. apply ordered_authorize. intros b. early_ordered.
  apply ordered_busy. intros busy. early_ordered. apply ordered_admit. intros p. apply ordered_commit.
Qed.

Lemma RenewCallPresence_ordered input : ordered [] (RenewCallPresence input).
Proof.
  unfold RenewCallPresence. apply ordered_ask; [done|intros _]. apply ordered_lockCallKeys. intros held Hheld.
  apply (ordered_select _ _ LockShare (rp_WorkspaceID input) (rp_CallID input)); [done|by right|done|].
  intros [call|]; [|done]. early_ordered. apply ordered_authorize. intros b. early_ordered.
  apply ordered_busy. intros busy. early_ordered.
  apply (ordered_wrap _ _ (λ lapsed, match lapsed with None => leaseNotRenewed | Some true => leaseRevived
                                                     | Some false => leaseExtended end)).
  apply ordered_ask; [done|]. intros [[|]|]; [apply ordered_commit..|done].
Qed.

Lemma LeaveResourceCall_ordered input : ordered [] (LeaveResourceCall input).
Proof.
  unfold LeaveResourceCall. cbv zeta. apply ordered_ask; [done|intros _]. apply ordered_lockCallKeys. intros held Hheld.
  apply (ordered_select _ _ LockRow (lr_WorkspaceID input) (lr_CallID input)); [done|by left|done|].
  intros [call|]; [|done]. early_ordered. apply ordered_ask; [done|]. intros [|]; cbn [negb].
  - destruct (call_Status call != CallStatusActive); [apply ordered_commit|].
    apply ordered_ask; [done|]. intros [|]; [apply ordered_commit|].
    apply ordered_update; [set_solver|]. intros. apply ordered_commit.
  - apply ordered_authorize. intros b. early_ordered. apply ordered_commit.
Qed.

Lemma TransitionCall_ordered input : ordered [] (TransitionCall input).
Proof.
  unfold TransitionCall. cbv zeta. apply ordered_ask; [done|intros _].
  apply (ordered_select _ _ LockRow (tc_WorkspaceID input) (tc_CallID input)); [done|by left|constructor|].
  intros [call|]; [|done]. early_ordered.
  assert (Hrow : LockRow (call_ID call) ∈ [LockRow (call_ID call)] ++ []) by set_solver.
  set (held := [LockRow (call_ID call)] ++ []) in *.
  assert (Hclock : ∀ (b : bool) (k : Time → Tx (TransitionCallResult * option error)) fail, (∀ x, ordered held (k x)) →
    ordered held (tx_bind (if b then query SelectClock else Return (Ok time_zero))
      (λ r, match r with Ok x => k x | Fail err => Return (fail err) end)))
    by (intros [] k fail Hk; [by apply ordered_ask|apply Hk]).
  apply Hclock. intros now. clear Hclock.
  destruct ((call_Status call == CallStatusRinging) && negb (time_After (call_ExpiresAt call) now)).
  - apply ordered_update; [done|]. intros. apply ordered_commit.
  - destruct (authorizeCallTransition _ _ _) as [[next [|]]|err]; [apply ordered_commit| |done].
    apply ordered_update; [done|]. intros updated held'.
    assert (Hcommit : ∀ (event : string) fail, ordered held' (tx_bind (commitTransition call next)
      (λ r, match r with
            | Ok _ => Return ({| tr_Call := Some updated; tr_Changed := true; tr_TimedOut := false;
                                 tr_Released := false; tr_EventMessageID := event |}, None)
            | Fail err => Return (fail err : TransitionCallResult * option error)
            end))).
    { intros event fail. unfold commitTransition, participationChangedBy.
      destruct (_ && _); [apply ordered_commit|]. destruct (negb _); [apply ordered_commit|].
      cbn. intros. split; [constructor|]. split; [by intros [|]|done]. }
    destruct (IsResource call); [apply ordered_ended; intros; apply Hcommit|apply Hcommit].
Qed.

Lemma ExpireDueCalls_ordered limit : ordered [] (ExpireDueCalls limit).
Proof.
  unfold ExpireDueCalls. apply ordered_ask; [done|]. intros snapshot.
  apply ordered_try. intros env others now db. cbn [call_request]. split.
  - apply Forall_forall. intros l (c & -> & _)%list_elem_of_fmap. by left.
  - apply ordered_commit.
Qed.
End Orders.
(** ** The service *)

Inductive CallOp : Type :=
| OpStart (now : Time) (participationID : string) (input : StartCallInput)
| OpPresence (now : Time) (workspaceID actorID callID participationID : string)
| OpTransition (workspaceID actorID callID action : string)
| OpLeave (workspaceID actorID callID participationID : string)
| OpJoin (now : Time) (participationID : string) (input : JoinCallInput)
| OpExpire.

Inductive Answer : Type :=
| AnswerStart (answer : result (Call * string)) (events : list CallEvent)
| AnswerPresence (answer : result unit)
| AnswerTransition (call : option Call) (err : option error) (events : list CallEvent)
| AnswerLeave (call : option Call) (released : bool) (err : option error) (events : list CallEvent)
| AnswerJoin (answer : result (Call * string))
| AnswerExpire (err : option error) (events : list CallEvent).

Section Service.
Context {advisory : AdvisoryHash} (uuid_Parse : string → option string) (timeout : Duration) (publisher : bool).

Definition call_tx (op : CallOp) : Tx Answer :=
  match op with
  | OpStart now pid input =>
      tx_bind (Start uuid_Parse timeout now publisher pid input) (λ a, Return (AnswerStart (fst a) (snd a)))
  | OpPresence now workspaceID actorID callID participationID =>
      tx_bind (Presence uuid_Parse timeout now workspaceID actorID callID participationID)
        (λ a, Return (AnswerPresence a))
  | OpTransition workspaceID actorID callID action =>
      tx_bind (transition uuid_Parse publisher workspaceID actorID callID action)
        (λ a, Return (AnswerTransition (fst (fst a)) (snd (fst a)) (snd a)))
  | OpLeave workspaceID actorID callID participationID =>
      tx_bind (Leave uuid_Parse publisher workspaceID actorID callID participationID)
        (λ a, Return (AnswerLeave (fst (fst (fst a))) (snd (fst (fst a))) (snd (fst a)) (snd a)))
  | OpJoin now pid input => tx_bind (Join uuid_Parse timeout now pid input) (λ a, Return (AnswerJoin a))
  | OpExpire => tx_bind (ExpireDue publisher) (λ a, Return (AnswerExpire (fst a) (snd a)))
  end.

(** The transactions of the service: any operation, with any input. *)
Definition call_operation (p : Tx Answer) : Prop := ∃ op, p = call_tx op.

Definition service_step : Config Answer → Config Answer → Prop := step call_operation.

Definition no_calls : CallDB := {| calls := ∅; leases := ∅ |}.

Lemma returns_Return {B C : Type} (f : B → C) (b : B) : ∃ c, (Return (f b) : Tx C) = Return c.
Proof. eauto. Qed.

(** A property of transactions that the operations of the store have, that an answer
    alone has, and that working on the answer keeps. *)
Lemma call_tx_good (good : ∀ A, Tx A → Prop) (op : CallOp) :
  (∀ A (a : A), good A (Return a)) →
  (∀ A B (t : Tx A) (f : A → Tx B), (∀ a, ∃ b, f a = Return b) → good A t → good B (tx_bind t f)) →
  (∀ input, good _ (CreateCall input)) → (∀ pid input, good _ (CreateResourceCall pid input)) →
  (∀ input, good _ (RenewCallPresence input)) → (∀ pid input, good _ (JoinResourceCall pid input)) →
  (∀ input, good _ (LeaveResourceCall input)) → (∀ input, good _ (TransitionCall input)) →
  (∀ limit, good _ (ExpireDueCalls limit)) → good Answer (call_tx op).
Proof.
  intros Hret Hbind Hcreate Hresource Hrenew Hjoin Hleave Htransition Hexpire.
  destruct op; cbn [call_tx]; (apply Hbind; [intros; apply returns_Return|]).
  - unfold Start. destruct (canonicalUUID _ (sc_WorkspaceID input)) as [ws|]; [|done].
    destruct (canonicalUUID _ (sc_RequestID input)) as [req|]; [|done].
    destruct (canonicalUUID _ (sc_CallerID input)) as [caller|]; [|done]. destruct (_ || _); [done|].
    destruct (_ == _).
    + destruct (_ && _); [done|]. destruct (canonicalUUID _ _) as [target|]; [|done].
      apply Hbind; [|done]. intros [[[[call created] p] event]|err]; eauto.
    + destruct (_ || _); [done|]. destruct (canonicalUUID _ _) as [callee|]; [|done].
      destruct (_ == _); [done|]. apply Hbind; [|done]. intros [[call created]|err]; eauto.
  - unfold Presence. repeat (case_match; try done).
  - unfold transition. repeat (case_match; try done). apply Hbind; [|done]. intros [result err]; eauto.
  - unfold Leave. repeat (case_match; try done). apply Hbind; [|done]. intros [result err]; eauto.
  - unfold Join. repeat (case_match; try done).
  - unfold ExpireDue. apply Hbind; [|done]. intros [calls|err]; eauto.
Qed.

Lemma call_tx_safe op : safe_tx (call_tx op).
Proof.
  apply (call_tx_good (λ A t, safe_tx t)); [done|intros; by apply safe_bind_return|..].
  - apply CreateCall_safe.
  - apply CreateResourceCall_safe.
  - apply RenewCallPresence_safe.
  - apply JoinResourceCall_safe.
  - apply LeaveResourceCall_safe.
  - apply TransitionCall_safe.
  - apply ExpireDueCalls_safe.
Qed.

Lemma call_tx_ordered op : ordered [] (call_tx op).
Proof.
  apply (call_tx_good (λ A t, ordered [] t)); [done|intros; by apply ordered_bind_return|..].
  - apply CreateCall_ordered.
  - apply CreateResourceCall_ordered.
  - apply RenewCallPresence_ordered.
  - apply JoinResourceCall_ordered.
  - apply LeaveResourceCall_ordered.
  - apply TransitionCall_ordered.
  - apply ExpireDueCalls_ordered.
Qed.

Lemma service_ok db now c : calls_inv db now → rtc service_step (initial db now) c → config_ok c.
Proof.
  apply (reachable_ok (protocol := calls_protocol) call_operation). intros p [op ->]. apply call_tx_safe.
Qed.

Lemma no_calls_inv now : calls_inv no_calls now.
Proof.
  split; cbn.
  - intros id c. by rewrite lookup_empty.
  - intros id user l. by rewrite lookup_empty.
  - intros id id' c c'. by rewrite lookup_empty.
  - intros id id' c c'. by rewrite lookup_empty.
  - intros ws user id id' (c & Hc & _). cbn in Hc. by rewrite lookup_empty in Hc.
Qed.
End Service.
