(* ===== verification/CallsRuns.v ===== *)
(** * Runs of the call service

    Schedules of the operations of [Calls] as data, so that a run can be evaluated,
    and what holds of every run: who is in which call, how a call may change, when a
    lease may appear, and that the operations always come to an end. *)

From stdpp Require Import prelude gmap strings sorting.
From Stdlib Require Import ZArith Lia.
From S2P Require Import Prelude GoStrings Workspace Transactions Calls CallsProtocol.
Local Open Scope Z_scope.

(** ** Schedules *)

(** What a scheduler does next: begin an operation, run a transaction's next step,
    end one, or let time pass. *)
Inductive Action : Type :=
| ActBegin (i : nat) (op : CallOp)
| ActRun (i : nat) (env : CallEnv)
| ActEnd (i : nat)
| ActTick (later : Time).

Section Schedule.
Context {advisory : AdvisoryHash} (uuid_Parse : string → option string) (timeout : Duration) (publisher : bool).

(** The new configuration, and the answer of a transaction that ends. *)
Definition act (a : Action) (c : Config Answer) : option (Config Answer * option Answer) :=
  let threads := c_threads c in
  match a with
  | ActBegin i op =>
      match threads !! i with
      | Some _ => None
      | None => Some ({| c_db := c_db c; c_now := c_now c;
                         c_threads := <[i := begin (call_tx uuid_Parse timeout publisher op)]> threads |}, None)
      end
  | ActRun i env =>
      th ← threads !! i;
      '(db', th') ← thread_step env (others threads i) (c_now c) (c_db c) th;
      Some ({| c_db := db'; c_now := c_now c; c_threads := <[i := th']> threads |}, None)
  | ActEnd i =>
      th ← threads !! i;
      match th_prog th with
      | Return a => Some ({| c_db := c_db c; c_now := c_now c; c_threads := delete i threads |}, Some a)
      | _ => None
      end
  | ActTick later =>
      if c_now c <=? later
      then Some ({| c_db := c_db c; c_now := later; c_threads := threads |}, None) else None
  end.

Fixpoint schedule (actions : list Action) (c : Config Answer) : option (Config Answer * list Answer) :=
  match actions with
  | [] => Some (c, [])
  | a :: actions =>
      '(c, answer) ← act a c;
      '(c, answers) ← schedule actions c;
      Some (c, option_list answer ++ answers)
  end.

Lemma act_step a c c' answer :
  act a c = Some (c', answer) → service_step uuid_Parse timeout publisher c c'.
Proof.
  destruct c as [db now threads]. destruct a as [i op|i env|i|later]; cbn.
  - destruct (threads !! i) eqn:Hi; [done|]. intros [= <- _]. by apply (step_begin _ (@Build_Config call_store Answer db now threads)); [eexists|].
  - intros H. destruct (threads !! i) as [th|] eqn:Hi; [|done]. cbn in H.
    destruct (thread_step _ _ _ _ _) as [[db' th']|] eqn:Hrun; [|done]. injection H as <- _.
    by eapply (step_run _ (@Build_Config call_store Answer db now threads)).
  - intros H. destruct (threads !! i) as [th|] eqn:Hi; [|done]. cbn in H.
    destruct (th_prog th) eqn:Hp; [|done..]. injection H as <- _.
    by eapply (step_end _ (@Build_Config call_store Answer db now threads)).
  - destruct (Z.leb_spec now later); [|done]. intros [= <- _].
    by apply (step_tick _ (@Build_Config call_store Answer db now threads)).
Qed.

Lemma schedule_steps actions c c' answers :
  schedule actions c = Some (c', answers) → rtc (service_step uuid_Parse timeout publisher) c c'.
Proof.
  revert c answers. induction actions as [|a actions IH]; intros c answers; cbn; [by intros [= <- _]|].
  destruct (act a c) as [[c1 answer]|] eqn:Ha; [|done]. cbn.
  destruct (schedule actions c1) as [[c2 answers']|] eqn:Hs; [|done]. cbn. intros [= <- _].
  eapply rtc_l; [by eapply act_step|by eapply IH].
Qed.

(** A transaction on its own, run to its end in one environment. *)
Fixpoint run_alone (fuel : nat) (i : nat) (env : CallEnv) : list Action :=
  match fuel with O => [] | S fuel => ActRun i env :: run_alone fuel i env end.
End Schedule.

(** ** The length of an operation *)

Section Lengths.
Context {advisory : AdvisoryHash}.

Lemma bounded_bind {A B : Type} (t : @Tx call_store A) (f : A → Tx B) n m :
  bounded t n → (∀ a, bounded (f a) m) → bounded (tx_bind t f) (n + m).
Proof.
  intros Ht Hf. revert n Ht. induction t as [a|C s k IH|announce k IH]; intros n; cbn.
  - intros _. eapply bounded_le; [|apply Hf]. lia.
  - destruct n as [|n]; [done|]. cbn. auto.
  - destruct n as [|n]; [done|]. cbn. auto.
Qed.

Lemma lockCallKeys_bounded keys : bounded (lockCallKeys keys) (length keys).
Proof.
  unfold lockCallKeys. rewrite <-(Permutation_length (merge_sort_Permutation String.le keys)).
  induction (merge_sort String.le keys) as [|key sorted IH]; [done|]. cbn. by intros [|].
Qed.

Lemma locked_bounded {B : Type} keys (f : result unit → Tx B) n :
  (length keys <= 2)%nat → (∀ r, bounded (f r) n) → bounded (tx_bind (lockCallKeys keys) f) (S (S n)).
Proof.
  intros Hkeys Hf. apply (bounded_bind _ _ 2 n); [|done]. eapply bounded_le; [exact Hkeys|]. apply lockCallKeys_bounded.
Qed.

Ltac bound :=
  repeat first
    [ done
    | apply locked_bounded; [cbn; lia|intros ?]
    | progress (cbn [bounded tx_bind query commit Nat.add length]; intros)
    | case_match
    | progress unfold authorizeResourceTarget, callParticipantBusy, admitCallPresence, currentParticipationID,
        insertCallStartedEvent, insertCallEndedEvent, renewCallPresenceFenced, updateCallStatus, commitTransition,
        participationChangedBy, query, commit ].

Lemma CreateCall_bounded input : bounded (CreateCall input) 12.
Proof. unfold CreateCall. bound. Qed.

Lemma CreateResourceCall_bounded pid input : bounded (CreateResourceCall pid input) 12.
Proof. unfold CreateResourceCall. bound. Qed.

Lemma RenewCallPresence_bounded input : bounded (RenewCallPresence input) 12.
Proof. unfold RenewCallPresence. bound. Qed.

Lemma JoinResourceCall_bounded pid input : bounded (JoinResourceCall pid input) 12.
Proof. unfold JoinResourceCall. bound. Qed.

Lemma LeaveResourceCall_bounded input : bounded (LeaveResourceCall input) 12.
Proof. unfold LeaveResourceCall. bound. Qed.

Lemma TransitionCall_bounded input : bounded (TransitionCall input) 12.
Proof. unfold TransitionCall. bound. Qed.

Lemma ExpireDueCalls_bounded limit : bounded (ExpireDueCalls limit) 12.
Proof. unfold ExpireDueCalls. bound. Qed.
End Lengths.

(** ** Runs to the end *)

Section Drain.
Context {advisory : AdvisoryHash} (uuid_Parse : string → option string) (timeout : Duration) (publisher : bool).

Lemma call_tx_bounded op : bounded (call_tx uuid_Parse timeout publisher op) 12.
Proof.
  apply (call_tx_good _ _ _ (λ A t, bounded t 12)); [done| |..].
  - intros B C t f Hf Ht. apply (bounded_bind t f 12 0); [done|]. intros a. by destruct (Hf a) as [b ->].
  - apply CreateCall_bounded.
  - apply CreateResourceCall_bounded.
  - apply RenewCallPresence_bounded.
  - apply JoinResourceCall_bounded.
  - apply LeaveResourceCall_bounded.
  - apply TransitionCall_bounded.
  - apply ExpireDueCalls_bounded.
Qed.

(** Only transactions already begun, in one environment, go on. *)
Definition goes_on (env : CallEnv) (a : Action) : Prop :=
  match a with ActRun _ env' => env' = env | ActEnd _ => True | _ => False end.

Lemma service_ordered db now c :
  rtc (service_step uuid_Parse timeout publisher) (initial db now) c → config_ordered c.
Proof. apply reachable_ordered. intros p [op ->]. apply call_tx_ordered. Qed.

Lemma service_bounded db now c i th :
  rtc (service_step uuid_Parse timeout publisher) (initial db now) c → c_threads c !! i = Some th →
  bounded (th_prog th) 12.
Proof. intros Hrun. revert i th. eapply reachable_bounded, Hrun. intros p [op ->]. apply call_tx_bounded. Qed.

Definition within (c : Config (store := call_store) Answer) (budgets : gmap nat nat) : Prop :=
  ∀ i th, c_threads c !! i = Some th → ∃ n, budgets !! i = Some n ∧ bounded (th_prog th) n.

Context (hash_inj : ∀ k k' : string, hashtextextended k = hashtextextended k' → k = k').

(** A step that uses up some of the budget. *)
Lemma drain_step env c budgets :
  config_ordered c → within c budgets → c_threads c ≠ ∅ →
  ∃ a c' answer budgets', goes_on env a ∧ act uuid_Parse timeout publisher a c = Some (c', answer) ∧
    within c' budgets' ∧ (total budgets' < total budgets)%nat ∧
    (size (c_threads c') + length (option_list answer) = size (c_threads c))%nat.
Proof.
  intros Ho Hw Hne. destruct (progress (store := call_store) hash_inj env c Ho Hne) as (i & th & Hi & Hstep).
  destruct (Hw i th Hi) as (n & Hn & Hb). destruct Hstep as [[a Ha]|[[db' th'] Hrun]].
  - exists (ActEnd i). cbn. rewrite Hi. cbn. rewrite Ha. do 2 eexists. exists (delete i budgets). split_and!; [done..| | |].
    + intros j thj Hthj. cbn in Hthj. apply lookup_delete_Some in Hthj as [Hj Hthj]. destruct (Hw j thj Hthj) as (m & ? & ?). exists m.
      by rewrite lookup_delete_ne.
    + rewrite (total_delete budgets i n Hn). lia.
    + cbn. rewrite map_size_delete_Some by eauto. assert (size (c_threads c) ≠ 0)%nat by (by rewrite map_size_ne_0_lookup; eauto). lia.
  - exists (ActRun i env). cbn. rewrite Hi. cbn. rewrite Hrun. cbn.
    destruct (thread_step_bounded _ _ _ _ _ _ _ _ Hb Hrun) as (m & -> & Hm).
    do 2 eexists. exists (<[i := m]> budgets). split_and!; [done..| | |].
    + intros j thj Hthj. cbn in Hthj. apply lookup_insert_Some in Hthj as [[<- <-]|[Hj Hthj]]; [exists m; by rewrite lookup_insert_eq|].
      destruct (Hw j thj Hthj) as (m' & ? & ?). exists m'. by rewrite lookup_insert_ne.
    + pose proof (total_insert budgets i (S m) m Hn). lia.
    + cbn. rewrite map_size_insert_Some by eauto. lia.
Qed.

Lemma drain env c budgets :
  config_ordered c → within c budgets →
  ∃ actions c' answers, Forall (goes_on env) actions ∧ (length actions <= total budgets)%nat ∧
    schedule uuid_Parse timeout publisher actions c = Some (c', answers) ∧
    c_threads c' = ∅ ∧ length answers = size (c_threads c).
Proof.
  remember (total budgets) as n eqn:Hn. revert c budgets Hn. induction (lt_wf n) as [n _ IH]. intros c budgets -> Ho Hw.
  destruct (decide (c_threads c = ∅)) as [Hempty|Hne].
  { exists [], c, []. rewrite Hempty. split_and!; [constructor|cbn; lia|done..]. }
  destruct (drain_step env c budgets Ho Hw Hne) as (a & c1 & answer & budgets' & Ha & Hact & Hw' & Hlt & Hsize).
  destruct (IH _ Hlt c1 budgets' eq_refl) as (actions & c' & answers & Hall & Hlen & Hrun & Hend & Hans); [|done|].
  { eapply step_ordered; [|by eapply act_step|done]. intros p [op ->]. apply call_tx_ordered. }
  exists (a :: actions), c', (option_list answer ++ answers). split_and!; [by constructor|cbn; lia| |done|].
  - cbn. rewrite Hact. cbn. by rewrite Hrun.
  - rewrite length_app. lia.
Qed.
End Drain.

(** ** Concrete runs *)

Section Run.
Context {advisory : AdvisoryHash} (uuid_Parse : string → option string) (timeout : Duration) (publisher : bool).

(** Where a schedule leads, and the answers on the way; a schedule that cannot be
    followed leads nowhere. *)
Definition run (actions : list Action) (c : Config Answer) : Config Answer :=
  match schedule uuid_Parse timeout publisher actions c with Some (c', _) => c' | None => c end.

Definition answers (actions : list Action) (c : Config Answer) : option (list Answer) :=
  snd <$> schedule uuid_Parse timeout publisher actions c.

Lemma run_steps actions c : rtc (service_step uuid_Parse timeout publisher) c (run actions c).
Proof.
  unfold run. destruct (schedule _ _ _ actions c) as [[c' l]|] eqn:Hs; [by eapply schedule_steps|reflexivity].
Qed.

Definition enabled (a : Action) (c : Config Answer) : bool :=
  match act uuid_Parse timeout publisher a c with Some _ => true | None => false end.

Lemma run_step a c : enabled a c = true → service_step uuid_Parse timeout publisher c (run [a] c).
Proof.
  unfold enabled, run. cbn. destruct (act _ _ _ a c) as [[c' l]|] eqn:Ha; [|done]. intros _. by eapply act_step.
Qed.
End Run.

Module Runs.
(** An advisory lock of its own for every key, identifiers taken as they are, and an
    environment where everyone is a member and nothing fails. *)
Definition numbered : AdvisoryHash := λ key, Zpos (encode key).
#[local] Existing Instance numbered.

Lemma numbered_inj (k k' : string) : hashtextextended k = hashtextextended k' → k = k'.
Proof. cbv [hashtextextended numbered]. intros [= H]. by apply (inj encode). Qed.

Definition parse (id : string) : option string := if id == "" then None else Some id.
Definition ring : Duration := 60 * Second.

Definition env (newID : string) : CallEnv :=
  {| e_fault := None; e_lost := false; e_newID := newID; e_member := λ _ _, true;
     e_authorized := λ _ _ _ _, true; e_event := "message" |}.

Definition direct (request caller callee : string) : StartCallInput :=
  {| sc_WorkspaceID := "ws"; sc_RequestID := request; sc_CallerID := caller; sc_CalleeID := callee;
     sc_TargetType := ""; sc_TargetID := ""; sc_Type := "audio" |}.

Definition channel (request caller : string) : StartCallInput :=
  {| sc_WorkspaceID := "ws"; sc_RequestID := request; sc_CallerID := caller; sc_CalleeID := "";
     sc_TargetType := "channel"; sc_TargetID := "general"; sc_Type := "audio" |}.

Definition whole (i : nat) (op : CallOp) (n : nat) (e : CallEnv) : list Action :=
  ActBegin i op :: run_alone n i e ++ [ActEnd i].

(** Ann calls Bob while Bob calls Cid: Ann's transaction has Ann's key when Bob's
    takes Bob's, for which Ann then waits. *)
Definition two_starts : list Action :=
  [ActBegin 0 (OpStart 0 "" (direct "r1" "ann" "bob")); ActBegin 1 (OpStart 0 "" (direct "r2" "bob" "cid"));
   ActRun 0 (env ""); ActRun 0 (env ""); ActRun 1 (env ""); ActRun 1 (env "")] ++
  run_alone 6 1 (env "c1") ++ [ActEnd 1] ++ run_alone 4 0 (env "c0") ++ [ActEnd 0].
Definition start0 : Config Answer := initial (store := call_store) no_calls 0.

Definition busy (a : Answer) : bool :=
  match a with AnswerStart (Fail err) _ => err == ErrCallParticipantBusy | _ => false end.

(** Ann starts a call of a channel; Bob joins it by starting one there; Ann leaves. *)
Definition ann_starts : list Action := whole 0 (OpStart 0 "p1" (channel "r1" "ann")) 11 (env "c1").
Definition bob_starts (participationID : string) : list Action :=
  whole 1 (OpStart 1 participationID (channel "r2" "bob")) 9 (env "").
Definition ann_leaves : list Action := whole 2 (OpLeave "ws" "ann" "c1" "p1") 7 (env "").

(** A minute later the sweep has read its snapshot when Bob joins the call. *)
Definition join : JoinCallInput :=
  {| jc_WorkspaceID := "ws"; jc_ActorID := "bob"; jc_CallID := "c1"; jc_TargetType := "channel";
     jc_TargetID := "general" |}.
Definition sweep_race : list Action :=
  [ActTick (61 * Second); ActBegin 1 OpExpire; ActRun 1 (env "")] ++
  whole 2 (OpJoin (61 * Second) "p2" join) 7 (env "") ++ run_alone 2 1 (env "") ++ [ActEnd 1].

Definition status (c : Config Answer) (id : string) : option CallStatus := call_Status <$> calls (c_db c) !! id.
Definition lease (c : Config Answer) (id user : string) : option Lease := leases (c_db c) !! (id, user).
End Runs.

(** ** What holds of every run *)

Section Theorems.
Context {advisory : AdvisoryHash} (uuid_Parse : string → option string) (timeout : Duration) (publisher : bool).

(** C8. However the statements of any number of starts, joins, renewals, leaves,
    transitions and sweeps interleave, fail or lose their acknowledgement: nobody is
    ever in two calls of a workspace, a channel or conversation never has two active
    calls, a request has created one call at most, every lease is of a call of a
    channel or conversation, and every row is as the checks of the table and the life
    cycle want it. *)
Theorem calls_exclusive db now c :
  calls_inv db now → rtc (service_step uuid_Parse timeout publisher) (initial db now) c →
  calls_inv (c_db c) (c_now c).
Proof. intros Hinv Hrun. apply (ok_inv _ (service_ok _ _ _ _ _ _ Hinv Hrun)). Qed.

(** C28. Between any two moments of a run a call persists with its identity, people,
    target and kind; its status only moves forward, no version is used for two
    statuses, and a call that is over never changes again. *)
Theorem calls_move_forward db now c c' id call :
  calls_inv db now → rtc (service_step uuid_Parse timeout publisher) (initial db now) c →
  rtc (service_step uuid_Parse timeout publisher) c c' → calls (c_db c) !! id = Some call →
  ∃ call', calls (c_db c') !! id = Some call' ∧ evolves call call' ∧
    (CallStatus_Terminal (call_Status call) = true → call' = call).
Proof.
  intros Hinv Hrun Hlater Hcall.
  assert (Hev : ∃ call', calls (c_db c') !! id = Some call' ∧ evolves call call').
  { revert call Hcall. apply (service_ok _ _ _ _ _ _ Hinv) in Hrun as Hok. clear Hrun.
    induction Hlater as [c|c c1 c' Hstep _ IH]; intros call Hcall; [exists call; split; [done|apply call_evolves_refl]|].
    assert (Hok1 : config_ok (protocol := calls_protocol) c1).
    { eapply step_ok; [|exact Hstep|done]. intros p [op ->]. apply call_tx_safe. }
    assert (∃ call1, calls (c_db c1) !! id = Some call1 ∧ evolves call call1) as (call1 & Hcall1 & Hev1).
    { destruct (step_guar _ _ _ Hstep Hok) as [->|(_ & held & HG)]; [exists call; split; [done|apply call_evolves_refl]|].
      exact (guar_evolves _ _ _ _ HG id call Hcall). }
    destruct (IH Hok1 call1 Hcall1) as (call' & ? & ?). exists call'. split; [done|]. by eapply evolves_trans. }
  destruct Hev as (call' & Hcall' & Hev). exists call'. split_and!; [done..|]. intros Hterm.
  destruct (ev_version _ _ Hev) as [->|[Hne _]]; [done|]. exfalso. apply Hne.
  destruct (ev_status _ _ Hev) as [|[[E _]|[E _] ] ]; [done|rewrite E in Hterm; discriminate..].
Qed.

(** C29. No step of a run leaves a new or prolonged lease in a call that is over, or
    gives one to somebody who is in another call. *)
Theorem fresh_leases_are_live db now c c' id user l :
  calls_inv db now → rtc (service_step uuid_Parse timeout publisher) (initial db now) c →
  service_step uuid_Parse timeout publisher c c' →
  leases (c_db c') !! (id, user) = Some l → leases (c_db c) !! (id, user) ≠ Some l →
  ∃ call, calls (c_db c') !! id = Some call ∧ call_Status call = CallStatusActive ∧ IsResource call = true ∧
    ∀ id', c_now c' < lease_expires_at l → engaged (c_db c') (c_now c') (call_WorkspaceID call) user id' → id' = id.
Proof.
  intros Hinv Hrun Hstep Hl Hne. apply (service_ok _ _ _ _ _ _ Hinv) in Hrun as Hok.
  assert (Hok' : config_ok (protocol := calls_protocol) c').
  { eapply step_ok; [|exact Hstep|done]. intros p [op ->]. apply call_tx_safe. }
  destruct (step_guar _ _ _ Hstep Hok) as [E|(_ & held & HG)]; [by rewrite E in Hl|].
  destruct (guar_fresh _ _ _ _ HG id user l Hl Hne) as (call & Hcall & Hs). exists call.
  destruct (inv_lease _ _ (ok_inv _ Hok') id user l Hl) as (call' & Hcall' & Hr).
  assert (call' = call) as -> by congruence. split_and!; [done|done| |].
  - unfold IsResource. by destruct Hr as [->| ->].
  - intros id' Hlt Heng. eapply (inv_exclusive _ _ (ok_inv _ Hok')); [exact Heng|].
    exists call. split; [done|]. split; [done|]. right. split; [done|]. split; [done|]. by exists l.
Qed.

End Theorems.

(** ** Witnesses *)

Section Witnesses.
#[local] Existing Instance Runs.numbered.
Import Runs.

#[local] Abbreviation runs := (run parse ring true).
#[local] Abbreviation answers_of := (answers parse ring true).

(** The starts of Ann and Bob meet: Bob's call is made, and Ann is told that he is
    busy. *)
Lemma calls_exclusive_witness :
  (map busy <$> answers_of two_starts start0) = Some [false; true] ∧
  calls_inv (c_db (runs two_starts start0)) (c_now (runs two_starts start0)).
Proof.
  split; [by vm_compute|].
  apply (calls_exclusive parse ring true no_calls 0); [apply no_calls_inv|apply run_steps].
Defined.

Lemma calls_move_forward_witness :
  ∃ call call',
    calls (c_db (runs ann_starts start0)) !! "c1" = Some call ∧ call_Status call = CallStatusActive ∧
    status (runs (ann_leaves) (runs ann_starts start0)) "c1" = Some CallStatusEnded ∧
    calls (c_db (runs ann_leaves (runs ann_starts start0))) !! "c1" = Some call' ∧ evolves call call'.
Proof.
  destruct (calls (c_db (runs ann_starts start0)) !! "c1") as [call|] eqn:Hcall; [|by vm_compute in Hcall].
  destruct (calls_move_forward parse ring true no_calls 0 (runs ann_starts start0)
              (runs ann_leaves (runs ann_starts start0)) "c1" call) as (call' & Hcall' & Hev & _);
    [apply no_calls_inv|apply run_steps|apply run_steps|exact Hcall|].
  exists call, call'. split_and!; [done| |by vm_compute|done..]. by vm_compute in Hcall; injection Hcall as <-.
Defined.

(** The commit that admits Ann. *)
Lemma fresh_leases_are_live_witness :
  let before := runs (take 11 ann_starts) start0 in
  let after := runs [ActRun 0 (env "c1")] before in
  lease before "c1" "ann" = None ∧ is_Some (lease after "c1" "ann") ∧
  ∃ call, calls (c_db after) !! "c1" = Some call ∧ call_Status call = CallStatusActive.
Proof.
  cbv zeta. pose proof (run_steps parse ring true (take 11 ann_starts) start0) as Hbefore.
  assert (Hnone : lease (runs (take 11 ann_starts) start0) "c1" "ann" = None) by (by vm_compute).
  assert (Hstep : enabled parse ring true (ActRun 0 (env "c1")) (runs (take 11 ann_starts) start0) = true)
    by (by vm_compute).
  assert (Hl : bool_decide (is_Some (lease (runs [ActRun 0 (env "c1")] (runs (take 11 ann_starts) start0)) "c1" "ann"))
               = true) by (by vm_compute).
  apply bool_decide_eq_true in Hl as [l Hl]. apply run_step in Hstep.
  revert Hbefore Hnone Hstep l Hl. generalize (runs (take 11 ann_starts) start0). intros before Hbefore Hnone.
  generalize (runs [ActRun 0 (env "c1")] before). intros after Hstep l Hl. split; [done|]. split; [by eexists|].
  destruct (fresh_leases_are_live parse ring true no_calls 0 before after "c1" "ann" l (no_calls_inv 0) Hbefore Hstep Hl)
    as (call & Hcall & Hs & _); [|by exists call].
  unfold lease in Hnone. by rewrite Hnone.
Defined.

End Witnesses.

(** ** Two runs the comments do not expect *)

Section Surprises.
#[local] Existing Instance Runs.numbered.
Import Runs.

(** The sweep ends a call that somebody has just joined: the join locks the row but
    does not write it, and the snapshot in which no lease was live is not looked at
    again. *)
Lemma sweep_ends_a_joined_call :
  let c := run parse ring true sweep_race (run parse ring true ann_starts start0) in
  (is_Some (answers parse ring true sweep_race (run parse ring true ann_starts start0))) ∧
  status c "c1" = Some CallStatusEnded ∧
  lease c "c1" "bob" = Some {| lease_participation := Some "p2"; lease_expires_at := 121 * Second |}.
Proof. vm_compute. split; [by eexists|done]. Qed.

(** Bob's start joined Ann's call, so that no row carries its request: sent again, it
    is no replay and rotates his participation. *)
Lemma retried_start_rotates :
  let c := run parse ring true (bob_starts "p2") (run parse ring true ann_starts start0) in
  let c' := run parse ring true (bob_starts "p3") c in
  (lease_participation <$> lease c "c1" "bob") = Some (Some "p2") ∧
  (lease_participation <$> lease c' "c1" "bob") = Some (Some "p3").
Proof. by vm_compute. Qed.
End Surprises.
