(* ===== verification/Outbox.v ===== *)
(** * The notification outbox

    [services/notification-service/internal/storage]: the statements of
    notification_outbox_store.go and reminder_store.go over the table
    [chat.notification_outbox], with the trigger and the checks migration 000042
    puts on it.

    A statement is atomic and reads one clock ([now()], or the instant the caller
    passes to [ScheduleDueReminders]), so each is a function of a database state
    and that instant.  [updated_at], which nothing reads, and the texts a claim
    resolves for presentation are left out; a lost connection is not modelled: a
    statement's answer always arrives. *)

From stdpp Require Import prelude gmap strings sorting pretty.
From Stdlib Require Import ZArith Lia.
From S2P Require Import Prelude GoStrings NotificationEvent.
Local Open Scope Z_scope.

Definition ErrNotificationStateConflict : error := ErrNew "storage.ErrNotificationStateConflict".
Definition ErrInvalidNotificationTransition : error := ErrNew "storage.ErrInvalidNotificationTransition".

(** ** The tables *)

(** A row of [chat.notification_outbox], but for its primary key. *)
Record Row : Type := {
  o_WorkspaceID : string;
  o_RecipientID : string;
  o_MessageID : string;
  o_kind : EventType;
  o_priority : Priority;
  o_source_type : SourceType;
  o_origin : Origin;
  o_dedupe_key : string;
  o_occurred_at : Time;
  o_status : State;
  o_attempts : Z;
  o_next_attempt_at : option Time;
  o_suppressed_reason : option string;
  o_last_error : option string;
  o_processed_at : option Time
}.

#[export] Instance Row_eq_dec : EqDecision Row.
Proof. solve_decision. Defined.

(** What the statements read of [chat.message_acknowledgements], keyed by message
    and recipient, and of [chat.messages]. *)
Record AckRow : Type := {
  a_state : string;
  a_reminder_count : Z;
  a_next_reminder_at : option Time;
  a_resolved_at : option Time
}.

Record MessageRow : Type := {
  m_WorkspaceID : string;
  m_created_at : Time;
  m_acknowledgement_required : bool;
  m_persistent_notifications : bool;
  m_active : bool
}.

Record DB : Type := {
  outbox : gmap string Row;
  acks : gmap (string * string) AckRow;
  messages : gmap string MessageRow
}.

Definition set_outbox (db : DB) (o : gmap string Row) : DB :=
  {| outbox := o; acks := acks db; messages := messages db |}.

(** A new value of the columns a transition writes. *)
Definition move (r : Row) (status : State) (attempts : Z) (next : option Time)
    (reason last_error : option string) (processed : option Time) : Row :=
  {| o_WorkspaceID := o_WorkspaceID r; o_RecipientID := o_RecipientID r; o_MessageID := o_MessageID r;
     o_kind := o_kind r; o_priority := o_priority r; o_source_type := o_source_type r;
     o_origin := o_origin r; o_dedupe_key := o_dedupe_key r; o_occurred_at := o_occurred_at r;
     o_status := status; o_attempts := attempts; o_next_attempt_at := next;
     o_suppressed_reason := reason; o_last_error := last_error; o_processed_at := processed |}.

(** ** What the database refuses *)

(** The trigger [chat.enforce_notification_outbox_transition]. *)
Definition enforce_transition (old new : State) : bool :=
  (new == old) ||
  ((old == "pending") && (new ∈? ["eligible"; "suppressed"])) ||
  ((old == "eligible") && (new ∈? ["processing"; "suppressed"])) ||
  ((old == "processing") && (new ∈? ["sent"; "retrying"; "failed"])) ||
  ((old == "retrying") && (new ∈? ["processing"; "failed"])).

(** The constraint [notification_outbox_suppressed_reason_check]. *)
Definition suppressed_reason_check (r : Row) : bool :=
  ((o_status r == "suppressed") == match o_suppressed_reason r with Some _ => true | None => false end) &&
  match o_suppressed_reason r with
  | None => true
  | Some reason => (1 <=? RuneCount reason) && (RuneCount reason <=? 200)
  end.

(** The error class 23514. *)
Definition check_violation : error := ErrStruct "PgError" "23514" 0 (ErrNew "check violation").

(** [UPDATE chat.notification_outbox SET set WHERE guard]: the rows affected and
    the new state, or the refusal of the whole statement. *)
Definition update (guard : string → Row → bool) (set : Row → Row) (db : DB) : result (Z * DB) :=
  let hit := filter (λ kv, guard (fst kv) (snd kv) = true) (outbox db) in
  if bool_decide (map_Forall (λ _ r, enforce_transition (o_status r) (o_status (set r)) = true ∧
                                     suppressed_reason_check (set r) = true) hit)
  then Ok (Z.of_nat (size hit),
           set_outbox db (map_imap (λ id r, Some (if guard id r then set r else r)) (outbox db)))
  else Fail check_violation.

(** ** Reading the result of a statement *)

Definition transitionError (err : error) : error :=
  match errors_As err "PgError" with
  | Some (code, _) =>
      if code == "23514" then ErrWrap "refused by the database" ErrInvalidNotificationTransition
      else ErrWrap "transition notification" err
  | None => ErrWrap "transition notification" err
  end.

Definition applyTransition (query : DB → result (Z * DB)) (id : string) (db : DB) : option error * DB :=
  if id == "" then (Some (ErrWrap "notification id is required" ErrInvalidNotificationTransition), db)
  else match query db with
       | Fail err => (Some (transitionError err), db)
       | Ok (affected, db') =>
           if affected =? 0 then (Some ErrNotificationStateConflict, db') else (None, db')
       end.

(** ** The statements *)

Definition markEvaluatedQuery (now : Time) (id : string) (state : State) (reason : string)
    : DB → result (Z * DB) :=
  update (λ k r, (k == id) && (o_status r == "pending"))
    (λ r, move r state (o_attempts r)
      (if state == "eligible" then Some now else o_next_attempt_at r)
      (if reason == "" then None else Some reason) (o_last_error r)
      (if state == "suppressed" then Some now else o_processed_at r)).

Definition MarkEvaluated (now : Time) (id : string) (state : State) (reason : string) (db : DB)
    : option error * DB :=
  if negb (State_CanTransitionTo StatePending state)
  then (Some (ErrWrap "pending -> state" ErrInvalidNotificationTransition), db)
  else match ValidateSuppressedReason state reason with
       | Some err => (Some (ErrWrap "reason" ErrInvalidNotificationTransition), db)
       | None => applyTransition (markEvaluatedQuery now id state reason) id db
       end.

(** The claim of a delivery: the row still carries the attempt that claimed it. *)
Definition holds_claim (id : string) (attempt : Z) (k : string) (r : Row) : bool :=
  (k == id) && (o_status r == "processing") && (o_attempts r =? attempt).

Definition markDeliveredQuery (now : Time) (id : string) (attempt : Z) : DB → result (Z * DB) :=
  update (holds_claim id attempt)
    (λ r, move r "sent" (o_attempts r) None (o_suppressed_reason r) None (Some now)).
Definition MarkDelivered (now : Time) (id : string) (attempt : Z) (db : DB) : option error * DB :=
  applyTransition (markDeliveredQuery now id attempt) id db.

Definition scheduleRetryQuery (now : Time) (id : string) (attempt : Z) (delay : Duration)
    (category : string) : DB → result (Z * DB) :=
  update (holds_claim id attempt)
    (λ r, move r "retrying" (o_attempts r) (Some (now + delay)) (o_suppressed_reason r)
      (Some category) (o_processed_at r)).
Definition ScheduleRetry (now : Time) (id : string) (attempt : Z) (delay : Duration)
    (category : string) (db : DB) : option error * DB :=
  applyTransition (scheduleRetryQuery now id attempt delay category) id db.

Definition markFailedQuery (now : Time) (id : string) (attempt : Z) (category : string)
    : DB → result (Z * DB) :=
  update (holds_claim id attempt)
    (λ r, move r "failed" (o_attempts r) None (o_suppressed_reason r) (Some category) (Some now)).
Definition MarkFailed (now : Time) (id : string) (attempt : Z) (category : string) (db : DB)
    : option error * DB :=
  applyTransition (markFailedQuery now id attempt category) id db.

Definition reached (t : option Time) (now : Time) : bool :=
  match t with Some t => t <=? now | None => false end.

Definition failExhaustedQuery (now : Time) (maxAttempts : Z) : DB → result (Z * DB) :=
  update (λ _ r, (o_status r == "processing") && (maxAttempts <=? o_attempts r) &&
                 reached (o_next_attempt_at r) now)
    (λ r, move r "failed" (o_attempts r) None (o_suppressed_reason r) (Some "attempts_exhausted")
      (Some now)).
Definition FailExhausted (now : Time) (maxAttempts : Z) (db : DB) : result Z * DB :=
  if maxAttempts <=? 0 then (Ok 0, db)
  else match failExhaustedQuery now maxAttempts db with
       | Fail err => (Fail (ErrWrap "fail exhausted notifications" err), db)
       | Ok (affected, db') => (Ok affected, db')
       end.

Definition Backlog (db : DB) : Z :=
  Z.of_nat (size (filter (λ kv, o_status (snd kv) ∈ ["pending"; "eligible"; "retrying"]) (outbox db))).

(** ** Claiming *)



(** [reminderRecipientPendingBody]. *)
Definition reminderRecipientPending (db : DB) (r : Row) : bool :=
  match acks db !! (o_MessageID r, o_RecipientID r) with
  | Some a => a_state a == "pending"
  | None => false
  end.

(** The [due] rows of [claimDueQuery].  [locked] are the rows, of the outbox and
    of the acknowledgements, that [SKIP LOCKED] passes over. *)
Record Locks : Type := { lk_outbox : string → bool; lk_acks : string * string → bool }.

Definition claimable (locks : Locks) (now : Time) (maxAttempts : Z) (db : DB) (id : string) (r : Row)
    : bool :=
  (o_status r ∈? ["eligible"; "retrying"; "processing"]) && (o_attempts r <? maxAttempts) &&
  reached (o_next_attempt_at r) now &&
  ((o_kind r != EventTypeUrgentReminder) ||
   (reminderRecipientPending db r && negb (lk_acks locks (o_MessageID r, o_RecipientID r)))) &&
  negb (lk_outbox locks id).

(** [ORDER BY o.next_attempt_at, o.occurred_at, o.id]. *)
Definition claim_key (kv : string * Row) : Z * Z * string :=
  (default 0 (o_next_attempt_at (snd kv)), o_occurred_at (snd kv), fst kv).
Definition claim_le (x y : string * Row) : Prop :=
  let '(a, b, c) := claim_key x in
  let '(a', b', c') := claim_key y in
  a < a' ∨ (a = a' ∧ (b < b' ∨ (b = b' ∧ String.le c c'))).
#[export] Instance claim_le_dec : RelDecision claim_le.
Proof. intros x y. unfold claim_le. destruct (claim_key x) as [[??]?], (claim_key y) as [[??]?]. apply _. Defined.

Definition due (locks : Locks) (now : Time) (batchSize maxAttempts : Z) (db : DB) : list string :=
  fst <$> take (Z.to_nat batchSize)
    (merge_sort claim_le
      (filter (λ kv, claimable locks now maxAttempts db (fst kv) (snd kv) = true)
        (map_to_list (outbox db)))).

Definition claimDueQuery (locks : Locks) (now : Time) (batchSize maxAttempts : Z) (lease : Duration)
    (db : DB) : result (Z * DB) :=
  let ids := due locks now batchSize maxAttempts db in
  update (λ id _, id ∈? ids)
    (λ r, move r "processing" (Z.min (o_attempts r + 1) 32767) (Some (now + lease))
      (o_suppressed_reason r) (o_last_error r) (o_processed_at r)) db.

(** A row as [notificationColumns] projects it: the recipient's preferences are
    what the other tables say at that moment. *)
Record Projection : Type := { pj_muted : bool; pj_level : string; pj_dnd : bool }.

Record NotificationEvent : Type := {
  NotificationEvent_ID : string;
  NotificationEvent_row : Row;
  NotificationEvent_projection : Projection
}.

Definition Attempts (e : NotificationEvent) : Z := o_attempts (NotificationEvent_row e).

Definition scan (project : string → Projection) (db : DB) (ids : list string) : list NotificationEvent :=
  omap (λ id, r ← outbox db !! id;
              Some {| NotificationEvent_ID := id; NotificationEvent_row := r;
                      NotificationEvent_projection := project id |}) ids.

Definition ClaimDue (project : string → Projection) (locks : Locks) (now : Time)
    (batchSize maxAttempts : Z) (lease : Duration) (db : DB) : result (list NotificationEvent) * DB :=
  if (batchSize <=? 0) || (maxAttempts <=? 0) then (Ok [], db)
  else match claimDueQuery locks now batchSize maxAttempts lease db with
       | Fail err => (Fail (ErrWrap "claim due notifications" err), db)
       | Ok (_, db') => (Ok (scan project db' (due locks now batchSize maxAttempts db)), db')
       end.

(** [ORDER BY o.occurred_at, o.id]. *)
Definition pending_le (x y : string * Row) : Prop :=
  o_occurred_at (snd x) < o_occurred_at (snd y) ∨
  (o_occurred_at (snd x) = o_occurred_at (snd y) ∧ String.le (fst x) (fst y)).
#[export] Instance pending_le_dec : RelDecision pending_le.
Proof. intros x y. unfold pending_le. apply _. Defined.

Definition ListPending (project : string → Projection) (limit : Z) (db : DB) : list NotificationEvent :=
  if limit <=? 0 then []
  else scan project db (fst <$> take (Z.to_nat limit) (merge_sort pending_le
         (filter (λ kv, o_status (snd kv) = "pending") (map_to_list (outbox db))))).

(** ** Reminders *)

(** [UrgentReminderDedupeKeySQL]: [integer::text] is the decimal numeral. *)
Definition UrgentReminderDedupeKey (message : string) (occurrence : Z) : string :=
  SourceTypeMessage +:+ ":" +:+ message +:+ ":" +:+ EventTypeUrgentReminder +:+ ":" +:+ pretty occurrence.

Definition UrgentReminderInterval : Duration := 5 * Minute.
Definition MaxUrgentReminders : Z := 12.

(** The predicate of [due] in [scheduleDueRemindersQuery]. *)
Definition reminder_due (locked : string * string → bool) (now : Time) (db : DB)
    (key : string * string) : bool :=
  match acks db !! key, messages db !! fst key with
  | Some a, Some m =>
      (a_state a == "pending") && reached (a_next_reminder_at a) now &&
      m_persistent_notifications m && m_active m && negb (locked key)
  | _, _ => false
  end.

Definition reminder_le (db : DB) (x y : string * string) : Prop :=
  default 0 (acks db !! x ≫= a_next_reminder_at) <= default 0 (acks db !! y ≫= a_next_reminder_at).
#[export] Instance reminder_le_dec db : RelDecision (reminder_le db).
Proof. intros x y. unfold reminder_le. apply _. Defined.

(** [ORDER BY a.next_reminder_at LIMIT $1]; [order] is the order the plan meets
    the rows in, which decides between equals. *)
Definition reminders_due (order : list (string * string)) (locked : string * string → bool)
    (now : Time) (batchSize : Z) (db : DB) : list (string * string) :=
  take (Z.to_nat batchSize)
    (merge_sort (reminder_le db) (filter (λ key, reminder_due locked now db key = true) order)).

(** The row the [scheduled] part inserts for one due recipient. *)
Definition reminder_row (m : MessageRow) (key : string * string) (occurrence : Z) : Row :=
  {| o_WorkspaceID := m_WorkspaceID m; o_RecipientID := snd key; o_MessageID := fst key;
     o_kind := EventTypeUrgentReminder; o_priority := PriorityHigh;
     o_source_type := SourceTypeMessage; o_origin := OriginLive;
     o_dedupe_key := UrgentReminderDedupeKey (fst key) occurrence;
     o_occurred_at := m_created_at m; o_status := "pending"; o_attempts := 0;
     o_next_attempt_at := None; o_suppressed_reason := None; o_last_error := None;
     o_processed_at := None |}.

(** The unique index [notification_outbox_dedupe_uq]. *)
Definition same_dedupe (r r' : Row) : bool :=
  (o_WorkspaceID r == o_WorkspaceID r') && (o_RecipientID r == o_RecipientID r') &&
  (o_dedupe_key r == o_dedupe_key r').

(** [INSERT ... ON CONFLICT DO NOTHING RETURNING id] under a fresh identifier. *)
Definition insert_row (id : string) (r : Row) (db : DB) : bool * DB :=
  if bool_decide (map_Exists (λ _ r', same_dedupe r r' = true) (outbox db)) then (false, db)
  else (true, set_outbox db (<[id := r]> (outbox db))).

(** The [advanced] part for one recipient. *)
Definition advance_ack (now : Time) (m : MessageRow) (a : AckRow) : AckRow :=
  let n := a_reminder_count a + 1 in
  let over := (MaxUrgentReminders <=? n) && negb (m_acknowledgement_required m) in
  {| a_state := if over then "expired" else a_state a;
     a_reminder_count := n;
     a_next_reminder_at := if n <? MaxUrgentReminders then Some (now + UrgentReminderInterval) else None;
     a_resolved_at := if over then Some now else a_resolved_at a |}.

Record ReminderScheduleResult : Type := { Scheduled : Z; Deduplicated : Z; Expired : Z }.

Definition schedule_one (now : Time) (key : string * string) (id : string)
    (acc : ReminderScheduleResult * DB) : ReminderScheduleResult * DB :=
  let '(counts, db) := acc in
  match acks db !! key, messages db !! fst key with
  | Some a, Some m =>
      let '(inserted, db) := insert_row id (reminder_row m key (a_reminder_count a + 1)) db in
      let a' := advance_ack now m a in
      ({| Scheduled := Scheduled counts + (if inserted then 1 else 0);
          Deduplicated := Deduplicated counts + (if inserted then 0 else 1);
          Expired := Expired counts + (match a_next_reminder_at a' with Some _ => 0 | None => 1 end) |},
       {| outbox := outbox db; acks := <[key := a']> (acks db); messages := messages db |})
  | _, _ => acc
  end.

Fixpoint schedule_all (now : Time) (keys : list (string * string)) (ids : list string)
    (acc : ReminderScheduleResult * DB) : ReminderScheduleResult * DB :=
  match keys, ids with
  | key :: keys, id :: ids => schedule_all now keys ids (schedule_one now key id acc)
  | _, _ => acc
  end.

(** [ids] are the identifiers [gen_random_uuid] answers, one for each due row. *)
Definition ScheduleDueReminders (order : list (string * string)) (locked : string * string → bool)
    (ids : list string) (now : Time) (batchSize : Z) (db : DB) : result ReminderScheduleResult * DB :=
  if batchSize <=? 0 then (Ok {| Scheduled := 0; Deduplicated := 0; Expired := 0 |}, db)
  else if time_IsZero now
  then (Fail (ErrNew "schedule due reminders: reference instant is required"), db)
  else
    let '(counts, db') := schedule_all now (reminders_due order locked now batchSize db) ids
                            ({| Scheduled := 0; Deduplicated := 0; Expired := 0 |}, db) in
    (Ok counts, db').

Definition suppressResolvedRemindersReason : string := "recipient_resolved".

Definition suppressResolvedRemindersQuery (now : Time) (db : DB) : result (Z * DB) :=
  update (λ _ r, (o_kind r == EventTypeUrgentReminder) && (o_status r ∈? ["pending"; "eligible"]) &&
                 negb (reminderRecipientPending db r))
    (λ r, move r "suppressed" (o_attempts r) None (Some suppressResolvedRemindersReason)
      (o_last_error r) (Some now)) db.

Definition SuppressResolvedReminders (now : Time) (db : DB) : result Z * DB :=
  match suppressResolvedRemindersQuery now db with
  | Fail err => (Fail (ErrWrap "suppress resolved reminders" err), db)
  | Ok (affected, db') => (Ok affected, db')
  end.

(** ** Lemmas on [update] *)

Lemma update_Ok guard set db n db' :
  update guard set db = Ok (n, db') →
  (∀ id, outbox db' !! id = (λ r, if guard id r then set r else r) <$> outbox db !! id) ∧
  acks db' = acks db ∧ messages db' = messages db ∧ 0 <= n ∧
  (n = 0 ↔ ∀ id r, outbox db !! id = Some r → guard id r = false).
Proof.
  unfold update. case_bool_decide; [|done]. intros [= <- <-]. simpl. split_and!; [|done|done|lia|].
  - intros id. rewrite map_lookup_imap. by destruct (outbox db !! id).
  - split.
    + intros Hz id r Hr. apply not_true_is_false. intros Hg.
      assert (Hin : filter (λ kv : string * Row, guard kv.1 kv.2 = true) (outbox db) !! id = Some r)
        by (by apply map_lookup_filter_Some).
      assert (filter (λ kv : string * Row, guard kv.1 kv.2 = true) (outbox db) = ∅) as He.
      { apply map_size_empty_iff. lia. }
      by rewrite He, lookup_empty in Hin.
    + intros Hno. rewrite (proj2 (map_size_empty_iff _)); [done|].
      apply map_empty. intros id. apply map_lookup_filter_None_2. right. intros r Hr. simpl. by rewrite (Hno id r Hr).
Qed.

Lemma update_defined guard set db :
  (∀ id r, outbox db !! id = Some r → guard id r = true →
     enforce_transition (o_status r) (o_status (set r)) = true ∧ suppressed_reason_check (set r) = true) →
  ∃ n db', update guard set db = Ok (n, db').
Proof.
  intros Hall. unfold update. rewrite bool_decide_eq_true_2; [eauto|].
  intros id r [Hr Hg]%map_lookup_filter_Some. by apply (Hall id).
Qed.

(** The trigger and the Go machine are the same table. *)
Lemma enforce_transition_machine s s' :
  State_Valid s = true → enforce_transition s s' = (s' == s) || State_CanTransitionTo s s'.
Proof.
  assert (Hmem : ∀ (x y : string) l, (x ∈? y :: l) = ((x == y) || (x ∈? l))).
  { intros x y l. rewrite <-bool_decide_or. apply bool_decide_ext. by rewrite elem_of_cons. }
  assert (Hnil : ∀ x : string, (x ∈? []) = false).
  { intros x. apply bool_decide_eq_false_2. apply not_elem_of_nil. }
  assert (Hsym : ∀ x y : string, (x == y) = (y == x)) by (intros; apply bool_decide_ext; done).
  intros Hv. unfold State_Valid in Hv.
  destruct (State_targets s) as [ts|] eqn:E; [|done]. unfold State_targets in E. apply map_get_elem_of in E.
  assert (Hvalid : ∀ t, existsb (λ allowed, allowed == t) ts = true → State_Valid t = true).
  { intros t (x & Hx & ->%bool_decide_eq_true_1)%existsb_true_Exists.
    unfold stateTransitions in E. rewrite !elem_of_cons, elem_of_nil in E.
    destruct_or! E; simplify_eq; rewrite ?elem_of_cons, ?elem_of_nil in Hx; destruct_or! Hx; subst; done. }
  assert (Hcan : State_CanTransitionTo s s' = existsb (λ allowed, allowed == s') ts).
  { unfold State_CanTransitionTo.
    assert (State_targets s = Some ts) as ->.
    { unfold stateTransitions in E. rewrite !elem_of_cons, elem_of_nil in E.
      destruct_or! E; simplify_eq; done. }
    simpl. destruct (existsb _ ts) eqn:Ex; [by rewrite (Hvalid _ Ex)|by destruct (State_Valid s')]. }
  rewrite Hcan. unfold enforce_transition.
  unfold stateTransitions in E. rewrite !elem_of_cons, elem_of_nil in E.
  destruct_or! E; simplify_eq; rewrite !Hmem, !Hnil, ?(Hsym s'); simpl; rewrite ?orb_false_r; done.
Qed.

(** ** Lemmas on claiming *)

Lemma due_NoDup locks now batch M db : NoDup (due locks now batch M db).
Proof.
  unfold due. set (l := filter _ _).
  assert (Hl : NoDup (fst <$> l)).
  { eapply sublist_NoDup; [apply (NoDup_fst_map_to_list (outbox db))|]. apply fmap_sublist, sublist_filter. }
  eapply sublist_NoDup; [|apply fmap_sublist, sublist_take]. by rewrite merge_sort_Permutation.
Qed.

Lemma due_elem locks now batch M db id :
  id ∈ due locks now batch M db →
  ∃ r, outbox db !! id = Some r ∧ claimable locks now M db id r = true.
Proof.
  unfold due. intros ([id' r] & -> & Hin)%list_elem_of_fmap. simpl.
  apply elem_of_take in Hin as (i & Hi & _). apply list_elem_of_lookup_2 in Hi.
  rewrite merge_sort_Permutation in Hi. apply list_elem_of_filter in Hi as [Hc Hin].
  apply elem_of_map_to_list in Hin. eauto.
Qed.

Lemma scan_elem project db ids e :
  e ∈ scan project db ids ↔
  ∃ id r, id ∈ ids ∧ outbox db !! id = Some r ∧
    e = {| NotificationEvent_ID := id; NotificationEvent_row := r; NotificationEvent_projection := project id |}.
Proof.
  unfold scan. rewrite list_elem_of_omap. split.
  - intros (id & Hin & Heq). destruct (outbox db !! id) as [r|] eqn:E; [|done]. simplify_eq/=. eauto.
  - intros (id & r & Hin & Hr & ->). exists id. by rewrite Hr.
Qed.

Lemma scan_ids project db ids :
  (∀ id, id ∈ ids → is_Some (outbox db !! id)) → NotificationEvent_ID <$> scan project db ids = ids.
Proof.
  induction ids as [|id ids IH]; intros Hall; [done|]. unfold scan. simpl.
  destruct (Hall id) as [r Hr]; [left|]. rewrite Hr. simpl. f_equal. apply IH. intros; apply Hall; by right.
Qed.

Lemma claimable_inv locks now M db id r :
  claimable locks now M db id r = true →
  o_status r ∈ ["eligible"; "retrying"; "processing"] ∧ o_attempts r < M ∧
  (∃ t, o_next_attempt_at r = Some t ∧ t <= now) ∧
  (o_kind r = EventTypeUrgentReminder → reminderRecipientPending db r = true).
Proof.
  unfold claimable. intros [[[[Hs%bool_decide_eq_true_1 Ha%Z.ltb_lt]%andb_true_iff Hn]%andb_true_iff Hk]%andb_true_iff _]%andb_true_iff.
  split_and!; [done|done| |].
  - unfold reached in Hn. destruct (o_next_attempt_at r) as [t|]; [|done]. apply Z.leb_le in Hn. eauto.
  - intros Hr. rewrite bool_decide_eq_true_2 in Hk by done. simpl in Hk. by apply andb_true_iff in Hk as [? _].
Qed.
