(* ===== verification/NotificationWorker.v ===== *)
(** * The notification worker

    [services/notification-service/internal]: config/notification_worker.go,
    worker/notification_retry.go, notification_delivery.go,
    notification_policy.go and notification_worker.go, over the statements of
    [Outbox] and the engine of [NotificationPolicy].

    A pass is a sequence of statements, each at its own instant; replicas share
    only the database, so a system of replicas is the interleaving of their
    statements.  The delivery channel is outside: what it answers is an argument.
    Counters and log lines are left out. *)

From stdpp Require Import prelude gmap strings sorting pretty.
From Stdlib Require Import ZArith Lia.
From S2P Require Import Prelude GoStrings NotificationEvent NotificationPolicy Outbox.
From S2P Require WorkSchedule Message.
Local Open Scope Z_scope.

(** ** Configuration *)

Record NotificationWorkerConfig : Type := {
  Enabled : bool;
  PollSeconds : Z;
  BatchSize : Z;
  MaxConcurrency : Z;
  LeaseSeconds : Z;
  MaxAttempts : Z;
  RetryBaseSeconds : Z;
  RetryMaxSeconds : Z;
  DeliveryTimeoutSeconds : Z
}.

Definition notificationFinaliseGraceSeconds : Z := 5.
Definition notificationDefaultPollSeconds : Z := 5.
Definition notificationDefaultBatchSize : Z := 10.
Definition notificationDefaultMaxConcurrency : Z := 5.
Definition notificationDefaultLeaseSeconds : Z := 60.
Definition notificationDefaultMaxAttempts : Z := 6.
Definition notificationDefaultRetryBaseSeconds : Z := 30.
Definition notificationDefaultRetryMaxSeconds : Z := 900.
Definition notificationDefaultDeliverySeconds : Z := 10.

Definition clampSeconds (value minimum maximum fallback : Z) : Z :=
  if value <=? 0 then fallback else Z.min (Z.max value minimum) maximum.

Definition Normalized (c : NotificationWorkerConfig) : NotificationWorkerConfig :=
  let retryBase := clampSeconds (RetryBaseSeconds c) 1 600 notificationDefaultRetryBaseSeconds in
  let retryMax := clampSeconds (RetryMaxSeconds c) 1 86400 notificationDefaultRetryMaxSeconds in
  {| Enabled := Enabled c;
     PollSeconds := clampSeconds (PollSeconds c) 1 300 notificationDefaultPollSeconds;
     BatchSize := clampSeconds (BatchSize c) 1 200 notificationDefaultBatchSize;
     MaxConcurrency := clampSeconds (MaxConcurrency c) 1 64 notificationDefaultMaxConcurrency;
     LeaseSeconds := clampSeconds (LeaseSeconds c) 5 3600 notificationDefaultLeaseSeconds;
     MaxAttempts := clampSeconds (MaxAttempts c) 1 20 notificationDefaultMaxAttempts;
     RetryBaseSeconds := retryBase;
     RetryMaxSeconds := if retryMax <? retryBase then retryBase else retryMax;
     DeliveryTimeoutSeconds :=
       clampSeconds (DeliveryTimeoutSeconds c) 1 120 notificationDefaultDeliverySeconds |}.

(** [time.Duration(n) * time.Second]. *)
Definition seconds (n : Z) : Duration := int64 (n * Second).

Definition ProcessingBudget (c : NotificationWorkerConfig) : Duration :=
  let n := Normalized c in
  let waves := Z.quot (BatchSize n + MaxConcurrency n - 1) (MaxConcurrency n) in
  seconds (waves * DeliveryTimeoutSeconds n + notificationFinaliseGraceSeconds).

Definition ProtectedProcessingSeconds (c : NotificationWorkerConfig) : Z :=
  Z.quot (ProcessingBudget c) Second.

Definition LeaseCoversProcessing (c : NotificationWorkerConfig) : bool :=
  LeaseSeconds (Normalized c) >? ProtectedProcessingSeconds c.

(** ** Retry *)

Record RetryPolicy : Type := {
  Base : Duration;
  Max : Duration;
  Jitter : option (Z → Z)
}.

Definition retryMaxShift : Z := 20.

Definition bounds (p : RetryPolicy) : Duration * Duration :=
  let base := if Base p <=? 0 then Second else Base p in
  let ceiling := if Max p <? base then base else Max p in
  (base, ceiling).

(** [random] is [crypto/rand.Int]: a number below its argument, or nothing when
    the random source fails. *)
Definition randomBelow (random : Z → option Z) (p : RetryPolicy) (span : Z) : Z :=
  if span <=? 0 then 0
  else match Jitter p with
       | Some jitter => Z.min (Z.max (jitter span) 0) (span - 1)
       | None => match random span with Some value => value | None => 0 end
       end.

Definition spread (random : Z → option Z) (p : RetryPolicy) (delay : Duration) : Duration :=
  let half := Z.quot delay 2 in
  if half <=? 0 then delay else int64 (half + randomBelow random p half).

Definition Delay (random : Z → option Z) (p : RetryPolicy) (attempt : Z) : Duration :=
  let '(base, ceiling) := bounds p in
  let shift := Z.min (Z.max (attempt - 1) 0) retryMaxShift in
  let delay := int64 (Z.shiftl base shift) in
  let delay := if (delay <=? 0) || (ceiling <? delay) then ceiling else delay in
  spread random p delay.

(** ** Outcomes *)

Definition ErrPermanentDelivery : error := ErrNew "worker.ErrPermanentDelivery".
Definition CategoryTransient : string := "delivery_transient".
Definition CategoryTimeout : string := "delivery_timeout".
Definition CategoryPermanent : string := "delivery_permanent".

Definition classifyDelivery (err : option error) : string * bool :=
  match err with
  | None => ("", false)
  | Some err =>
      if errors_Is err ErrPermanentDelivery then (CategoryPermanent, true)
      else if errors_Is err context_DeadlineExceeded || errors_Is err context_Canceled
      then (CategoryTimeout, false)
      else (CategoryTransient, false)
  end.

(** [*RetryAfterError]. *)
Definition RetryAfterError (After : Duration) (Err : error) : error :=
  ErrStruct "RetryAfterError" "" After Err.

Definition requestedRetryDelay (err : error) : Duration :=
  match errors_As err "RetryAfterError" with
  | Some (_, After) => if After >? 0 then After else 0
  | None => 0
  end.

(** ** Policy *)

Definition policyContext (e : NotificationEvent) : Context :=
  let r := NotificationEvent_row e in
  let p := NotificationEvent_projection e in
  {| c_EventID := NotificationEvent_ID e; c_WorkspaceID := o_WorkspaceID r;
     c_RecipientID := o_RecipientID r; c_EventType := o_kind r; c_Priority := o_priority r;
     c_Origin := o_origin r; c_Conversation := "";
     c_WorkSchedule := WorkSchedule.StateNotConfigured; c_Presence := PresenceUnknown;
     c_ConversationOpen := false;
     c_Preferences := {| p_Status := ""; p_Disabled := false; p_DoNotDisturb := pj_dnd p;
       p_Muted := pj_muted p; p_ConversationLevel := pj_level p; p_SoundMode := "" |};
     c_WebPushAvailable := true; c_Duplicate := false; c_BurstCooldown := false |}.

Record Verdict : Type := {
  Deliver : bool;
  Verdict_SuppressedReason : string;
  PolicyVersion : Z
}.

Definition policyVerdict (d : Decision) : Verdict :=
  {| Deliver := WebPush (d_Channels d); Verdict_SuppressedReason := SuppressedReason d;
     PolicyVersion := d_PolicyVersion d |}.

Definition defaultSuppressedReason : string := "policy_suppressed".

Definition Verdict_Reason (v : Verdict) : string :=
  if Deliver v then ""
  else if Verdict_SuppressedReason v == "" then defaultSuppressedReason
  else Verdict_SuppressedReason v.

(** ** The worker *)

Section Worker.
Context (cfg : NotificationWorkerConfig).

Definition retry : RetryPolicy :=
  {| Base := seconds (RetryBaseSeconds cfg); Max := seconds (RetryMaxSeconds cfg); Jitter := None |}.

Definition lease : Duration := seconds (LeaseSeconds cfg).

(** [evaluateOne] with the policy evaluator, which never fails. *)
Definition evaluateOne (now : Time) (e : NotificationEvent) (db : DB) : option error * DB :=
  let verdict := policyVerdict (Evaluate (policyContext e)) in
  let state := if negb (Deliver verdict) then StateSuppressed else StateEligible in
  MarkEvaluated now (NotificationEvent_ID e) state (Verdict_Reason verdict) db.

Definition retryDelay (random : Z → option Z) (attempt : Z) (deliveryErr : error) : Duration :=
  let delay := Delay random retry attempt in
  let requested := requestedRetryDelay deliveryErr in
  if requested <=? delay then delay
  else Z.min requested (seconds (RetryMaxSeconds cfg)).

(** [recordOutcome]: the state it asked for, what the store answered. *)
Definition recordOutcome (now : Time) (random : Z → option Z) (id : string) (attempt : Z)
    (deliveryErr : option error) (db : DB) : State * (option error * DB) :=
  match deliveryErr with
  | None => (StateSent, MarkDelivered now id attempt db)
  | Some err =>
      let '(category, permanent) := classifyDelivery deliveryErr in
      if permanent || (MaxAttempts cfg <=? attempt)
      then (StateFailed, MarkFailed now id attempt category db)
      else (StateRetrying, ScheduleRetry now id attempt (retryDelay random attempt err) category db)
  end.

Definition retireExhausted (now : Time) (db : DB) : result Z * DB :=
  FailExhausted now (MaxAttempts cfg) db.

Definition claim (project : string → Projection) (locks : Locks) (now : Time) (db : DB)
    : result (list NotificationEvent) * DB :=
  ClaimDue project locks now (BatchSize cfg) (MaxAttempts cfg) lease db.
End Worker.

Section Pass.
Context (cfg : NotificationWorkerConfig).

Definition scheduleReminders (order : list (string * string)) (locked : string * string → bool)
    (ids : list string) (now : Time) (db : DB) : result ReminderScheduleResult * DB :=
  ScheduleDueReminders order locked ids now (BatchSize cfg) db.

Definition retireResolvedReminders (now : Time) (db : DB) : result Z * DB :=
  SuppressResolvedReminders now db.

(** The loop of [evaluatePending]: the events in turn, each at its own instant. *)
Fixpoint in_turn {A} (body : Time → A → DB → DB) (clock : nat → Time) (l : list A) (db : DB) : DB :=
  match l with
  | [] => db
  | x :: l => in_turn body (λ n, clock (S n)) l (body (clock O) x db)
  end.

Definition evaluateAll : (nat → Time) → list NotificationEvent → DB → DB :=
  in_turn (λ now e db, snd (evaluateOne now e db)).

Definition evaluatePending (project : string → Projection) (clock : nat → Time) (db : DB) : DB :=
  evaluateAll clock (ListPending project (BatchSize cfg) db) db.

(** One delivery that ended: the event, what the channel answered, the instant
    and the randomness its outcome was recorded with. *)
Record Answer : Type := {
  an_event : NotificationEvent;
  an_err : option error;
  an_now : Time;
  an_random : Z → option Z
}.

Definition deliverOne (a : Answer) (db : DB) : DB :=
  snd (snd (recordOutcome cfg (an_now a) (an_random a) (NotificationEvent_ID (an_event a))
              (Attempts (an_event a)) (an_err a) db)).

(** [deliverBatch]: the goroutines record their outcomes in the order the
    deliveries ended. *)
Fixpoint deliverBatch (answers : list Answer) (db : DB) : DB :=
  match answers with
  | [] => db
  | a :: answers => deliverBatch answers (deliverOne a db)
  end.

(** When the goroutines of [deliverBatch] end: each of the slots, listed by the
    instant it is free from, takes the next event as soon as it can, and an event
    occupies it for as long as its [deliverOne] takes. *)
Fixpoint release (slot : Time) (slots : list Time) : list Time :=
  match slots with
  | [] => [slot]
  | s :: rest => if slot <=? s then slot :: slots else s :: release slot rest
  end.

Fixpoint batchEnds (slots : list Time) (durations : list Duration) : list Time :=
  match slots, durations with
  | s :: slots, d :: durations => (s + d) :: batchEnds (release (s + d) slots) durations
  | _, _ => []
  end.

(** What a pass meets outside: the clock of each statement, the locks other
    statements hold, the preferences, the fresh identifiers and, once the batch
    is claimed, the deliveries in the order they end. *)
Record PassEnv : Type := {
  pe_retire : Time;
  pe_remind : Time;
  pe_suppress : Time;
  pe_evaluate : nat → Time;
  pe_claim : Time;
  pe_order : list (string * string);
  pe_locked : string * string → bool;
  pe_ids : list string;
  pe_project : string → Projection;
  pe_locks : Locks;
  pe_answers : list NotificationEvent → list Answer
}.

Definition deliverDue (env : PassEnv) (db : DB) : DB :=
  match claim cfg (pe_project env) (pe_locks env) (pe_claim env) db with
  | (Fail _, db) => db
  | (Ok events, db) => deliverBatch (pe_answers env events) db
  end.

Definition runPass (env : PassEnv) (db : DB) : DB :=
  let db := snd (retireExhausted cfg (pe_retire env) db) in
  let db := snd (scheduleReminders (pe_order env) (pe_locked env) (pe_ids env) (pe_remind env) db) in
  let db := snd (retireResolvedReminders (pe_suppress env) db) in
  let db := evaluatePending (pe_project env) (pe_evaluate env) db in
  deliverDue env db.
End Pass.

(** ** The system of replicas *)

(** A database, and the history a proof needs: every claim handed out and every
    outcome the store accepted. *)
Record World : Type := {
  w_db : DB;
  w_claims : list (string * Z);
  w_done : list (string * Z * State)
}.

Definition with_db (w : World) (db : DB) : World :=
  {| w_db := db; w_claims := w_claims w; w_done := w_done w |}.

(** What the producers insert. *)
Definition produced (r : Row) : Prop :=
  o_status r = StatePending ∧ o_attempts r = 0 ∧ o_next_attempt_at r = None ∧
  o_suppressed_reason r = None ∧ o_kind r ≠ EventTypeUrgentReminder.

(** What the chat service does to messages and acknowledgements: a resolved
    acknowledgement stays as it is, the count is not its to write, and it starts a
    schedule only before the first reminder (when a withheld message is
    published). *)
Definition chat_step (db db' : DB) : Prop :=
  outbox db' = outbox db ∧
  (∀ key a, acks db !! key = Some a → ∃ a', acks db' !! key = Some a' ∧
     a_reminder_count a' = a_reminder_count a ∧
     (a_next_reminder_at a' ∈ [None; a_next_reminder_at a] ∨ a_reminder_count a = 0) ∧
     (a_state a' = a_state a ∨ Message.CanResolveAcknowledgement (a_state a) (a_state a') = true)) ∧
  (∀ key a', acks db' !! key = Some a' → acks db !! key = None →
     a_state a' = Message.AcknowledgementStatePending ∧ a_reminder_count a' = 0).

Definition claims_of (events : list NotificationEvent) : list (string * Z) :=
  (λ e, (NotificationEvent_ID e, Attempts e)) <$> events.

Section Replicas.
Context (cfg : NotificationWorkerConfig).

(** One statement of some replica, or of the chat service.  A claim is recorded
    whenever its holder gets to it: possibly long after its lease. *)
Inductive world_step (w : World) : World → Prop :=
| step_produce id r db' :
    id ≠ "" → outbox (w_db w) !! id = None → produced r → insert_row id r (w_db w) = (true, db') →
    world_step w (with_db w db')
| step_chat db' : chat_step (w_db w) db' → world_step w (with_db w db')
| step_evaluate now e : world_step w (with_db w (snd (evaluateOne now e (w_db w))))
| step_claim project locks now events db' :
    claim cfg project locks now (w_db w) = (Ok events, db') →
    world_step w {| w_db := db'; w_claims := w_claims w ++ claims_of events; w_done := w_done w |}
| step_outcome now random id attempt err s db' :
    (id, attempt) ∈ w_claims w → recordOutcome cfg now random id attempt err (w_db w) = (s, (None, db')) →
    world_step w {| w_db := db'; w_claims := w_claims w; w_done := w_done w ++ [(id, attempt, s)] |}
| step_retire now : world_step w (with_db w (snd (retireExhausted cfg now (w_db w))))
| step_remind order locked ids now :
    NoDup order → NoDup ids → "" ∉ ids → (∀ id, id ∈ ids → outbox (w_db w) !! id = None) →
    world_step w (with_db w (snd (scheduleReminders cfg order locked ids now (w_db w))))
| step_suppress now : world_step w (with_db w (snd (retireResolvedReminders now (w_db w)))).

Definition reachable (w : World) : Prop :=
  ∃ ms, rtc world_step
    {| w_db := {| outbox := ∅; acks := ∅; messages := ms |}; w_claims := []; w_done := [] |} w.
End Replicas.

(** ** Rows *)

Section Rows.
Context (M : Z).

(** What holds of every row: the columns a state promises. *)
Definition row_wf (r : Row) : Prop :=
  State_Valid (o_status r) = true ∧ suppressed_reason_check r = true ∧ 0 <= o_attempts r <= M ∧
  (o_status r = StatePending → o_attempts r = 0) ∧
  (o_status r = StateProcessing → 1 <= o_attempts r) ∧
  (o_status r ∈ [StateEligible; StateRetrying] → o_attempts r < M) ∧
  (o_status r ∈ [StateEligible; StateRetrying; StateProcessing] → is_Some (o_next_attempt_at r)).

(** The columns no statement writes. *)
Definition same_event (r r' : Row) : Prop :=
  o_WorkspaceID r' = o_WorkspaceID r ∧ o_RecipientID r' = o_RecipientID r ∧ o_MessageID r' = o_MessageID r ∧
  o_kind r' = o_kind r ∧ o_dedupe_key r' = o_dedupe_key r ∧ o_occurred_at r' = o_occurred_at r.

(** A change that is no claim and no outcome. *)
Definition passive (r r' : Row) : Prop :=
  same_event r r' ∧ o_attempts r' = o_attempts r ∧
  (o_status r' = o_status r ∨ state_step (o_status r) (o_status r')) ∧
  (o_status r' ∈ [StateProcessing; StateSent] → o_status r' = o_status r).

Definition fresh (r : Row) : Prop := o_status r = StatePending ∧ o_attempts r = 0.

(** From one state of a row, present or not, to the next. *)
Definition evolves (before after : option Row) : Prop :=
  match before, after with
  | Some r, Some r' => passive r r' ∧ row_wf r'
  | None, Some r' => fresh r' ∧ row_wf r'
  | None, None => True
  | Some _, None => False
  end.

Definition table_wf (db : DB) : Prop := ∀ id r, outbox db !! id = Some r → row_wf r.

Lemma passive_refl r : passive r r.
Proof. split; [by split_and!|]. split_and!; auto. Qed.

Lemma passive_step r r' :
  same_event r r' → o_attempts r' = o_attempts r → state_step (o_status r) (o_status r') →
  o_status r' ∉ [StateProcessing; StateSent] → passive r r'.
Proof. intros He Ha Hs Hp. split; [done|]. split_and!; [done|by right|done]. Qed.

Lemma evolves_refl db id : table_wf db → evolves (outbox db !! id) (outbox db !! id).
Proof.
  intros Hwf. destruct (outbox db !! id) as [r|] eqn:E; [|done]. split; [apply passive_refl|by apply (Hwf id)].
Qed.

Lemma terminal_stays s s' : State_IsTerminal s = true → s' = s ∨ state_step s s' → s' = s.
Proof.
  intros Ht [Hs|Hs]; [done|]. exfalso.
  apply state_step_inv in Hs. destruct Hs as [[-> _]|[[-> _]|[[-> _]|[-> _]]]]; discriminate Ht.
Qed.

(** A step of the machine is one the trigger lets pass. *)
Lemma state_step_enforced s s' : state_step s s' → enforce_transition s s' = true.
Proof.
  intros Hs. rewrite enforce_transition_machine; [by rewrite Hs, orb_true_r|].
  apply state_step_inv in Hs. by destruct Hs as [[-> _]|[[-> _]|[[-> _]|[-> _]]]].
Qed.

Lemma check_None r : o_suppressed_reason r = None → o_status r ≠ StateSuppressed → suppressed_reason_check r = true.
Proof.
  intros Hn Hs. unfold suppressed_reason_check. rewrite Hn.
  by rewrite (bool_decide_eq_false_2 (o_status r = "suppressed")).
Qed.

Lemma wf_reason r : row_wf r → o_status r ≠ StateSuppressed → o_suppressed_reason r = None.
Proof.
  intros (_ & Hc & _) Hs. unfold suppressed_reason_check in Hc.
  rewrite (bool_decide_eq_false_2 (o_status r = "suppressed")) in Hc by done.
  by destruct (o_suppressed_reason r).
Qed.

(** A statement whose assignments keep rows well formed and follow the machine
    is not refused, and does to the table what it says. *)
Lemma update_run guard set db :
  table_wf db →
  (∀ id r, row_wf r → guard id r = true →
     (o_status (set r) = o_status r ∨ state_step (o_status r) (o_status (set r))) ∧ row_wf (set r)) →
  ∃ n db', update guard set db = Ok (n, db') ∧ table_wf db' ∧
    (∀ id, outbox db' !! id = (λ r, if guard id r then set r else r) <$> outbox db !! id) ∧
    acks db' = acks db ∧ messages db' = messages db ∧
    (n = 0 ↔ ∀ id r, outbox db !! id = Some r → guard id r = false).
Proof.
  intros Hwf Hset. destruct (update_defined guard set db) as (n & db' & Hu).
  { intros id r Hr Hg. destruct (Hset id r (Hwf id r Hr) Hg) as [Hs Hw]. split; [|apply Hw].
    destruct Hs as [->|Hs]; [|by apply state_step_enforced].
    unfold enforce_transition. by rewrite bool_decide_eq_true_2. }
  exists n, db'. split; [done|]. apply update_Ok in Hu as (Hl & Ha & Hm & _ & Hn).
  split_and!; [|done..]. intros id r Hr. rewrite Hl in Hr.
  destruct (outbox db !! id) as [r0|] eqn:E; [|done]. injection Hr as <-.
  pose proof (Hwf id r0 E) as Hr0. destruct (guard id r0) eqn:Hg; [|done]. by apply (Hset id r0 Hr0 Hg).
Qed.

(** ... and when its assignments are passive the whole table evolves. *)
Lemma update_passive guard set db :
  table_wf db →
  (∀ id r, row_wf r → guard id r = true →
     same_event r (set r) ∧ state_step (o_status r) (o_status (set r)) ∧ o_status (set r) ∉ [StateProcessing; StateSent] ∧
     o_attempts (set r) = o_attempts r ∧ row_wf (set r)) →
  ∃ n db', update guard set db = Ok (n, db') ∧
    (∀ id, evolves (outbox db !! id) (outbox db' !! id)) ∧ acks db' = acks db ∧
    (∀ id, outbox db !! id = None → outbox db' !! id = None) ∧
    (∀ id, outbox db' !! id = (λ r, if guard id r then set r else r) <$> outbox db !! id).
Proof.
  intros Hwf Hset. destruct (update_run guard set db Hwf) as (n & db' & Hu & Hwf' & Hl & Ha & Hm & Hn).
  { intros id r Hr Hg. destruct (Hset id r Hr Hg) as (_ & ? & ? & ? & ?). auto. }
  exists n, db'. split_and!; [done| |done| |done].
  - intros id. specialize (Hl id). destruct (outbox db !! id) as [r|] eqn:E; simpl in Hl; rewrite Hl; [|done].
    split; [|by apply (Hwf' id)]. destruct (guard id r) eqn:Hg; [|apply passive_refl].
    destruct (Hset id r (Hwf id r E) Hg) as (? & ? & ? & ? & ?). by apply passive_step.
  - intros id Hid. by rewrite Hl, Hid.
Qed.
End Rows.

(** ** Statements on well-formed tables *)

(** A hypothesis that a closed string is in a closed list it is not in. *)
Ltac not_in :=
  let Hin := fresh in intros Hin; exfalso; apply (bool_decide_eq_true_2 _) in Hin; vm_compute in Hin; discriminate Hin.

Lemma db_eq db db' : outbox db' = outbox db → acks db' = acks db → messages db' = messages db → db' = db.
Proof. destruct db, db'. simpl. by intros -> -> ->. Qed.

(** The reason the worker writes always meets the contract of the column. *)
Lemma verdict_valid e :
  let verdict := policyVerdict (Evaluate (policyContext e)) in
  let state := if negb (Deliver verdict) then StateSuppressed else StateEligible in
  ValidateSuppressedReason state (Verdict_Reason verdict) = None ∧
  (state = StateSuppressed ↔ Verdict_Reason verdict ≠ "") ∧ len (Verdict_Reason verdict) <= 200.
Proof.
  cbv zeta. pose proof (SuppressedReason_len (policyContext e)) as Hl. revert Hl.
  generalize (Evaluate (policyContext e)). intros d Hl. unfold Verdict_Reason, ValidateSuppressedReason, policyVerdict.
  cbn [Deliver Verdict_SuppressedReason]. destruct (WebPush (d_Channels d)); cbn [negb].
  - split_and!; [vm_compute; reflexivity|split; [intros Hx; discriminate Hx|done]|vm_compute; discriminate].
  - destruct (decide (SuppressedReason d = "")) as [He|He].
    + rewrite (bool_decide_eq_true_2 (SuppressedReason d = "")) by done.
      split_and!; [vm_compute; reflexivity|split; done|vm_compute; discriminate].
    + rewrite !(bool_decide_eq_false_2 (SuppressedReason d = "")) by done.
      assert ((len (SuppressedReason d) >? SuppressedReasonMaxLen) = false) as ->.
      { rewrite Z.gtb_ltb. apply Z.ltb_ge. unfold SuppressedReasonMaxLen. lia. }
      split_and!; [done|split; done|lia].
Qed.

Lemma check_Some r reason :
  o_suppressed_reason r = Some reason → reason ≠ "" → len reason <= 200 → o_status r = StateSuppressed →
  suppressed_reason_check r = true.
Proof.
  intros Hr Hne Hl Hs. unfold suppressed_reason_check. rewrite Hr, Hs.
  destruct (RuneCount_bounds reason) as [Hb Hp]. specialize (Hp Hne).
  change (("suppressed" : string) == "suppressed") with true.
  destruct (Z.leb_spec 1 (RuneCount reason)); [|lia]. by destruct (Z.leb_spec (RuneCount reason) 200); [|lia].
Qed.

Section Statements.
Context (M : Z) (HM : 1 <= M <= 20).

(** A transition of one row named by its identifier. *)
Lemma applyTransition_run guard set id db :
  id ≠ "" → table_wf M db →
  (∀ k r, guard k r = true → k = id) →
  (∀ k r, row_wf M r → guard k r = true →
     (o_status (set r) = o_status r ∨ state_step (o_status r) (o_status (set r))) ∧ row_wf M (set r)) →
  (∃ r db', applyTransition (update guard set) id db = (None, db') ∧ outbox db !! id = Some r ∧
     guard id r = true ∧ outbox db' = <[id := set r]> (outbox db) ∧ acks db' = acks db ∧ table_wf M db') ∨
  (applyTransition (update guard set) id db = (Some ErrNotificationStateConflict, db) ∧
     ∀ r, outbox db !! id = Some r → guard id r = false).
Proof.
  intros Hid Hwf Hguard Hset. unfold applyTransition. rewrite bool_decide_eq_false_2 by done.
  destruct (update_run M guard set db Hwf Hset) as (n & db' & -> & Hwf' & Hl & Ha & Hm & Hn).
  destruct (Z.eqb_spec n 0) as [->|Hne].
  - right. destruct Hn as [Hn _]. specialize (Hn eq_refl). split; [|by apply Hn]. f_equal.
    apply db_eq; [|done..]. apply map_eq. intros k. rewrite Hl.
    destruct (outbox db !! k) as [r|] eqn:E; [|done]. simpl. by rewrite (Hn k r E).
  - left. destruct (outbox db !! id) as [r|] eqn:E.
    2:{ exfalso. apply Hne, Hn. intros k r Hr. apply not_true_is_false. intros Hg.
        apply Hguard in Hg as ->. congruence. }
    destruct (guard id r) eqn:Hg.
    2:{ exfalso. apply Hne, Hn. intros k r' Hr. apply not_true_is_false. intros Hg'.
        pose proof (Hguard _ _ Hg') as ->. congruence. }
    exists r, db'. split_and!; [done..| |done|done]. apply map_eq. intros k. rewrite Hl.
    destruct (decide (k = id)) as [->|Hk].
    + rewrite E. simpl. by rewrite Hg, lookup_insert_eq.
    + rewrite lookup_insert_ne by done. destruct (outbox db !! k) as [r'|] eqn:E'; [|done]. simpl.
      destruct (guard k r') eqn:Hg'; [|done]. by apply Hguard in Hg'.
Qed.

Lemma evaluate_row now state reason r :
  row_wf M r → o_status r = StatePending →
  (state = StateEligible ∨ state = StateSuppressed) → (state = StateSuppressed ↔ reason ≠ "") →
  len reason <= 200 →
  row_wf M (move r state (o_attempts r)
      (if state == "eligible" then Some now else o_next_attempt_at r)
      (if reason == "" then None else Some reason) (o_last_error r)
      (if state == "suppressed" then Some now else o_processed_at r)).
Proof.
  intros (Hv & Hc & Ha & Hp & _) Hs Hstate Hreason Hlen. specialize (Hp Hs).
  destruct Hstate as [-> | ->].
  - assert (reason = "") as ->.
    { destruct (decide (reason = "")); [done|]. by apply Hreason in n. }
    split_and!; simpl; done || lia.
  - assert (Hne : reason ≠ "") by (by apply Hreason). rewrite (bool_decide_eq_false_2 (reason = "")) by done.
    split_and!; simpl; try done; try lia.
    + by apply (check_Some _ reason).
    + not_in.
Qed.

Lemma MarkEvaluated_run now e db :
  table_wf M db → NotificationEvent_ID e ≠ "" →
  ∃ err db', evaluateOne now e db = (err, db') ∧ (err = None ∨ err = Some ErrNotificationStateConflict) ∧
    acks db' = acks db ∧ (∀ id, evolves M (outbox db !! id) (outbox db' !! id)) ∧
    (∀ id, outbox db !! id = None → outbox db' !! id = None) ∧
    (∀ r, outbox db !! NotificationEvent_ID e = Some r → o_status r = StatePending →
       ∃ r', outbox db' !! NotificationEvent_ID e = Some r' ∧ o_status r' ≠ StatePending).
Proof.
  intros Hwf Hid. destruct (verdict_valid e) as (Hval & Hreason & Hlen). cbv zeta in *.
  unfold evaluateOne. set (verdict := policyVerdict (Evaluate (policyContext e))) in *.
  set (state := if negb (Deliver verdict) then StateSuppressed else StateEligible) in *.
  assert (Hstate : state = StateEligible ∨ state = StateSuppressed).
  { subst state. destruct (negb (Deliver verdict)); auto. }
  assert (Hcan : State_CanTransitionTo StatePending state = true) by (by destruct Hstate as [-> | ->]).
  unfold MarkEvaluated. rewrite Hcan, Hval. cbn [negb].
  unfold markEvaluatedQuery.
  match goal with |- context [update ?g ?s] => set (guard := g); set (set := s) end.
  assert (Hrow : ∀ k r, row_wf M r → guard k r = true →
    k = NotificationEvent_ID e ∧ o_status r = StatePending ∧ row_wf M (set r)).
  { intros k r Hr [->%bool_decide_eq_true_1 Hs%bool_decide_eq_true_1]%andb_true_iff.
    split_and!; [done|done|]. by apply evaluate_row. }
  destruct (applyTransition_run guard set (NotificationEvent_ID e) db Hid Hwf) as
    [(r & db' & -> & Hr & Hg & Hout & Ha & Hwf')|[-> Hno] ].
  { by intros k r [->%bool_decide_eq_true_1 _]%andb_true_iff. }
  { intros k r Hr Hg. destruct (Hrow k r Hr Hg) as (_ & Hs & Hw). split; [|done]. right. simpl. by rewrite Hs. }
  - exists None, db'. split_and!; [done|auto|done| | |].
    3:{ intros r0 _ _. exists (set r). rewrite Hout, lookup_insert_eq. split; [done|]. simpl.
        by destruct Hstate as [-> | ->]. }
    2:{ intros id Hnone. rewrite Hout, lookup_insert_None. split; [done|]. intros <-. congruence. }
    intros id. specialize (Hwf' id). rewrite Hout in Hwf' |- *.
    destruct (decide (id = NotificationEvent_ID e)) as [->|Hne].
    + rewrite lookup_insert_eq in Hwf' |- *. rewrite Hr. destruct (Hrow _ r (Hwf _ r Hr) Hg) as (_ & Hs & Hw).
      split; [|done]. apply passive_step; [by split_and!|done| |].
      * simpl. rewrite Hs. exact Hcan.
      * simpl. destruct Hstate as [-> | ->]; not_in.
    + rewrite lookup_insert_ne by done. by apply evolves_refl.
  - exists (Some ErrNotificationStateConflict), db. split_and!; [done|auto|done| |done|].
    + intros id. by apply evolves_refl.
    + intros r Hr Hs. specialize (Hno r Hr). unfold guard in Hno. rewrite !bool_decide_eq_true_2 in Hno by done. done.
Qed.

(** The three endings of a claim. *)
Lemma finalise_run set s id attempt db :
  id ≠ "" → table_wf M db → s ∈ [StateSent; StateRetrying; StateFailed] →
  (∀ r, o_status (set r) = s ∧ o_attempts (set r) = o_attempts r ∧
        o_suppressed_reason (set r) = o_suppressed_reason r ∧
        (s = StateRetrying → is_Some (o_next_attempt_at (set r)))) →
  (s = StateRetrying → attempt < M) →
  (∃ r db', applyTransition (update (holds_claim id attempt) set) id db = (None, db') ∧
     outbox db !! id = Some r ∧ o_status r = StateProcessing ∧ o_attempts r = attempt ∧
     outbox db' = <[id := set r]> (outbox db) ∧ acks db' = acks db ∧ table_wf M db') ∨
  (applyTransition (update (holds_claim id attempt) set) id db = (Some ErrNotificationStateConflict, db) ∧
     ∀ r, outbox db !! id = Some r → ¬ (o_status r = StateProcessing ∧ o_attempts r = attempt)).
Proof.
  intros Hid Hwf Hs Hset Hretry.
  assert (Hholds : ∀ k r, holds_claim id attempt k r = true ↔
            k = id ∧ o_status r = StateProcessing ∧ o_attempts r = attempt).
  { intros k r. unfold holds_claim. rewrite !andb_true_iff, !bool_decide_eq_true, Z.eqb_eq. tauto. }
  destruct (applyTransition_run (holds_claim id attempt) set id db Hid Hwf) as
    [(r & db' & Hrun & Hr & Hg & Hout & Ha & Hwf')|[Hrun Hno] ].
  - by intros k r [-> _]%Hholds.
  - intros k r Hr (-> & Hp & <-)%Hholds. destruct (Hset r) as (H1 & H2 & H3 & H4).
    pose proof (wf_reason M r Hr) as Hreason. rewrite Hp in Hreason. specialize (Hreason ltac:(discriminate)).
    rewrite Hreason in H3. rewrite H1. split.
    + right. rewrite Hp. rewrite !elem_of_cons, elem_of_nil in Hs. by destruct_or! Hs; subst s.
    + destruct Hr as (_ & _ & Ha & _). rewrite !elem_of_cons, elem_of_nil in Hs.
      destruct_or! Hs; subst s; split_and!; rewrite ?H1, ?H2; try done; try lia;
        try (apply check_None; [done|by rewrite H1]); try not_in.
      intros _. by apply Hretry.
      intros _. by apply H4.
  - left. apply Hholds in Hg as (_ & ? & ?). exists r, db'. by split_and!.
  - right. split; [done|]. intros r Hr Hp. specialize (Hno r Hr).
    assert (Hc : holds_claim id attempt id r = true) by (by apply Hholds). congruence.
Qed.
End Statements.

Section Operations.
Context (cfg : NotificationWorkerConfig) (HM : 1 <= MaxAttempts cfg <= 20).
Let M := MaxAttempts cfg.

Lemma outcome_run now random id attempt err db :
  id ≠ "" → table_wf M db →
  ∃ s e db', recordOutcome cfg now random id attempt err db = (s, (e, db')) ∧
    s ∈ [StateSent; StateRetrying; StateFailed] ∧
    ((∃ r r', e = None ∧ outbox db !! id = Some r ∧ o_status r = StateProcessing ∧ o_attempts r = attempt ∧
       outbox db' = <[id := r']> (outbox db) ∧ same_event r r' ∧ o_status r' = s ∧ o_attempts r' = attempt ∧
       acks db' = acks db ∧ table_wf M db') ∨
     (e = Some ErrNotificationStateConflict ∧ db' = db ∧
      ∀ r, outbox db !! id = Some r → ¬ (o_status r = StateProcessing ∧ o_attempts r = attempt))).
Proof.
  intros Hid Hwf.
  assert (Hgen : ∀ s set,
    s ∈ [StateSent; StateRetrying; StateFailed] → (s = StateRetrying → attempt < M) →
    (∀ r, same_event r (set r)) →
    (∀ r, o_status (set r) = s ∧ o_attempts (set r) = o_attempts r ∧
          o_suppressed_reason (set r) = o_suppressed_reason r ∧
          (s = StateRetrying → is_Some (o_next_attempt_at (set r)))) →
    ∃ s' e db', (s, applyTransition (update (holds_claim id attempt) set) id db) = (s', (e, db')) ∧
      s' ∈ [StateSent; StateRetrying; StateFailed] ∧
      ((∃ r r', e = None ∧ outbox db !! id = Some r ∧ o_status r = StateProcessing ∧ o_attempts r = attempt ∧
         outbox db' = <[id := r']> (outbox db) ∧ same_event r r' ∧ o_status r' = s' ∧ o_attempts r' = attempt ∧
         acks db' = acks db ∧ table_wf M db') ∨
       (e = Some ErrNotificationStateConflict ∧ db' = db ∧
        ∀ r, outbox db !! id = Some r → ¬ (o_status r = StateProcessing ∧ o_attempts r = attempt)))).
  { intros s set Hs Hlt Hsame Hset.
    destruct (finalise_run M HM set s id attempt db Hid Hwf Hs Hset Hlt) as
      [(r & db' & -> & Hr & Hp & Ha & Hout & Hacks & Hwf')|[-> Hno] ]; do 3 eexists;
      (split; [reflexivity|]; split; [done|]).
    - left. exists r, (set r). destruct (Hset r) as (H1 & H2 & _). split_and!; try done. congruence.
    - right. done. }
  unfold recordOutcome. destruct err as [err|].
  2:{ apply Hgen; [left|done|done|]. by intros r. }
  destruct (classifyDelivery (Some err)) as [category permanent].
  destruct (permanent || (MaxAttempts cfg <=? attempt)) eqn:Hp.
  - apply Hgen; [set_solver|done|done|]. by intros r.
  - apply orb_false_iff in Hp as [_ Hp]. apply Z.leb_gt in Hp.
    apply Hgen; [set_solver|done|done|]. intros r. split_and!; done.
Qed.

Lemma claim_run project locks now db :
  table_wf M db → 1 <= BatchSize cfg →
  ∃ events db', claim cfg project locks now db = (Ok events, db') ∧ table_wf M db' ∧ acks db' = acks db ∧
    NotificationEvent_ID <$> events = due locks now (BatchSize cfg) M db ∧
    (∀ e, e ∈ events → ∃ r, outbox db !! NotificationEvent_ID e = Some r ∧
       claimable locks now M db (NotificationEvent_ID e) r = true ∧
       outbox db' !! NotificationEvent_ID e = Some (NotificationEvent_row e) ∧ same_event r (NotificationEvent_row e) ∧
       Attempts e = o_attempts r + 1 ∧ o_status (NotificationEvent_row e) = StateProcessing ∧
       o_next_attempt_at (NotificationEvent_row e) = Some (now + lease cfg)) ∧
    (∀ id, id ∉ (NotificationEvent_ID <$> events) → outbox db' !! id = outbox db !! id).
Proof.
  intros Hwf Hb. unfold claim, ClaimDue, claimDueQuery.
  destruct (Z.leb_spec (BatchSize cfg) 0); [lia|]. destruct (Z.leb_spec (MaxAttempts cfg) 0); [lia|]. cbn [orb].
  set (ids := due locks now (BatchSize cfg) (MaxAttempts cfg) db).
  set (set := λ r : Row, move r "processing" (Z.min (o_attempts r + 1) 32767) (Some (now + lease cfg))
    (o_suppressed_reason r) (o_last_error r) (o_processed_at r)).
  assert (Hdue : ∀ id r, id ∈ ids → outbox db !! id = Some r → claimable locks now M db id r = true).
  { intros id r (r' & Hr' & Hc)%due_elem Hr. by simplify_eq. }
  set (hit := λ (id : string) (r : Row), (id ∈? ids) && bool_decide (outbox db !! id = Some r)).
  assert (Hext : update (λ id _, id ∈? ids) set db = update hit set db).
  { assert (Hl : ∀ id r, outbox db !! id = Some r → (id ∈? ids) = hit id r).
    { intros id r Hr. unfold hit. by rewrite (bool_decide_eq_true_2 (_ = Some r)), andb_true_r. }
    unfold update. rewrite (proj1 (map_filter_ext (λ kv : string * Row, (kv.1 ∈? ids) = true)
      (λ kv : string * Row, hit kv.1 kv.2 = true) (outbox db))).
    2:{ intros id r Hr. simpl. by rewrite (Hl id r Hr). }
    rewrite (map_imap_ext (λ id r, Some (if id ∈? ids then set r else r))
      (λ id r, Some (if hit id r then set r else r)) (outbox db) (outbox db)); [done|].
    intros id. destruct (outbox db !! id) as [r|] eqn:Hr; [|done]. simpl. by rewrite (Hl id r Hr). }
  rewrite Hext. destruct (update_run M hit set db Hwf) as (n & db' & -> & Hwf' & Hl & Ha & Hm & _).
  { intros id r Hr [Hin%bool_decide_eq_true_1 Hout%bool_decide_eq_true_1]%andb_true_iff.
    pose proof (Hdue id r Hin Hout) as (Hs & Hlt & _ & _)%claimable_inv. fold M in Hlt.
    pose proof (wf_reason M r Hr) as Hreason. destruct Hr as (_ & _ & Hra & _).
    rewrite !elem_of_cons, elem_of_nil in Hs.
    assert (Hnone : o_suppressed_reason r = None) by (apply Hreason; destruct_or! Hs; rewrite Hs; discriminate).
    split.
    - destruct_or! Hs; try done; simpl; rewrite Hs; [right|right|left]; reflexivity.
    - split_and!; simpl; try done; try lia; try not_in. by apply check_None. }
  assert (Hrow : ∀ id, id ∈ ids → ∃ r, outbox db !! id = Some r ∧ outbox db' !! id = Some (set r)).
  { intros id Hin. pose proof Hin as (r & Hr & _)%due_elem. exists r. split; [done|]. rewrite Hl, Hr. simpl.
    unfold hit. by rewrite Hr, !bool_decide_eq_true_2. }
  assert (Hids : NotificationEvent_ID <$> scan project db' ids = ids).
  { apply scan_ids. intros id (r & _ & Hr)%Hrow. by rewrite Hr. }
  exists (scan project db' ids), db'. rewrite Hids. split_and!; [done..| |].
  - intros e (id & r' & Hin & Hr' & ->)%scan_elem. simpl. destruct (Hrow id Hin) as (r & Hr & Hset).
    rewrite Hr' in Hset. injection Hset as ->. exists r.
    pose proof (Hdue id r Hin Hr) as Hc. pose proof Hc as (_ & Hlt & _)%claimable_inv. fold M in Hlt.
    pose proof (Hwf id r Hr) as (_ & _ & Hra & _). split_and!; try done. unfold Attempts. simpl. lia.
  - intros id Hin. rewrite Hl. destruct (outbox db !! id) as [r|]; [|done]. simpl. unfold hit.
    by rewrite (bool_decide_eq_false_2 (id ∈ ids)).
Qed.

Lemma retire_run now db :
  table_wf M db →
  ∃ n db', retireExhausted cfg now db = (Ok n, db') ∧ acks db' = acks db ∧
    (∀ id, evolves M (outbox db !! id) (outbox db' !! id)) ∧
    (∀ id, outbox db !! id = None → outbox db' !! id = None) ∧
    (∀ id r, outbox db !! id = Some r → o_status r = StateProcessing → M <= o_attempts r →
       reached (o_next_attempt_at r) now = true →
       ∃ r', outbox db' !! id = Some r' ∧ o_status r' = StateFailed).
Proof.
  intros Hwf. unfold retireExhausted, FailExhausted, failExhaustedQuery.
  destruct (Z.leb_spec (MaxAttempts cfg) 0); [lia|].
  match goal with |- context [update ?g ?s] => set (guard := g); set (set := s) end.
  destruct (update_passive M guard set db Hwf) as (n & db' & -> & He & Ha & Hk & Hl).
  2:{ exists n, db'. split_and!; try done. intros id r Hr Hs Hm Hd. exists (set r). split; [|done].
      rewrite Hl, Hr. simpl. unfold guard. rewrite Hd, bool_decide_eq_true_2 by done. fold M.
      by rewrite (proj2 (Z.leb_le _ _) Hm). }
  intros id r Hr [[Hs%bool_decide_eq_true_1 _]%andb_true_iff _]%andb_true_iff. simpl. rewrite Hs.
  pose proof (wf_reason M r Hr) as Hreason. rewrite Hs in Hreason. specialize (Hreason ltac:(discriminate)).
  destruct Hr as (_ & _ & Hra & _). split; [by split_and!|]. split; [done|]. split; [not_in|]. split; [done|].
  split_and!; try done; simpl; try lia; try not_in. by apply check_None.
Qed.

Lemma suppress_run now db :
  table_wf M db →
  ∃ n db', retireResolvedReminders now db = (Ok n, db') ∧ acks db' = acks db ∧
    (∀ id, evolves M (outbox db !! id) (outbox db' !! id)) ∧
    (∀ id, outbox db !! id = None → outbox db' !! id = None).
Proof.
  intros Hwf. unfold retireResolvedReminders, SuppressResolvedReminders, suppressResolvedRemindersQuery.
  match goal with |- context [update ?g ?s] => set (guard := g); set (set := s) end.
  destruct (update_passive M guard set db Hwf) as (n & db' & -> & He & Ha & Hk & _); [|by eauto 10].
  intros id r Hr [[_ Hs%bool_decide_eq_true_1]%andb_true_iff _]%andb_true_iff. simpl.
  destruct Hr as (_ & _ & Hra & _). rewrite !elem_of_cons, elem_of_nil in Hs.
  split; [by split_and!|]. split; [by destruct_or! Hs; rewrite Hs|]. split; [not_in|]. split; [done|].
  split_and!; try done; simpl; try lia; not_in.
Qed.
End Operations.

(** ** The invariant of the replicas *)

Section Invariant.
Context (cfg : NotificationWorkerConfig) (HM : 1 <= MaxAttempts cfg <= 20) (HB : 1 <= BatchSize cfg).
Let M := MaxAttempts cfg.

Lemma fresh_wf r :
  o_status r = StatePending → o_attempts r = 0 → o_suppressed_reason r = None → row_wf M r.
Proof.
  intros Hs Ha Hr. split_and!; rewrite ?Hs, ?Ha; try done; try lia; try not_in. apply check_None; [done|].
  by rewrite Hs.
Qed.

Lemma insert_row_spec id r db b db' :
  outbox db !! id = None → insert_row id r db = (b, db') →
  acks db' = acks db ∧ messages db' = messages db ∧
  ∀ k, outbox db' !! k = if decide (b = true ∧ k = id) then Some r else outbox db !! k.
Proof.
  intros Hnone. unfold insert_row. destruct (bool_decide _); intros [= <- <-]; simpl; split_and!; try done.
  intros k. destruct (decide _) as [[_ ->]|Hk]; [by rewrite lookup_insert_eq|].
  rewrite lookup_insert_ne; [done|]. intros ->. by apply Hk.
Qed.

(** Scheduling only ever adds pending rows, under the identifiers it is given. *)
Definition extends (ids : list string) (db db' : DB) : Prop :=
  ∀ id, outbox db' !! id = outbox db !! id ∨
        (outbox db !! id = None ∧ id ∈ ids ∧ ∃ r, outbox db' !! id = Some r ∧ fresh r ∧ row_wf M r).

Lemma extends_evolves ids db db' id :
  table_wf M db → extends ids db db' → evolves M (outbox db !! id) (outbox db' !! id).
Proof.
  intros Hwf He. destruct (He id) as [->|(Hn & _ & r & -> & Hf & Hw)]; [by apply evolves_refl|]. by rewrite Hn.
Qed.

Lemma schedule_one_spec now key id counts db :
  outbox db !! id = None →
  extends [id] db (snd (schedule_one now key id (counts, db))) ∧
  (∀ k, k ≠ id → outbox (snd (schedule_one now key id (counts, db))) !! k = outbox db !! k).
Proof.
  intros Hid. unfold schedule_one.
  destruct (acks db !! key) as [a|]; [|split; [intros k; by left|done]].
  destruct (messages db !! key.1) as [m|]; [|split; [intros k; by left|done]].
  destruct (insert_row id _ db) as [b db1] eqn:E. apply insert_row_spec in E as (_ & _ & Hl); [|done].
  simpl. split.
  - intros k. simpl. rewrite Hl. destruct (decide _) as [[_ ->]|_]; [right|by left].
    split; [done|]. split; [left|]. eexists. split; [reflexivity|]. split; [done|]. by apply fresh_wf.
  - intros k Hk. rewrite Hl. by rewrite decide_False by tauto.
Qed.

Lemma schedule_all_extends now keys ids acc :
  NoDup ids → (∀ id, id ∈ ids → outbox (snd acc) !! id = None) →
  extends ids (snd acc) (snd (schedule_all now keys ids acc)).
Proof.
  revert ids acc. induction keys as [|key keys IH]; intros ids [counts db] Hnd Hfresh; [intros k; by left|].
  destruct ids as [|id ids]; [intros k; by left|].
  change (schedule_all now (key :: keys) (id :: ids) (counts, db)) with
    (schedule_all now keys ids (schedule_one now key id (counts, db))).
  apply NoDup_cons in Hnd as [Hni Hnd]. simpl in Hfresh.
  destruct (schedule_one_spec now key id counts db) as [He Hk]; [by apply Hfresh; left|].
  destruct (schedule_one now key id (counts, db)) as [counts1 db1] eqn:E. simpl in He, Hk.
  assert (He2 : extends ids db1 (snd (schedule_all now keys ids (counts1, db1)))).
  { apply (IH ids (counts1, db1)); [done|]. intros id' Hin. simpl. rewrite Hk; [by apply Hfresh; right|].
    intros ->. done. }
  intros k. cbn [snd] in He2 |- *. destruct (He2 k) as [Heq|(Hn & Hin & r & Hr & Hf)].
  - rewrite Heq. destruct (He k) as [?|(? & ?%list_elem_of_singleton & ?)]; [by left|right].
    split; [done|]. split; [subst; left|done].
  - right. split; [|split; [by right|by exists r] ].
    destruct (He k) as [Heq|(Hn' & _)]; [|done]. by rewrite <-Heq.
Qed.

Lemma remind_extends order locked ids now db :
  NoDup ids → (∀ id, id ∈ ids → outbox db !! id = None) →
  extends ids db (snd (scheduleReminders cfg order locked ids now db)).
Proof.
  intros Hnd Hfresh. unfold scheduleReminders, ScheduleDueReminders.
  destruct (_ <=? 0); [intros k; by left|]. destruct (time_IsZero now); [intros k; by left|].
  pose proof (schedule_all_extends now (reminders_due order locked now (BatchSize cfg) db) ids
    ({| Scheduled := 0; Deduplicated := 0; Expired := 0 |}, db) Hnd Hfresh) as He.
  by destruct (schedule_all _ _ _ _).
Qed.

(** What the history has to do with the rows. *)
Record inv (w : World) : Prop := {
  inv_wf : table_wf M (w_db w);
  inv_id : outbox (w_db w) !! "" = None;
  inv_claims_NoDup : NoDup (w_claims w);
  inv_claims : ∀ id a, (id, a) ∈ w_claims w ↔
    ∃ r, outbox (w_db w) !! id = Some r ∧ 1 <= a <= o_attempts r;
  inv_done_NoDup : NoDup (fst <$> w_done w);
  inv_done : ∀ id a s, (id, a, s) ∈ w_done w →
    ∃ r, outbox (w_db w) !! id = Some r ∧ 1 <= a <= o_attempts r ∧
      (a = o_attempts r → o_status r ≠ StateProcessing) ∧
      (State_IsTerminal s = true → o_status r = s ∧ o_attempts r = a);
  inv_sent : ∀ id r, outbox (w_db w) !! id = Some r → o_status r = StateSent →
    (id, o_attempts r, StateSent) ∈ w_done w
}.

(** A step that neither claims nor records an outcome keeps it. *)
Lemma inv_passive w db' :
  inv w → outbox db' !! "" = None →
  (∀ id, evolves M (outbox (w_db w) !! id) (outbox db' !! id)) → inv (with_db w db').
Proof.
  intros [Hwf Hid Hnd Hc Hdnd Hd Hs] Hid' He.
  assert (Hsome : ∀ id r, outbox (w_db w) !! id = Some r →
    ∃ r', outbox db' !! id = Some r' ∧ passive r r').
  { intros id r Hr. specialize (He id). rewrite Hr in He. destruct (outbox db' !! id) as [r'|]; [|done].
    exists r'. split; [done|apply He]. }
  split; simpl; try done.
  - intros id r' Hr'. specialize (He id). rewrite Hr' in He. by destruct (outbox (w_db w) !! id) as [r|]; destruct He.
  - intros id a. rewrite Hc. split.
    + intros (r & Hr & Ha). destruct (Hsome id r Hr) as (r' & Hr' & _ & Hp & _). exists r'. split; [done|lia].
    + intros (r' & Hr' & Ha). specialize (He id). rewrite Hr' in He.
      destruct (outbox (w_db w) !! id) as [r|]; [|destruct He as [[_ Hf] _]; lia].
      exists r. destruct He as [(_ & Hp & _) _]. split; [done|lia].
  - intros id a s Hin. destruct (Hd id a s Hin) as (r & Hr & Ha & Hlast & Hterm).
    destruct (Hsome id r Hr) as (r' & Hr' & _ & Hp & Hrtc & Hstay). exists r'. split; [done|]. split; [lia|]. split.
    + intros Heq Hproc. apply Hlast; [lia|]. rewrite <-Hstay; [done|]. rewrite Hproc. left.
    + intros Ht. destruct (Hterm Ht) as [Hst Hat]. split; [|lia]. rewrite Hst in Hrtc.
      by apply terminal_stays in Hrtc.
  - intros id r' Hr' Hsent. specialize (He id). rewrite Hr' in He.
    destruct (outbox (w_db w) !! id) as [r|] eqn:Hr; [|destruct He as [[Hf _] _]; rewrite Hf in Hsent; discriminate Hsent].
    destruct He as [(_ & Hp & _ & Hstay) _]. rewrite Hp. apply Hs; [done|]. rewrite <-Hstay; [done|].
    rewrite Hsent. right. left.
Qed.

Lemma inv_claim w project locks now events db' :
  inv w → claim cfg project locks now (w_db w) = (Ok events, db') →
  inv {| w_db := db'; w_claims := w_claims w ++ claims_of events; w_done := w_done w |}.
Proof.
  intros [Hwf Hid Hnd Hc Hdnd Hd Hs] Hclaim.
  destruct (claim_run cfg HM project locks now (w_db w) Hwf HB) as (ev & db1 & Hrun & Hwf' & _ & Hnde & Hin & Hout).
  rewrite Hrun in Hclaim. injection Hclaim as -> ->.
  assert (Hfst : fst <$> claims_of events = NotificationEvent_ID <$> events).
  { unfold claims_of. rewrite <-list_fmap_compose. by apply list_fmap_ext. }
  assert (Hcl : ∀ id a, (id, a) ∈ claims_of events ↔ ∃ e, e ∈ events ∧ id = NotificationEvent_ID e ∧ a = Attempts e).
  { intros id a. unfold claims_of. rewrite list_elem_of_fmap. split.
    - intros (e & [= -> ->] & He). eauto.
    - intros (e & He & -> & ->). eauto. }
  assert (Hnd' : NoDup (NotificationEvent_ID <$> events)) by (rewrite Hnde; apply due_NoDup).
  split; cbn [w_db w_claims w_done]; try done.
  - rewrite Hout; [done|]. intros (e & Heq & He)%list_elem_of_fmap. destruct (Hin e He) as (r & Hr & _).
    rewrite <-Heq in Hr. congruence.
  - apply NoDup_app. split; [done|]. split; [|apply (NoDup_fmap_1 fst); by rewrite Hfst].
    intros [id a] (r & Hr & Ha)%Hc (e & He & -> & ->)%Hcl. destruct (Hin e He) as (r' & Hr' & _ & _ & _ & Heq & _).
    simplify_eq. lia.
  - intros id a. rewrite elem_of_app, Hc, Hcl. destruct (decide (id ∈ (NotificationEvent_ID <$> events))) as [Hi|Hi].
    + apply list_elem_of_fmap in Hi as (e & -> & He). destruct (Hin e He) as (r & Hr & _ & Hr' & _ & Heq & _).
      pose proof (Hwf _ _ Hr) as (_ & _ & Hra & _).
      unfold Attempts in Heq. rewrite Hr, Hr'. split.
      * intros [(r' & [= <-] & Ha)|(e' & He' & Hide & ->)]; [eexists; split; [done|lia]|].
        destruct (Hin e' He') as (r2 & Hr2 & _ & Hr2' & _ & Heq' & _). rewrite <-Hide, Hr in Hr2. rewrite <-Hide, Hr' in Hr2'.
        injection Hr2 as <-. injection Hr2' as Hrow. exists (NotificationEvent_row e). split; [done|].
        unfold Attempts in *. rewrite Hrow in *. lia.
      * intros (r' & [= <-] & Ha). destruct (decide (a = Attempts e)) as [->|Hne]; [right; eauto|].
        left. exists r. split; [done|]. unfold Attempts in Hne. lia.
    + rewrite (Hout id Hi). split; [|by left]. intros [?|(e & He & -> & _)]; [done|].
      exfalso. apply Hi. apply list_elem_of_fmap. eauto.
  - intros id a s Hin'. destruct (Hd id a s Hin') as (r & Hr & Ha & Hlast & Hterm).
    destruct (decide (id ∈ (NotificationEvent_ID <$> events))) as [Hi|Hi].
    + apply list_elem_of_fmap in Hi as (e & -> & He). destruct (Hin e He) as (r' & Hr' & Hcb & Hr'' & _ & Heq & _).
      simplify_eq. unfold Attempts in Heq. exists (NotificationEvent_row e). split; [done|]. split; [lia|]. split; [lia|].
      intros Ht. destruct (Hterm Ht) as [Hst _]. apply claimable_inv in Hcb as (Hst' & _).
      rewrite Hst, !elem_of_cons, elem_of_nil in Hst'. by destruct_or! Hst'; subst.
    + rewrite (Hout id Hi). eauto.
  - intros id r Hr Hsent. destruct (decide (id ∈ (NotificationEvent_ID <$> events))) as [Hi|Hi].
    + apply list_elem_of_fmap in Hi as (e & -> & He). destruct (Hin e He) as (r' & _ & _ & Hr'' & _ & _ & Hp & _).
      simplify_eq. rewrite Hp in Hsent. discriminate Hsent.
    + rewrite (Hout id Hi) in Hr. by apply Hs.
Qed.

Lemma inv_outcome w now random id attempt err s db' :
  inv w → (id, attempt) ∈ w_claims w →
  recordOutcome cfg now random id attempt err (w_db w) = (s, (None, db')) →
  inv {| w_db := db'; w_claims := w_claims w; w_done := w_done w ++ [(id, attempt, s)] |}.
Proof.
  intros [Hwf Hid Hnd Hc Hdnd Hd Hs] Hin Hrec.
  assert (Hne : id ≠ "").
  { intros ->. apply Hc in Hin as (r & Hr & _). congruence. }
  destruct (outcome_run cfg HM now random id attempt err (w_db w) Hne Hwf) as (s' & e & db1 & Hrun & Hs' & Hcase).
  rewrite Hrun in Hrec. injection Hrec as -> -> ->.
  destruct Hcase as [(r & r' & _ & Hr & Hp & Ha & Hout & _ & Hst & Ha' & _ & Hwf')|(Hf & _)]; [|discriminate Hf].
  assert (Hnp : o_status r' ≠ StateProcessing).
  { rewrite Hst. intros ->. revert Hs'. not_in. }
  split; cbn [w_db w_claims w_done]; try done.
  - rewrite Hout, lookup_insert_ne; done.
  - intros k a. rewrite Hc, Hout. destruct (decide (k = id)) as [->|Hk].
    + rewrite lookup_insert_eq, Hr. split; intros (r0 & [= <-] & ?); eexists; (split; [done|lia]).
    + by rewrite lookup_insert_ne.
  - rewrite fmap_app, NoDup_app. split; [done|]. split; [|apply NoDup_singleton].
    intros [k a] Hk [= -> ->]%list_elem_of_singleton. apply list_elem_of_fmap in Hk as ([ka s0] & [= <-] & Hk).
    destruct (Hd _ _ _ Hk) as (r0 & Hr0 & _ & Hlast & _). simplify_eq. by apply Hlast.
  - intros k a s0 [Hk|[= -> -> ->]%list_elem_of_singleton]%elem_of_app.
    + destruct (Hd _ _ _ Hk) as (r0 & Hr0 & Ha0 & Hlast & Hterm). rewrite Hout.
      destruct (decide (k = id)) as [->|Hne']; [|rewrite lookup_insert_ne by done; eauto].
      rewrite lookup_insert_eq. simplify_eq. exists r'. split; [done|]. split; [lia|]. split; [done|].
      intros Ht. destruct (Hterm Ht) as [Hst0 _]. rewrite Hp in Hst0. subst s0. discriminate Ht.
    + rewrite Hout, lookup_insert_eq. exists r'. apply Hc in Hin as (r0 & Hr0 & ?). simplify_eq.
      split; [done|]. split; [lia|]. done.
  - intros k r0. rewrite Hout. destruct (decide (k = id)) as [->|Hk].
    + rewrite lookup_insert_eq. intros [= <-] Hsent. apply elem_of_app. right. rewrite Ha'. rewrite Hst in Hsent. rewrite Hsent. left.
    + rewrite lookup_insert_ne by done. intros. apply elem_of_app. left. by apply Hs.
Qed.

(** How much work a row may still cause: no step that touches its state or its
    attempts leaves it as large. *)
Definition rank (r : Row) : Z :=
  if decide (o_status r = StatePending) then 2 * M + 1
  else if decide (o_status r = StateProcessing) then 2 * (M - o_attempts r) + 1
  else if decide (o_status r ∈ [StateEligible; StateRetrying]) then 2 * (M - o_attempts r)
  else 0.

(** What one statement may do to one row. *)
Definition row_step (r r' : Row) : Prop :=
  same_event r r' ∧ (o_status r' = o_status r ∨ state_step (o_status r) (o_status r')) ∧
  ((o_status r' = o_status r ∧ o_attempts r' = o_attempts r) ∨
   (o_attempts r <= o_attempts r' ∧ rank r' < rank r)).

Lemma rank_step r r' :
  row_wf M r → row_wf M r' → state_step (o_status r) (o_status r') → o_attempts r <= o_attempts r' →
  (o_status r' = StateProcessing → o_attempts r < o_attempts r') → rank r' < rank r.
Proof.
  intros (_ & _ & Hb & Hp & _ & Hlt & _) (_ & _ & Hb' & _ & _ & Hlt' & _) Hs Ha Hproc. unfold rank.
  assert (Hel : StateEligible ∈ [StateEligible; StateRetrying]) by left.
  assert (Hre : StateRetrying ∈ [StateEligible; StateRetrying]) by (right; left).
  apply state_step_inv in Hs.
  destruct_or! Hs; destruct Hs as [Hst Hs]; destruct_or! Hs; rewrite Hst, Hs in *; simpl;
    try (specialize (Hproc eq_refl)); try (specialize (Hp eq_refl));
    try (specialize (Hlt Hel)); try (specialize (Hlt Hre)); lia.
Qed.

Lemma row_step_passive r r' : row_wf M r → row_wf M r' → passive r r' → row_step r r'.
Proof.
  intros Hr Hr' (He & Ha & Hs & Hn). split; [done|]. split; [done|]. destruct Hs as [Hs|Hs]; [by left|].
  destruct (decide (o_status r' = o_status r)) as [?|Hne]; [by left|right].
  split; [lia|]. apply rank_step; [done..|lia|]. intros Hp. exfalso. apply Hne, Hn. rewrite Hp. left.
Qed.

(** A statement either leaves claims and outcomes alone and lets every row
    evolve, or hands out claims, or records an outcome. *)
Lemma step_cases w w' :
  inv w → world_step cfg w w' →
  (∃ db', w' = with_db w db' ∧ outbox db' !! "" = None ∧
     ∀ id, evolves M (outbox (w_db w) !! id) (outbox db' !! id)) ∨
  (∃ project locks now events db', claim cfg project locks now (w_db w) = (Ok events, db') ∧
     w' = {| w_db := db'; w_claims := w_claims w ++ claims_of events; w_done := w_done w |}) ∨
  (∃ now random id attempt err s db', (id, attempt) ∈ w_claims w ∧
     recordOutcome cfg now random id attempt err (w_db w) = (s, (None, db')) ∧
     w' = {| w_db := db'; w_claims := w_claims w; w_done := w_done w ++ [(id, attempt, s)] |}).
Proof.
  intros Hinv Hstep. pose proof (inv_wf _ Hinv) as Hwf. pose proof (inv_id _ Hinv) as Hid.
  destruct Hstep as [id r db' Hne Hnone (Hs & Ha & _ & Hrs & _) Hins|db' [Ho _]|now e|project locks now events db' Hc
    |now random id attempt err s db' Hin Hr|now|order locked ids now _ Hnd Hni Hfr|now];
    [ | | |right; left; by do 5 eexists|right; right; by do 7 eexists| | |]; left; eexists; (split; [reflexivity|]).
  - apply insert_row_spec in Hins as (_ & _ & Hl); [|done]. split.
    + rewrite Hl, decide_False; [done|]. by intros [_ Heq].
    + intros k. rewrite Hl. destruct (decide _) as [[_ ->]|_]; [|by apply evolves_refl]. rewrite Hnone.
      split; [done|]. by apply fresh_wf.
  - rewrite Ho. split; [done|]. intros k. by apply evolves_refl.
  - destruct (decide (NotificationEvent_ID e = "")) as [He|He].
    + replace (snd (evaluateOne now e (w_db w))) with (w_db w).
      { split; [done|]. intros k. by apply evolves_refl. }
      unfold evaluateOne, MarkEvaluated, applyTransition. rewrite He.
      destruct (negb _); [done|]. by destruct (ValidateSuppressedReason _ _).
    + destruct (MarkEvaluated_run M HM now e (w_db w) Hwf He) as (err & db' & -> & _ & _ & Hev & Hk & _).
      split; [by apply Hk|done].
  - destruct (retire_run cfg HM now (w_db w) Hwf) as (n & db' & -> & _ & Hev & Hk & _). split; [by apply Hk|done].
  - pose proof (remind_extends order locked ids now (w_db w) Hnd Hfr) as He. split.
    + destruct (He "") as [->|(_ & Hin & _)]; done.
    + intros k. by apply (extends_evolves ids).
  - destruct (suppress_run cfg now (w_db w) Hwf) as (n & db' & -> & _ & Hev & Hk). split; [by apply Hk|done].
Qed.

Lemma inv_step w w' : inv w → world_step cfg w w' → inv w'.
Proof.
  intros Hinv Hstep. destruct (step_cases w w' Hinv Hstep) as
    [(db' & -> & Hid & He)|[(p & l & now & ev & db' & Hc & ->)|(now & rnd & id & a & err & s & db' & Hin & Hr & ->)] ].
  - by apply inv_passive.
  - by eapply inv_claim.
  - by eapply inv_outcome.
Qed.

Lemma step_row w w' id r :
  inv w → world_step cfg w w' → outbox (w_db w) !! id = Some r →
  ∃ r', outbox (w_db w') !! id = Some r' ∧ row_step r r'.
Proof.
  intros Hinv Hstep Hr. pose proof (inv_wf _ Hinv) as Hwf. pose proof (inv_wf _ (inv_step _ _ Hinv Hstep)) as Hwf'.
  pose proof (Hwf id r Hr) as Hw. assert (Hsame : row_step r r) by (split_and!; auto; by split_and!).
  destruct (step_cases w w' Hinv Hstep) as
    [(db' & -> & _ & He)|[(p & l & now & ev & db' & Hc & ->)|(now & rnd & k & a & err & s & db' & Hin & Hrec & ->)] ];
    cbn [w_db with_db] in *.
  - specialize (He id). rewrite Hr in He. destruct (outbox db' !! id) as [r'|]; [|done].
    exists r'. split; [done|]. destruct He. by apply row_step_passive.
  - destruct (claim_run cfg HM p l now (w_db w) Hwf HB) as (ev' & db1 & Hrun & _ & _ & _ & Hin & Hout).
    rewrite Hrun in Hc. injection Hc as -> ->.
    destruct (decide (id ∈ (NotificationEvent_ID <$> ev))) as [Hi|Hi]; [|rewrite (Hout id Hi); eauto].
    apply list_elem_of_fmap in Hi as (e & -> & He).
    destruct (Hin e He) as (r0 & Hr0 & Hcb & Hr' & Hsm & Heq & Hp & _). simplify_eq.
    exists (NotificationEvent_row e). split; [done|]. unfold Attempts in Heq.
    apply claimable_inv in Hcb as (Hst & Hlt & _). split; [done|].
    assert (Hss : o_status r = StateProcessing ∨ state_step (o_status r) StateProcessing).
    { rewrite !elem_of_cons, elem_of_nil in Hst. destruct_or! Hst; try done; rewrite Hst; [right|right|left]; done. }
    rewrite Hp. split; [destruct Hss; auto|]. right. split; [lia|].
    destruct Hss as [Hss|Hss].
    + unfold rank. rewrite Hss, Hp. simpl. lia.
    + apply rank_step; [done|by apply (Hwf' (NotificationEvent_ID e))|by rewrite Hp|lia|lia].
  - assert (Hne : k ≠ "").
    { intros ->. apply (inv_claims _ Hinv) in Hin as (r0 & Hr0 & _). rewrite (inv_id _ Hinv) in Hr0. done. }
    destruct (outcome_run cfg HM now rnd k a err (w_db w) Hne Hwf) as (s' & e & db1 & Hrun & Hs' & Hcase).
    rewrite Hrun in Hrec. injection Hrec as -> -> ->.
    destruct Hcase as [(r0 & r' & _ & Hr0 & Hp & Ha & Hout & Hsm & Hst & Ha' & _)|(Hf & _)]; [|discriminate Hf].
    rewrite Hout. destruct (decide (k = id)) as [->|Hk]; [|rewrite lookup_insert_ne by done; eauto].
    rewrite lookup_insert_eq. simplify_eq. exists r'. split; [done|].
    assert (Hss : state_step (o_status r) (o_status r')).
    { rewrite Hp. rewrite !elem_of_cons, elem_of_nil in Hs'. destruct_or! Hs'; try done; by rewrite Hs'. }
    split; [done|]. split; [by right|]. right. split; [lia|].
    assert (Hw' : row_wf M r') by (apply (Hwf' id); by rewrite Hout, lookup_insert_eq).
    apply rank_step; [done..|lia|]. intros Hx. exfalso. revert Hs'. rewrite Hx. not_in.
Qed.

Lemma inv_reachable w : reachable cfg w → inv w.
Proof.
  intros [ms Hr]. remember {| w_db := _ |} as w0 eqn:E.
  assert (H0 : inv w0).
  { subst. split; simpl; try apply NoDup_nil_2; try done; [|by intros ??? ?%elem_of_nil].
    intros id a. rewrite elem_of_nil. split; [done|]. by intros (r & Hn & _). }
  clear E. induction Hr as [|w0 w1 w2 Hs _ IH]; [done|]. apply IH. by apply (inv_step w0).
Qed.
End Invariant.

(** ** Configuration and retries *)

Definition config_wf (c : NotificationWorkerConfig) : Prop :=
  1 <= PollSeconds c <= 300 ∧ 1 <= BatchSize c <= 200 ∧ 1 <= MaxConcurrency c <= 64 ∧
  5 <= LeaseSeconds c <= 3600 ∧ 1 <= MaxAttempts c <= 20 ∧ 1 <= RetryBaseSeconds c <= 600 ∧
  RetryBaseSeconds c <= RetryMaxSeconds c <= 86400 ∧ 1 <= DeliveryTimeoutSeconds c <= 120.

Lemma clampSeconds_range v lo hi d : 0 < lo <= d → d <= hi → lo <= clampSeconds v lo hi d <= hi.
Proof. unfold clampSeconds. intros. destruct (Z.leb_spec v 0); lia. Qed.

Lemma clampSeconds_id v lo hi d : 0 < lo <= v → v <= hi → clampSeconds v lo hi d = v.
Proof. unfold clampSeconds. intros. destruct (Z.leb_spec v 0); lia. Qed.

Lemma Normalized_config_wf c : config_wf (Normalized c).
Proof.
  unfold config_wf, Normalized. cbn -[clampSeconds Z.le Z.ltb]. 
  pose proof (clampSeconds_range (RetryBaseSeconds c) 1 600 notificationDefaultRetryBaseSeconds).
  pose proof (clampSeconds_range (RetryMaxSeconds c) 1 86400 notificationDefaultRetryMaxSeconds).
  split_and!; try (apply clampSeconds_range; done);
    destruct (Z.ltb_spec (clampSeconds (RetryMaxSeconds c) 1 86400 notificationDefaultRetryMaxSeconds)
      (clampSeconds (RetryBaseSeconds c) 1 600 notificationDefaultRetryBaseSeconds));
    unfold notificationDefaultRetryBaseSeconds, notificationDefaultRetryMaxSeconds in *; lia.
Qed.

Lemma seconds_id n : 0 <= n <= 2 ^ 33 → seconds n = n * Second.
Proof. intros. unfold seconds. apply int64_id. unfold in_int64, MinInt64, MaxInt64, Second in *. lia. Qed.

(** The delay before the half window is drawn: the base doubled once for each
    earlier attempt, up to the maximum. *)
Definition backoff (c : NotificationWorkerConfig) (attempt : Z) : Duration :=
  Z.min (RetryMaxSeconds c * Second) (RetryBaseSeconds c * Second * 2 ^ Z.min (attempt - 1) 20).

Lemma randomBelow_range random p span :
  (∀ n v, random n = Some v → 0 <= v < n) → 0 < span → 0 <= randomBelow random p span < span.
Proof.
  intros Hr Hs. unfold randomBelow. destruct (Z.leb_spec span 0); [lia|].
  destruct (Jitter p) as [j|]; [lia|]. destruct (random span) as [v|] eqn:E; [|lia]. by apply Hr.
Qed.

Lemma Delay_bounds c random attempt :
  config_wf c → 1 <= attempt → (∀ n v, random n = Some v → 0 <= v < n) →
  Z.quot (backoff c attempt) 2 <= Delay random (retry c) attempt <= backoff c attempt.
Proof.
  intros (_ & _ & _ & _ & _ & Hb & Hm & _) Ha Hr.
  assert (Hbs : seconds (RetryBaseSeconds c) = RetryBaseSeconds c * Second) by (apply seconds_id; lia).
  assert (Hms : seconds (RetryMaxSeconds c) = RetryMaxSeconds c * Second) by (apply seconds_id; lia).
  unfold Delay, bounds, retry. cbn [Base Max]. rewrite Hbs, Hms.
  assert (Hsec : Second = 1000000000) by reflexivity.
  destruct (Z.leb_spec (RetryBaseSeconds c * Second) 0); [lia|].
  destruct (Z.ltb_spec (RetryMaxSeconds c * Second) (RetryBaseSeconds c * Second)); [lia|].
  replace (Z.min (Z.max (attempt - 1) 0) retryMaxShift) with (Z.min (attempt - 1) 20)
    by (unfold retryMaxShift; lia).
  assert (Hpow : 1 <= 2 ^ Z.min (attempt - 1) 20 <= 2 ^ 20).
  { split; [|apply Z.pow_le_mono_r; lia]. apply (Z.pow_le_mono_r 2 0); lia. }
  rewrite Z.shiftl_mul_pow2 by lia. rewrite int64_id by (unfold in_int64, MinInt64, MaxInt64; nia).
  set (e := RetryBaseSeconds c * Second * 2 ^ Z.min (attempt - 1) 20).
  assert (He : 1000000000 <= e) by (subst e; nia).
  replace (if (e <=? 0) || (RetryMaxSeconds c * Second <? e) then RetryMaxSeconds c * Second else e)
    with (backoff c attempt).
  2:{ unfold backoff. fold e. destruct (Z.leb_spec e 0), (Z.ltb_spec (RetryMaxSeconds c * Second) e); simpl; lia. }
  assert (Hbo : 1000000000 <= backoff c attempt <= 86400 * Second) by (unfold backoff; fold e; lia).
  unfold spread. pose proof (Z.quot_div_nonneg (backoff c attempt) 2) as Hq.
  rewrite Hq by lia. pose proof (Z.div_le_lower_bound (backoff c attempt) 2 1).
  pose proof (Z.mul_div_le (backoff c attempt) 2).
  destruct (Z.leb_spec (backoff c attempt / 2) 0); [lia|].
  pose proof (randomBelow_range random {| Base := RetryBaseSeconds c * Second; Max := RetryMaxSeconds c * Second; Jitter := None |}
    (backoff c attempt / 2) Hr) as Hrange.
  rewrite int64_id by (unfold in_int64, MinInt64, MaxInt64; lia). lia.
Qed.

(** ** Reminders *)

Section Reminders.
Context (cfg : NotificationWorkerConfig) (HM : 1 <= MaxAttempts cfg <= 20) (HB : 1 <= BatchSize cfg).

Definition is_reminder (key : string * string) (r : Row) : Prop :=
  o_kind r = EventTypeUrgentReminder ∧ (o_MessageID r, o_RecipientID r) = key.
#[local] Instance is_reminder_dec key r : base.Decision (is_reminder key r).
Proof. unfold is_reminder. apply _. Defined.

(** The reminders a recipient of a message has been given. *)
Definition reminders_of (key : string * string) (db : DB) : gmap string Row :=
  filter (λ kv, is_reminder key kv.2) (outbox db).

Definition ack_reminders (o : option AckRow) (n : nat) : Prop :=
  match o with
  | Some a => Z.of_nat n <= a_reminder_count a <= MaxUrgentReminders ∧
              (a_reminder_count a = MaxUrgentReminders → a_next_reminder_at a = None)
  | None => n = O
  end.

Definition reminders_wf (db : DB) : Prop := ∀ key, ack_reminders (acks db !! key) (size (reminders_of key db)).

Lemma reminders_of_size key db db' :
  (∀ id, match outbox db !! id, outbox db' !! id with
         | Some r, Some r' => same_event r r'
         | None, None => True
         | _, _ => False
         end) → size (reminders_of key db') = size (reminders_of key db).
Proof.
  intros H. rewrite <-!size_dom. f_equal. apply set_eq. intros id. unfold reminders_of. rewrite !elem_of_dom.
  specialize (H id). split; intros [r [Hr [Hk Hkey]]%map_lookup_filter_Some]; rewrite Hr in H.
  - destruct (outbox db !! id) as [r0|] eqn:E; [|done]. destruct H as (_ & H1 & H2 & H3 & _).
    exists r0. apply map_lookup_filter_Some. split; [done|]. split; simpl in *; congruence.
  - destruct (outbox db' !! id) as [r0|] eqn:E; [|done]. destruct H as (_ & H1 & H2 & H3 & _).
    exists r0. apply map_lookup_filter_Some. split; [done|]. split; simpl in *; congruence.
Qed.

Lemma insert_reminders key id r b db db' :
  outbox db !! id = None → insert_row id r db = (b, db') →
  (size (reminders_of key db') <= size (reminders_of key db) + (if decide (is_reminder key r) then 1 else 0))%nat.
Proof.
  intros Hnone. unfold insert_row. destruct (bool_decide _); intros [= <- <-]; [lia|].
  unfold reminders_of, set_outbox. cbn [outbox].
  assert (Hf : filter (λ kv : string * Row, is_reminder key kv.2) (outbox db) !! id = None).
  { apply map_lookup_filter_None. by left. }
  destruct (decide (is_reminder key r)) as [Hi|Hi].
  - rewrite map_filter_insert_True by done. rewrite map_size_insert_None by done. lia.
  - rewrite map_filter_insert_False by done. rewrite delete_id by done. lia.
Qed.

Lemma schedule_one_reminders now key id counts db :
  outbox db !! id = None → reminders_wf db →
  (∀ a, acks db !! key = Some a → a_next_reminder_at a ≠ None) →
  reminders_wf (snd (schedule_one now key id (counts, db))) ∧
  (∀ k, k ≠ key → acks (snd (schedule_one now key id (counts, db))) !! k = acks db !! k).
Proof.
  intros Hid Hwf Hnext. unfold schedule_one.
  destruct (acks db !! key) as [a|] eqn:Ea; [|done]. specialize (Hnext a eq_refl).
  destruct (messages db !! key.1) as [m|]; [|done].
  destruct (insert_row id _ db) as [b db1] eqn:E. cbn [snd].
  pose proof (insert_row_spec id _ db b db1 Hid E) as (Hacks & _ & _). split.
  - intros k. pose proof (insert_reminders k id _ b db db1 Hid E) as Hsz. specialize (Hwf k).
    cbn [acks]. change (reminders_of k {| outbox := outbox db1; acks := <[key := advance_ack now m a]> (acks db1);
      messages := messages db1 |}) with (reminders_of k db1).
    destruct (decide (k = key)) as [->|Hk].
    + rewrite lookup_insert_eq. rewrite Ea in Hwf. destruct Hwf as [Hc Hn]. cbn.
      destruct (decide (a_reminder_count a = MaxUrgentReminders)) as [Hm|Hm]; [by apply Hn in Hm|].
      destruct (decide _); unfold MaxUrgentReminders in *;
        destruct (Z.ltb_spec (a_reminder_count a + 1) 12); (split; [lia|done || lia]).
    + rewrite lookup_insert_ne, Hacks by done. rewrite decide_False in Hsz.
      2:{ intros [_ Hkey]. simpl in Hkey. apply Hk. rewrite <-Hkey. by destruct key. }
      unfold ack_reminders in *. destruct (acks db !! k) as [a'|]; [|lia]. split; [lia|]. apply Hwf.
  - intros k Hk. cbn [acks]. by rewrite lookup_insert_ne, Hacks.
Qed.

Lemma schedule_all_reminders now keys ids acc :
  NoDup keys → NoDup ids → (∀ id, id ∈ ids → outbox (snd acc) !! id = None) →
  (∀ key a, key ∈ keys → acks (snd acc) !! key = Some a → a_next_reminder_at a ≠ None) →
  reminders_wf (snd acc) → reminders_wf (snd (schedule_all now keys ids acc)).
Proof.
  revert ids acc. induction keys as [|key keys IH]; intros ids [counts db] Hk Hi Hfresh Hnext Hwf; [done|].
  destruct ids as [|id ids]; [done|].
  change (schedule_all now (key :: keys) (id :: ids) (counts, db)) with
    (schedule_all now keys ids (schedule_one now key id (counts, db))).
  apply NoDup_cons in Hk as [Hk1 Hk2]. apply NoDup_cons in Hi as [Hi1 Hi2]. simpl in Hfresh, Hnext, Hwf.
  assert (Hid : outbox db !! id = None) by (apply Hfresh; left).
  destruct (schedule_one_reminders now key id counts db Hid Hwf) as [Hwf' Hacks]; [intros a; apply Hnext; left|].
  destruct (schedule_one_spec cfg HM now key id counts db Hid) as [_ Hout].
  apply IH; [done|done| | |done].
  - intros id' Hin. rewrite Hout; [apply Hfresh; by right|]. by intros ->.
  - intros k a Hin. rewrite Hacks; [apply Hnext; by right|]. by intros ->.
Qed.

Lemma reminders_due_spec order locked now n db :
  NoDup order →
  NoDup (reminders_due order locked now n db) ∧
  ∀ key, key ∈ reminders_due order locked now n db → reminder_due locked now db key = true.
Proof.
  intros Hnd. unfold reminders_due. split.
  - eapply sublist_NoDup; [|apply sublist_take]. rewrite merge_sort_Permutation. by apply NoDup_filter.
  - intros key (i & Hi & _)%elem_of_take. apply list_elem_of_lookup_2 in Hi.
    rewrite merge_sort_Permutation in Hi. by apply list_elem_of_filter in Hi as [? _].
Qed.

Lemma remind_reminders order locked ids now db :
  NoDup order → NoDup ids → (∀ id, id ∈ ids → outbox db !! id = None) → reminders_wf db →
  reminders_wf (snd (scheduleReminders cfg order locked ids now db)).
Proof.
  intros Ho Hi Hfresh Hwf. unfold scheduleReminders, ScheduleDueReminders.
  destruct (_ <=? 0); [done|]. destruct (time_IsZero now); [done|].
  destruct (reminders_due_spec order locked now (BatchSize cfg) db Ho) as [Hk Hdue].
  pose proof (schedule_all_reminders now (reminders_due order locked now (BatchSize cfg) db) ids
    ({| Scheduled := 0; Deduplicated := 0; Expired := 0 |}, db) Hk Hi Hfresh) as H.
  destruct (schedule_all _ _ _ _) as [counts db']. apply H; [|done].
  intros key a Hkey Ha Hn. apply Hdue in Hkey. unfold reminder_due in Hkey. cbn [snd] in Ha. rewrite Ha in Hkey.
  destruct (messages db !! key.1); [|done]. rewrite Hn in Hkey. cbn [reached] in Hkey.
  by rewrite andb_false_r in Hkey.
Qed.

Lemma chat_reminders db db' : chat_step db db' → reminders_wf db → reminders_wf db'.
Proof.
  intros (Ho & Hold & Hnew) Hwf key. specialize (Hwf key).
  replace (reminders_of key db') with (reminders_of key db) by (unfold reminders_of; by rewrite Ho).
  unfold ack_reminders in *. destruct (acks db !! key) as [a|] eqn:E.
  - destruct (Hold key a E) as (a' & -> & Hc & Hn & _). rewrite Hc. destruct Hwf as [? Hmax]. split; [done|].
    intros Hm. destruct Hn as [Hn|Hz]; [|unfold MaxUrgentReminders in Hm; lia].
    rewrite (Hmax Hm), !elem_of_cons, elem_of_nil in Hn. by destruct_or! Hn.
  - destruct (acks db' !! key) as [a'|] eqn:E'; [|done]. destruct (Hnew key a' E' E) as [_ ->].
    rewrite Hwf. by split.
Qed.

Lemma same_reminders db db' :
  acks db' = acks db →
  (∀ id, match outbox db !! id, outbox db' !! id with
         | Some r, Some r' => same_event r r'
         | None, None => True
         | _, _ => False
         end) → reminders_wf db → reminders_wf db'.
Proof. intros Ha Hsame Hwf key. rewrite Ha, (reminders_of_size key db db' Hsame). apply Hwf. Qed.

(** A step that adds no row does not touch what the rows are about. *)
Lemma step_same w w' :
  inv cfg w → world_step cfg w w' → (∀ id, outbox (w_db w) !! id = None → outbox (w_db w') !! id = None) →
  ∀ id, match outbox (w_db w) !! id, outbox (w_db w') !! id with
        | Some r, Some r' => same_event r r'
        | None, None => True
        | _, _ => False
        end.
Proof.
  intros Hinv Hstep Hnone id. destruct (outbox (w_db w) !! id) as [r|] eqn:E.
  - destruct (step_row cfg HM HB w w' id r Hinv Hstep E) as (r' & -> & Hs & _). done.
  - by rewrite (Hnone id E).
Qed.

Lemma evaluate_keeps now e db :
  table_wf (MaxAttempts cfg) db →
  acks (snd (evaluateOne now e db)) = acks db ∧
  ∀ id, outbox db !! id = None → outbox (snd (evaluateOne now e db)) !! id = None.
Proof.
  intros Hwf. destruct (decide (NotificationEvent_ID e = "")) as [He|He].
  - assert (snd (evaluateOne now e db) = db) as ->; [|done].
    unfold evaluateOne, MarkEvaluated, applyTransition. rewrite He.
    destruct (negb _); [done|]. by destruct (ValidateSuppressedReason _ _).
  - by destruct (MarkEvaluated_run _ HM now e db Hwf He) as (err & db' & -> & _ & ? & _ & ? & _).
Qed.

Lemma reminders_step w w' :
  inv cfg w → world_step cfg w w' → reminders_wf (w_db w) → reminders_wf (w_db w').
Proof.
  intros Hinv Hstep. pose proof (step_same w w' Hinv Hstep) as Hsame. pose proof (inv_wf _ _ Hinv) as Hwf.
  revert Hsame. destruct Hstep as [id r db' Hne Hnone (_ & _ & _ & _ & Hkind) Hins|db' Hchat|now e|project locks now events db' Hc
    |now random id attempt err s db' Hin Hr|now|order locked ids now Ho Hnd Hni Hfr|now].
  3:{ destruct (evaluate_keeps now e (w_db w) Hwf) as [Ha Hk]. revert Ha Hk.
      generalize (snd (evaluateOne now e (w_db w))). intros db' Ha Hk Hsame.
      apply same_reminders; [done|by apply Hsame]. }
  all: cbn [w_db with_db]; intros Hsame.
  - intros H key. pose proof (insert_reminders key id r true _ _ Hnone Hins) as Hsz.
    apply insert_row_spec in Hins as (Ha & _); [|done]. rewrite decide_False in Hsz by (by intros [? _]).
    rewrite Ha. specialize (H key). unfold ack_reminders in *. destruct (acks (w_db w) !! key); [|lia].
    destruct H as [? H]. split; [lia|done].
  - by apply chat_reminders.
  - destruct (claim_run cfg HM project locks now (w_db w) Hwf HB) as (ev & db1 & Hrun & _ & Ha & _ & Hin & Hout).
    rewrite Hrun in Hc. injection Hc as -> ->. apply same_reminders; [done|]. apply Hsame. intros id Hid.
    rewrite Hout; [done|]. intros (e & -> & He)%list_elem_of_fmap. destruct (Hin e He) as (r & Hr & _). congruence.
  - pose proof Hin as (r0 & Hr0 & _)%(inv_claims _ _ Hinv).
    assert (Hne : id ≠ "") by (intros ->; rewrite (inv_id _ _ Hinv) in Hr0; done).
    destruct (outcome_run cfg HM now random id attempt err (w_db w) Hne Hwf) as (s' & e & db1 & Hrun & _ & Hcase).
    rewrite Hrun in Hr. injection Hr as -> -> ->.
    destruct Hcase as [(r & r' & _ & Hr & _ & _ & Hout & _ & _ & _ & Ha & _)|(Hf & _)]; [|discriminate Hf].
    apply same_reminders; [done|]. apply Hsame. intros k Hk. rewrite Hout, lookup_insert_None.
    split; [done|]. intros ->. congruence.
  - destruct (retire_run cfg HM now (w_db w) Hwf) as (n & db' & Hrun & Ha & _ & Hk & _). rewrite Hrun in *.
    apply same_reminders; [done|by apply Hsame].
  - by apply remind_reminders.
  - destruct (suppress_run cfg now (w_db w) Hwf) as (n & db' & Hrun & Ha & _ & Hk). rewrite Hrun in *.
    apply same_reminders; [done|by apply Hsame].
Qed.

Lemma reachable_ind' (P : World → Prop) :
  (∀ ms, P {| w_db := {| outbox := ∅; acks := ∅; messages := ms |}; w_claims := []; w_done := [] |}) →
  (∀ w w', reachable cfg w → P w → world_step cfg w w' → P w') → ∀ w, reachable cfg w → P w.
Proof.
  intros H0 Hs w [ms Hr]. revert w Hr. apply rtc_ind_r; [done|]. intros w w' Hr Hstep IH.
  apply (Hs w); [by exists ms|done|done].
Qed.

Lemma reminders_reachable w : reachable cfg w → reminders_wf (w_db w).
Proof.
  revert w. apply reachable_ind'.
  - intros ms key. done.
  - intros w w' Hr Hw Hs. by apply (reminders_step w); [apply inv_reachable| |].
Qed.
End Reminders.

(** ** A pass is a sequence of statements *)

Section Passes.
Context (cfg : NotificationWorkerConfig) (HM : 1 <= MaxAttempts cfg <= 20) (HB : 1 <= BatchSize cfg).

(** What a pass may assume of what it meets. *)
Record env_ok (env : PassEnv) (db : DB) : Prop := {
  env_order : NoDup (pe_order env);
  env_ids : NoDup (pe_ids env);
  env_ids_id : "" ∉ pe_ids env;
  env_fresh : ∀ id, id ∈ pe_ids env → outbox db !! id = None;
  env_answers : ∀ events a, a ∈ pe_answers env events → an_event a ∈ events
}.

Lemma in_turn_steps {A} (body : Time → A → DB → DB) clock l w :
  (∀ now x w, world_step cfg w (with_db w (body now x (w_db w)))) →
  rtc (world_step cfg) w (with_db w (in_turn body clock l (w_db w))).
Proof.
  intros Hbody. revert clock w. induction l as [|x l IH]; intros clock w; [by destruct w|].
  cbn [in_turn]. eapply rtc_l; [apply (Hbody (clock O) x)|].
  exact (IH (λ n, clock (S n)) (with_db w (body (clock O) x (w_db w)))).
Qed.

Lemma evaluateAll_steps clock events w :
  rtc (world_step cfg) w (with_db w (evaluateAll clock events (w_db w))).
Proof. apply in_turn_steps. intros. apply step_evaluate. Qed.

Lemma deliverBatch_steps answers w :
  inv cfg w → (∀ a, a ∈ answers → (NotificationEvent_ID (an_event a), Attempts (an_event a)) ∈ w_claims w) →
  ∃ w', rtc (world_step cfg) w w' ∧ w_db w' = deliverBatch cfg answers (w_db w).
Proof.
  revert w. induction answers as [|a answers IH]; intros w Hinv Hin; [by exists w|]. cbn [deliverBatch].
  pose proof (Hin a ltac:(left)) as Ha.
  assert (Hne : NotificationEvent_ID (an_event a) ≠ "").
  { intros He. rewrite He in Ha. apply (inv_claims _ _ Hinv) in Ha as (r & Hr & _).
    rewrite (inv_id _ _ Hinv) in Hr. done. }
  destruct (outcome_run cfg HM (an_now a) (an_random a) _ (Attempts (an_event a)) (an_err a) (w_db w) Hne
    (inv_wf _ _ Hinv)) as (s & e & db' & Hrun & _ & Hcase).
  unfold deliverOne. rewrite Hrun. cbn [snd]. destruct Hcase as [(_ & _ & -> & _)|(-> & -> & _)].
  - pose proof (step_outcome cfg w _ _ _ _ _ _ _ Ha Hrun) as Hstep.
    destruct (IH _ (inv_step cfg HM HB _ _ Hinv Hstep)) as (w' & Hw' & Hdb).
    { intros a' Ha'. apply Hin. by right. }
    exists w'. split; [|done]. by eapply rtc_l.
  - apply IH; [done|]. intros a' Ha'. apply Hin. by right.
Qed.

Lemma deliverDue_steps env w :
  inv cfg w → (∀ events a, a ∈ pe_answers env events → an_event a ∈ events) →
  ∃ w', rtc (world_step cfg) w w' ∧ w_db w' = deliverDue cfg env (w_db w).
Proof.
  intros Hinv Hans. unfold deliverDue.
  destruct (claim_run cfg HM (pe_project env) (pe_locks env) (pe_claim env) (w_db w) (inv_wf _ _ Hinv) HB)
    as (events & db' & Hrun & _). rewrite Hrun.
  pose proof (step_claim cfg w _ _ _ _ _ Hrun) as Hstep.
  destruct (deliverBatch_steps (pe_answers env events) _ (inv_step cfg HM HB _ _ Hinv Hstep)) as (w' & Hw' & Hdb).
  { intros a Ha%Hans. apply elem_of_app. right. unfold claims_of. apply list_elem_of_fmap. eauto. }
  exists w'. split; [|done]. by eapply rtc_l.
Qed.

Lemma runPass_steps env w :
  inv cfg w → env_ok env (w_db w) →
  ∃ w', rtc (world_step cfg) w w' ∧ w_db w' = runPass cfg env (w_db w).
Proof.
  intros Hinv [Ho Hi Hii Hf Ha]. unfold runPass, evaluatePending.
  destruct (retire_run cfg HM (pe_retire env) (w_db w) (inv_wf _ _ Hinv)) as (n & db1 & Hrun & _ & _ & Hk & _).
  assert (H1 : ∃ w1, world_step cfg w w1 ∧ w_db w1 = snd (retireExhausted cfg (pe_retire env) (w_db w)))
    by (eexists; split; [apply step_retire|reflexivity]).
  destruct H1 as (w1 & H1 & E1). rewrite <-E1. rewrite Hrun in E1. cbn [snd] in E1. rewrite <-E1 in Hk.
  pose proof (inv_step cfg HM HB _ _ Hinv H1) as Hinv1. clear Hrun E1.
  assert (H2 : ∃ w2, world_step cfg w1 w2 ∧
    w_db w2 = snd (scheduleReminders cfg (pe_order env) (pe_locked env) (pe_ids env) (pe_remind env) (w_db w1))).
  { eexists. split; [apply step_remind; [done..|]; intros id Hin; apply Hk, Hf, Hin|reflexivity]. }
  destruct H2 as (w2 & H2 & <-). pose proof (inv_step cfg HM HB _ _ Hinv1 H2) as Hinv2.
  assert (H3 : ∃ w3, world_step cfg w2 w3 ∧ w_db w3 = snd (retireResolvedReminders (pe_suppress env) (w_db w2)))
    by (eexists; split; [apply step_suppress|reflexivity]).
  destruct H3 as (w3 & H3 & <-). pose proof (inv_step cfg HM HB _ _ Hinv2 H3) as Hinv3.
  pose proof (evaluateAll_steps (pe_evaluate env) (ListPending (pe_project env) (BatchSize cfg) (w_db w3)) w3) as H4.
  revert H4. generalize (evaluateAll (pe_evaluate env) (ListPending (pe_project env) (BatchSize cfg) (w_db w3)) (w_db w3)).
  intros db4 H4.
  assert (Hinv4 : inv cfg (with_db w3 db4)).
  { clear -Hinv3 H4 HM HB. induction H4 as [|? ? ? Hs _ IH]; [done|]. apply IH. by eapply inv_step. }
  destruct (deliverDue_steps env (with_db w3 db4) Hinv4 Ha) as (w' & H5 & Hdb). exists w'. split; [|done].
  eapply rtc_l; [exact H1|]. eapply rtc_l; [exact H2|]. eapply rtc_l; [exact H3|]. by etransitivity.
Qed.
End Passes.

(** ** Fair runs *)

Section Fairness.
Context (cfg : NotificationWorkerConfig) (HM : 1 <= MaxAttempts cfg <= 20) (HB : 1 <= BatchSize cfg).

(** An infinite run of the replicas, statement by statement, with idle moments. *)
Definition run (σ : nat → World) : Prop :=
  reachable cfg (σ O) ∧ ∀ n, world_step cfg (σ n) (σ (S n)) ∨ σ (S n) = σ n.

(** The clock of a statement has passed the deadline the row carries. *)
Definition past_deadline (id : string) (now : Time) (db : DB) : Prop :=
  ∀ r t, outbox db !! id = Some r → o_next_attempt_at r = Some t → t <= now.

(** The three statements a row may be waiting for, each reaching it. *)
Definition evaluates (id : string) (db db' : DB) : Prop :=
  ∃ now e, NotificationEvent_ID e = id ∧ db' = snd (evaluateOne now e db).
Definition retires (id : string) (db db' : DB) : Prop :=
  ∃ now, past_deadline id now db ∧ db' = snd (retireExhausted cfg now db).
Definition offers (id : string) (db db' : DB) : Prop :=
  ∃ project locks now, past_deadline id now db ∧ lk_outbox locks id = false ∧
    (∀ r, outbox db !! id = Some r → claimable locks now (MaxAttempts cfg) db id r = true →
       id ∈ due locks now (BatchSize cfg) (MaxAttempts cfg) db) ∧
    db' = snd (claim cfg project locks now db).

Definition infinitely_often (P : DB → DB → Prop) (σ : nat → World) : Prop :=
  ∀ n, ∃ m, (n <= m)%nat ∧ P (w_db (σ m)) (w_db (σ (S m))).

Definition fair (id : string) (σ : nat → World) : Prop :=
  infinitely_often (evaluates id) σ ∧ infinitely_often (retires id) σ ∧ infinitely_often (offers id) σ.

Lemma run_inv σ n : run σ → inv cfg (σ n).
Proof.
  intros [H0 Hs]. induction n as [|n IH]; [by apply inv_reachable|].
  destruct (Hs n) as [Hw| ->]; [|done]. by eapply inv_step.
Qed.

Lemma run_row σ n id r :
  run σ → outbox (w_db (σ n)) !! id = Some r → ∃ r', outbox (w_db (σ (S n))) !! id = Some r' ∧ row_step cfg r r'.
Proof.
  intros Hrun Hr. destruct (proj2 Hrun n) as [Hs|Heq].
  - eapply step_row; [done|done|by apply run_inv|done|done].
  - rewrite Heq. exists r. split; [done|]. split; [by split_and!|]. auto.
Qed.

(** Later in a run the row has moved on, or is where it was. *)
Lemma run_rank σ n m id r :
  run σ → (n <= m)%nat → outbox (w_db (σ n)) !! id = Some r →
  ∃ r', outbox (w_db (σ m)) !! id = Some r' ∧ o_kind r' = o_kind r ∧
    ((o_status r' = o_status r ∧ o_attempts r' = o_attempts r) ∨ rank cfg r' < rank cfg r).
Proof.
  intros Hrun Hle Hr. induction Hle as [|m Hle IH]; [exists r; auto|].
  destruct IH as (r1 & Hr1 & Hk1 & Hcase). destruct (run_row σ m id r1 Hrun Hr1) as (r2 & Hr2 & (_ & _ & _ & Hk & _) & _ & Hstep).
  exists r2. split; [done|]. split; [congruence|].
  assert (Hrk : ∀ a b, o_status a = o_status b → o_attempts a = o_attempts b → rank cfg a = rank cfg b).
  { intros a b H1 H2. unfold rank. by rewrite H1, H2. }
  destruct Hcase as [[Hs Ha]|Hlt], Hstep as [[Hs' Ha']|[_ Hlt']].
  - left. split; congruence.
  - right. by rewrite <-(Hrk r1 r Hs Ha).
  - right. by rewrite (Hrk r2 r1 Hs' Ha').
  - right. lia.
Qed.

(** Each statement advances a row in the state it serves. *)
Lemma serve_pending σ n id r :
  run σ → evaluates id (w_db (σ n)) (w_db (σ (S n))) → outbox (w_db (σ n)) !! id = Some r →
  o_status r = StatePending → ∃ r', outbox (w_db (σ (S n))) !! id = Some r' ∧ o_status r' ≠ o_status r.
Proof.
  intros Hrun (now & e & <- & ->) Hr Hs. pose proof (run_inv σ n Hrun) as Hinv.
  assert (Hid : NotificationEvent_ID e ≠ "") by (intros He; rewrite He, (inv_id _ _ Hinv) in Hr; done).
  destruct (MarkEvaluated_run _ HM now e _ (inv_wf _ _ Hinv) Hid) as (err & db' & -> & _ & _ & _ & _ & Hp).
  destruct (Hp r Hr Hs) as (r' & Hr' & Hne). exists r'. by rewrite Hs.
Qed.

Lemma serve_spent σ n id r :
  run σ → retires id (w_db (σ n)) (w_db (σ (S n))) → outbox (w_db (σ n)) !! id = Some r →
  o_status r = StateProcessing → MaxAttempts cfg <= o_attempts r →
  ∃ r', outbox (w_db (σ (S n))) !! id = Some r' ∧ o_status r' ≠ o_status r.
Proof.
  intros Hrun (now & Hd & ->) Hr Hs Hm. pose proof (inv_wf _ _ (run_inv σ n Hrun)) as Hwf.
  destruct (retire_run cfg HM now _ Hwf) as (k & db' & -> & _ & _ & _ & Hf).
  destruct (Hf id r Hr Hs Hm) as (r' & Hr' & Hs').
  - destruct (Hwf id r Hr) as (_ & _ & _ & _ & _ & _ & Ht). destruct Ht as [t Ht]; [rewrite Hs; right; right; left|].
    rewrite Ht. apply Z.leb_le. by apply (Hd r).
  - exists r'. split; [done|]. by rewrite Hs, Hs'.
Qed.

Lemma serve_due σ n id r :
  run σ → offers id (w_db (σ n)) (w_db (σ (S n))) → outbox (w_db (σ n)) !! id = Some r →
  o_kind r ≠ EventTypeUrgentReminder → o_status r ∈ [StateEligible; StateRetrying; StateProcessing] →
  o_attempts r < MaxAttempts cfg →
  ∃ r', outbox (w_db (σ (S n))) !! id = Some r' ∧ o_attempts r' ≠ o_attempts r.
Proof.
  intros Hrun (project & locks & now & Hd & Hl & Hdue & ->) Hr Hk Hs Hm.
  pose proof (inv_wf _ _ (run_inv σ n Hrun)) as Hwf.
  assert (Hc : claimable locks now (MaxAttempts cfg) (w_db (σ n)) id r = true).
  { destruct (Hwf id r Hr) as (_ & _ & _ & _ & _ & _ & Ht). destruct (Ht Hs) as [t Htt]. unfold claimable.
    rewrite Hl, Htt, (bool_decide_eq_true_2 (o_status r ∈ _)) by done. rewrite (proj2 (Z.ltb_lt _ _) Hm).
    cbn [reached]. rewrite (proj2 (Z.leb_le _ _) (Hd r t Hr Htt)).
    rewrite (bool_decide_eq_false_2 (o_kind r = _)) by done. done. }
  destruct (claim_run cfg HM project locks now _ Hwf HB) as (ev & db' & -> & _ & _ & Hids & Hin & _).
  specialize (Hdue r Hr Hc). rewrite <-Hids in Hdue. apply list_elem_of_fmap in Hdue as (e & -> & He).
  destruct (Hin e He) as (r0 & Hr0 & _ & Hr' & _ & Ha & _). exists (NotificationEvent_row e). split; [done|].
  unfold Attempts in Ha. simplify_eq. lia.
Qed.

Lemma not_terminal r :
  row_wf (MaxAttempts cfg) r → State_IsTerminal (o_status r) = false →
  o_status r = StatePending ∨ (o_status r = StateProcessing ∧ MaxAttempts cfg <= o_attempts r) ∨
  (o_status r ∈ [StateEligible; StateRetrying; StateProcessing] ∧ o_attempts r < MaxAttempts cfg).
Proof.
  intros (Hv & _ & Ha & _ & _ & Hlt & _) Ht. unfold State_Valid, State_IsTerminal in *.
  destruct (State_targets (o_status r)) as [ts|] eqn:E; [|done]. unfold State_targets in E.
  apply map_get_elem_of in E. unfold stateTransitions in E. rewrite !elem_of_cons, elem_of_nil in E.
  destruct_or! E; injection E as Hs ->; try done; rewrite Hs in *.
  - by left.
  - right; right. split; [left|]. apply Hlt. left.
  - destruct (Z.le_gt_cases (MaxAttempts cfg) (o_attempts r)) as [?|?]; [by right; left|right; right].
    split; [right; right; left|lia].
  - right; right. split; [right; left|]. apply Hlt. right; left.
Qed.

(** In a fair run the rank of a row that is not done goes down. *)
Lemma rank_decreases σ n id r :
  run σ → fair id σ → outbox (w_db (σ n)) !! id = Some r → o_kind r ≠ EventTypeUrgentReminder →
  State_IsTerminal (o_status r) = false →
  ∃ m r', (n <= m)%nat ∧ outbox (w_db (σ m)) !! id = Some r' ∧ o_kind r' ≠ EventTypeUrgentReminder ∧
    rank cfg r' < rank cfg r.
Proof.
  intros Hrun (Hev & Hre & Hof) Hr Hk Ht.
  assert (Hgo : ∀ m, (n <= m)%nat →
    (∀ r1, outbox (w_db (σ m)) !! id = Some r1 → o_kind r1 = o_kind r → o_status r1 = o_status r →
       o_attempts r1 = o_attempts r →
       ∃ r', outbox (w_db (σ (S m))) !! id = Some r' ∧ ¬ (o_status r' = o_status r1 ∧ o_attempts r' = o_attempts r1)) →
    ∃ m r', (n <= m)%nat ∧ outbox (w_db (σ m)) !! id = Some r' ∧ o_kind r' ≠ EventTypeUrgentReminder ∧
      rank cfg r' < rank cfg r).
  { intros m Hle Hstep. destruct (run_rank σ n m id r Hrun Hle Hr) as (r1 & Hr1 & Hk1 & [[Hs Ha]|Hlt]).
    - destruct (Hstep r1 Hr1 Hk1 Hs Ha) as (r' & Hr' & Hne).
      destruct (run_rank σ n (S m) id r Hrun ltac:(lia) Hr) as (r2 & Hr2 & Hk2 & Hcase). simplify_eq.
      exists (S m), r'. split; [lia|]. split; [done|]. split; [congruence|].
      destruct Hcase as [[? ?]|?]; [|done]. exfalso. apply Hne. split; congruence.
    - exists m, r1. split_and!; [done|done|congruence|done]. }
  destruct (not_terminal r (inv_wf _ _ (run_inv σ n Hrun) id r Hr) Ht) as [Hs|[[Hs Ha]|[Hs Ha]]].
  - destruct (Hev n) as (m & Hle & He). apply (Hgo m Hle). intros r1 Hr1 _ Hs1 _.
    destruct (serve_pending σ m id r1 Hrun He Hr1) as (r' & ? & Hne); [congruence|].
    exists r'. split; [done|]. by intros [? _].
  - destruct (Hre n) as (m & Hle & He). apply (Hgo m Hle). intros r1 Hr1 _ Hs1 Ha1.
    destruct (serve_spent σ m id r1 Hrun He Hr1) as (r' & ? & Hne); [congruence|lia|].
    exists r'. split; [done|]. by intros [? _].
  - destruct (Hof n) as (m & Hle & He). apply (Hgo m Hle). intros r1 Hr1 Hk1 Hs1 Ha1.
    destruct (serve_due σ m id r1 Hrun He Hr1) as (r' & ? & Hne); [congruence|by rewrite Hs1|lia|].
    exists r'. split; [done|]. by intros [_ ?].
Qed.

Lemma terminal_row_stays σ n m id r :
  run σ → (n <= m)%nat → outbox (w_db (σ n)) !! id = Some r → State_IsTerminal (o_status r) = true →
  ∃ r', outbox (w_db (σ m)) !! id = Some r' ∧ o_status r' = o_status r.
Proof.
  intros Hrun Hle Hr Ht. induction Hle as [|m Hle IH]; [eauto|]. destruct IH as (r1 & Hr1 & Hs1).
  destruct (run_row σ m id r1 Hrun Hr1) as (r2 & Hr2 & _ & Hs2 & _). exists r2. split; [done|].
  rewrite Hs1 in Hs2. by apply terminal_stays.
Qed.

Lemma fair_terminal σ n id r :
  run σ → fair id σ → outbox (w_db (σ n)) !! id = Some r → o_kind r ≠ EventTypeUrgentReminder →
  ∃ m r', (n <= m)%nat ∧ outbox (w_db (σ m)) !! id = Some r' ∧ State_IsTerminal (o_status r') = true.
Proof.
  intros Hrun Hfair. assert (H : ∀ k : nat, ∀ n r, (Z.to_nat (rank cfg r) < k)%nat →
    outbox (w_db (σ n)) !! id = Some r → o_kind r ≠ EventTypeUrgentReminder →
    ∃ m r', (n <= m)%nat ∧ outbox (w_db (σ m)) !! id = Some r' ∧ State_IsTerminal (o_status r') = true).
  2:{ intros Hr Hk. apply (H (S (Z.to_nat (rank cfg r))) n r); [lia|done|done]. }
  intros k. induction k as [|k IH]; [lia|]. intros n' r' Hlt Hr Hk.
  destruct (State_IsTerminal (o_status r')) eqn:Ht; [by exists n', r'|].
  destruct (rank_decreases σ n' id r' Hrun Hfair Hr Hk Ht) as (m & r2 & Hle & Hr2 & Hk2 & Hrank).
  assert (Hpos : 0 <= rank cfg r2).
  { destruct (inv_wf _ _ (run_inv σ m Hrun) id r2 Hr2) as (_ & _ & Hb & _). unfold rank. repeat case_decide; lia. }
  destruct (IH m r2 ltac:(lia) Hr2 Hk2) as (m' & r3 & Hle' & ? & ?). exists m', r3. split; [lia|done].
Qed.
End Fairness.

(** ** The claims ledger *)

Section Ledger.
Context (cfg : NotificationWorkerConfig) (HM : 1 <= MaxAttempts cfg <= 20) (HB : 1 <= BatchSize cfg).

(** The claims of one notification are numbered from one without a gap. *)
Lemma claims_count w id :
  inv cfg w →
  Z.of_nat (length (filter (λ c, c.1 = id) (w_claims w))) =
  match outbox (w_db w) !! id with Some r => o_attempts r | None => 0 end.
Proof.
  intros Hinv.
  set (n := match outbox (w_db w) !! id with Some r => o_attempts r | None => 0 end).
  assert (Hn : 0 <= n).
  { subst n. destruct (outbox (w_db w) !! id) as [r|] eqn:E; [|lia].
    destruct (inv_wf _ _ Hinv id r E) as (_ & _ & Ha & _). lia. }
  assert (Hp : filter (λ c, c.1 = id) (w_claims w) ≡ₚ (λ a, (id, a)) <$> seqZ 1 n).
  { apply NoDup_Permutation.
    - apply NoDup_filter, (inv_claims_NoDup _ _ Hinv).
    - apply NoDup_fmap_2; [by intros ?? [=]|apply NoDup_seqZ].
    - intros [k a]. rewrite list_elem_of_filter, (inv_claims _ _ Hinv), list_elem_of_fmap. simpl. split.
      + intros (-> & r & Hr & Ha). exists a. split; [done|]. apply elem_of_seqZ. subst n. rewrite Hr. lia.
      + intros (a' & [= -> ->] & Ha%elem_of_seqZ). split; [done|]. subst n.
        destruct (outbox (w_db w) !! id) as [r|]; [|lia]. exists r. split; [done|lia]. }
  rewrite (Permutation_length Hp), length_fmap, length_seqZ. lia.
Qed.

(** A claim that has ended, or that a later one has replaced, decides nothing. *)
Lemma stale_claim w now random id a err :
  inv cfg w → (id, a) ∈ w_claims w →
  (id, a) ∈ (fst <$> w_done w) ∨ (∃ b, a < b ∧ (id, b) ∈ w_claims w) →
  snd (recordOutcome cfg now random id a err (w_db w)) = (Some ErrNotificationStateConflict, w_db w).
Proof.
  intros Hinv Hin Hstale. pose proof (proj1 (inv_claims _ _ Hinv _ _) Hin) as (r & Hr & Ha).
  assert (Hne : id ≠ "") by (intros ->; rewrite (inv_id _ _ Hinv) in Hr; done).
  destruct (outcome_run cfg HM now random id a err (w_db w) Hne (inv_wf _ _ Hinv)) as (s & e & db' & -> & _ & Hcase).
  destruct Hcase as [(r0 & r' & _ & Hr0 & Hp & Ha0 & _)|(-> & -> & _)]; [|done]. exfalso. simplify_eq.
  destruct Hstale as [Hd|(b & Hb & Hc)].
  - apply list_elem_of_fmap in Hd as ([ka s0] & [= <-] & Hd).
    destruct (inv_done _ _ Hinv _ _ _ Hd) as (r1 & Hr1 & _ & Hlast & _). simplify_eq. by apply Hlast.
  - apply (inv_claims _ _ Hinv) in Hc as (r1 & Hr1 & ?). simplify_eq. lia.
Qed.

Lemma done_claimed w id a s :
  inv cfg w → (id, a, s) ∈ w_done w →
  (id, a) ∈ w_claims w ∧ (State_IsTerminal s = true → ∀ b, (id, b) ∈ w_claims w → b <= a).
Proof.
  intros Hinv Hd. destruct (inv_done _ _ Hinv _ _ _ Hd) as (r & Hr & Ha & _ & Hterm). split.
  - apply (inv_claims _ _ Hinv). eauto.
  - intros Ht b Hb. apply (inv_claims _ _ Hinv) in Hb as (r' & Hr' & ?). simplify_eq. destruct (Hterm Ht). lia.
Qed.
End Ledger.

(** ** A lease and the batch it covers *)

(** How many slots are busy past an instant. *)
Definition busy_past (t : Time) (slots : list Time) : nat := length (filter (λ s, t < s) slots).

Lemma busy_past_release t s slots :
  busy_past t (release s slots) = ((if decide (t < s)%Z then 1 else 0) + busy_past t slots)%nat.
Proof.
  unfold busy_past. induction slots as [|s' slots IH]; simpl release.
  - rewrite filter_cons, filter_nil. case_decide; done.
  - destruct (Z.leb_spec s s').
    + rewrite (filter_cons _ s). destruct (decide (t < s)); done.
    + rewrite !(filter_cons _ s'). destruct (decide (t < s')); simpl; rewrite IH; lia.
Qed.

Lemma release_Sorted s slots : Sorted Z.le slots → Sorted Z.le (release s slots).
Proof.
  induction 1 as [|s' slots Hs IH Hh]; simpl; [by repeat constructor|].
  destruct (Z.leb_spec s s'); [repeat (constructor; try done)|]. constructor; [done|].
  destruct Hh as [|s2 slots Hle]; simpl; [constructor; lia|]. destruct (Z.leb_spec s s2); constructor; lia.
Qed.

Lemma release_length s slots : length (release s slots) = S (length slots).
Proof. induction slots as [|s' slots IH]; simpl; [done|]. destruct (s <=? s'); simpl; lia. Qed.

Lemma busy_past_all t slots : Forall (λ s, t < s) slots → busy_past t slots = length slots.
Proof.
  unfold busy_past. induction 1 as [|s slots Hs _ IH]; [done|]. rewrite filter_cons_True by done. simpl. by rewrite IH.
Qed.

Lemma busy_past_none t slots : Forall (λ s, s <= t) slots → busy_past t slots = O.
Proof.
  unfold busy_past. induction 1 as [|s slots Hs _ IH]; [done|]. by rewrite filter_cons_False by lia.
Qed.

(** With [k] slots and events of at most [T] each, after [j] events no more than
    [j - i * k] slots are busy past [start + i * T]: so an event numbered [j]
    ends by [start + (j / k + 1) * T]. *)
Lemma batchEnds_bound start T (k : nat) slots durations (j : nat) :
  (0 < k)%nat → length slots = k → Sorted Z.le slots → 0 <= T →
  Forall (λ d, d <= T) durations →
  (∀ i : nat, (busy_past (start + Z.of_nat i * T) slots <= j - i * k)%nat) →
  Forall (λ t, ∀ w : nat, (j + length durations <= w * k)%nat → t <= start + Z.of_nat w * T)
    (batchEnds slots durations).
Proof.
  intros Hk. revert slots j. induction durations as [|d durations IH]; intros slots j Hlen Hsort HT Hd Hinv.
  { by destruct slots. }
  destruct slots as [|s slots]; [simpl in Hlen; lia|]. simpl batchEnds.
  apply Forall_cons in Hd as [Hd Hds].
  assert (Hall : ∀ t, t < s → busy_past t (s :: slots) = k).
  { intros t Ht. rewrite <-Hlen. apply busy_past_all.
    apply Sorted_StronglySorted in Hsort; [|intros ???; lia]. apply StronglySorted_inv in Hsort as [_ Hf].
    apply Forall_cons. split; [done|]. eapply Forall_impl; [exact Hf|]. simpl. lia. }
  assert (Hnew : ∀ i : nat, (busy_past (start + Z.of_nat i * T) (release (s + d) slots) <= S j - i * k)%nat).
  { intros i. rewrite busy_past_release. pose proof (Hinv i) as Hi.
    assert (Hle : (busy_past (start + Z.of_nat i * T) slots <= busy_past (start + Z.of_nat i * T) (s :: slots))%nat).
    { unfold busy_past. rewrite filter_cons. case_decide; simpl; lia. }
    destruct (decide (start + Z.of_nat i * T < s + d)) as [Hlt|]; [|lia].
    destruct i as [|i]; [lia|].
    assert (Hs : start + Z.of_nat i * T < s) by lia. pose proof (Hinv i) as Hi'. rewrite (Hall _ Hs) in Hi'.
    simpl in *. lia. }
  apply Forall_cons. split.
  - intros w Hw. simpl in Hw. pose proof (Hnew w) as Hn. rewrite busy_past_release in Hn.
    destruct (decide (start + Z.of_nat w * T < s + d)); lia.
  - pose proof (IH (release (s + d) slots) (S j)) as H. rewrite release_length in H. simpl in Hlen.
    specialize (H Hlen (release_Sorted _ _ (proj1 (Sorted_inv Hsort))) HT Hds Hnew).
    eapply Forall_impl; [exact H|]. simpl. intros t Ht w Hw. apply Ht. lia.
Qed.

(** ** What a statement leaves alone *)

Lemma query_other guard set id r db n db' :
  update guard set db = Ok (n, db') → outbox db !! id = Some r → guard id r = false →
  outbox db' !! id = Some r.
Proof. intros (Hl & _)%update_Ok Hr Hg. rewrite Hl, Hr. simpl. by rewrite Hg. Qed.

Lemma applyTransition_other guard set k id r db :
  outbox db !! id = Some r → guard id r = false →
  outbox (snd (applyTransition (update guard set) k db)) !! id = Some r.
Proof.
  intros Hr Hg. unfold applyTransition. destruct (k == ""); [done|].
  destruct (update guard set db) as [[n db']|err] eqn:E; [|done].
  destruct (n =? 0); by apply (query_other guard set id r db n db').
Qed.

Lemma outcome_other cfg now random k a err id r db :
  outbox db !! id = Some r → (k, a) ≠ (id, o_attempts r) →
  outbox (snd (snd (recordOutcome cfg now random k a err db))) !! id = Some r.
Proof.
  intros Hr Hne.
  assert (Hg : holds_claim k a id r = false).
  { apply not_true_is_false. unfold holds_claim. rewrite !andb_true_iff, !bool_decide_eq_true, Z.eqb_eq.
    intros [[-> _] <-]. by apply Hne. }
  unfold recordOutcome. destruct err as [err|]; [|by apply applyTransition_other].
  destruct (classifyDelivery (Some err)) as [category permanent].
  destruct (permanent || _); by apply applyTransition_other.
Qed.

Lemma retire_other cfg now id r db :
  outbox db !! id = Some r → reached (o_next_attempt_at r) now = false →
  outbox (snd (retireExhausted cfg now db)) !! id = Some r.
Proof.
  intros Hr Hd. unfold retireExhausted, FailExhausted. destruct (_ <=? 0); [done|].
  destruct (failExhaustedQuery now (MaxAttempts cfg) db) as [[n db']|err] eqn:E; [|done].
  apply (query_other _ _ id r _ _ _ E Hr). by rewrite Hd, andb_false_r.
Qed.

Lemma suppress_other now id r db :
  outbox db !! id = Some r → o_status r = StateProcessing →
  outbox (snd (retireResolvedReminders now db)) !! id = Some r.
Proof.
  intros Hr Hs. unfold retireResolvedReminders, SuppressResolvedReminders.
  destruct (suppressResolvedRemindersQuery now db) as [[n db']|err] eqn:E; [|done].
  apply (query_other _ _ id r _ _ _ E Hr). rewrite Hs.
  rewrite (bool_decide_eq_false_2 (StateProcessing ∈ ["pending"; "eligible"])) by not_in.
  by rewrite andb_false_r.
Qed.

Lemma evaluate_other now e id r db :
  outbox db !! id = Some r → o_status r = StateProcessing →
  outbox (snd (evaluateOne now e db)) !! id = Some r.
Proof.
  intros Hr Hs. unfold evaluateOne, MarkEvaluated. destruct (negb _); [done|].
  destruct (ValidateSuppressedReason _ _); [done|]. apply applyTransition_other; [done|].
  rewrite Hs. rewrite (bool_decide_eq_false_2 (StateProcessing = "pending")) by discriminate. by rewrite andb_false_r.
Qed.

Lemma claim_other cfg project locks now id r db events db' :
  outbox db !! id = Some r → reached (o_next_attempt_at r) now = false →
  claim cfg project locks now db = (Ok events, db') →
  outbox db' !! id = Some r ∧ id ∉ (NotificationEvent_ID <$> events).
Proof.
  intros Hr Hd. unfold claim, ClaimDue. destruct (_ || _).
  { intros [= <- <-]. split; [done|]. apply not_elem_of_nil. }
  set (ids := due locks now (BatchSize cfg) (MaxAttempts cfg) db).
  assert (Hni : id ∉ ids).
  { intros (r' & Hr' & Hc)%due_elem. simplify_eq. unfold claimable in Hc. by rewrite Hd, !andb_false_r in Hc. }
  destruct (claimDueQuery _ _ _ _ _ _) as [[n db1]|err] eqn:E; [|done]. intros [= <- <-]. split.
  - apply (query_other _ _ id r _ _ _ E Hr). by apply bool_decide_eq_false_2.
  - intros (e & -> & (k & r' & Hin & _ & ->)%scan_elem)%list_elem_of_fmap. done.
Qed.

(** * Theorems *)

(** A table with one notification, and a pass over it. *)
Definition ex_config : NotificationWorkerConfig :=
  Normalized {| Enabled := true; PollSeconds := 0; BatchSize := 0; MaxConcurrency := 0; LeaseSeconds := 0;
                MaxAttempts := 0; RetryBaseSeconds := 0; RetryMaxSeconds := 0; DeliveryTimeoutSeconds := 0 |}.

Definition ex_row : Row :=
  {| o_WorkspaceID := "ws"; o_RecipientID := "ada"; o_MessageID := "m1"; o_kind := EventTypeMention;
     o_priority := PriorityNormal; o_source_type := SourceTypeMessage; o_origin := OriginLive;
     o_dedupe_key := "message:m1:mention"; o_occurred_at := 5 * Second; o_status := StatePending;
     o_attempts := 0; o_next_attempt_at := None; o_suppressed_reason := None; o_last_error := None;
     o_processed_at := None |}.

Definition ex_project : string → Projection := λ _, {| pj_muted := false; pj_level := "all"; pj_dnd := false |}.
Definition ex_locks : Locks := {| lk_outbox := λ _, false; lk_acks := λ _, false |}.
Definition ex_event (r : Row) : NotificationEvent :=
  {| NotificationEvent_ID := "n1"; NotificationEvent_row := r; NotificationEvent_projection := ex_project "n1" |}.

Definition ex_empty : World :=
  {| w_db := {| outbox := ∅; acks := ∅; messages := ∅ |}; w_claims := []; w_done := [] |}.
Definition ex_produced : World := with_db ex_empty (snd (insert_row "n1" ex_row (w_db ex_empty))).
Definition ex_evaluated : World :=
  with_db ex_produced (snd (evaluateOne (10 * Second) (ex_event ex_row) (w_db ex_produced))).
Definition ex_claim (cfg : NotificationWorkerConfig) (now : Time) (w : World) : World :=
  match claim cfg ex_project ex_locks now (w_db w) with
  | (Ok events, db') => {| w_db := db'; w_claims := w_claims w ++ claims_of events; w_done := w_done w |}
  | (Fail _, _) => w
  end.
Definition ex_claimed : World := ex_claim ex_config (20 * Second) ex_evaluated.

Definition ex_sent : World :=
  {| w_db := snd (snd (recordOutcome ex_config (30 * Second) (λ _, None) "n1" 1 None (w_db ex_claimed)));
     w_claims := w_claims ex_claimed; w_done := [("n1", 1, StateSent)] |}.

Lemma ex_claim_step cfg now w : world_step cfg w (ex_claim cfg now w) ∨ ex_claim cfg now w = w.
Proof.
  unfold ex_claim. destruct (claim cfg ex_project ex_locks now (w_db w)) as [[events|err] db'] eqn:E; [left|by right].
  by eapply step_claim.
Qed.

Lemma ex_produced_step cfg : world_step cfg ex_empty ex_produced.
Proof. by apply step_produce with "n1" ex_row. Qed.

Lemma ex_produced_reachable cfg : reachable cfg ex_produced.
Proof. exists ∅. apply rtc_once, ex_produced_step. Qed.

Lemma ex_claimed_reachable : reachable ex_config ex_claimed.
Proof.
  exists ∅. apply (rtc_l _ _ ex_produced); [apply ex_produced_step|]. apply (rtc_l _ _ ex_evaluated).
  - apply step_evaluate.
  - unfold ex_claimed. generalize ex_evaluated. intros w. destruct (ex_claim_step ex_config (20 * Second) w) as [?| ->].
    + by apply rtc_once.
    + apply rtc_refl.
Qed.

Lemma ex_sent_step : world_step ex_config ex_claimed ex_sent.
Proof.
  apply (step_outcome ex_config ex_claimed (30 * Second) (λ _, None) "n1" 1 None StateSent).
  - apply (bool_decide_eq_true_1 (("n1", 1) ∈ w_claims ex_claimed)). vm_compute. reflexivity.
  - vm_compute. reflexivity.
Qed.

Lemma ex_sent_reachable : reachable ex_config ex_sent.
Proof. destruct ex_claimed_reachable as [ms Hr]. exists ms. eapply rtc_r; [exact Hr|apply ex_sent_step]. Qed.

Lemma ex_config_bounds : 1 <= MaxAttempts ex_config <= 20 ∧ 1 <= BatchSize ex_config.
Proof. vm_compute. split_and!; discriminate. Qed.

(** C18. Claims fence deliveries: of the claims any number of replicas hand out for
    one notification, numbered 1, 2, ... up to at most the configured attempts,
    each ends at most once; an ending that is final belongs to the last claim, so
    at most one delivery of a notification is recorded; a row reads sent only
    when its last claim recorded it; and whoever comes back with a claim that has
    ended, or that was replaced after its lease, is told of the conflict and
    changes nothing. *)
Theorem claims_are_fenced (cfg : NotificationWorkerConfig) (w : World) :
  1 <= MaxAttempts cfg <= 20 → 1 <= BatchSize cfg → reachable cfg w →
  (NoDup (w_claims w) ∧ ∀ id, Z.of_nat (length (filter (λ c, c.1 = id) (w_claims w))) =
     match outbox (w_db w) !! id with Some r => o_attempts r | None => 0 end ∧
     Z.of_nat (length (filter (λ c, c.1 = id) (w_claims w))) <= MaxAttempts cfg) ∧
  NoDup (fst <$> w_done w) ∧
  (∀ id a s, (id, a, s) ∈ w_done w → (id, a) ∈ w_claims w ∧
     (State_IsTerminal s = true → ∀ b, (id, b) ∈ w_claims w → b <= a)) ∧
  (∀ id r, outbox (w_db w) !! id = Some r → o_status r = StateSent → (id, o_attempts r, StateSent) ∈ w_done w) ∧
  (∀ now random id a err, (id, a) ∈ w_claims w →
     (id, a) ∈ (fst <$> w_done w) ∨ (∃ b, a < b ∧ (id, b) ∈ w_claims w) →
     snd (recordOutcome cfg now random id a err (w_db w)) = (Some ErrNotificationStateConflict, w_db w)).
Proof.
  intros HM HB Hr. pose proof (inv_reachable cfg HM HB w Hr) as Hinv. split_and!.
  - apply (inv_claims_NoDup _ _ Hinv).
  - intros id. pose proof (claims_count cfg w id Hinv) as Hc. split; [done|]. rewrite Hc.
    destruct (outbox (w_db w) !! id) as [r|] eqn:E; [|lia]. destruct (inv_wf _ _ Hinv id r E) as (_ & _ & Ha & _). lia.
  - apply (inv_done_NoDup _ _ Hinv).
  - intros id a s. by apply (done_claimed cfg).
  - apply (inv_sent _ _ Hinv).
  - intros now random id a err. by apply stale_claim.
Qed.

Lemma claims_are_fenced_witness :
  reachable ex_config ex_sent ∧
  snd (recordOutcome ex_config (40 * Second) (λ _, None) "n1" 1 (Some ErrPermanentDelivery) (w_db ex_sent)) =
    (Some ErrNotificationStateConflict, w_db ex_sent).
Proof.
  split; [apply ex_sent_reachable|].
  apply (claims_are_fenced ex_config ex_sent (proj1 ex_config_bounds) (proj2 ex_config_bounds) ex_sent_reachable).
  - apply (bool_decide_eq_true_1 (("n1", 1) ∈ w_claims ex_sent)). vm_compute. reflexivity.
  - left. left.
Defined.

(** Every statement of every replica moves each notification along the
    declared life cycle, one transition at most, and never rewrites what the
    notification is about, nor loses it; whenever it touches the state or the
    attempts it uses up a bound known in advance, so one notification changes at
    most [2 * MaxAttempts + 1] times. *)
Theorem rows_follow_the_machine (cfg : NotificationWorkerConfig) (w w' : World) (id : string) (r : Row) :
  1 <= MaxAttempts cfg <= 20 → 1 <= BatchSize cfg → reachable cfg w → world_step cfg w w' →
  outbox (w_db w) !! id = Some r →
  0 <= rank cfg r <= 2 * MaxAttempts cfg + 1 ∧
  ∃ r', outbox (w_db w') !! id = Some r' ∧ same_event r r' ∧
    (o_status r' = o_status r ∨ State_CanTransitionTo (o_status r) (o_status r') = true) ∧
    ((o_status r' = o_status r ∧ o_attempts r' = o_attempts r) ∨
     (o_attempts r <= o_attempts r' ∧ rank cfg r' < rank cfg r)).
Proof.
  intros HM HB Hr Hs Hrow. pose proof (inv_reachable cfg HM HB w Hr) as Hinv. split.
  - destruct (inv_wf _ _ Hinv id r Hrow) as (_ & _ & Ha & _). unfold rank. repeat case_decide; lia.
  - by apply (step_row cfg HM HB w).
Qed.

Lemma rows_follow_the_machine_witness :
  ∃ r r', outbox (w_db ex_claimed) !! "n1" = Some r ∧ outbox (w_db ex_sent) !! "n1" = Some r' ∧
    o_status r = StateProcessing ∧ o_status r' = StateSent ∧ rank ex_config r' < rank ex_config r.
Proof.
  destruct (rows_follow_the_machine ex_config ex_claimed ex_sent "n1"
    (default ex_row (outbox (w_db ex_claimed) !! "n1")) (proj1 ex_config_bounds) (proj2 ex_config_bounds)
    ex_claimed_reachable ex_sent_step) as (_ & r' & Hr' & _ & _ & Hcase); [vm_compute; reflexivity|].
  assert (Hs : o_status r' = StateSent).
  { revert Hr'. vm_compute. by intros [= <-]. }
  exists (default ex_row (outbox (w_db ex_claimed) !! "n1")), r'.
  split; [vm_compute; reflexivity|]. split; [done|]. split; [vm_compute; reflexivity|]. split; [done|].
  destruct Hcase as [[Hf _]|[_ Hlt]]; [|done]. rewrite Hs in Hf. vm_compute in Hf. discriminate Hf.
Defined.

(** C23. Whatever the environment says, the configuration in use is inside its
    bounds, and normalising it again changes nothing; a configuration already
    inside them is left alone. *)
Theorem Normalized_wf (c : NotificationWorkerConfig) :
  config_wf (Normalized c) ∧ Normalized (Normalized c) = Normalized c ∧ (config_wf c → Normalized c = c).
Proof.
  assert (Hid : ∀ c, config_wf c → Normalized c = c).
  { intros [en poll batch conc ls att rb rm dt] (? & ? & ? & ? & ? & ? & ? & ?). cbn in *. unfold Normalized. cbn -[clampSeconds].
    rewrite !clampSeconds_id by lia. destruct (Z.ltb_spec rm rb); [lia|done]. }
  split; [apply Normalized_config_wf|]. split; [apply Hid, Normalized_config_wf|apply Hid].
Qed.

Lemma Normalized_wf_witness : config_wf ex_config ∧ Normalized ex_config = ex_config.
Proof.
  assert (H : config_wf ex_config) by (vm_compute; split_and!; discriminate).
  split; [exact H|]. exact (proj2 (proj2 (Normalized_wf ex_config)) H).
Defined.

(** A retry is never early, never beyond the ceiling and never overflows: the
    delay lies between half of the capped exponential backoff and the configured
    maximum, exceeds the backoff only when the provider asked for longer, and
    grants what the provider asked for up to the maximum. *)
Theorem retry_delay_bounds (c : NotificationWorkerConfig) (random : Z → option Z) (attempt : Z) (err : error) :
  (∀ n v, random n = Some v → 0 <= v < n) → 1 <= attempt →
  let n := Normalized c in
  let ceiling := RetryMaxSeconds n * Second in
  backoff n attempt = Z.min ceiling (RetryBaseSeconds n * Second * 2 ^ Z.min (attempt - 1) 20) ∧
  Z.quot (backoff n attempt) 2 <= retryDelay n random attempt err <= ceiling ∧
  (backoff n attempt < retryDelay n random attempt err →
     retryDelay n random attempt err = Z.min ceiling (requestedRetryDelay err)) ∧
  Z.min ceiling (requestedRetryDelay err) <= retryDelay n random attempt err.
Proof.
  intros Hr Ha n ceiling. pose proof (Normalized_config_wf c) as Hc.
  pose proof (Delay_bounds n random attempt Hc Ha Hr) as Hd.
  assert (Hms : seconds (RetryMaxSeconds n) = ceiling).
  { apply seconds_id. destruct Hc as (_ & _ & _ & _ & _ & ? & ? & _). subst n. lia. }
  assert (Hb : backoff n attempt <= ceiling) by (unfold backoff, ceiling; lia).
  split; [done|]. unfold retryDelay. rewrite Hms.
  destruct (Z.leb_spec (requestedRetryDelay err) (Delay random (retry n) attempt)); lia.
Qed.

Lemma retry_delay_bounds_witness :
  let random := λ n, if 0 <? n then Some (n - 1) else None in
  let d := retryDelay (Normalized ex_config) random 2 (RetryAfterError (120 * Second) ErrPermanentDelivery) in
  30 * Second <= d <= 900 * Second ∧ d = 120 * Second.
Proof.
  intros random d.
  assert (Hr : ∀ n v, random n = Some v → 0 <= v < n).
  { unfold random. intros n v. destruct (Z.ltb_spec 0 n); [|done]. intros [= <-]. lia. }
  destruct (retry_delay_bounds ex_config random 2 (RetryAfterError (120 * Second) ErrPermanentDelivery) Hr ltac:(lia))
    as (_ & Hrange & Heq & _).
  split; [exact Hrange|]. rewrite (Heq eq_refl : d = _). reflexivity.
Defined.

(** C22. A lease outlives the batch it was taken for: under a configuration the
    worker agrees to start with, a full batch claimed at some instant, each of its
    deliveries taking at most the delivery timeout, and in every wave of
    concurrent deliveries at most an equal share of the finalisation grace to
    write the outcome down, has recorded its last outcome before any of the
    claims expires.  The budget is computed without overflow. *)
Theorem lease_outlives_batch (c : NotificationWorkerConfig) (claimed : Time) (durations : list Duration)
    (grace : Duration) :
  let n := Normalized c in
  let waves := Z.quot (BatchSize n + MaxConcurrency n - 1) (MaxConcurrency n) in
  LeaseCoversProcessing c = true → 0 <= grace → waves * grace <= notificationFinaliseGraceSeconds * Second →
  Z.of_nat (length durations) <= BatchSize n →
  Forall (λ d, d <= DeliveryTimeoutSeconds n * Second + grace) durations →
  ProcessingBudget c = (waves * DeliveryTimeoutSeconds n + notificationFinaliseGraceSeconds) * Second ∧
  Forall (λ t, t <= claimed + ProcessingBudget c)
    (batchEnds (replicate (Z.to_nat (MaxConcurrency n)) claimed) durations) ∧
  claimed + ProcessingBudget c < claimed + lease n.
Proof.
  intros n waves Hlease Hg Hgw Hlen Hd.
  pose proof (Normalized_config_wf c) as (_ & Hb & Hm & Hl & _ & _ & _ & Ht).
  fold n in Hb, Hm, Hl, Ht.
  assert (Hw : 1 <= waves <= 263 ∧ BatchSize n <= waves * MaxConcurrency n).
  { subst waves. rewrite Z.quot_div_nonneg by lia. pose proof (Z.div_mod (BatchSize n + MaxConcurrency n - 1) (MaxConcurrency n)).
    pose proof (Z.mod_pos_bound (BatchSize n + MaxConcurrency n - 1) (MaxConcurrency n)). nia. }
  assert (Hbudget : ProcessingBudget c = (waves * DeliveryTimeoutSeconds n + notificationFinaliseGraceSeconds) * Second).
  { apply seconds_id. fold n waves. unfold notificationFinaliseGraceSeconds. nia. }
  split; [done|]. split.
  - pose proof (batchEnds_bound claimed (DeliveryTimeoutSeconds n * Second + grace) (Z.to_nat (MaxConcurrency n))
      (replicate (Z.to_nat (MaxConcurrency n)) claimed) durations 0) as H.
    assert (Hs : (1 <= Second)) by done.
    eapply Forall_impl; [apply H; [lia|by rewrite length_replicate| |nia|done|]|].
    + clear. induction (Z.to_nat (MaxConcurrency n)) as [|k IH]; simpl; [done|]. constructor; [done|].
      destruct k; simpl; constructor; lia.
    + intros i. rewrite busy_past_none; [lia|]. apply Forall_replicate. nia.
    + cbn [Nat.add]. intros t Hend. rewrite Hbudget.
      assert (Hn : (length durations <= Z.to_nat waves * Z.to_nat (MaxConcurrency n))%nat).
      { apply Nat2Z.inj_le. rewrite Nat2Z.inj_mul, !Z2Nat.id by lia. lia. }
      specialize (Hend _ Hn). rewrite Z2Nat.id in Hend by lia. nia.
  - unfold lease. rewrite seconds_id by lia. unfold LeaseCoversProcessing, ProtectedProcessingSeconds in Hlease.
    fold n in Hlease. rewrite Hbudget, Z.quot_mul in Hlease by done. rewrite Hbudget.
    apply Z.gtb_lt in Hlease. assert (0 < Second) by done. nia.
Qed.

Lemma lease_outlives_batch_witness :
  let durations := replicate 10 (9 * Second) in
  let ends := batchEnds (replicate 5 0) durations in
  ends = replicate 5 (9 * Second) ++ replicate 5 (18 * Second) ∧
  Forall (λ t, t <= 0 + 25 * Second) ends ∧ ProcessingBudget ex_config < lease (Normalized ex_config).
Proof.
  intros durations ends. split; [reflexivity|].
  destruct (lease_outlives_batch ex_config 0 durations 0) as (_ & H1 & H2).
  - reflexivity.
  - lia.
  - vm_compute. discriminate.
  - vm_compute. discriminate.
  - apply Forall_replicate. vm_compute. discriminate.
  - split; [exact H1|exact H2].
Defined.

(** While a lease lasts the delivery is its holder's alone: a claimed row is
    leased from the claim's instant, and until the lease runs out no claim of any
    replica hands it out again, and neither the retirement of spent claims, the
    evaluation, the suppression of resolved reminders, the scheduling of new ones
    nor the outcome of any other claim changes a column of it. *)
Theorem leased_row_undisturbed (cfg : NotificationWorkerConfig) (w : World) :
  1 <= MaxAttempts cfg <= 20 → 1 <= BatchSize cfg → reachable cfg w →
  (∀ project locks now events db' e, claim cfg project locks now (w_db w) = (Ok events, db') → e ∈ events →
     outbox db' !! NotificationEvent_ID e = Some (NotificationEvent_row e) ∧
     o_status (NotificationEvent_row e) = StateProcessing ∧
     o_next_attempt_at (NotificationEvent_row e) = Some (now + lease cfg)) ∧
  ∀ id r expiry, outbox (w_db w) !! id = Some r → o_status r = StateProcessing →
    o_next_attempt_at r = Some expiry →
    (∀ project locks now, now < expiry → ∃ events db', claim cfg project locks now (w_db w) = (Ok events, db') ∧
       outbox db' !! id = Some r ∧ id ∉ (NotificationEvent_ID <$> events)) ∧
    (∀ now, now < expiry → outbox (snd (retireExhausted cfg now (w_db w))) !! id = Some r) ∧
    (∀ now e, outbox (snd (evaluateOne now e (w_db w))) !! id = Some r) ∧
    (∀ now, outbox (snd (retireResolvedReminders now (w_db w))) !! id = Some r) ∧
    (∀ order locked ids now, NoDup ids → (∀ k, k ∈ ids → outbox (w_db w) !! k = None) →
       outbox (snd (scheduleReminders cfg order locked ids now (w_db w))) !! id = Some r) ∧
    (∀ now random k a err, (k, a) ≠ (id, o_attempts r) →
       outbox (snd (snd (recordOutcome cfg now random k a err (w_db w)))) !! id = Some r).
Proof.
  intros HM HB Hreach. pose proof (inv_wf _ _ (inv_reachable cfg HM HB w Hreach)) as Hwf. split.
  - intros project locks now events db' e Hc He.
    destruct (claim_run cfg HM project locks now _ Hwf HB) as (ev & db1 & Hrun & _ & _ & _ & Hin & _).
    rewrite Hrun in Hc. injection Hc as -> ->. by destruct (Hin e He) as (r & _ & _ & ? & _ & _ & ? & ?).
  - intros id r expiry Hr Hs Ht. assert (Hd : ∀ now, now < expiry → reached (o_next_attempt_at r) now = false).
    { intros now Hlt. rewrite Ht. simpl. by apply Z.leb_gt. }
    split_and!.
    + intros project locks now Hlt.
      destruct (claim_run cfg HM project locks now _ Hwf HB) as (ev & db1 & Hrun & _). exists ev, db1.
      split; [done|]. by apply (claim_other cfg project locks now id r (w_db w)); auto.
    + intros now Hlt. apply retire_other; auto.
    + intros now e. by apply evaluate_other.
    + intros now. by apply suppress_other.
    + intros order locked ids now Hnd Hf. destruct (remind_extends cfg HM order locked ids now (w_db w) Hnd Hf id)
        as [->|(Hn & _)]; [done|]. congruence.
    + intros now random k a err. by apply outcome_other.
Qed.

Lemma leased_row_undisturbed_witness :
  ∃ r, outbox (w_db ex_claimed) !! "n1" = Some r ∧ o_next_attempt_at r = Some (80 * Second) ∧
    outbox (snd (retireExhausted ex_config (79 * Second) (w_db ex_claimed))) !! "n1" = Some r.
Proof.
  destruct (outbox (w_db ex_claimed) !! "n1") as [r|] eqn:E; [|vm_compute in E; discriminate E].
  assert (Hr : o_status r = StateProcessing ∧ o_next_attempt_at r = Some (80 * Second)).
  { clear -E. vm_compute in E. injection E as <-. split; reflexivity. }
  destruct Hr as [Hs Ht]. exists r. split; [reflexivity|]. split; [exact Ht|].
  destruct (leased_row_undisturbed ex_config ex_claimed (proj1 ex_config_bounds) (proj2 ex_config_bounds)
    ex_claimed_reachable) as [_ H].
  destruct (H "n1" r (80 * Second) E Hs Ht) as (_ & Hretire & _). apply Hretire. reflexivity.
Defined.


Definition ex_env : PassEnv :=
  {| pe_retire := 10 * Second; pe_remind := 10 * Second; pe_suppress := 10 * Second; pe_evaluate := λ _, 11 * Second;
     pe_claim := 12 * Second; pe_order := []; pe_locked := λ _, false; pe_ids := []; pe_project := ex_project;
     pe_locks := ex_locks;
     pe_answers := λ events, (λ e, {| an_event := e; an_err := None; an_now := 13 * Second;
                                      an_random := λ _, None |}) <$> events |}.


(** C21. Reminding stops: the reminders one recipient of one message has been given
    never outnumber the occurrences counted for them, and those never exceed
    twelve, whatever replicas and the chat service do; and a reminder is only ever
    claimed while its recipient is still pending. *)
Theorem reminders_bounded (cfg : NotificationWorkerConfig) (w : World) :
  1 <= MaxAttempts cfg <= 20 → 1 <= BatchSize cfg → reachable cfg w →
  (∀ key, Z.of_nat (size (reminders_of key (w_db w))) <=
     match acks (w_db w) !! key with Some a => a_reminder_count a | None => 0 end <= MaxUrgentReminders) ∧
  (∀ project locks now events db' e, claim cfg project locks now (w_db w) = (Ok events, db') → e ∈ events →
     o_kind (NotificationEvent_row e) = EventTypeUrgentReminder →
     reminderRecipientPending (w_db w) (NotificationEvent_row e) = true).
Proof.
  intros HM HB Hr. pose proof (inv_reachable cfg HM HB w Hr) as Hinv. split.
  - intros key. pose proof (reminders_reachable cfg HM HB w Hr key) as H. unfold ack_reminders in H.
    destruct (acks (w_db w) !! key); [apply H|]. rewrite H. done.
  - intros project locks now events db' e Hc He Hk.
    destruct (claim_run cfg HM project locks now _ (inv_wf _ _ Hinv) HB) as (ev & db1 & Hrun & _ & _ & _ & Hin & _).
    rewrite Hrun in Hc. injection Hc as -> ->.
    destruct (Hin e He) as (r & _ & (_ & _ & _ & Hp)%claimable_inv & _ & (_ & Hr1 & Hm1 & Hk1 & _) & _).
    rewrite Hk in Hk1. specialize (Hp (eq_sym Hk1)). unfold reminderRecipientPending in *. by rewrite Hr1, Hm1.
Qed.

Definition ex_message : MessageRow :=
  {| m_WorkspaceID := "ws"; m_created_at := Second; m_acknowledgement_required := false;
     m_persistent_notifications := true; m_active := true |}.

Definition ex_asked (count : Z) : DB :=
  {| outbox := ∅;
     acks := {[ ("m1", "ada") := {| a_state := "pending"; a_reminder_count := count;
                                    a_next_reminder_at := Some (60 * Second); a_resolved_at := None |} ]};
     messages := {[ "m1" := ex_message ]} |}.

Definition ex_reminded : World :=
  with_db {| w_db := ex_asked 0; w_claims := []; w_done := [] |}
    (snd (scheduleReminders ex_config [("m1", "ada")] (λ _, false) ["n2"] (60 * Second) (ex_asked 0))).

Lemma reminders_bounded_witness :
  reachable ex_config ex_reminded ∧ size (reminders_of ("m1", "ada") (w_db ex_reminded)) = 1%nat ∧
  Z.of_nat (size (reminders_of ("m1", "ada") (w_db ex_reminded))) <= MaxUrgentReminders.
Proof.
  assert (Hr : reachable ex_config ex_reminded).
  { exists {[ "m1" := ex_message ]}. eapply rtc_l.
    - apply (step_chat ex_config _ (ex_asked 0)). split; [reflexivity|]. split.
      + intros key a Ha. discriminate Ha.
      + intros key a Ha _. unfold ex_asked in Ha; cbn [acks] in Ha. apply lookup_singleton_Some in Ha as [_ <-]. split; reflexivity.
    - apply rtc_once. apply (step_remind ex_config {| w_db := ex_asked 0; w_claims := []; w_done := [] |}).
      + apply NoDup_singleton.
      + apply NoDup_singleton.
      + not_in.
      + reflexivity. }
  split; [exact Hr|]. split; [vm_compute; reflexivity|].
  destruct (reminders_bounded ex_config ex_reminded (proj1 ex_config_bounds) (proj2 ex_config_bounds) Hr) as [H _].
  specialize (H ("m1", "ada")). lia.
Defined.

(** A claimed or retrying reminder whose recipient has answered is retired by no
    statement of the worker: it stays in the backlog. *)
Lemma resolved_reminder_stranded cfg project locks now id r db :
  1 <= MaxAttempts cfg <= 20 → 1 <= BatchSize cfg → table_wf (MaxAttempts cfg) db →
  outbox db !! id = Some r → o_kind r = EventTypeUrgentReminder → o_status r = StateRetrying →
  reminderRecipientPending db r = false →
  (∃ events db', claim cfg project locks now db = (Ok events, db') ∧ outbox db' !! id = Some r) ∧
  outbox (snd (retireExhausted cfg now db)) !! id = Some r ∧
  outbox (snd (retireResolvedReminders now db)) !! id = Some r ∧ 1 <= Backlog db.
Proof.
  intros HM HB Hwf Hr Hk Hs Hp. split_and!.
  - destruct (claim_run cfg HM project locks now db Hwf HB) as (ev & db' & Hrun & _ & _ & Hids & _ & Hout).
    exists ev, db'. split; [done|]. rewrite Hout; [done|]. rewrite Hids. intros (r' & Hr' & Hc)%due_elem. simplify_eq.
    apply claimable_inv in Hc as (_ & _ & _ & Hc). rewrite Hc in Hp; done.
  - unfold retireExhausted, FailExhausted. destruct (_ <=? 0); [done|].
    destruct (failExhaustedQuery now (MaxAttempts cfg) db) as [[n db']|err] eqn:E; [|done].
    apply (query_other _ _ id r _ _ _ E Hr). by rewrite Hs.
  - unfold retireResolvedReminders, SuppressResolvedReminders.
    destruct (suppressResolvedRemindersQuery now db) as [[n db']|err] eqn:E; [|done].
    apply (query_other _ _ id r _ _ _ E Hr). rewrite Hs.
    rewrite (bool_decide_eq_false_2 (StateRetrying ∈ ["pending"; "eligible"])) by not_in. by rewrite andb_false_r.
  - unfold Backlog. destruct (decide (filter (λ kv : string * Row, o_status kv.2 ∈ ["pending"; "eligible"; "retrying"]) (outbox db) = ∅)) as [He|He].
    + exfalso. assert (Hx : filter (λ kv : string * Row, o_status kv.2 ∈ ["pending"; "eligible"; "retrying"]) (outbox db) !! id = Some r).
      { apply map_lookup_filter_Some. split; [done|]. simpl. rewrite Hs. right; right; left. }
      rewrite He in Hx. done.
    + assert (size (filter (λ kv : string * Row, o_status kv.2 ∈ ["pending"; "eligible"; "retrying"]) (outbox db)) ≠ O)
        by (by rewrite map_size_empty_iff). lia.
Qed.

(** The last reminder of a message that asks for nothing else is scheduled by the
    statement that resolves its recipient, and suppressed before it is evaluated. *)
Example last_reminder_suppressed :
  let db1 := snd (scheduleReminders ex_config [("m1", "ada")] (λ _, false) ["n2"] (60 * Second) (ex_asked 11)) in
  let db2 := snd (retireResolvedReminders (61 * Second) db1) in
  a_reminder_count <$> acks db1 !! ("m1", "ada") = Some MaxUrgentReminders ∧
  o_status <$> outbox db1 !! "n2" = Some StatePending ∧
  o_suppressed_reason <$> outbox db2 !! "n2" = Some (Some "recipient_resolved").
Proof. vm_compute. split_and!; reflexivity. Qed.

(** C19. No notification waits forever: in every run of the replicas, however their
    statements interleave, leases expire and deliveries fail, a notification that
    is no reminder and is evaluated, offered to a claim that has room for it and
    looked at for retirement again and again reaches sent, suppressed or failed,
    and keeps that state from then on. *)
Theorem notifications_settle (cfg : NotificationWorkerConfig) (σ : nat → World) (n : nat) (id : string) (r : Row) :
  1 <= MaxAttempts cfg <= 20 → 1 <= BatchSize cfg → run cfg σ → fair cfg id σ →
  outbox (w_db (σ n)) !! id = Some r → o_kind r ≠ EventTypeUrgentReminder →
  ∃ m s, (n <= m)%nat ∧ State_IsTerminal s = true ∧
    ∀ k, (m <= k)%nat → o_status <$> outbox (w_db (σ k)) !! id = Some s.
Proof.
  intros HM HB Hrun Hfair Hr Hk.
  destruct (fair_terminal cfg HM HB σ n id r Hrun Hfair Hr Hk) as (m & r' & Hle & Hr' & Ht).
  exists m, (o_status r'). split; [done|]. split; [done|]. intros k Hmk.
  destruct (terminal_row_stays cfg HM HB σ m k id r' Hrun Hmk Hr' Ht) as (r2 & -> & Hs). simpl. by rewrite Hs.
Qed.

(** A run in which one attempt is allowed and its worker dies: the statements take
    turns, 100 seconds apart. *)
Definition ex_once : NotificationWorkerConfig :=
  Normalized {| Enabled := true; PollSeconds := 0; BatchSize := 0; MaxConcurrency := 0; LeaseSeconds := 0;
                MaxAttempts := 1; RetryBaseSeconds := 0; RetryMaxSeconds := 0; DeliveryTimeoutSeconds := 0 |}.

Definition ex_now (n : nat) : Time := Z.of_nat n * (100 * Second).

Definition ex_turn (n : nat) (w : World) : World :=
  match (n `mod` 3)%nat with
  | O => with_db w (snd (evaluateOne (ex_now n) (ex_event ex_row) (w_db w)))
  | 1%nat => ex_claim ex_once (ex_now n) w
  | _ => with_db w (snd (retireExhausted ex_once (ex_now n) (w_db w)))
  end.

Fixpoint ex_run (n : nat) : World :=
  match n with
  | O => ex_produced
  | S n => ex_turn n (ex_run n)
  end.

Definition ex_end : DB := w_db (ex_run 3).

Lemma ex_turn_step n w : world_step ex_once w (ex_turn n w) ∨ ex_turn n w = w.
Proof.
  unfold ex_turn. destruct (n `mod` 3)%nat as [|[|k]].
  - left. apply step_evaluate.
  - apply ex_claim_step.
  - left. apply step_retire.
Qed.

Lemma ex_run_run : run ex_once ex_run.
Proof. split; [apply ex_produced_reachable|]. intros n. apply (ex_turn_step n (ex_run n)). Qed.

Lemma ex_end_stays n w : w_db w = ex_end → w_db (ex_turn n w) = ex_end.
Proof.
  intros Hw. unfold ex_turn, ex_claim. rewrite Hw. generalize (ex_now n). intros now.
  destruct (n `mod` 3)%nat as [|[|k]]; vm_compute; reflexivity.
Qed.

Lemma ex_run_end n : (3 <= n)%nat → w_db (ex_run n) = ex_end.
Proof.
  induction 1 as [|n Hle IH]; [reflexivity|]. exact (ex_end_stays n (ex_run n) IH).
Qed.

Lemma ex_run_turn k (j : nat) :
  (j < 3)%nat → w_db (ex_run (3 * S k + j)) = ex_end ∧ ((3 * S k + j) `mod` 3 = j)%nat.
Proof.
  intros Hj. split; [apply ex_run_end; lia|]. rewrite Nat.mul_comm, Nat.add_comm, Nat.Div0.mod_add.
  by apply Nat.mod_small.
Qed.

Lemma ex_end_row r : outbox ex_end !! "n1" = Some r → o_status r = StateFailed ∧ o_next_attempt_at r = None.
Proof. vm_compute. intros [= <-]. split; reflexivity. Qed.

Lemma ex_run_fair : fair ex_once "n1" ex_run.
Proof.
  split; [|split]; intros n.
  - destruct (ex_run_turn n 0 ltac:(lia)) as [Hdb Hm]. exists (3 * S n + 0)%nat. split; [lia|].
    exists (ex_now (3 * S n + 0)), (ex_event ex_row). split; [reflexivity|].
    change (ex_run (S (3 * S n + 0))) with (ex_turn (3 * S n + 0) (ex_run (3 * S n + 0))).
    unfold ex_turn. rewrite Hm. reflexivity.
  - destruct (ex_run_turn n 2 ltac:(lia)) as [Hdb Hm]. exists (3 * S n + 2)%nat. split; [lia|].
    exists (ex_now (3 * S n + 2)). split.
    + intros r t Hr Ht. rewrite Hdb in Hr. apply ex_end_row in Hr as [_ Hn]. rewrite Hn in Ht. discriminate Ht.
    + change (ex_run (S (3 * S n + 2))) with (ex_turn (3 * S n + 2) (ex_run (3 * S n + 2))).
      unfold ex_turn. rewrite Hm. reflexivity.
  - destruct (ex_run_turn n 1 ltac:(lia)) as [Hdb Hm]. exists (3 * S n + 1)%nat. split; [lia|].
    exists ex_project, ex_locks, (ex_now (3 * S n + 1)). split_and!.
    + intros r t Hr Ht. rewrite Hdb in Hr. apply ex_end_row in Hr as [_ Hn]. rewrite Hn in Ht. discriminate Ht.
    + reflexivity.
    + intros r Hr Hc. rewrite Hdb in Hr. apply ex_end_row in Hr as [Hs _].
      apply claimable_inv in Hc as [Hc _]. rewrite Hs in Hc. revert Hc. not_in.
    + change (ex_run (S (3 * S n + 1))) with (ex_turn (3 * S n + 1) (ex_run (3 * S n + 1))).
      unfold ex_turn, ex_claim. rewrite Hm.
      destruct (claim_run ex_once ltac:(vm_compute; split; discriminate) ex_project ex_locks (ex_now (3 * S n + 1))
        (w_db (ex_run (3 * S n + 1)))) as (ev & db' & Hrun & _).
      * apply (inv_wf ex_once). apply run_inv; [vm_compute; split; discriminate|vm_compute; discriminate|apply ex_run_run].
      * vm_compute. discriminate.
      * rewrite Hrun. reflexivity.
Qed.

Lemma notifications_settle_witness :
  ∃ m s, State_IsTerminal s = true ∧ ∀ k, (m <= k)%nat → o_status <$> outbox (w_db (ex_run k)) !! "n1" = Some s.
Proof.
  destruct (notifications_settle ex_once ex_run 0 "n1" ex_row) as (m & s & _ & Ht & Hs).
  - vm_compute. split; discriminate.
  - vm_compute. discriminate.
  - apply ex_run_run.
  - apply ex_run_fair.
  - vm_compute. reflexivity.
  - discriminate.
  - exists m, s. split; [exact Ht|exact Hs].
Defined.
