(* ===== verification/Utf8.v ===== *)
(** * UTF-8

    [utf8.EncodeRune] beside the decoder of [GoStrings]: a byte string is valid when
    it is the encoding of a sequence of scalar values, which the decoder gives
    back. *)

From stdpp Require Import prelude gmap strings sorting.
From Stdlib Require Import ZArith Lia Ascii.
From S2P Require Import Prelude GoStrings.
Local Open Scope Z_scope.

(** [strings.Builder.WriteRune] of a scalar value. *)
Definition encode_rune (r : Z) : list Z :=
  if r <? 0x80 then [r]
  else if r <? 0x800 then [0xC0 + r / 0x40; 0x80 + r mod 0x40]
  else if r <? 0x10000 then [0xE0 + r / 0x1000; 0x80 + (r / 0x40) mod 0x40; 0x80 + r mod 0x40]
  else [0xF0 + r / 0x40000; 0x80 + (r / 0x1000) mod 0x40; 0x80 + (r / 0x40) mod 0x40; 0x80 + r mod 0x40].

Definition encode_runes (rs : list Z) : list Z := mjoin (encode_rune <$> rs).

Lemma encode_runes_cons r rs : encode_runes (r :: rs) = encode_rune r ++ encode_runes rs.
Proof. done. Qed.

Definition scalar (r : Z) : Prop := 0 <= r < 0xD800 ∨ 0xE000 <= r <= 0x10FFFF.

(** [utf8.Valid]. *)
Definition valid_bytes (bs : list Z) : bool :=
  forallb (λ '(r, n), negb ((r =? RuneError) && (n =? 1)%nat)) (decode_runes 0 bs).

Definition is_byte (b : Z) : Prop := 0 <= b < 256.

(** ** Arithmetic of the encodings *)

Ltac z_bools :=
  repeat match goal with
  | H : _ && _ = true |- _ => apply andb_true_iff in H as [? ?]
  | H : _ && _ = false |- _ => apply andb_false_iff in H
  | H : (_ <=? _) = true |- _ => apply Z.leb_le in H
  | H : (_ <=? _) = false |- _ => apply Z.leb_gt in H
  | H : (_ <? _) = true |- _ => apply Z.ltb_lt in H
  | H : (_ <? _) = false |- _ => apply Z.ltb_ge in H
  | H : (_ =? _) = true |- _ => apply Z.eqb_eq in H
  | H : (_ =? _) = false |- _ => apply Z.eqb_neq in H
  end.

Lemma encode_rune_length r : (1 <= length (encode_rune r) <= 4)%nat.
Proof. unfold encode_rune. repeat case_match; simpl; lia. Qed.

Lemma encode_rune_bytes r : scalar r → Forall is_byte (encode_rune r).
Proof.
  intros Hr. assert (0 <= r <= 0x10FFFF) by (unfold scalar in Hr; lia). unfold encode_rune, is_byte.
  repeat case_match; z_bools; repeat constructor; Z.to_euclidean_division_equations; lia.
Qed.

Lemma encode_rune_high r b : scalar r → 0x80 <= r → b ∈ encode_rune r → 0x80 <= b.
Proof.
  intros Hr Hlo. assert (r <= 0x10FFFF) by (unfold scalar in Hr; lia). unfold encode_rune.
  repeat case_match; z_bools; [lia|..]; intros Hb; set_unfold; Z.to_euclidean_division_equations; lia.
Qed.

Lemma decode_encode_rune r rest :
  scalar r → decode_rune (encode_rune r ++ rest) = (r, length (encode_rune r)).
Proof.
  intros Hr. assert (Hb : 0 <= r <= 0x10FFFF) by (unfold scalar in Hr; lia). unfold encode_rune.
  repeat case_match; z_bools; unfold decode_rune, cont; cbn [app length];
    repeat case_match; z_bools; try (exfalso; unfold scalar in Hr; Z.to_euclidean_division_equations; lia);
    f_equal; Z.to_euclidean_division_equations; lia.
Qed.

Lemma decode_valid b bs r n :
  Forall is_byte (b :: bs) → decode_rune (b :: bs) = (r, n) → ¬ (r = RuneError ∧ n = 1%nat) →
  scalar r ∧ take n (b :: bs) = encode_rune r ∧ n = length (encode_rune r).
Proof.
  intros Hb. unfold decode_rune, cont. intros E Hbad.
  assert (H0 : is_byte b) by (by inversion Hb). unfold is_byte in H0.
  repeat case_match; try (exfalso; apply Hbad; congruence); injection E as <- <-; z_bools;
    unfold encode_rune, scalar; cbn [take];
    repeat case_match; z_bools; try (exfalso; Z.to_euclidean_division_equations; lia);
    (split; [Z.to_euclidean_division_equations; lia|]); cbn [length]; split; try done;
    repeat f_equal; Z.to_euclidean_division_equations; lia.
Qed.

(** ** Valid byte strings *)

Lemma decode_runes_skip skip bs : decode_runes skip bs = decode_runes 0 (drop skip bs).
Proof.
  revert skip. induction bs as [|b bs IH]; intros [|skip]; [done|done|done|]. cbn [decode_runes drop]. apply IH.
Qed.

Lemma decode_runes_cons b bs r n :
  decode_rune (b :: bs) = (r, n) → decode_runes 0 (b :: bs) = (r, n) :: decode_runes 0 (drop n (b :: bs)).
Proof.
  intros E. cbn [decode_runes]. rewrite E, decode_runes_skip.
  pose proof (decode_rune_width b bs) as Hn. rewrite E in Hn. cbn in Hn. destruct n as [|n]; [lia|].
  by rewrite Nat.sub_succ, Nat.sub_0_r.
Qed.

Definition widths (rs : list Z) : list (Z * nat) := (λ r, (r, length (encode_rune r))) <$> rs.

Lemma encode_rune_cons r : ∃ b bs, encode_rune r = b :: bs.
Proof. unfold encode_rune. repeat case_match; eauto. Qed.

Lemma decode_encode_runes r rest :
  scalar r → decode_runes 0 (encode_rune r ++ rest) = (r, length (encode_rune r)) :: decode_runes 0 rest.
Proof.
  intros Hr. pose proof (decode_encode_rune r rest Hr) as Hd.
  destruct (encode_rune_cons r) as (b & bs & E). rewrite E in Hd |- *. cbn [app] in Hd |- *.
  etrans; [apply decode_runes_cons, Hd|]. f_equal. f_equal.
  exact (drop_app_length (b :: bs) rest).
Qed.

Lemma decode_runes_encode rs : Forall scalar rs → decode_runes 0 (encode_runes rs) = widths rs.
Proof.
  induction 1 as [|r rs Hr _ IH]; [done|]. by rewrite encode_runes_cons, decode_encode_runes, IH.
Qed.

Lemma valid_cons r rest : scalar r → valid_bytes (encode_rune r ++ rest) = valid_bytes rest.
Proof.
  intros Hr. unfold valid_bytes. rewrite decode_encode_runes by done. cbn [forallb].
  destruct (Z.eqb_spec r RuneError) as [->|]; [done|by cbn].
Qed.

Lemma encode_valid rs : Forall scalar rs → valid_bytes (encode_runes rs) = true.
Proof.
  intros Hrs. unfold valid_bytes. rewrite decode_runes_encode by done. apply forallb_forall.
  intros [r n] Hin. apply list_elem_of_In, list_elem_of_fmap in Hin as (r' & [= -> ->] & Hin).
  rewrite Forall_forall in Hrs. specialize (Hrs _ Hin). apply negb_true_iff, andb_false_iff.
  destruct (Z.eqb_spec r' RuneError) as [->|]; [by right|by left].
Qed.

(** Every valid byte string is the encoding of the scalar values it decodes to. *)
Lemma valid_encode bs :
  Forall is_byte bs → valid_bytes bs = true →
  ∃ rs, Forall scalar rs ∧ bs = encode_runes rs ∧ decode_runes 0 bs = widths rs.
Proof.
  remember (length bs) as k eqn:Hk. revert bs Hk. induction (lt_wf k) as [k _ IH]. intros bs -> Hb Hv.
  destruct bs as [|b bs]; [by exists []|].
  destruct (decode_rune (b :: bs)) as [r n] eqn:E. unfold valid_bytes in Hv.
  rewrite (decode_runes_cons _ _ _ _ E) in Hv. cbn [forallb] in Hv. apply andb_true_iff in Hv as [Hr Hv].
  destruct (decode_valid _ _ _ _ Hb E) as (Hs & Htake & Hn).
  { intros [-> ->]. discriminate. }
  pose proof (encode_rune_length r) as Hl.
  destruct (IH (length (drop n (b :: bs)))) with (bs := drop n (b :: bs)) as (rs & Hrs & Eq & Hd);
    [rewrite length_drop; cbn; lia|done|by apply Forall_drop|done|].
  exists (r :: rs). split; [by constructor|].
  assert (Henc : b :: bs = encode_runes (r :: rs)).
  { by rewrite encode_runes_cons, <-Eq, <-Htake, take_drop. }
  split; [done|]. rewrite Henc. apply decode_runes_encode. by constructor.
Qed.

Lemma encode_runes_app rs rs' : encode_runes (rs ++ rs') = encode_runes rs ++ encode_runes rs'.
Proof. unfold encode_runes. by rewrite fmap_app, join_app. Qed.

Lemma encode_runes_bytes rs : Forall scalar rs → Forall is_byte (encode_runes rs).
Proof.
  induction 1 as [|r rs Hr _ IH]; [constructor|]. rewrite encode_runes_cons. apply Forall_app.
  split; [by apply encode_rune_bytes|done].
Qed.

(** The valid prefixes of a valid byte string are the encodings of the prefixes of
    its runes. *)
Lemma decode_runes_prefix_valid rs n :
  Forall scalar rs → valid_bytes (take n (encode_runes rs)) = true →
  ∃ m, take n (encode_runes rs) = encode_runes (take m rs).
Proof.
  intros Hrs. revert n. induction Hrs as [|r rs Hr Hrs IH]; intros n Hv; [exists O; unfold encode_runes; cbn; by rewrite !take_nil|].
  rewrite encode_runes_cons in Hv |- *.
  destruct (decide (length (encode_rune r) <= n)%nat) as [Hn|Hn].
  - rewrite take_app_ge in Hv |- * by done. rewrite valid_cons in Hv by done.
    destruct (IH _ Hv) as [m Hm]. exists (S m). cbn [take]. by rewrite encode_runes_cons, Hm.
  - destruct n as [|n]; [exists O; done|]. exfalso.
    rewrite take_app_le in Hv by lia.
    destruct (encode_rune_cons r) as (b & bs & E).
    assert (Htake : take (S n) (encode_rune r) = b :: take n bs) by (by rewrite E).
    rewrite Htake in Hv. destruct (decode_rune (b :: take n bs)) as [r' k] eqn:Ed.
    unfold valid_bytes in Hv. rewrite (decode_runes_cons _ _ _ _ Ed) in Hv. cbn [forallb] in Hv.
    apply andb_true_iff in Hv as [Hbad _].
    assert (Hbytes : Forall is_byte (b :: take n bs)).
    { rewrite <-Htake. apply Forall_take, encode_rune_bytes, Hr. }
    destruct (decode_valid _ _ _ _ Hbytes Ed) as (Hs' & Ht' & Hk).
    { intros [-> ->]. discriminate. }
    pose proof (encode_rune_length r') as Hl'.
    assert (Hpre : encode_rune r' `prefix_of` encode_rune r).
    { rewrite <-Ht', <-Htake, take_take. apply prefix_take. }
    destruct Hpre as [rest Hpre]. pose proof (decode_encode_rune r' rest Hs') as D1. rewrite <-Hpre in D1.
    pose proof (decode_encode_rune r [] Hr) as D2. rewrite app_nil_r, D1 in D2. injection D2 as _ Hlen.
    assert (length (take k (b :: take n bs)) = length (encode_rune r')) as Hlen' by (by rewrite Ht').
    rewrite <-Htake, length_take, length_take in Hlen'. lia.
Qed.

(** ** Classes *)

(** Category Cf of [unicode]: the format characters. *)
Definition IsFormat (r : Z) : bool :=
  (r ∈? [0xAD; 0x61C; 0x6DD; 0x70F; 0x8E2; 0x180E; 0xFEFF; 0x110BD; 0x110CD; 0xE0001])
  || existsb (λ '(lo, hi), (lo <=? r) && (r <=? hi))
       [(0x600, 0x605); (0x890, 0x891); (0x200B, 0x200F); (0x202A, 0x202E); (0x2060, 0x2064); (0x2066, 0x206F);
        (0xFFF9, 0xFFFB); (0x13430, 0x1343F); (0x1BCA0, 0x1BCA3); (0x1D173, 0x1D17A); (0xE0020, 0xE007F)].
