(* ===== verification/Codec.v ===== *)
(** * Text codecs of the standard library

    [base64.RawURLEncoding] and the [time.RFC3339Nano] layout, which the cursors of
    every listing are written in: the encoders, the decoders as lenient as Go's are,
    and the round trips. A text is the list of its bytes. *)

From stdpp Require Import prelude gmap strings sorting.
From Stdlib Require Import ZArith Lia Ascii.
From S2P Require Import Prelude GoStrings Utf8.
Local Open Scope Z_scope.

(** ** base64.RawURLEncoding *)

Module Base64.

(** The URL alphabet: [A-Z a-z 0-9 - _]. *)
Definition char (v : Z) : Z :=
  if v <? 26 then 65 + v else if v <? 52 then 71 + v else if v <? 62 then v - 4
  else if v =? 62 then 45 else 95.

Definition value (c : Z) : option Z :=
  if (65 <=? c) && (c <=? 90) then Some (c - 65)
  else if (97 <=? c) && (c <=? 122) then Some (c - 71)
  else if (48 <=? c) && (c <=? 57) then Some (c + 4)
  else if c =? 45 then Some 62 else if c =? 95 then Some 63 else None.

(** [EncodeToString]: three bytes give four characters, a rest of one or two bytes
    gives two or three, without padding. *)
Fixpoint encode (bs : list Z) : list Z :=
  match bs with
  | [] => []
  | [a] => [char (a / 4); char ((a mod 4) * 16)]
  | [a; b] => [char (a / 4); char ((a mod 4) * 16 + b / 16); char ((b mod 16) * 4)]
  | a :: b :: c :: rest =>
      char (a / 4) :: char ((a mod 4) * 16 + b / 16) :: char ((b mod 16) * 4 + c / 64)
      :: char (c mod 64) :: encode rest
  end.

(** The sextets of a quantum to bytes; a single trailing sextet is corrupt, and
    only a [Strict] decoder looks at the bits it drops. *)
Fixpoint join (strict : bool) (vs : list Z) : option (list Z) :=
  match vs with
  | [] => Some []
  | [_] => None
  | [a; b] => if strict && negb (b mod 16 =? 0) then None else Some [a * 4 + b / 16]
  | [a; b; c] =>
      if strict && negb (c mod 4 =? 0) then None else Some [a * 4 + b / 16; (b mod 16) * 16 + c / 4]
  | a :: b :: c :: d :: rest =>
      bs ← join strict rest; Some (a * 4 + b / 16 :: (b mod 16) * 16 + c / 4 :: (c mod 4) * 64 + d :: bs)
  end.

(** [DecodeString]: CR and LF are skipped wherever they stand. *)
Definition decode (strict : bool) (cs : list Z) : option (list Z) :=
  vs ← mapM value (filter (λ c, c ≠ 13 ∧ c ≠ 10) cs); join strict vs.

(** The sextets [encode] writes. *)
Fixpoint sextets (bs : list Z) : list Z :=
  match bs with
  | [] => []
  | [a] => [a / 4; (a mod 4) * 16]
  | [a; b] => [a / 4; (a mod 4) * 16 + b / 16; (b mod 16) * 4]
  | a :: b :: c :: rest =>
      a / 4 :: (a mod 4) * 16 + b / 16 :: (b mod 16) * 4 + c / 64 :: c mod 64 :: sextets rest
  end.

Definition sextet (v : Z) : Prop := 0 <= v < 64.

Lemma value_char v : sextet v → value (char v) = Some v.
Proof.
  unfold sextet, char, value. intros Hv. repeat case_match; z_bools; try (f_equal; lia); exfalso; lia.
Qed.

Lemma char_text v : sextet v → 32 < char v < 128.
Proof. unfold sextet, char. intros Hv. repeat case_match; z_bools; lia. Qed.

(** Induction three bytes at a time, as [encode] walks. *)
Lemma bytes_ind3 (P : list Z → Prop) :
  P [] → (∀ a, P [a]) → (∀ a b, P [a; b]) → (∀ a b c rest, P rest → P (a :: b :: c :: rest)) → ∀ bs, P bs.
Proof.
  intros H0 H1 H2 H3.
  assert (∀ bs, P bs ∧ (∀ a, P (a :: bs)) ∧ (∀ a b, P (a :: b :: bs))) as H.
  { induction bs as [|x bs (IH0 & IH1 & IH2)]; [done|]. split_and!; [apply IH1|intros a; apply IH2|]. intros a b. apply H3, IH0. }
  intros bs. apply H.
Qed.

Lemma encode_sextets bs : encode bs = char <$> sextets bs.
Proof.
  induction bs as [|a|a b|a b c rest IH] using bytes_ind3; [done..|]. cbn [encode sextets fmap list_fmap].
  by rewrite IH.
Qed.

Lemma sextets_range bs : Forall is_byte bs → Forall sextet (sextets bs).
Proof.
  unfold is_byte, sextet.
  induction bs as [|a|a b|a b c rest IH] using bytes_ind3; intros Hb; cbn [sextets];
    repeat match goal with H : Forall _ (_ :: _) |- _ => inversion H; clear H; subst end;
    repeat constructor; try (Z.to_euclidean_division_equations; lia).
  by apply IH.
Qed.

Lemma join_sextets strict bs : Forall is_byte bs → join strict (sextets bs) = Some bs.
Proof.
  unfold is_byte.
  induction bs as [|a|a b|a b c rest IH] using bytes_ind3; intros Hb; cbn [sextets join];
    repeat match goal with H : Forall _ (_ :: _) |- _ => inversion H; clear H; subst end; [done|..].
  - replace (a mod 4 * 16 mod 16 =? 0) with true by (symmetry; apply Z.eqb_eq; Z.to_euclidean_division_equations; lia).
    rewrite andb_false_r. do 2 f_equal. Z.to_euclidean_division_equations; lia.
  - replace (b mod 16 * 4 mod 4 =? 0) with true by (symmetry; apply Z.eqb_eq; Z.to_euclidean_division_equations; lia).
    rewrite andb_false_r. do 2 f_equal; [|f_equal]; Z.to_euclidean_division_equations; lia.
  - rewrite IH by done. cbn. do 2 f_equal; [|f_equal; [|f_equal]]; Z.to_euclidean_division_equations; lia.
Qed.

Lemma mapM_value vs : Forall sextet vs → mapM value (char <$> vs) = Some vs.
Proof.
  induction 1 as [|v vs Hv _ IH]; [done|]. cbn. rewrite value_char by done. cbn. by rewrite IH.
Qed.

Lemma encode_text bs : Forall is_byte bs → Forall (λ c, 32 < c < 128) (encode bs).
Proof.
  intros Hb. rewrite encode_sextets. apply Forall_fmap. eapply Forall_impl; [by apply sextets_range|].
  intros v. apply char_text.
Qed.

Lemma filter_id (P : Z → Prop) `{∀ x, Decision (P x)} l : Forall P l → filter P l = l.
Proof. induction 1 as [|x l Hx _ IH]; [done|]. by rewrite filter_cons_True, IH. Qed.

Lemma decode_encode strict bs : Forall is_byte bs → decode strict (encode bs) = Some bs.
Proof.
  intros Hb. unfold decode. rewrite filter_id.
  - rewrite encode_sextets, mapM_value by (by apply sextets_range). by apply join_sextets.
  - eapply Forall_impl; [by apply encode_text|]. cbn. lia.
Qed.

End Base64.

(** ** time.RFC3339Nano

    A [time.Time] in UTC is the number of nanoseconds since 1 January of year 1. *)

Module RFC3339.

Definition leap (y : Z) : bool := (y mod 4 =? 0) && (negb (y mod 100 =? 0) || (y mod 400 =? 0)).

Definition daysIn (m y : Z) : Z :=
  if m =? 2 then if leap y then 29 else 28
  else if existsb (Z.eqb m) [4; 6; 9; 11] then 30 else 31.

Definition daysBefore (m y : Z) : Z := foldr (λ k acc, daysIn (Z.of_nat k) y + acc) 0 (seq 1 (Z.to_nat (m - 1))).

(** [time.Date]: the days from the epoch to a civil date. *)
Definition days_of (y m d : Z) : Z :=
  365 * (y - 1) + (y - 1) / 4 - (y - 1) / 100 + (y - 1) / 400 + daysBefore m y + (d - 1).

(** The month and the day of a day of the year. *)
Fixpoint month_of (fuel : nat) (m y yday : Z) : Z * Z :=
  match fuel with
  | O => (m, yday + 1)
  | S fuel => if yday <? daysIn m y then (m, yday + 1) else month_of fuel (m + 1) y (yday - daysIn m y)
  end.

(** [Time.Date]: the civil date of a day. *)
Definition civil (day : Z) : Z * Z * Z :=
  let n400 := day / 146097 in
  let r := day mod 146097 in
  let n100 := Z.min 3 (r / 36524) in
  let r := r - 36524 * n100 in
  let n4 := r / 1461 in
  let r := r mod 1461 in
  let n1 := Z.min 3 (r / 365) in
  let y := 400 * n400 + 100 * n100 + 4 * n4 + n1 + 1 in
  let '(m, d) := month_of 11 1 y (r - 365 * n1) in
  (y, m, d).

Definition dayNs : Z := 86400 * 10 ^ 9.

(** *** Time.Format *)

Definition two (n : Z) : list Z := [48 + n / 10; 48 + n mod 10].
Definition four (n : Z) : list Z := two (n / 100) ++ two (n mod 100).

(** The digits of [v / 10^k], the trailing zeros left out. *)
Fixpoint frac_digits (k : nat) (v : Z) : list Z :=
  match k with
  | O => []
  | S k => if v =? 0 then [] else (48 + v / 10 ^ Z.of_nat k) :: frac_digits k (v mod 10 ^ Z.of_nat k)
  end.

Definition Format (t : Z) : list Z :=
  let '(y, m, d) := civil (t / dayNs) in
  let ns := t mod dayNs in
  let sec := ns / 10 ^ 9 in
  let frac := ns mod 10 ^ 9 in
  four y ++ [45] ++ two m ++ [45] ++ two d ++ [84] ++ two (sec / 3600) ++ [58] ++ two (sec / 60 mod 60)
  ++ [58] ++ two (sec mod 60) ++ (if frac =? 0 then [] else 46 :: frac_digits 9 frac) ++ [90].

(** *** time.Parse *)

Definition isDigit (c : Z) : bool := (48 <=? c) && (c <=? 57).

(** [getnum]: a one-digit number passes where the layout does not fix two. *)
Definition getnum (fixed : bool) (s : list Z) : option (Z * list Z) :=
  match s with
  | a :: b :: rest =>
      if negb (isDigit a) then None
      else if isDigit b then Some ((a - 48) * 10 + (b - 48), rest)
      else if fixed then None else Some (a - 48, b :: rest)
  | [a] => if isDigit a && negb fixed then Some (a - 48, []) else None
  | [] => None
  end.

Definition skip (c : Z) (s : list Z) : option (list Z) :=
  match s with x :: rest => if x =? c then Some rest else None | [] => None end.

Definition in_range (lo hi : Z) (n : Z) : option unit := if (lo <=? n) && (n <=? hi) then Some () else None.

(** The leading digits of a text, and what follows them. *)
Fixpoint span_digits (s : list Z) : list Z * list Z :=
  match s with
  | c :: rest => if isDigit c then let '(ds, rest) := span_digits rest in (c :: ds, rest) else ([], s)
  | [] => ([], [])
  end.

(** [parseNanoseconds]: digits beyond the ninth are dropped. *)
Fixpoint nanoseconds (k : nat) (ds : list Z) : Z :=
  match k, ds with
  | S k, d :: ds => (d - 48) * 10 ^ Z.of_nat k + nanoseconds k ds
  | _, _ => 0
  end.

(** The fraction of a second, after a period or a comma, may be missing. *)
Definition fraction (s : list Z) : Z * list Z :=
  match s with
  | p :: d :: rest =>
      if ((p =? 46) || (p =? 44)) && isDigit d then
        let '(ds, rest) := span_digits (d :: rest) in (nanoseconds 9 ds, rest)
      else (0, s)
  | _ => (0, s)
  end.

(** The zone: [Z], or a signed offset whose hours and minutes are not checked
    against 24 and 60 strictly. *)
Definition zone (s : list Z) : option (Z * list Z) :=
  match s with
  | 90 :: rest => Some (0, rest)
  | sign :: s =>
      '(hh, s) ← getnum true s; s ← skip 58 s; '(mm, s) ← getnum true s;
      in_range 0 24 hh;; in_range 0 60 mm;;
      let offset := (hh * 60 + mm) * 60 in
      if sign =? 43 then Some (offset, s) else if sign =? 45 then Some (- offset, s) else None
  | [] => None
  end.

Definition Parse (s : list Z) : option Z :=
  '(c, s) ← getnum true s; '(y, s) ← getnum true s;
  let y := c * 100 + y in
  s ← skip 45 s; '(m, s) ← getnum true s; in_range 1 12 m;;
  s ← skip 45 s; '(d, s) ← getnum true s;
  s ← skip 84 s; '(hour, s) ← getnum false s; in_range 0 23 hour;;
  s ← skip 58 s; '(min, s) ← getnum true s; in_range 0 59 min;;
  s ← skip 58 s; '(sec, s) ← getnum true s; in_range 0 59 sec;;
  let '(ns, s) := fraction s in
  '(offset, s) ← zone s;
  in_range 1 (daysIn m y) d;;
  match s with
  | [] => Some (days_of y m d * dayNs + ((hour * 60 + min) * 60 + sec - offset) * 10 ^ 9 + ns)
  | _ :: _ => None
  end.

(** *** Civil dates *)

Lemma daysBefore_succ m y : 1 <= m → daysBefore (m + 1) y = daysBefore m y + daysIn m y.
Proof.
  intros Hm. unfold daysBefore. replace (Z.to_nat (m + 1 - 1)) with (S (Z.to_nat (m - 1))) by lia.
  rewrite seq_S, foldr_app. cbn [foldr]. replace (Z.of_nat (1 + Z.to_nat (m - 1))) with m by lia.
  rewrite Z.add_0_r. generalize (daysIn m y). intros x. induction (seq 1 (Z.to_nat (m - 1))); cbn; lia.
Qed.

Lemma days_in_year y : daysBefore 13 y = if leap y then 366 else 365.
Proof. unfold daysBefore, daysIn. by destruct (leap y). Qed.

Lemma daysIn_pos m y : 0 < daysIn m y.
Proof. unfold daysIn. repeat case_match; lia. Qed.

Lemma month_of_spec fuel m y yday :
  1 <= m → m + Z.of_nat fuel = 12 → 0 <= yday → daysBefore m y + yday < daysBefore 13 y →
  let '(m', d) := month_of fuel m y yday in
  1 <= m' <= 12 ∧ 1 <= d <= daysIn m' y ∧ daysBefore m' y + (d - 1) = daysBefore m y + yday.
Proof.
  revert m yday. induction fuel as [|fuel IH]; intros m yday Hm Hfuel Hlo Hhi; cbn [month_of].
  - assert (m = 12) as -> by lia. pose proof (daysBefore_succ 12 y ltac:(lia)) as Hs. change (12 + 1) with 13 in Hs. lia.
  - pose proof (daysBefore_succ m y Hm) as Hs. destruct (Z.ltb_spec yday (daysIn m y)); [lia|].
    specialize (IH (m + 1) (yday - daysIn m y)). destruct (month_of fuel _ _ _). rewrite Hs in IH. lia.
Qed.

Lemma civil_spec day :
  let '(y, m, d) := civil day in
  1 <= m <= 12 ∧ 1 <= d <= daysIn m y ∧ days_of y m d = day.
Proof.
  unfold civil.
  set (a := day / 146097). set (r := day mod 146097). set (b := Z.min 3 (r / 36524)).
  set (r1 := r - 36524 * b). set (c := r1 / 1461). set (r2 := r1 mod 1461). set (e := Z.min 3 (r2 / 365)).
  set (y := 400 * a + 100 * b + 4 * c + e + 1). set (yday := r2 - 365 * e).
  assert (Hr : day = 146097 * a + r ∧ 0 <= r < 146097) by (subst a r; Z.to_euclidean_division_equations; lia).
  assert (Hb : 0 <= b <= 3 ∧ 0 <= r1 <= 36524 ∧ (r1 = 36524 → b = 3))
    by (subst r1 b; Z.to_euclidean_division_equations; lia).
  assert (Hc : r1 = 1461 * c + r2 ∧ 0 <= c <= 24 ∧ 0 <= r2 < 1461)
    by (subst c r2; Z.to_euclidean_division_equations; lia).
  assert (He : 0 <= e <= 3 ∧ 0 <= yday <= 365 ∧ (yday = 365 → e = 3 ∧ r2 = 1460) ∧ r2 = 365 * e + yday)
    by (subst yday e; Z.to_euclidean_division_equations; lia).
  assert (Hleap : yday = 365 → leap y = true).
  { intros H. unfold leap. apply andb_true_iff. split; [apply Z.eqb_eq; subst y; Z.to_euclidean_division_equations; lia|].
    apply orb_true_iff. destruct (decide (c = 24)) as [Hc24|Hc24].
    - right. apply Z.eqb_eq. subst y. Z.to_euclidean_division_equations; lia.
    - left. apply negb_true_iff, Z.eqb_neq. subst y. Z.to_euclidean_division_equations; lia. }
  pose proof (month_of_spec 11 1 y yday) as Hm. rewrite days_in_year in Hm. change (daysBefore 1 y) with 0 in Hm.
  destruct (month_of 11 1 y yday) as [m d]. destruct Hm as (Hm & Hd & Heq); [lia..| |].
  { destruct (leap y); [lia|]. assert (yday ≠ 365) by (by intros ?%Hleap). lia. }
  split_and!; try lia. unfold days_of. clear Hleap.
  assert ((y - 1) / 4 = 100 * a + 25 * b + c ∧ (y - 1) / 100 = 4 * a + b ∧ (y - 1) / 400 = a) as (E1 & E2 & E3)
    by (subst y; clearbody a r b r1 c r2 e yday; split_and!; Z.to_euclidean_division_equations; lia).
  lia.
Qed.

(** *** The round trip *)

Definition year (t : Z) : Z := (civil (t / dayNs)).1.1.

(** The years whose text has four digits. *)
Definition printable (t : Z) : Prop := 0 <= year t <= 9999.

Lemma digit_range n : 0 <= n < 10 → isDigit (48 + n) = true.
Proof. intros ?. unfold isDigit. apply andb_true_iff. split; apply Z.leb_le; lia. Qed.

Lemma getnum_two fixed n rest : 0 <= n < 100 → getnum fixed (two n ++ rest) = Some (n, rest).
Proof.
  intros Hn. unfold two. cbn [app getnum].
  rewrite !digit_range by (Z.to_euclidean_division_equations; lia). cbn [negb].
  do 2 f_equal. Z.to_euclidean_division_equations; lia.
Qed.

Lemma skip_app c rest : skip c ([c] ++ rest) = Some rest.
Proof. cbn. by rewrite Z.eqb_refl. Qed.

Lemma in_range_ok lo hi n : lo <= n <= hi → in_range lo hi n = Some ().
Proof. intros ?. unfold in_range. by rewrite (proj2 (Z.leb_le lo n)), (proj2 (Z.leb_le n hi)) by lia. Qed.

Lemma frac_digits_range k v : 0 <= v < 10 ^ Z.of_nat k → Forall (λ c, isDigit c = true) (frac_digits k v).
Proof.
  revert v. induction k as [|k IH]; intros v Hv; cbn [frac_digits]; [constructor|]. case_match; constructor.
  - assert (0 < 10 ^ Z.of_nat k) by lia. replace (Z.of_nat (S k)) with (Z.of_nat k + 1) in Hv by lia.
    rewrite Z.pow_add_r in Hv by lia. apply digit_range. split; [apply Z.div_pos; lia|apply Z.div_lt_upper_bound; lia].
  - apply IH, Z.mod_pos_bound. lia.
Qed.

Lemma nanoseconds_frac_digits k v : 0 <= v < 10 ^ Z.of_nat k → nanoseconds k (frac_digits k v) = v.
Proof.
  revert v. induction k as [|k IH]; intros v Hv; cbn [frac_digits nanoseconds]; [cbn in Hv; lia|].
  destruct (Z.eqb_spec v 0) as [->|Hne]; [done|]. rewrite IH by (apply Z.mod_pos_bound; lia).
  pose proof (Z.div_mod v (10 ^ Z.of_nat k) ltac:(lia)). lia.
Qed.

Lemma span_digits_app ds c rest :
  Forall (λ c, isDigit c = true) ds → isDigit c = false → span_digits (ds ++ c :: rest) = (ds, c :: rest).
Proof. induction 1 as [|d ds Hd _ IH]; intros Hc; cbn; [by rewrite Hc|]. by rewrite Hd, IH. Qed.

Lemma fraction_text frac :
  0 <= frac < 10 ^ 9 → fraction ((if frac =? 0 then [] else 46 :: frac_digits 9 frac) ++ [90]) = (frac, [90]).
Proof.
  intros Hf. pose proof (frac_digits_range 9 frac Hf) as Hds. pose proof (nanoseconds_frac_digits 9 frac Hf) as Hv.
  pose proof (span_digits_app _ 90 [] Hds eq_refl) as Hs.
  destruct (Z.eqb_spec frac 0) as [->|Hne]; [done|].
  destruct (frac_digits 9 frac) as [|d ds] eqn:E; [cbn [frac_digits] in E; case_match; z_bools; done|].
  cbn [app fraction] in Hs |- *. apply Forall_cons_1 in Hds as [Hd _]. rewrite Hd, Hs. cbn [Z.eqb andb orb Pos.eqb].
  by rewrite Hv.
Qed.

(** One number or separator of the layout. *)
Ltac parse_step :=
  cbn [mbind option_bind];
  first [rewrite skip_app | rewrite getnum_two by (Z.to_euclidean_division_equations; lia)];
  cbn [mbind option_bind].

Lemma Parse_Format t : printable t → Parse (Format t) = Some t.
Proof.
  unfold printable, year, Format. pose proof (civil_spec (t / dayNs)) as Hciv.
  destruct (civil (t / dayNs)) as [ [y m] d]. cbn [fst]. destruct Hciv as (Hm & Hd & Hday). intros Hy.
  assert (Hns : 0 <= t mod dayNs < dayNs) by (apply Z.mod_pos_bound; done).
  assert (Hd' : 1 <= d <= 31) by (unfold daysIn in Hd; repeat case_match; lia).
  assert (Ht : t = t / dayNs * dayNs + t mod dayNs) by (pose proof (Z.div_mod t dayNs ltac:(done)); lia).
  set (ns := t mod dayNs) in *. unfold dayNs in Hns.
  assert (Hsec : 0 <= ns / 10 ^ 9 < 86400) by (Z.to_euclidean_division_equations; lia).
  assert (Hfrac : 0 <= ns mod 10 ^ 9 < 10 ^ 9) by (apply Z.mod_pos_bound; lia).
  assert (Hsplit : ns = ns / 10 ^ 9 * 10 ^ 9 + ns mod 10 ^ 9) by (pose proof (Z.div_mod ns (10 ^ 9) ltac:(lia)); lia).
  set (sec := ns / 10 ^ 9) in *. set (frac := ns mod 10 ^ 9) in *.
  unfold Parse, four. rewrite <-!app_assoc.
  do 2 parse_step. replace (y / 100 * 100 + y mod 100) with y by (Z.to_euclidean_division_equations; lia).
  parse_step. parse_step. rewrite (in_range_ok 1 12) by lia. do 4 parse_step.
  rewrite (in_range_ok 0 23) by (Z.to_euclidean_division_equations; lia). do 2 parse_step.
  rewrite (in_range_ok 0 59 (_ mod 60)) by (Z.to_euclidean_division_equations; lia). do 2 parse_step.
  rewrite (in_range_ok 0 59 (sec mod 60)) by (Z.to_euclidean_division_equations; lia). cbn [mbind option_bind].
  rewrite fraction_text by done. cbn [zone mbind option_bind].
  rewrite in_range_ok by done. cbn [mbind option_bind].
  f_equal. rewrite Hday.
  assert ((sec / 3600 * 60 + (sec / 60) mod 60) * 60 + sec mod 60 = sec) as Hhms
    by (clearbody sec; Z.to_euclidean_division_equations; lia).
  rewrite Hhms. lia.
Qed.

(** A printed time is digits, separators and letters: it holds no [|]. *)
Lemma Format_text t : printable t → Forall (λ c, 32 < c < 123) (Format t).
Proof.
  unfold printable, year, Format. pose proof (civil_spec (t / dayNs)) as Hciv.
  destruct (civil (t / dayNs)) as [ [y m] d]. cbn [fst]. destruct Hciv as (Hm & Hd & _). intros Hy.
  assert (Hd' : 1 <= d <= 31) by (unfold daysIn in Hd; repeat case_match; lia).
  assert (Hns : 0 <= t mod dayNs < dayNs) by (apply Z.mod_pos_bound; done).
  set (ns := t mod dayNs) in *. unfold dayNs in Hns.
  assert (Hsec : 0 <= ns / 10 ^ 9 < 86400) by (Z.to_euclidean_division_equations; lia).
  assert (Hfrac : 0 <= ns mod 10 ^ 9 < 10 ^ 9) by (apply Z.mod_pos_bound; lia).
  assert (Htwo : ∀ n, 0 <= n < 100 → Forall (λ c, 32 < c < 123) (two n))
    by (intros n Hn; repeat constructor; Z.to_euclidean_division_equations; lia).
  unfold four. repeat (apply Forall_app; split); try (apply Htwo; Z.to_euclidean_division_equations; lia);
    try (repeat constructor; lia).
  case_match; constructor; [lia|]. eapply Forall_impl; [by apply (frac_digits_range 9)|].
  intros c Hc. unfold isDigit in Hc. z_bools. lia.
Qed.

End RFC3339.

(** ** Texts as strings *)

Lemma str_bytes_str bs : Forall is_byte bs → str_bytes (bytes_str bs) = bs.
Proof.
  unfold str_bytes, bytes_str, is_byte. rewrite String.list_ascii_of_string_of_list_ascii.
  induction 1 as [|b bs Hb _ IH]; [done|]. cbn. rewrite IH. f_equal.
  unfold byte_of, of_byte. rewrite N_ascii_embedding by lia. lia.
Qed.

Lemma str_bytes_is_byte s : Forall is_byte (str_bytes s).
Proof. unfold str_bytes. apply Forall_fmap, Forall_true. intros c. apply byte_of_range. Qed.

Lemma bytes_str_app a b : bytes_str (a ++ b) = bytes_str a +:+ bytes_str b.
Proof. unfold bytes_str. rewrite fmap_app. induction (of_byte <$> a) as [|c l IH]; [done|]. cbn. by rewrite IH. Qed.

(** [strings.Cut] finds the separator written between two texts when the first has
    none. *)
Lemma Cut_app sep a b :
  sep ∉ String.list_ascii_of_string a → Cut sep (a +:+ String sep b) = Some (a, b).
Proof.
  induction a as [|c a IH]; intros Hn.
  - change ("" +:+ String sep b) with (String sep b). cbn [Cut]. by case_decide.
  - change (String c a +:+ String sep b) with (String c (a +:+ String sep b)). cbn [Cut].
    case_decide as Hc; [subst c; exfalso; apply Hn; by left|]. rewrite IH; [done|].
    intros Hin. apply Hn. by right.
Qed.

(** ** Cursors of a time and an identifier *)

(** The plaintext of a cursor: a printed time, a bar, an identifier. *)
Definition stamped (t : Z) (id : string) : string := bytes_str (RFC3339.Format t) +:+ String "|" id.

Definition encode_stamped (t : Z) (id : string) : string := bytes_str (Base64.encode (str_bytes (stamped t id))).

(** A token back to the two halves, each as a string. *)
Definition split_token (token : string) : option (string * string) :=
  raw ← Base64.decode false (str_bytes token); Cut "|" (bytes_str raw).

Lemma encode_bytes bs : Forall is_byte bs → str_bytes (bytes_str (Base64.encode bs)) = Base64.encode bs.
Proof.
  intros Hb. apply str_bytes_str. eapply Forall_impl; [by apply Base64.encode_text|]. unfold is_byte. cbn. lia.
Qed.

Lemma bytes_chars bs : String.list_ascii_of_string (bytes_str bs) = of_byte <$> bs.
Proof. unfold bytes_str. apply String.list_ascii_of_string_of_list_ascii. Qed.

Lemma split_encode t id :
  RFC3339.printable t → split_token (encode_stamped t id) = Some (bytes_str (RFC3339.Format t), id).
Proof.
  intros Ht. unfold split_token, encode_stamped. rewrite encode_bytes by apply str_bytes_is_byte.
  rewrite Base64.decode_encode by apply str_bytes_is_byte. cbn [mbind option_bind]. rewrite bytes_str_bytes.
  apply Cut_app. rewrite bytes_chars. intros (b & Hb & Hin)%list_elem_of_fmap.
  pose proof (RFC3339.Format_text t Ht) as Hall. rewrite Forall_forall in Hall. specialize (Hall _ Hin). cbn in Hall.
  assert (E : byte_of "|"%char = b) by (rewrite Hb; unfold byte_of, of_byte; rewrite N_ascii_embedding by lia; lia).
  change (byte_of "|"%char) with 124 in E. lia.
Qed.

Lemma parse_stamp t : RFC3339.printable t → RFC3339.Parse (str_bytes (bytes_str (RFC3339.Format t))) = Some t.
Proof.
  intros Ht. rewrite str_bytes_str; [by apply RFC3339.Parse_Format|].
  eapply Forall_impl; [by apply RFC3339.Format_text|]. unfold is_byte. cbn. lia.
Qed.
