(* ===== verification/Paths.v ===== *)
(** * Slash-separated paths

    The functions of package [path] the archive inspections use ([Ext], [Clean],
    [Join], [Dir], [Base]) and [fs.ValidPath], on the list of the components of a
    path, with the facts that make a cleaned relative path stay below its root. *)

From stdpp Require Import prelude gmap strings sorting.
From Stdlib Require Import ZArith Lia Ascii.
From S2P Require Import Prelude GoStrings.

Definition slash : ascii := "/".

(** [path.Ext]: from the last period of the last component, scanned from the end. *)
Fixpoint ext_rev (rs : list ascii) (suffix : list ascii) : list ascii :=
  match rs with
  | [] => []
  | c :: rs =>
      if decide (c = slash) then []
      else if decide (c = "."%char) then c :: suffix else ext_rev rs (c :: suffix)
  end.
Definition Ext (p : string) : string :=
  String.string_of_list_ascii (ext_rev (rev (String.list_ascii_of_string p)) []).

(** The components [path.Clean] keeps: the stack of the loop, last one first. *)
Definition clean_step (rooted : bool) (stack : list string) (part : string) : list string :=
  if (part == "") || (part == ".") then stack
  else if part == ".." then
    match stack with
    | [] => if rooted then [] else [".."]
    | top :: rest => if top == ".." then ".." :: stack else rest
    end
  else part :: stack.

Definition clean_parts (rooted : bool) (parts : list string) : list string :=
  rev (foldl (clean_step rooted) [] parts).

Definition is_rooted (p : string) : bool :=
  match p with String c _ => bool_decide (c = slash) | EmptyString => false end.

(** [path.Clean]. *)
Definition Clean (p : string) : string :=
  let parts := clean_parts (is_rooted p) (Split slash p) in
  if is_rooted p then "/" +:+ join "/" parts
  else if parts == [] then "." else join "/" parts.

(** [path.Join]: the non-empty elements joined and cleaned. *)
Definition Join (elems : list string) : string :=
  match filter (λ e, e ≠ "") elems with
  | [] => ""
  | elems => Clean (join "/" elems)
  end.

(** [path.Dir]: what stands before the last slash, with it, cleaned. *)
Definition Dir (p : string) : string :=
  match rev (Split slash p) with
  | _ :: part :: before => Clean (join "/" (rev (part :: before)) +:+ "/")
  | _ => "."
  end.

(** [path.Base]: the last non-empty component. *)
Definition Base (p : string) : string :=
  if p == "" then "."
  else match filter (λ e, e ≠ "") (Split slash p) with
       | [] => "/"
       | e :: es => List.last (e :: es) ""
       end.

(** [fs.ValidPath]. *)
Definition ValidPath (name : string) : bool :=
  ValidString name
  && ((name == ".") || forallb (λ e, negb ((e == "") || (e == ".") || (e == ".."))) (Split slash name)).

Definition HasPrefix (s prefix : string) : bool := String.prefix prefix s.
Definition HasSuffix (s suffix : string) : bool :=
  bool_decide (length (String.list_ascii_of_string suffix) ≤ length (String.list_ascii_of_string s))
  && bool_decide (drop (length (String.list_ascii_of_string s) - length (String.list_ascii_of_string suffix))
                    (String.list_ascii_of_string s) = String.list_ascii_of_string suffix).
Definition TrimPrefix (s prefix : string) : string :=
  if HasPrefix s prefix then String.substring (String.length prefix) (String.length s - String.length prefix) s else s.
Definition TrimSuffix (s suffix : string) : string :=
  if HasSuffix s suffix then String.substring 0 (String.length s - String.length suffix) s else s.
Definition ContainsAny (s : string) (chars : list ascii) : bool :=
  existsb (λ c, bool_decide (c ∈ chars)) (String.list_ascii_of_string s).
(** [strings.Contains]. *)
Fixpoint Contains (s sub : string) : bool :=
  String.prefix sub s || match s with String _ rest => Contains rest sub | EmptyString => false end.

Example Clean_examples :
  (Clean <$> [""; "a/../.."; "/.."; "a//b/./c/"; "../x"; "a/.."]) = ["."; ".."; "/"; "a/b/c"; "../x"; "."].
Proof. reflexivity. Qed.
Example Dir_examples : (Dir <$> ["a/b/c.xml"; "c.xml"; "/x"; "a/"; "word/_rels/document.xml.rels"]) = ["a/b"; "."; "/"; "a"; "word/_rels"].
Proof. reflexivity. Qed.
Example Ext_examples : (Ext <$> ["a.b.TXT"; "a.b/c"; ""; ".x"; "c."]) = [".TXT"; ""; ""; ".x"; "."].
Proof. reflexivity. Qed.
Example Base_examples : (Base <$> ["a/b/"; "/"; ""; "x.rels"]) = ["b"; "/"; "."; "x.rels"].
Proof. reflexivity. Qed.

(** ** Components *)

Abbreviation chars := String.list_ascii_of_string (only parsing).

Lemma Split_no_sep sep s e : e ∈ Split sep s → sep ∉ chars e.
Proof.
  revert e. induction s as [|c s IH]; intros e He; cbn [Split] in He.
  - apply list_elem_of_singleton in He as ->. apply not_elem_of_nil.
  - case_decide as Hc.
    + apply elem_of_cons in He as [->|He]; [apply not_elem_of_nil|by apply IH].
    + destruct (Split sep s) as [|part rest].
      * apply list_elem_of_singleton in He as ->. cbn. intros [->|[]%elem_of_nil]%elem_of_cons. done.
      * apply elem_of_cons in He as [->|He].
        -- cbn. intros [->|Hin]%elem_of_cons; [done|]. by apply (IH part); [left|].
        -- apply IH. by right.
Qed.

Lemma Split_app_sep sep a b : sep ∉ chars a → Split sep (a +:+ String sep b) = a :: Split sep b.
Proof.
  induction a as [|c a IH]; intros Hn.
  - change ("" +:+ String sep b) with (String sep b). cbn [Split]. by case_decide.
  - change (String c a +:+ String sep b) with (String c (a +:+ String sep b)). cbn [Split].
    case_decide as Hc; [subst c; exfalso; apply Hn; by left|]. rewrite IH; [done|].
    intros Hin. apply Hn. by right.
Qed.

Lemma Split_single sep a : sep ∉ chars a → Split sep a = [a].
Proof.
  induction a as [|c a IH]; intros Hn; [done|]. cbn [Split].
  case_decide as Hc; [subst c; exfalso; apply Hn; by left|]. rewrite IH; [done|].
  intros Hin. apply Hn. by right.
Qed.

Lemma Split_join parts :
  parts ≠ [] → Forall (λ e, slash ∉ chars e) parts → Split slash (join "/" parts) = parts.
Proof.
  induction parts as [|p parts IH]; intros Hne Hall; [done|].
  apply Forall_cons in Hall as [Hp Hall]. destruct parts as [|q parts]; [by apply Split_single|].
  change (join "/" (p :: q :: parts)) with (p +:+ String slash (join "/" (q :: parts))).
  rewrite Split_app_sep by done. by rewrite IH.
Qed.

(** A component that names something below its directory. *)
Definition plain (e : string) : Prop := e ≠ "" ∧ e ≠ "." ∧ e ≠ ".." ∧ slash ∉ chars e.

(** Climbs stay at the bottom of the stack of a relative path. *)
Lemma clean_stack parts stack k :
  Forall (λ e, slash ∉ chars e) parts → Forall plain stack →
  ∃ stack' k', foldl (clean_step false) (stack ++ replicate k "..") parts = stack' ++ replicate k' ".."
    ∧ Forall plain stack'.
Proof.
  revert stack k. induction parts as [|p parts IH]; intros stack k Hparts Hstack; [by exists stack, k|].
  apply Forall_cons in Hparts as [Hp Hparts]. cbn [foldl].
  unfold clean_step at 2. destruct (decide (p = "")) as [->|H1]; [by apply IH|].
  destruct (decide (p = ".")) as [->|H2]; [by apply IH|].
  rewrite !bool_decide_eq_false_2 by done. cbn [orb].
  destruct (decide (p = "..")) as [->|H3].
  - rewrite bool_decide_eq_true_2 by done. destruct stack as [|top stack]; cbn [app].
    + destruct k as [|k]; cbn [replicate].
      * apply (IH [] 1%nat); [done|constructor].
      * rewrite bool_decide_eq_true_2 by done. apply (IH [] (S (S k))); [done|constructor].
    + apply Forall_cons in Hstack as [(_ & _ & Htop & _) Hstack]. rewrite bool_decide_eq_false_2 by done.
      by apply IH.
  - rewrite bool_decide_eq_false_2 by done. apply (IH (p :: stack)); [done|]. by constructor.
Qed.

(** A cleaned relative path is the current directory, climbs out of it, or is made
    of components below it. *)
Lemma Clean_relative p :
  is_rooted p = false →
  Clean p = "." ∨ Clean p = ".." ∨ HasPrefix (Clean p) "../" = true
  ∨ (Forall plain (Split slash (Clean p)) ∧ is_rooted (Clean p) = false).
Proof.
  intros Hr. unfold Clean. rewrite Hr. unfold clean_parts.
  destruct (clean_stack (Split slash p) [] 0) as (stack & k & E & Hs);
    [apply Forall_forall; apply Split_no_sep|constructor|].
  cbn [app replicate] in E. rewrite E, rev_app_distr. replace (rev (replicate k "..")) with (replicate k "..").
  2: { clear. induction k as [|k IH]; [done|]. cbn. rewrite <-IH. clear. induction k as [|k IH]; [done|]. cbn. by rewrite <-IH. }
  assert (Hrev : Forall plain (rev stack)) by by apply Forall_rev.
  destruct k as [|[|k] ]; cbn [replicate app].
  - destruct (rev stack) as [|e es] eqn:Es; [by left|]. right. right. right.
    rewrite bool_decide_eq_false_2 by done. split.
    + rewrite Split_join; [done..|]. eapply Forall_impl; [done|]. by intros ? (_ & _ & _ & ?).
    + apply Forall_cons in Hrev as [(He & _ & _ & Hsl) _].
      destruct e as [|c e]; [done|]. assert (c ≠ slash) by (intros ->; apply Hsl; by left).
      destruct es; change (bool_decide (c = slash) = false); by apply bool_decide_eq_false_2.
  - right. rewrite bool_decide_eq_false_2 by done. destruct (rev stack) as [|e es]; [by left|]. right. left.
    change (join "/" (".." :: e :: es)) with ("../" +:+ join "/" (e :: es)). by destruct (join _ _).
  - right. right. left. rewrite bool_decide_eq_false_2 by done.
    destruct (replicate k ".." ++ rev stack) as [|e es]; done.
Qed.
