(* ===== verification/ByteSearch.v ===== *)
(** * Searching bytes

    [bytes.HasPrefix] and [bytes.Contains], and what makes a search over a stream exact:
    an occurrence that crosses from what has been read to what comes next lies in a
    window that keeps the last bytes read. *)

From stdpp Require Import prelude list sorting.
From Stdlib Require Import ZArith Lia.
From S2P Require Import Prelude.

Definition HasPrefixB (b prefix : list Z) : bool := bool_decide (take (length prefix) b = prefix).

(** [bytes.Contains]. *)
Fixpoint ContainsB (b sub : list Z) : bool :=
  HasPrefixB b sub || match b with [] => false | _ :: b => ContainsB b sub end.

Definition containsAny (b : list Z) (tokens : list (list Z)) : bool := existsb (ContainsB b) tokens.

(** [buf[max(0, len(buf)-n):]]. *)
Definition last_bytes (n : nat) (b : list Z) : list Z := drop (length b - n) b.

Lemma HasPrefixB_spec b prefix : HasPrefixB b prefix = true ↔ prefix `prefix_of` b.
Proof.
  unfold HasPrefixB. rewrite bool_decide_eq_true. split.
  - intros <-. apply prefix_take.
  - intros [rest ->]. by rewrite take_app_length.
Qed.

(** [sub] occurs in [b]. *)
Definition occurs (sub b : list Z) : Prop := ∃ pre post, b = pre ++ sub ++ post.

Lemma ContainsB_spec b sub : ContainsB b sub = true ↔ occurs sub b.
Proof.
  induction b as [|x b IH]; cbn [ContainsB]; rewrite orb_true_iff, HasPrefixB_spec.
  - split.
    + intros [ [rest E]|?]; [|done]. by exists [], rest.
    + intros (pre & post & E). symmetry in E. apply app_eq_nil in E as [-> E]. left. exists post. by rewrite E.
  - rewrite IH. split.
    + intros [ [rest ->]|(pre & post & ->)]; [by exists [], rest|by exists (x :: pre), post].
    + intros ([|y pre] & post & E); [left; by exists post|]. injection E as -> ->. right. by exists pre, post.
Qed.

Lemma ContainsB_false b sub : ContainsB b sub = false ↔ ¬ occurs sub b.
Proof. rewrite <-ContainsB_spec. by destruct (ContainsB b sub). Qed.

Lemma occurs_app_l sub a b : occurs sub a → occurs sub (a ++ b).
Proof. intros (pre & post & ->). exists pre, (post ++ b). by rewrite <-!app_assoc. Qed.

Lemma occurs_app_r sub a b : occurs sub b → occurs sub (a ++ b).
Proof. intros (pre & post & ->). exists (a ++ pre), post. by rewrite <-!app_assoc. Qed.

Lemma occurs_nil sub : occurs sub [] → sub = [].
Proof. intros (pre & post & E). symmetry in E. apply app_eq_nil in E as [_ E]. by apply app_eq_nil in E as [? _]. Qed.

Lemma last_bytes_suffix n b : ∃ pre, b = pre ++ last_bytes n b.
Proof. exists (take (length b - n) b). symmetry. apply take_drop. Qed.

Lemma last_bytes_length n b : (length (last_bytes n b) ≤ n)%nat.
Proof. unfold last_bytes. rewrite length_drop. lia. Qed.

(** A suffix of at most [n] bytes is kept. *)
Lemma last_bytes_keeps n pre u : (length u ≤ n)%nat → ∃ pre', last_bytes n (pre ++ u) = pre' ++ u.
Proof.
  intros Hn. unfold last_bytes. rewrite length_app. rewrite drop_app_le by lia. eauto.
Qed.

(** An occurrence in a concatenation is in its first part, or a suffix of the first
    part and a prefix of the second, or in the second. *)
Lemma occurs_app_inv sub a b :
  occurs sub (a ++ b) →
  occurs sub a ∨ ∃ pre u v post, sub = u ++ v ∧ v ≠ [] ∧ a = pre ++ u ∧ b = v ++ post
    ∨ ∃ pre post, b = pre ++ sub ++ post.
Proof.
  intros (pre & post & E). apply app_eq_app in E as (l & [ [-> E]|[-> E] ]).
  - apply app_eq_app in E as (l' & [ [-> ->]|[-> ->] ]).
    + destruct l' as [|x l']; [left; exists pre, []; by rewrite !app_nil_r|].
      right. exists pre, l, (x :: l'), post. left. by split_and!.
    + left. exists pre, l'. done.
  - right. exists [], [], [], []. right. by exists l, post.
Qed.

(** The search over a stream: what is found in a concatenation is found in the first
    part or in the window of its last [k] bytes with the second. *)
Lemma occurs_window k a b sub :
  (length sub ≤ S k)%nat → occurs sub (a ++ b) ↔ occurs sub a ∨ occurs sub (last_bytes k a ++ b).
Proof.
  intros Hk. split.
  - intros [Ha|(pre & u & v & post & [(-> & Hv & -> & ->)|(pre' & post' & ->)])]%occurs_app_inv; [by left| |].
    + right. rewrite length_app in Hk. destruct v as [|x v]; [done|]. cbn in Hk.
      destruct (last_bytes_keeps k pre u) as [pre' ->]; [lia|]. exists pre', post. by rewrite <-!app_assoc.
    + right. apply occurs_app_r. by exists pre', post'.
  - intros [Ha|Hb]; [by apply occurs_app_l|]. destruct (last_bytes_suffix k a) as [pre Ha].
    rewrite Ha, <-app_assoc. by apply occurs_app_r.
Qed.

Lemma containsAny_spec b tokens : containsAny b tokens = true ↔ ∃ t, t ∈ tokens ∧ occurs t b.
Proof.
  unfold containsAny. rewrite existsb_exists. split.
  - intros (t & Hin & Ht). apply list_elem_of_In in Hin. exists t. by rewrite <-ContainsB_spec.
  - intros (t & Hin & Ht). exists t. by rewrite <-list_elem_of_In, ContainsB_spec.
Qed.

Lemma containsAny_false b tokens : containsAny b tokens = false ↔ ∀ t, t ∈ tokens → ¬ occurs t b.
Proof.
  rewrite <-not_true_iff_false, containsAny_spec. split.
  - intros Hn t Hin Ht. apply Hn. eauto.
  - intros Hn (t & Hin & Ht). by eapply Hn.
Qed.

Lemma containsAny_window k a b tokens :
  Forall (λ t, (length t ≤ S k)%nat) tokens →
  containsAny (a ++ b) tokens = containsAny a tokens || containsAny (last_bytes k a ++ b) tokens.
Proof.
  intros Hk. apply eq_true_iff_eq. rewrite orb_true_iff, !containsAny_spec. rewrite Forall_forall in Hk. split.
  - intros (t & Hin & Ht). rewrite occurs_window in Ht by (by apply Hk). destruct Ht; eauto.
  - intros [(t & Hin & Ht)|(t & Hin & Ht)]; exists t; (split; [done|]); apply (occurs_window k); auto.
Qed.
