(* ===== verification/DocumentGuard.v ===== *)
(** * Document guard

    [libs/go/platform/documentguard]: the XML parts and the relationships of an office
    document are walked before any renderer sees them. [reference.go] resolves a
    reference inside the package, [xml.go] walks the tokens of one part, [archive.go]
    the parts of an archive.

    The XML decoder, [url.Parse], the zip reader and the Unicode case mappings of the
    standard library are parameters: a part is the list of its tokens and whether the
    decoder reached the end of it. *)

From stdpp Require Import prelude gmap strings sorting.
From Stdlib Require Import ZArith Lia Ascii.
From S2P Require Import Prelude GoStrings Utf8 Paths.
Local Open Scope Z_scope.

Definition ErrUnsafe : error := ErrNew "documentguard.ErrUnsafe".

(** The fields of [url.URL] the guard reads. *)
Record URL := {
  u_Scheme : string; u_Host : string; u_User : bool; u_Opaque : string; u_Path : string;
  u_RawQuery : string; u_ForceQuery : bool; u_Fragment : string; u_EscapedPath : string }.

(** Tokens of [encoding/xml]. *)
Record xml_Name := { xn_Space : string; xn_Local : string }.
#[export] Instance xml_Name_eq_dec : EqDecision xml_Name.
Proof. solve_decision. Defined.
Record xml_Attr := { xa_Name : xml_Name; xa_Value : string }.
Record xml_StartElement := { xe_Name : xml_Name; xe_Attr : list xml_Attr }.
Inductive xml_Token :=
| StartElement (e : xml_StartElement)
| EndElement (n : xml_Name)
| CharData (text : string)
| Comment
| ProcInst (target : string)
| Directive.

(** What [archive/zip] says of an entry: its directory record, the kind of its mode,
    where its data starts. *)
Inductive zip_mode := ModeRegular | ModeDir | ModeOther.
#[export] Instance zip_mode_eq_dec : EqDecision zip_mode.
Proof. solve_decision. Defined.
Record zip_File := {
  zf_Name : string; zf_Flags : Z; zf_Method : Z; zf_Mode : zip_mode; zf_CRC32 : Z;
  zf_CompressedSize64 : Z; zf_UncompressedSize64 : Z; zf_Extra : list Z; zf_Comment : string;
  zf_DataOffset : option Z }.

(** A reader drained to its end: the bytes it gave and whether it ended with EOF. *)
Definition drained : Type := list Z * bool.

(** [io.ReadAll(io.LimitReader(r, n))]: the failure of [r] is not met when the limit
    comes first. *)
Definition ReadAllLimit (n : Z) (r : drained) : option (list Z) :=
  if (n <=? Z.of_nat (length r.1)) then Some (take (Z.to_nat n) r.1)
  else if r.2 then Some r.1 else None.

Definition MaxXMLBytes : Z := 8 * 2 ^ 20.
Definition MaxDepth : Z := 64.
Definition MaxAttributes : Z := 64.
Definition XLinkNS : string := "http://www.w3.org/1999/xlink".
Definition RelationshipsNS : string := "http://schemas.openxmlformats.org/package/2006/relationships".
Definition SpreadsheetNS : string := "http://schemas.openxmlformats.org/spreadsheetml/2006/main".
Definition officeNS : string := "urn:oasis:names:tc:opendocument:xmlns:office:1.0".
Definition XIncludeNS : string := "http://www.w3.org/2001/XInclude".
Definition xmlNS : string := "http://www.w3.org/XML/1998/namespace".
Definition MaxEntries : Z := 2048.
Definition MaxExpandedBytes : Z := 32 * 2 ^ 20.
Definition MaxExpansionRate : Z := 100.

(** The standard library of the guard. *)
Class Stdlib := {
  ToLower : string → string;
  EqualFold : string → string → bool;
  url_Parse : string → option URL;
  xml_Tokens : list Z → list xml_Token * bool;
}.

Section guard.
Context {lib : Stdlib}.

(** ** References *)

Definition localURI (u : URL) (fragments : bool) : bool :=
  if negb (u_Scheme u == "") || negb (u_Host u == "") || u_User u || negb (u_Opaque u == "") then false
  else negb (u_ForceQuery u) && (u_RawQuery u == "") && (fragments || (u_Fragment u == "")).

Definition ambiguousPath (u : URL) : bool :=
  if negb (ValidString (u_Path u)) || HasPrefix (u_Path u) "/"
     || ContainsAny (u_Path u) ["\"; ":"; "%"]%char || ContainsFunc (u_Path u) IsControl then true
  else let raw := ToLower (u_EscapedPath u) in
       Contains raw "%2f" || Contains raw "%5c" || Contains raw "%2e".

Definition parseReference (reference : string) (fragments : bool) : result URL :=
  guard! negb (negb (TrimSpace reference == reference) || ContainsFunc reference IsControl) else ErrUnsafe ;;
  match url_Parse reference with
  | None => Fail ErrUnsafe
  | Some u => guard! localURI u fragments else ErrUnsafe ;; Ok u
  end.

Definition fragmentTarget (source : string) (u : URL) (fragments : bool) : result string :=
  if fragments && negb (u_Fragment u == "") then Ok source else Fail ErrUnsafe.

Definition Resolve (source reference : string) (fragments : bool) (exists_ : option (string → bool)) : result string :=
  u ← parseReference reference fragments;
  if u_Path u == "" then fragmentTarget source u fragments
  else match exists_ with
       | None => Fail ErrUnsafe
       | Some has =>
           guard! negb (ambiguousPath u) else ErrUnsafe ;;
           let target := Join [Dir source; u_Path u] in
           guard! negb ((target == ".") || (target == "..") || HasPrefix target "../" || negb (has target))
             else ErrUnsafe ;;
           Ok target
       end.

(** ** Relationships *)

Definition RelationshipPart (name : string) : bool := HasSuffix (ToLower name) ".rels".

Fixpoint first_value (test : xml_Name → bool) (attrs : list xml_Attr) : string :=
  match attrs with
  | [] => ""
  | a :: attrs => if test (xa_Name a) then xa_Value a else first_value test attrs
  end.

Definition Attribute (e : xml_StartElement) (name : string) : string :=
  first_value (λ n, (xn_Space n == "") && (xn_Local n == name)) (xe_Attr e).

Definition canonicalTypeURI (u : URL) : bool :=
  if negb (u_Scheme u == "http") && negb (u_Scheme u == "https") then false
  else negb (u_Host u == "") && negb (u_User u) && (u_Opaque u == "") && (u_RawQuery u == "")
       && negb (u_ForceQuery u) && (u_Fragment u == "") && (u_EscapedPath u == u_Path u).

Definition relationshipTypeName (value : string) : option string :=
  if (value == "") || negb (TrimSpace value == value) then None
  else match url_Parse value with
       | None => None
       | Some u =>
           if negb (canonicalTypeURI u) then None
           else let name := Base (u_Path u) in
                if (name == ".") || (name == "/") then None else Some (ToLower name)
       end.

Definition active_relationships : list string :=
  ["vbaproject"; "vbaprojectsignature"; "oleobject"; "activex"; "activexcontrol"; "attachedtemplate";
   "externallink"; "externallinkpath"; "package"].

Definition ActiveRelationship (value : string) : bool :=
  match relationshipTypeName value with
  | None => true
  | Some name => name ∈? active_relationships
  end.

Definition relationshipSource (part : string) : result string :=
  if EqualFold part "_rels/.rels" then Ok ""
  else let dir := Dir part in
       guard! Base dir == "_rels" else ErrUnsafe ;;
       Ok (Join [Dir dir; String.substring 0 (String.length (Base part) - 5) (Base part)]).

Definition relationshipAttributes (e : xml_StartElement) : bool :=
  negb (Attribute e "Id" == "")
  && forallb (λ a, let n := xa_Name a in
       (xn_Space n == "xmlns") || (xn_Local n == "xmlns")
       || ((xn_Space n == "") && (xn_Local n ∈? ["Id"; "Type"; "Target"; "TargetMode"]))) (xe_Attr e).

(** ** The walk of one part *)

Record xmlState := { xs_depth : Z; xs_roots : Z; xs_scripts : bool }.

Definition active : list string :=
  ["script"; "object"; "object-ole"; "plugin"; "oleobject"; "activex"; "applet"; "event-listener"; "event-listeners";
   "execute-macro"; "encryption-data"; "encrypted-package"; "altchunk"; "fldchar"; "instrtext"; "fldsimple"; "ddelink";
   "externallink"].

(** [s.part] and [s.exists] do not change in a walk. *)
Context (part : string) (exists_ : option (string → bool)).

Definition element (s : xmlState) (e : xml_StartElement) : result xmlState :=
  guard! negb ((ToLower (xn_Local (xe_Name e)) ∈? active) || (xn_Space (xe_Name e) == XIncludeNS)) else ErrUnsafe ;;
  if xn_Local (xe_Name e) == "scripts" then
    guard! xn_Space (xe_Name e) == officeNS else ErrUnsafe ;;
    Ok {| xs_depth := xs_depth s; xs_roots := xs_roots s; xs_scripts := true |}
  else Ok s.

Definition attribute (a : xml_Attr) : result unit :=
  let name := ToLower (xn_Local (xa_Name a)) in
  guard! negb (HasPrefix name "on") else ErrUnsafe ;;
  guard! negb ((name == "targetmode") && negb (xa_Value a == "Internal")) else ErrUnsafe ;;
  guard! negb ((xn_Local (xa_Name a) == "base") && (xn_Space (xa_Name a) == xmlNS)) else ErrUnsafe ;;
  if name == "href" then
    guard! xn_Space (xa_Name a) == XLinkNS else ErrUnsafe ;;
    (λ _, ()) <$> Resolve part (xa_Value a) true exists_
  else Ok ().

Fixpoint attributes (seen : list xml_Name) (attrs : list xml_Attr) : result unit :=
  match attrs with
  | [] => Ok ()
  | a :: attrs =>
      guard! negb (xa_Name a ∈? seen) else ErrUnsafe ;;
      attribute a;; attributes (xa_Name a :: seen) attrs
  end.

Definition relationship (depth : Z) (e : xml_StartElement) : result unit :=
  guard! xn_Space (xe_Name e) == RelationshipsNS else ErrUnsafe ;;
  if depth =? 1 then guard! xn_Local (xe_Name e) == "Relationships" else ErrUnsafe ;; Ok ()
  else
    guard! negb (negb (depth =? 2) || negb (xn_Local (xe_Name e) == "Relationship")) else ErrUnsafe ;;
    guard! relationshipAttributes e else ErrUnsafe ;;
    guard! negb (ActiveRelationship (Attribute e "Type")) else ErrUnsafe ;;
    source ← relationshipSource part;
    (λ _, ()) <$> Resolve source (Attribute e "Target") false exists_.

Definition start (s : xmlState) (e : xml_StartElement) : result xmlState :=
  guard! negb (xs_scripts s) else ErrUnsafe ;;
  let s := {| xs_depth := xs_depth s + 1;
              xs_roots := if xs_depth s =? 0 then xs_roots s + 1 else xs_roots s;
              xs_scripts := xs_scripts s |} in
  guard! negb ((MaxDepth <? xs_depth s) || (MaxAttributes <? Z.of_nat (length (xe_Attr e)))) else ErrUnsafe ;;
  s ← element s e;
  attributes [] (xe_Attr e);;
  if RelationshipPart part then relationship (xs_depth s) e;; Ok s else Ok s.

Definition declaration (s : xmlState) (t : xml_Token) : result xmlState :=
  match t with
  | Directive => Fail ErrUnsafe
  | ProcInst target =>
      guard! negb (negb (target == "xml") || negb (xs_depth s =? 0) || negb (xs_roots s =? 0)) else ErrUnsafe ;; Ok s
  | _ => Ok s
  end.

Definition token (s : xmlState) (t : xml_Token) : result xmlState :=
  match t with
  | StartElement e => start s e
  | EndElement n =>
      declaration {| xs_depth := xs_depth s - 1; xs_roots := xs_roots s;
                     xs_scripts := if xn_Local n == "scripts" then false else xs_scripts s |} t
  | CharData text =>
      guard! negb ((xs_scripts s || (xs_depth s =? 0)) && negb (TrimSpace text == "")) else ErrUnsafe ;;
      declaration s t
  | _ => declaration s t
  end.

(** [state.decode]: [ctx] is what [ctx.Err()] answers before the i-th token. *)
Fixpoint decode (ctx : nat → option error) (i : nat) (s : xmlState) (tokens : list xml_Token) (eof : bool)
  : result xmlState :=
  match ctx i with
  | Some e => Fail e
  | None =>
      match tokens with
      | [] => if eof then Ok s else Fail ErrUnsafe
      | t :: tokens => s ← token s t; decode ctx (S i) s tokens eof
      end
  end.

Definition Inspect (ctx : nat → option error) (body : list Z) : result unit :=
  guard! negb ((MaxXMLBytes <? Z.of_nat (length body)) || negb (valid_bytes body)) else ErrUnsafe ;;
  let '(tokens, eof) := xml_Tokens body in
  s ← decode ctx 0 {| xs_depth := 0; xs_roots := 0; xs_scripts := false |} tokens eof;
  guard! negb (negb (xs_depth s =? 0) || negb (xs_roots s =? 1)) else ErrUnsafe ;; Ok ().

End guard.

(** ** Archives *)

Section archive.
Context {lib : Stdlib} (ctx : nat → option error).
(** [f.Open] drained, for the entries whose data can be opened. *)
Context (zip_Open : zip_File → option drained).

Record Archive := { ar_names : gmap string bool; ar_MIME : string }.

Definition Has (a : Archive) (name : string) : bool := default false (ar_names a !! name).

Definition passivePath (name : string) : result unit :=
  guard! negb (existsb (λ p, Contains ("/" +:+ name) p)
    ["vbaproject"; "/activex/"; "/embeddings/"; "/externallinks/"; "/object "; "/scripts/"; "/basic/"]) else ErrUnsafe ;;
  Ok ().

Definition entryPath (f : zip_File) : result unit :=
  let name := zf_Name f in
  guard! negb (ContainsAny name ["\"; "000"; ":"]%char || HasPrefix name "/") else ErrUnsafe ;;
  let clean := Clean name in
  guard! negb ((clean == ".") || (clean == "..") || HasPrefix clean "../" || negb (TrimSuffix name "/" == clean))
    else ErrUnsafe ;;
  guard! negb (bool_decide (zf_Mode f = ModeOther)) else ErrUnsafe ;; Ok ().

Definition archiveEntry (f : zip_File) (total : Z) : result Z :=
  entryPath f;;
  guard! negb (MaxXMLBytes <? zf_UncompressedSize64 f) else ErrUnsafe ;;
  let total := (total + zf_UncompressedSize64 f) mod 2 ^ 64 in
  guard! negb ((MaxExpandedBytes <? total)
    || (0 <? zf_CompressedSize64 f) && (MaxExpansionRate <? zf_UncompressedSize64 f / zf_CompressedSize64 f))
    else ErrUnsafe ;;
  passivePath (ToLower (zf_Name f));; Ok total.

Definition readEntry (f : zip_File) : result (list Z) :=
  match zip_Open f with
  | None => Fail ErrUnsafe
  | Some r =>
      match ReadAllLimit (MaxXMLBytes + 1) r with
      | None => Fail ErrUnsafe
      | Some b => guard! negb (MaxXMLBytes <? Z.of_nat (length b)) else ErrUnsafe ;; Ok b
      end
  end.

Definition Archive_inspect (a : Archive) (f : zip_File) : result Archive :=
  let name := ToLower (zf_Name f) in
  if negb (name == "mimetype") && negb (HasSuffix name ".xml") && negb (RelationshipPart name) then Ok a
  else
    body ← readEntry f;
    if name == "mimetype" then
      guard! negb (256 <? Z.of_nat (length body)) else ErrUnsafe ;;
      Ok {| ar_names := ar_names a; ar_MIME := TrimSpace (bytes_str body) |}
    else Inspect (zf_Name f) (Some (Has a)) ctx body;; Ok a.

(** The first loop: every name is checked before a byte of any part is read. *)
Fixpoint index_entries (files : list zip_File) (total : Z) (folded : list string) (a : Archive) : result Archive :=
  match files with
  | [] => Ok a
  | f :: files =>
      total ← archiveEntry f total;
      let name := ToLower (zf_Name f) in
      guard! negb (name ∈? folded) else ErrUnsafe ;;
      index_entries files total (name :: folded)
        {| ar_names := <[zf_Name f := true]> (ar_names a); ar_MIME := ar_MIME a |}
  end.

Definition ArchiveXML (files : list zip_File) : result Archive :=
  guard! negb ((length files =? 0)%nat || (MaxEntries <? Z.of_nat (length files))) else ErrUnsafe ;;
  index ← index_entries files 0 [] {| ar_names := ∅; ar_MIME := "" |};
  foldl (λ a f, a ← a; Archive_inspect a f) (Ok index) files.

End archive.

(** ** A resolved reference stays in the package *)

Section guard_facts.
Context {lib : Stdlib}.

Lemma Join_pair a b : a ≠ "" → b ≠ "" → Join [a; b] = Clean (a +:+ "/" +:+ b).
Proof. intros Ha Hb. unfold Join. by rewrite !filter_cons_True, filter_nil by done. Qed.

Lemma is_rooted_app a b : a ≠ "" → is_rooted (a +:+ b) = is_rooted a.
Proof. by destruct a. Qed.

Lemma relative_join e es :
  slash ∉ chars e → e ≠ "" → is_rooted (join "/" (e :: es)) = false.
Proof.
  intros Hn He. destruct e as [|c e]; [done|]. assert (c ≠ slash) by (intros ->; apply Hn; by left).
  destruct es; change (bool_decide (c = slash) = false); by apply bool_decide_eq_false_2.
Qed.

(** The directory of a relative path is relative. *)
Lemma Clean_not_rooted p : is_rooted p = false → is_rooted (Clean p) = false ∧ Clean p ≠ "".
Proof.
  intros Hr. destruct (Clean_relative p Hr) as [->|[->|[Hp|[Hall Hc] ] ] ]; [done..| |].
  - destruct (Clean p) as [|c s] eqn:E; [done|]. unfold HasPrefix in Hp. cbn in Hp.
    split; [|done]. cbn. case_match; [|done]. subst c. by cbn in Hp.
  - split; [done|]. intros E. rewrite E in Hall. by inversion Hall as [|? ? (? & _)].
Qed.

Lemma Dir_relative p : is_rooted p = false → is_rooted (Dir p) = false ∧ Dir p ≠ "".
Proof.
  intros Hr. unfold Dir. destruct (rev (Split slash p)) as [|x [|part before] ] eqn:E; [done..|].
  apply Clean_not_rooted.
  assert (Hs : Split slash p = rev (part :: before) ++ [x]).
  { rewrite <-(rev_involutive (Split slash p)), E. done. }
  destruct (rev (part :: before)) as [|e es] eqn:Er; [by destruct before; [|apply app_eq_nil in Er as [? ?] ] |].
  assert (He : e ≠ "").
  { intros ->. destruct p as [|c p]; [done|]. cbn in Hr. cbn [Split] in Hs.
    rewrite decide_False in Hs by (intros ->; by rewrite bool_decide_eq_true_2 in Hr).
    destruct (Split slash p); discriminate. }
  assert (Hj : is_rooted (join "/" (e :: es)) = false).
  { apply relative_join; [|done]. apply (Split_no_sep _ p). rewrite Hs. by left. }
  rewrite is_rooted_app; [done|]. intros E'. rewrite E' in *. destruct es; [done|]. by destruct e.
Qed.

Lemma Resolve_Ok source reference fragments has target :
  is_rooted source = false →
  Resolve source reference fragments has = Ok target →
  (fragments = true ∧ target = source ∧ ∃ u, url_Parse reference = Some u ∧ u_Path u = "")
  ∨ (Forall plain (Split slash target) ∧ ∃ f, has = Some f ∧ f target = true).
Proof.
  intros Hs. unfold Resolve, parseReference, fragmentTarget. intros H.
  apply bind_Ok in H as (u & Hu & H). apply guard_Ok in Hu as [_ Hu].
  destruct (url_Parse reference) as [u'|]; [|done]. apply guard_Ok in Hu as [_ [= ->] ].
  case_bool_decide as Hp.
  { destruct fragments; [|done]. cbn in H. case_match; [|done]. injection H as <-. left. eauto. }
  destruct has as [has|]; [|done]. apply guard_Ok in H as [Hamb H]. apply guard_Ok in H as [Ht [= <-] ].
  right. apply negb_true_iff in Ht. apply orb_false_iff in Ht as [Ht Hhas].
  apply orb_false_iff in Ht as [Ht Hup]. apply orb_false_iff in Ht as [Hdot Hdd].
  apply bool_decide_eq_false in Hdot, Hdd. apply negb_false_iff in Hhas.
  destruct (Dir_relative source Hs) as [Hd Hne].
  rewrite Join_pair in * by done.
  destruct (Clean_relative (Dir source +:+ "/" +:+ u_Path u)) as [?|[?|[?|[? _] ] ] ]; try congruence.
  - by rewrite is_rooted_app.
  - eauto.
Qed.

End guard_facts.

(** ** What an accepted part looks like *)

(** Elements open after a list of tokens, and elements opened at depth zero. *)
Fixpoint depth_of (d : Z) (tokens : list xml_Token) : Z :=
  match tokens with
  | [] => d
  | StartElement _ :: tokens => depth_of (d + 1) tokens
  | EndElement _ :: tokens => depth_of (d - 1) tokens
  | _ :: tokens => depth_of d tokens
  end.
Fixpoint roots_of (d : Z) (tokens : list xml_Token) : Z :=
  match tokens with
  | [] => 0
  | StartElement _ :: tokens => (if d =? 0 then 1 else 0) + roots_of (d + 1) tokens
  | EndElement _ :: tokens => roots_of (d - 1) tokens
  | _ :: tokens => roots_of d tokens
  end.

Section accepted.
Context {lib : Stdlib} (part : string) (exists_ : option (string → bool)).

(** An attribute that runs no code and refers to nothing outside the package. *)
Record passive_attribute (a : xml_Attr) : Prop := {
  pa_handler : HasPrefix (ToLower (xn_Local (xa_Name a))) "on" = false;
  pa_mode : ToLower (xn_Local (xa_Name a)) = "targetmode" → xa_Value a = "Internal";
  pa_base : xa_Name a ≠ {| xn_Space := xmlNS; xn_Local := "base" |};
  pa_href : ToLower (xn_Local (xa_Name a)) = "href" →
    xn_Space (xa_Name a) = XLinkNS ∧ ∃ target, Resolve part (xa_Value a) true exists_ = Ok target }.

(** A relationship is of no active type and its target is in the package. *)
Definition passive_relationship (e : xml_StartElement) : Prop :=
  ActiveRelationship (Attribute e "Type") = false
  ∧ ∃ source target, relationshipSource part = Ok source
      ∧ Resolve source (Attribute e "Target") false exists_ = Ok target.

Record passive_element (depth : Z) (e : xml_StartElement) : Prop := {
  pe_depth : depth < MaxDepth;
  pe_count : Z.of_nat (length (xe_Attr e)) <= MaxAttributes;
  pe_name : ToLower (xn_Local (xe_Name e)) ∉ active ∧ xn_Space (xe_Name e) ≠ XIncludeNS;
  pe_unique : NoDup (xa_Name <$> xe_Attr e);
  pe_attributes : Forall passive_attribute (xe_Attr e);
  pe_relationship : RelationshipPart part = true → depth = 1 → passive_relationship e }.

Definition passive_token (depth roots : Z) (t : xml_Token) : Prop :=
  match t with
  | StartElement e => passive_element depth e
  | EndElement _ | Comment => True
  | CharData text => depth = 0 → TrimSpace text = ""
  | ProcInst target => target = "xml" ∧ depth = 0 ∧ roots = 0
  | Directive => False
  end.

Lemma attribute_Ok a : attribute part exists_ a = Ok () → passive_attribute a.
Proof.
  unfold attribute. intros H. repeat apply guard_Ok in H as [? H]. z_bools.
  rewrite !negb_true_iff in *. constructor.
  - done.
  - intros E. apply andb_false_iff in H1 as [H1|H1]; [by apply bool_decide_eq_false in H1|].
    by apply negb_false_iff, bool_decide_eq_true in H1.
  - intros E. apply andb_false_iff in H2. rewrite E in H2. by destruct H2.
  - intros E. rewrite bool_decide_eq_true_2 in H by done. apply guard_Ok in H as [Hs%bool_decide_eq_true H].
    split; [done|]. destruct (Resolve _ _ _ _); [eauto|done].
Qed.

Lemma attributes_Ok seen attrs :
  attributes part exists_ seen attrs = Ok () →
  Forall passive_attribute attrs ∧ NoDup (xa_Name <$> attrs) ∧ (∀ n, n ∈ seen → n ∉ xa_Name <$> attrs).
Proof.
  revert seen. induction attrs as [|a attrs IH]; intros seen H.
  { split_and!; [constructor|constructor|]. intros n _. apply not_elem_of_nil. }
  cbn in H. apply guard_Ok in H as [Hn H]. apply negb_true_iff, bool_decide_eq_false in Hn.
  apply bind_Ok in H as ([] & Ha & H). apply attribute_Ok in Ha. apply IH in H as (Hall & Hnd & Hseen).
  split_and!; [by constructor| |].
  - cbn. apply NoDup_cons. split; [|done]. apply Hseen. by left.
  - intros n Hin. cbn. intros [->|Hin']%elem_of_cons; [done|]. eapply Hseen; [by right|done].
Qed.

Lemma start_Ok s e s' :
  start part exists_ s e = Ok s' →
  passive_element (xs_depth s) e ∧ xs_depth s' = xs_depth s + 1
  ∧ xs_roots s' = xs_roots s + (if xs_depth s =? 0 then 1 else 0).
Proof.
  unfold start. intros H. apply guard_Ok in H as [_ H]. apply guard_Ok in H as [Hb H].
  apply negb_true_iff, orb_false_iff in Hb as [Hd Hc]. cbn [xs_depth] in Hd. z_bools.
  apply bind_Ok in H as (s1 & He & H). unfold element in He. apply guard_Ok in He as [Hact He].
  apply negb_true_iff, orb_false_iff in Hact as [Hact Hinc]. apply bool_decide_eq_false in Hact, Hinc.
  assert (Hs1 : xs_depth s1 = xs_depth s + 1 ∧ xs_roots s1 = xs_roots s + (if xs_depth s =? 0 then 1 else 0)).
  { destruct (_ == _); [apply guard_Ok in He as [_ He] |]; injection He as <-;
      cbn [xs_depth xs_roots]; destruct (xs_depth s =? 0); lia. }
  apply bind_Ok in H as ([] & Ha & H). apply attributes_Ok in Ha as (Hall & Hnd & _).
  destruct (RelationshipPart part) eqn:Er.
  - apply bind_Ok in H as ([] & Hr & [= <-] ). split; [|done]. constructor; try done; try lia.
    intros _ E. unfold relationship in Hr. apply guard_Ok in Hr as [_ Hr].
    rewrite (proj2 (Z.eqb_neq _ 1)) in Hr by lia. repeat apply guard_Ok in Hr as [? Hr].
    apply negb_true_iff in H1. apply bind_Ok in Hr as (source & Hsrc & Hr).
    split; [done|]. exists source. destruct (Resolve _ _ _ _) as [target|]; [|done]. eauto.
  - injection H as <-. split; [|done]. constructor; try done; try lia; congruence.
Qed.

Lemma token_Ok s t s' :
  token part exists_ s t = Ok s' →
  passive_token (xs_depth s) (xs_roots s) t ∧ xs_depth s' = depth_of (xs_depth s) [t]
  ∧ xs_roots s' = xs_roots s + roots_of (xs_depth s) [t].
Proof.
  destruct t as [e|n|text| |target|]; cbn [token declaration depth_of roots_of passive_token]; intros H.
  - apply start_Ok in H as (? & ? & ?). split_and!; [done..|lia].
  - injection H as <-. cbn. split_and!; [done..|lia].
  - apply guard_Ok in H as [Hb [= <-] ]. split_and!; [|done|lia]. intros Hd.
    apply negb_true_iff, andb_false_iff in Hb as [Hb|Hb].
    + rewrite Hd, orb_true_r in Hb. done.
    + by apply negb_false_iff, bool_decide_eq_true in Hb.
  - injection H as <-. split_and!; [done..|lia].
  - apply guard_Ok in H as [Hb [= <-] ]. apply negb_true_iff in Hb.
    apply orb_false_iff in Hb as [Hb Hr]. apply orb_false_iff in Hb as [Ht Hd].
    apply negb_false_iff in Ht, Hd, Hr. apply bool_decide_eq_true in Ht. z_bools. split_and!; [done..|lia].
  - done.
Qed.

Lemma decode_Ok ctx i s tokens eof s' :
  decode part exists_ ctx i s tokens eof = Ok s' →
  eof = true ∧ xs_depth s' = depth_of (xs_depth s) tokens ∧ xs_roots s' = xs_roots s + roots_of (xs_depth s) tokens
  ∧ ∀ pre t post, tokens = pre ++ t :: post →
      passive_token (depth_of (xs_depth s) pre) (xs_roots s + roots_of (xs_depth s) pre) t.
Proof.
  revert i s. induction tokens as [|t tokens IH]; intros i s H; cbn [decode] in H; destruct (ctx i); try done.
  { destruct eof; [|done]. injection H as <-. cbn. split_and!; [done..|lia|]. by intros [|??]. }
  apply bind_Ok in H as (s1 & Ht & H). apply token_Ok in Ht as (Hp & Hd & Hr).
  apply IH in H as (-> & Hd' & Hr' & Hall). rewrite Hd in *.
  assert (Hdep : ∀ l, depth_of (xs_depth s) (t :: l) = depth_of (depth_of (xs_depth s) [t]) l) by (intros l; by destruct t).
  assert (Hroot : ∀ l, roots_of (xs_depth s) (t :: l)
    = roots_of (xs_depth s) [t] + roots_of (depth_of (xs_depth s) [t]) l) by (intros l; destruct t; cbn; lia).
  split_and!; [done|by rewrite Hdep|rewrite Hroot; lia|].
  intros [|t' pre] x post [= -> ->]; cbn [app].
  - cbn [depth_of roots_of]. by rewrite Z.add_0_r.
  - rewrite Hdep, Hroot, Z.add_assoc, <-Hr. by eapply Hall.
Qed.

End accepted.

(** C34. A part the guard accepts is valid UTF-8 of at most [MaxXMLBytes] with exactly
    one root element, nothing left open and no document type; no element of it is
    active or includes another document, none is nested deeper than [MaxDepth], no
    attribute is doubled or runs a handler, and every reference and relationship it
    holds resolves inside the package. *)
Theorem Inspect_passive {lib : Stdlib} part exists_ ctx body :
  Inspect part exists_ ctx body = Ok () →
  let tokens := (xml_Tokens body).1 in
  valid_bytes body = true ∧ Z.of_nat (length body) <= MaxXMLBytes ∧ (xml_Tokens body).2 = true
  ∧ depth_of 0 tokens = 0 ∧ roots_of 0 tokens = 1
  ∧ (∀ pre t post, tokens = pre ++ t :: post →
       passive_token part exists_ (depth_of 0 pre) (roots_of 0 pre) t)
  ∧ (∀ source reference fragments target,
       is_rooted source = false → Resolve source reference fragments exists_ = Ok target →
       target = source ∨ Forall plain (Split slash target) ∧ ∃ has, exists_ = Some has ∧ has target = true).
Proof.
  unfold Inspect. intros H. apply guard_Ok in H as [Hb H].
  apply negb_true_iff, orb_false_iff in Hb as [Hl Hv]. apply negb_false_iff in Hv.
  destruct (xml_Tokens body) as [tokens eof]. apply bind_Ok in H as (s & Hd & H).
  apply guard_Ok in H as [Hb _]. apply negb_true_iff, orb_false_iff in Hb as [Hd0 Hr1].
  apply negb_false_iff in Hd0, Hr1. z_bools. apply decode_Ok in Hd as (-> & Hdep & Hroots & Hall).
  cbn in *. split_and!; [done|lia|done|congruence|lia|done|].
  intros source reference fragments target Hs Hr.
  apply Resolve_Ok in Hr as [(_ & -> & _)|Hr]; [by left|by right|done].
Qed.

(** ** Accepted archives *)

Section archive_facts.
Context {lib : Stdlib} (ctx : nat → option error) (zip_Open : zip_File → option drained).

Definition expanded (files : list zip_File) : Z := foldr (λ f acc, zf_UncompressedSize64 f + acc) 0 files.

(** An entry whose name stays below the directory it is unpacked into. *)
Definition contained (f : zip_File) : Prop :=
  is_rooted (zf_Name f) = false ∧ Forall plain (Split slash (Clean (zf_Name f))) ∧ zf_Mode f ≠ ModeOther.

Lemma entryPath_Ok f : entryPath f = Ok () → contained f.
Proof.
  unfold entryPath. intros H. apply guard_Ok in H as [Ha H]. apply guard_Ok in H as [Hb H].
  apply guard_Ok in H as [Hc _]. apply negb_true_iff in Ha, Hb, Hc.
  apply orb_false_iff in Ha as [_ Hroot]. apply orb_false_iff in Hb as [Hb _].
  apply orb_false_iff in Hb as [Hb Hup]. apply orb_false_iff in Hb as [Hdot Hdd].
  apply bool_decide_eq_false in Hdot, Hdd, Hc.
  assert (Hr : is_rooted (zf_Name f) = false).
  { destruct (zf_Name f) as [|c n]; [done|]. unfold HasPrefix in Hroot. cbn in Hroot |- *.
    apply bool_decide_eq_false. intros ->. unfold slash in Hroot. cbn in Hroot. by destruct n. }
  split_and!; [done| |done]. destruct (Clean_relative _ Hr) as [?|[?|[?|[? _] ] ] ]; congruence || done.
Qed.

Lemma index_entries_Ok files total folded a a' :
  0 <= total <= MaxExpandedBytes → Forall (λ f, 0 <= zf_UncompressedSize64 f) files →
  index_entries files total folded a = Ok a' →
  total + expanded files <= MaxExpandedBytes ∧ Forall contained files
  ∧ NoDup (ToLower ∘ zf_Name <$> files) ∧ (∀ f, f ∈ files → ToLower (zf_Name f) ∉ folded)
  ∧ (∀ n, ar_names a' !! n = if decide (n ∈ zf_Name <$> files) then Some true else ar_names a !! n).
Proof.
  revert total folded a. induction files as [|f files IH]; intros total folded a Ht Hpos H.
  { injection H as <-. cbn. split_and!; [lia|constructor|constructor| |]; [by intros ? ?%elem_of_nil|done]. }
  apply Forall_cons in Hpos as [Hf Hpos]. cbn [index_entries] in H. apply bind_Ok in H as (total' & He & H).
  unfold archiveEntry in He. apply bind_Ok in He as ([] & Hpath & He). apply entryPath_Ok in Hpath.
  apply guard_Ok in He as [Hmax He]. apply guard_Ok in He as [Hsum He].
  apply bind_Ok in He as ([] & _ & [= <-] ).
  apply negb_true_iff in Hmax, Hsum. apply orb_false_iff in Hsum as [Hsum _].
  unfold MaxXMLBytes, MaxExpandedBytes in *. z_bools.
  rewrite Z.mod_small in * by lia.
  apply guard_Ok in H as [Hn H]. apply negb_true_iff, bool_decide_eq_false in Hn.
  apply IH in H as (Hexp & Hcont & Hnd & Hfold & Hnames); [|lia|done].
  cbn [expanded foldr]. fold (expanded files). split_and!; [lia|by constructor| | |].
  - cbn. apply NoDup_cons. split; [|done]. intros Hin. apply list_elem_of_fmap in Hin as (g & Hg & Hin).
    apply (Hfold g Hin). unfold compose in Hg; rewrite <-Hg. by left.
  - intros g Hg. apply elem_of_cons in Hg as [->|Hg]; [done|]. intros Hin. apply (Hfold g Hg). by right.
  - intros n. rewrite Hnames. cbn [ar_names fmap list_fmap]. destruct (decide (n ∈ zf_Name <$> files)) as [Hin|Hin].
    + by rewrite decide_True by by right.
    + destruct (decide (n = zf_Name f)) as [->|Hne].
      * rewrite lookup_insert_eq, decide_True; [done|by left].
      * rewrite lookup_insert_ne, decide_False; [done| |done]. by intros [?|?]%elem_of_cons.
Qed.

Lemma Archive_inspect_Ok a f a' :
  Archive_inspect ctx zip_Open a f = Ok a' →
  ar_names a' = ar_names a
  ∧ (ToLower (zf_Name f) ≠ "mimetype" →
     HasSuffix (ToLower (zf_Name f)) ".xml" || RelationshipPart (ToLower (zf_Name f)) = true →
     ∃ body, readEntry zip_Open f = Ok body ∧ Inspect (zf_Name f) (Some (Has a)) ctx body = Ok ()).
Proof.
  unfold Archive_inspect. intros H. destruct (negb _ && _ && _) eqn:E.
  { injection H as <-. split; [done|]. intros _ Hx. destruct (HasSuffix _ _), (RelationshipPart _), (_ == _); done. }
  apply bind_Ok in H as (body & Hread & H). case_bool_decide as Hm.
  - apply guard_Ok in H as [_ [= <-] ]. split; [done|]. by intros ?.
  - apply bind_Ok in H as ([] & Hi & [= <-] ). split; [done|]. eauto.
Qed.

Lemma foldl_inspect_Ok files r a' :
  foldl (λ a f, a ← a; Archive_inspect ctx zip_Open a f) r files = Ok a' →
  ∃ a, r = Ok a ∧ ar_names a' = ar_names a
    ∧ ∀ f, f ∈ files → ∃ a1 a2, ar_names a1 = ar_names a ∧ Archive_inspect ctx zip_Open a1 f = Ok a2.
Proof.
  revert r. induction files as [|f files IH]; intros r H; cbn in H.
  { exists a'. split_and!; [done..|]. by intros ? ?%elem_of_nil. }
  apply IH in H as (a1 & Hf & Hn & Hall). apply bind_Ok in Hf as (a & -> & Hf).
  pose proof (Archive_inspect_Ok _ _ _ Hf) as [Hn1 _]. exists a. split_and!; [done|congruence|].
  intros g [->|Hg]%elem_of_cons; [by exists a, a1|]. destruct (Hall g Hg) as (b1 & b2 & Hb & Hi).
  exists b1, b2. split; [congruence|done].
Qed.

End archive_facts.

(** An archive the guard accepts has at most [MaxEntries] entries with names
    distinct up to case, all below the directory they unpack into, that expand to at
    most [MaxExpandedBytes] together, without the running total wrapping; and every
    XML part and relationship part of it passed [Inspect], where a reference resolves
    exactly when it names an entry of the archive. *)
Theorem ArchiveXML_accepts {lib : Stdlib} ctx zip_Open files a :
  Forall (λ f, 0 <= zf_UncompressedSize64 f) files →
  ArchiveXML ctx zip_Open files = Ok a →
  1 <= Z.of_nat (length files) <= MaxEntries ∧ expanded files <= MaxExpandedBytes
  ∧ Forall contained files ∧ NoDup (ToLower ∘ zf_Name <$> files)
  ∧ (∀ name, Has a name = bool_decide (name ∈ zf_Name <$> files))
  ∧ ∀ f, f ∈ files → ToLower (zf_Name f) ≠ "mimetype" →
      HasSuffix (ToLower (zf_Name f)) ".xml" || RelationshipPart (ToLower (zf_Name f)) = true →
      ∃ body, readEntry zip_Open f = Ok body ∧ Inspect (zf_Name f) (Some (Has a)) ctx body = Ok ().
Proof.
  intros Hpos H. unfold ArchiveXML in H. apply guard_Ok in H as [Hc H]. apply negb_true_iff, orb_false_iff in Hc as [H0 Hmax].
  apply Nat.eqb_neq in H0. z_bools. apply bind_Ok in H as (index & Hi & H).
  apply index_entries_Ok in Hi as (Hexp & Hcont & Hnd & _ & Hnames); [|unfold MaxExpandedBytes; lia|done].
  apply foldl_inspect_Ok in H as (a0 & [= <-] & Hn & Hall).
  assert (Hhas : ∀ b, ar_names b = ar_names index → ∀ n, Has b n = bool_decide (n ∈ zf_Name <$> files)).
  { intros b Hb n. unfold Has. rewrite Hb, Hnames. case_decide as Hin; cbn.
    - by rewrite bool_decide_eq_true_2.
    - by rewrite lookup_empty, bool_decide_eq_false_2. }
  split_and!; [lia|lia|lia|done..|by apply Hhas|].
  intros f Hf Hm Hx. destruct (Hall f Hf) as (a1 & a2 & Hn1 & Hf2).
  apply Archive_inspect_Ok in Hf2 as [_ Hf2]. destruct (Hf2 Hm Hx) as (body & Hread & Hins).
  exists body. split; [done|]. assert (E : Has a1 = Has a); [|by rewrite <-E].
  unfold Has. by rewrite Hn1, Hn.
Qed.

(** ** An instance

    A library that knows relative references only, and one document. *)

Definition toy_url (s : string) : option URL :=
  Some {| u_Scheme := ""; u_Host := ""; u_User := false; u_Opaque := ""; u_Path := s; u_RawQuery := "";
          u_ForceQuery := false; u_Fragment := ""; u_EscapedPath := s |}.

Definition toy_name (n : string) : xml_Name := {| xn_Space := ""; xn_Local := n |}.
Definition toy_link : xml_StartElement :=
  {| xe_Name := toy_name "a";
     xe_Attr := [{| xa_Name := {| xn_Space := XLinkNS; xn_Local := "href" |}; xa_Value := "../media/p.png" |}] |}.

(** ["<d><a/></d>"]: a root with a linked element. *)
Definition toy_tokens : list xml_Token :=
  [StartElement {| xe_Name := toy_name "d"; xe_Attr := [] |}; StartElement toy_link; EndElement (toy_name "a");
   EndElement (toy_name "d")].

Definition toy_lib : Stdlib := {|
  ToLower := lower; EqualFold a b := lower a == lower b; url_Parse := toy_url;
  xml_Tokens b := if bool_decide (b = str_bytes "<d/>") then (toy_tokens, true) else ([], true) |}.

Definition toy_has (name : string) : bool := name == "media/p.png".

Lemma Inspect_passive_witness :
  Inspect (lib := toy_lib) "xl/sheet.xml" (Some toy_has) (λ _, None) (str_bytes "<d/>") = Ok ()
  ∧ passive_element (lib := toy_lib) "xl/sheet.xml" (Some toy_has) 1 toy_link.
Proof.
  assert (H : Inspect (lib := toy_lib) "xl/sheet.xml" (Some toy_has) (λ _, None) (str_bytes "<d/>") = Ok ())
    by (vm_compute; reflexivity).
  split; [done|]. apply (Inspect_passive (lib := toy_lib)) in H as (_ & _ & _ & _ & _ & Hall & _).
  exact (Hall [StartElement {| xe_Name := toy_name "d"; xe_Attr := [] |}] (StartElement toy_link)
           [EndElement (toy_name "a"); EndElement (toy_name "d")] eq_refl).
Defined.

Definition toy_entry (name : string) (size : Z) : zip_File :=
  {| zf_Name := name; zf_Flags := 0; zf_Method := 0; zf_Mode := ModeRegular; zf_CRC32 := 0; zf_CompressedSize64 := size;
     zf_UncompressedSize64 := size; zf_Extra := []; zf_Comment := ""; zf_DataOffset := None |}.

Lemma ArchiveXML_accepts_witness :
  let files := [toy_entry "media/p.png" 5; toy_entry "xl/sheet.xml" 4] in
  let open_ (f : zip_File) : option drained := Some (str_bytes "<d/>", true) in
  ∃ a, ArchiveXML (lib := toy_lib) (λ _, None) open_ files = Ok a ∧ Has a "media/p.png" = true ∧ expanded files <= MaxExpandedBytes.
Proof.
  intros files open_. destruct (ArchiveXML (lib := toy_lib) (λ _, None) open_ files) as [a|e] eqn:E.
  2: { exfalso. assert (Hok : is_ok (ArchiveXML (lib := toy_lib) (λ _, None) open_ files) = true) by (vm_compute; reflexivity).
       by rewrite E in Hok. }
  exists a. split; [done|].
  destruct (ArchiveXML_accepts (lib := toy_lib) _ _ files a ltac:(repeat constructor; cbn; lia) E) as (_ & Hexp & _ & _ & Hhas & _).
  split; [|done]. rewrite Hhas. reflexivity.
Defined.
