(* ===== verification/FilePolicy.v ===== *)
(** * File policy

    [services/file-service/internal/filepolicy]: the catalog of formats and the outcome
    of a classification ([catalog.go]), the dispatch of an inspection, signatures, PDF
    ([inspect.go]), text formats and the XML walk ([text.go]), e-mail ([email.go]).
    Containers are in [ZipPolicy].

    A reader is the list of what its successive [Read] calls give. Content sniffing,
    JSON, CSV, e-mail and XML decoding are the standard library's: parameters. *)

From stdpp Require Import prelude gmap strings sorting.
From Stdlib Require Import ZArith Lia Ascii.
From S2P Require Import Prelude GoStrings Utf8 Paths ByteSearch DocumentGuard.
Local Open Scope Z_scope.

(** ** The catalog *)

Definition Version : Z := 1.

Inductive Decision := Allow | Restricted | Reject | Indeterminate.
Inductive Family := Document | Data | Office | Image | Media | Archive_ | Email | CAD | Unknown.
Inductive Code := Recognized | Unsupported | Disabled | Mismatch | Invalid | Active | BudgetExceeded | Opaque_.
Inductive Strategy := NoStrategy | Signature | Text | JSON | XML | Delimited | ZIP | OOXML | ODF | Unavailable | RFC822.
Inductive FormatID :=
| NoID | IDUnknown | IDEML | IDPDF | IDTXT | IDMD | IDCSV | IDTSV | IDJSON | IDXML | IDDOCX | IDXLSX | IDPPTX | IDODT
| IDODS | IDODP | IDZIP | IDJPEG | IDPNG | IDGIF | IDWEBP | IDMP3 | IDOGG | IDWAV | IDMP4 | IDWEBM | IDMOV | IDAVI.
Inductive Risk := NoRisk | RiskDocument | RiskEmail | RiskMarkup | RiskContainer.

#[export] Instance Decision_eq_dec : EqDecision Decision.
Proof. solve_decision. Defined.
#[export] Instance Family_eq_dec : EqDecision Family.
Proof. solve_decision. Defined.
#[export] Instance Code_eq_dec : EqDecision Code.
Proof. solve_decision. Defined.
#[export] Instance Strategy_eq_dec : EqDecision Strategy.
Proof. solve_decision. Defined.
#[export] Instance FormatID_eq_dec : EqDecision FormatID.
Proof. solve_decision. Defined.
#[export] Instance Risk_eq_dec : EqDecision Risk.
Proof. solve_decision. Defined.

Record Format := {
  f_ID : FormatID; f_Family : Family; f_Extensions : list string; f_MIME : string; f_Aliases : list string;
  f_Strategy : Strategy; f_Risk : Risk; f_Preview : bool; f_Enterprise : bool; f_Decision : option Decision }.
#[export] Instance Format_eq_dec : EqDecision Format.
Proof. solve_decision. Defined.

Record Profiles := { pr_Data : bool; pr_Office : bool; pr_Archives : bool }.

Record Result := {
  r_Format : Format; r_Decision : Decision; r_Code : Code; r_Version : Z; r_MIMEMismatch : bool }.
#[export] Instance Result_eq_dec : EqDecision Result.
Proof. solve_decision. Defined.

(** The rows of the catalog; [row] is the format without risk, preview or profile. *)
Definition row (id : FormatID) (family : Family) (exts : list string) (mime : string) (aliases : list string)
    (strategy : Strategy) : Format :=
  {| f_ID := id; f_Family := family; f_Extensions := exts; f_MIME := mime; f_Aliases := aliases;
     f_Strategy := strategy; f_Risk := NoRisk; f_Preview := false; f_Enterprise := false; f_Decision := Some Allow |}.
Definition with_risk (r : Risk) (f : Format) : Format :=
  {| f_ID := f_ID f; f_Family := f_Family f; f_Extensions := f_Extensions f; f_MIME := f_MIME f;
     f_Aliases := f_Aliases f; f_Strategy := f_Strategy f; f_Risk := r; f_Preview := f_Preview f;
     f_Enterprise := f_Enterprise f; f_Decision := f_Decision f |}.
Definition with_preview (f : Format) : Format :=
  {| f_ID := f_ID f; f_Family := f_Family f; f_Extensions := f_Extensions f; f_MIME := f_MIME f;
     f_Aliases := f_Aliases f; f_Strategy := f_Strategy f; f_Risk := f_Risk f; f_Preview := true;
     f_Enterprise := f_Enterprise f; f_Decision := f_Decision f |}.
Definition enterprise (f : Format) : Format :=
  {| f_ID := f_ID f; f_Family := f_Family f; f_Extensions := f_Extensions f; f_MIME := f_MIME f;
     f_Aliases := f_Aliases f; f_Strategy := f_Strategy f; f_Risk := f_Risk f; f_Preview := f_Preview f;
     f_Enterprise := true; f_Decision := f_Decision f |}.

Definition catalog : list Format :=
  [enterprise (with_risk RiskEmail (row IDEML Email [".eml"] "message/rfc822" ["text/plain"] RFC822));
   with_preview (with_risk RiskDocument (row IDPDF Document [".pdf"] "application/pdf" [] Signature));
   row IDTXT Document [".txt"] "text/plain" [] Text;
   enterprise (row IDMD Document [".md"; ".markdown"] "text/markdown" ["text/plain"] Text);
   with_preview (row IDCSV Data [".csv"] "text/csv" ["text/plain"; "application/vnd.ms-excel"] Delimited);
   enterprise (row IDTSV Data [".tsv"] "text/tab-separated-values" ["text/plain"] Delimited);
   enterprise (row IDJSON Data [".json"] "application/json" ["text/plain"; "text/json"] JSON);
   enterprise (with_risk RiskMarkup (row IDXML Data [".xml"] "application/xml" ["text/xml"; "text/plain"] XML));
   enterprise (with_preview (with_risk RiskContainer (row IDDOCX Office [".docx"] "application/vnd.openxmlformats-officedocument.wordprocessingml.document" [] OOXML)));
   enterprise (with_preview (with_risk RiskContainer (row IDXLSX Office [".xlsx"] "application/vnd.openxmlformats-officedocument.spreadsheetml.sheet" [] OOXML)));
   enterprise (with_preview (with_risk RiskContainer (row IDPPTX Office [".pptx"] "application/vnd.openxmlformats-officedocument.presentationml.presentation" [] OOXML)));
   enterprise (with_preview (with_risk RiskContainer (row IDODT Office [".odt"] "application/vnd.oasis.opendocument.text" [] ODF)));
   enterprise (with_preview (with_risk RiskContainer (row IDODS Office [".ods"] "application/vnd.oasis.opendocument.spreadsheet" [] ODF)));
   enterprise (with_risk RiskContainer (row IDODP Office [".odp"] "application/vnd.oasis.opendocument.presentation" [] ODF));
   enterprise (with_risk RiskContainer (row IDZIP Archive_ [".zip"] "application/zip" ["application/x-zip-compressed"] ZIP));
   with_preview (row IDJPEG Image [".jpg"; ".jpeg"] "image/jpeg" ["image/pjpeg"] Signature);
   with_preview (row IDPNG Image [".png"] "image/png" [] Signature);
   with_preview (row IDGIF Image [".gif"] "image/gif" [] Signature);
   row IDWEBP Image [".webp"] "image/webp" [] Signature;
   row IDMP3 Media [".mp3"] "audio/mpeg" ["audio/mp3"] Signature;
   row IDOGG Media [".ogg"; ".oga"; ".opus"] "application/ogg" ["audio/ogg"] Signature;
   row IDWAV Media [".wav"] "audio/wave" ["audio/wav"; "audio/x-wav"] Signature;
   row IDMP4 Media [".mp4"; ".m4a"] "video/mp4" ["audio/mp4"] Signature;
   row IDWEBM Media [".webm"] "video/webm" ["audio/webm"] Signature;
   row IDMOV Media [".mov"] "video/quicktime" [] Signature;
   row IDAVI Media [".avi"] "video/x-msvideo" [] Signature].

Definition restricted (ext : string) : option Family :=
  if ext ∈? [".doc"; ".xls"; ".ppt"; ".xlsb"; ".pages"; ".numbers"; ".key"] then Some Office
  else if ext == ".msg" then Some Email
  else if ext == ".rtf" then Some Document
  else if ext ∈? [".yaml"; ".yml"] then Some Data
  else if ext ∈? [".bmp"; ".tif"; ".tiff"] then Some Image
  else if ext ∈? [".tar"; ".gz"; ".tgz"; ".rar"; ".7z"] then Some Archive_
  else if ext ∈? [".dwg"; ".dxf"; ".step"; ".stp"; ".iges"; ".igs"; ".dwf"] then Some CAD
  else None.

Definition blocked : list string :=
  [".exe"; ".dll"; ".com"; ".bat"; ".cmd"; ".ps1"; ".sh"; ".js"; ".mjs"; ".vbs"; ".jar"; ".apk"; ".html"; ".htm"; ".svg";
   ".docm"; ".xlsm"; ".pptm"; ".dotm"; ".xlam"; ".ppam"; ".pem"; ".p12"; ".pfx"].

(** The zero [Format] of an extension the catalog does not know. *)
Definition unknown_format : Format :=
  {| f_ID := IDUnknown; f_Family := Unknown; f_Extensions := []; f_MIME := ""; f_Aliases := [];
     f_Strategy := NoStrategy; f_Risk := NoRisk; f_Preview := false; f_Enterprise := false; f_Decision := None |}.

Definition enabled (f : Format) (p : Profiles) : bool :=
  if negb (f_Enterprise f) then true
  else match f_Family f with Office => pr_Office p | Archive_ => pr_Archives p | _ => pr_Data p end.

Definition plausibleMIME (f : Format) (m : string) : bool :=
  if (m == "") || (m == "application/octet-stream") || (m == f_MIME f) || (m ∈? f_Aliases f) then true
  else (m == "application/zip") && (bool_decide (f_Strategy f = OOXML) || bool_decide (f_Strategy f = ODF)).

(** The renderer of a canonical MIME type. *)
Fixpoint PreviewMIME_in (formats : list Format) (m : string) : string :=
  match formats with
  | [] => m
  | f :: formats =>
      if negb (f_MIME f == m) || negb (f_Preview f) then PreviewMIME_in formats m
      else match f_Strategy f with
           | OOXML | ODF => "application/zip"
           | Delimited => "text/plain"
           | _ => PreviewMIME_in formats m
           end
  end.
Definition PreviewMIME (m : string) : string := PreviewMIME_in catalog m.

Definition PolicyPreviewMIME (m : string) (id : FormatID) (version : Z) : string :=
  if version =? 0 then PreviewMIME m
  else if negb (version =? Version) then ""
  else if existsb (λ f, bool_decide (f_ID f = id) && (f_MIME f == m) && f_Preview f) catalog then PreviewMIME m
  else "".

(** ** Inspection: limits, errors, readers *)

Definition MaxTextBytes : Z := 2 * 2 ^ 20.
Definition MaxContainerBytes : Z := 20 * 2 ^ 20.
Definition MaxExpandedBytes : Z := 20 * 2 ^ 20.
Definition MaxEntries : Z := 256.
Definition MaxExpansionRatio : Z := 100.
Definition MaxNameBytes : Z := 255.
Definition MaxXMLDepth : Z := 64.
Definition MaxXMLAttributes : Z := 64.

Definition errStructure : error := ErrNew "filepolicy.errStructure".
Definition errActive : error := ErrNew "filepolicy.errActive".
Definition errBudget : error := ErrNew "filepolicy.errBudget".
Definition errOpaque : error := ErrNew "filepolicy.errOpaque".
Definition io_EOF : error := ErrNew "io.EOF".

(** A reader: what its [Read] calls give, then the last one with its error ([None] is
    [io.EOF]); a call may give bytes together with the error. *)
Record Reader := { rd_pieces : list (list Z); rd_last : list Z; rd_err : option error }.

Definition rd_content (r : Reader) : list Z := mjoin (rd_pieces r) ++ rd_last r.

(** [io.ReadAll] and [io.ReadFull]. *)
Definition ReadAll (r : Reader) : result (list Z) :=
  match rd_err r with None => Ok (rd_content r) | Some e => Fail e end.
(** [io.ReadAll(io.LimitReader(r, n))]. *)
Definition ReadLimit (n : Z) (r : Reader) : result (list Z) :=
  if n <=? Z.of_nat (length (rd_content r)) then Ok (take (Z.to_nat n) (rd_content r)) else ReadAll r.
Definition io_ErrUnexpectedEOF : error := ErrNew "io.ErrUnexpectedEOF".
Definition ReadFull (n : Z) (r : Reader) : result (list Z) :=
  if n <=? Z.of_nat (length (rd_content r)) then Ok (take (Z.to_nat n) (rd_content r))
  else Fail (default (if rd_content r == [] then io_EOF else io_ErrUnexpectedEOF) (rd_err r)).

(** An [io.ReadSeeker]: a seek to an offset from the start gives the reader of what
    follows, or fails. *)
Definition ReadSeeker : Type := Z → result Reader.

(** [contextReader] on a context that is already done. *)
Definition contextReader (ctx : option error) (r : Reader) : Reader :=
  match ctx with
  | None => r
  | Some e => {| rd_pieces := []; rd_last := []; rd_err := Some e |}
  end.

Definition ctx_check (ctx : option error) : result unit :=
  match ctx with None => Ok () | Some e => Fail e end.

Definition containsToken (b : list Z) (tokens : list (list Z)) : bool := containsAny b tokens.

Definition dangerousHead (head : list Z) : bool :=
  existsb (HasPrefixB head)
    [str_bytes "MZ"; [0x7f; 69; 76; 70]; str_bytes "#!"; [0xca; 0xfe; 0xba; 0xbe];
     [0xd0; 0xcf; 0x11; 0xe0; 0xa1; 0xb1; 0x1a; 0xe1]].

(** The loop of [rejectTokens]: a window of the last 32 bytes crosses from one read to
    the next. *)
Fixpoint rejectTokens_loop (tokens : list (list Z)) (tail : list Z) (pieces : list (list Z)) (last : list Z)
    (err : option error) : result unit :=
  match pieces with
  | [] => if containsToken (tail ++ last) tokens then Fail errActive
          else match err with None => Ok () | Some e => Fail e end
  | p :: pieces =>
      let window := tail ++ p in
      if containsToken window tokens then Fail errActive
      else rejectTokens_loop tokens (last_bytes 32 window) pieces last err
  end.

Definition rejectTokens (ctx : option error) (source : Reader) (tokens : list (list Z)) : result unit :=
  let r := contextReader ctx source in
  rejectTokens_loop tokens [] (rd_pieces r) (rd_last r) (rd_err r).

(** ** Results *)

(** The rest of the standard library the inspections use. *)
Class Decoders := {
  ParseMediaType : string → option string;
  DetectContentType : list Z → string;
  bytes_ToLower : list Z → list Z;
  json_Valid : list Z → bool;
  csv_Records : Z → list Z → list (list string) * option error;
  ParseFloat_ok : string → bool;
  mail_Headers : list Z → option (string → list string);
  mail_Body : list Z → drained;
  mail_Base64 : list Z → drained;
  mail_QuotedPrintable : list Z → drained;
  mail_Addresses : string → bool;
  mail_Date : string → bool;
  mail_MediaType : string → option (string * string);
}.
Section policy.
Context {lib : Stdlib}.

Context {dec : Decoders}.

Definition byName (filename : string) : option Format :=
  let ext := ToLower (Ext filename) in
  List.find (λ f, ext ∈? f_Extensions f) catalog.

(** [mime.ParseMediaType] with its error dropped: the empty type. *)
Definition outcome (f : Format) (d : Decision) (c : Code) (declared : string) : Result :=
  let m := default "" (ParseMediaType declared) in
  {| r_Format := f; r_Decision := d; r_Code := c; r_Version := Version; r_MIMEMismatch := negb (plausibleMIME f m) |}.

Definition unknown (filename : string) (f : Format) (declared : string) : Result :=
  let ext := ToLower (Ext filename) in
  if ext ∈? blocked then outcome f Reject Active declared
  else match restricted ext with
       | Some family =>
           outcome {| f_ID := f_ID f; f_Family := family; f_Extensions := f_Extensions f; f_MIME := f_MIME f;
                      f_Aliases := f_Aliases f; f_Strategy := f_Strategy f; f_Risk := f_Risk f;
                      f_Preview := f_Preview f; f_Enterprise := f_Enterprise f; f_Decision := f_Decision f |}
             Restricted Opaque_ declared
       | None => outcome f Indeterminate Unsupported declared
       end.

Definition inspectionResult (f : Format) (declared : string) (r : result unit) : result Result :=
  match r with
  | Ok _ =>
      let result := outcome f Allow Recognized declared in
      Ok (if r_MIMEMismatch result
          then {| r_Format := f; r_Decision := Reject; r_Code := Mismatch; r_Version := Version; r_MIMEMismatch := true |}
          else result)
  | Fail err =>
      if errors_Is err errActive then Ok (outcome f Reject Active declared)
      else if errors_Is err errBudget then Ok (outcome f Indeterminate BudgetExceeded declared)
      else if errors_Is err errOpaque then Ok (outcome f Restricted Opaque_ declared)
      else if errors_Is err errStructure then Ok (outcome f Reject Invalid declared)
      else Fail err
  end.

(** ** Text formats *)

(** [utf8.FullRune]: the bytes hold a whole encoding, valid or not, of their first
    rune. *)
Definition FullRune (bs : list Z) : bool :=
  match bs with
  | [] => false
  | b0 :: rest =>
      let need := if (0xC2 <=? b0) && (b0 <=? 0xDF) then 2%nat
                  else if (0xE0 <=? b0) && (b0 <=? 0xEF) then 3%nat
                  else if (0xF0 <=? b0) && (b0 <=? 0xF4) then 4%nat else 1%nat in
      let lo := if b0 =? 0xE0 then 0xA0 else if b0 =? 0xF0 then 0x90 else 0x80 in
      let hi := if b0 =? 0xED then 0x9F else if b0 =? 0xF4 then 0x8F else 0xBF in
      if (need <=? S (length rest))%nat then true
      else match rest with
           | b1 :: rest =>
               if negb ((lo <=? b1) && (b1 <=? hi)) then true
               else match rest with b2 :: _ => negb (cont b2) | [] => false end
           | [] => false
           end
  end.

Definition forbiddenTextRune (r : Z) : bool := IsControl r && negb (r =? 10) && negb (r =? 13) && negb (r =? 9).

(** What is left of a window that ends in the middle of a rune; [fuel] is its
    length. *)
Fixpoint validateTextRunes (fuel : nat) (b : list Z) : result (list Z) :=
  match fuel, b with
  | S fuel, _ :: _ =>
      let '(ch, n) := decode_rune b in
      if (ch =? RuneError) && (n =? 1)%nat then
        if negb (FullRune b) then Ok b else Fail errActive
      else if forbiddenTextRune ch then Fail errActive
      else validateTextRunes fuel (drop n b)
  | _, _ => Ok []
  end.

Definition text_tokens : list (list Z) :=
  str_bytes <$> ["<!doctype"; "<!entity"; "<?xml"; "<html"; "<script"; "<svg"; "#!"; "-----begin private key";
                 "-----begin rsa private key"].
Definition forbiddenTextWindow (b : list Z) : bool := containsToken b text_tokens.

Definition completeText (count size : Z) (tail : list Z) : result unit :=
  guard! negb (negb (count =? size) || negb (tail == [])) else errStructure ;; Ok ().

(** One [Read] of [inspectPlainText]. *)
Record text_state := { ts_count : Z; ts_rune : list Z; ts_token : list Z }.
Definition text_step (s : text_state) (p : list Z) : result text_state :=
  let window := ts_rune s ++ p in
  tail ← validateTextRunes (length window) window;
  let tokens := bytes_ToLower (ts_token s ++ p) in
  guard! negb (forbiddenTextWindow tokens) else errActive ;;
  Ok {| ts_count := ts_count s + Z.of_nat (length p); ts_rune := tail; ts_token := last_bytes 32 tokens |}.

Fixpoint plain_loop (s : text_state) (pieces : list (list Z)) (last : list Z) (err : option error) (size : Z)
  : result unit :=
  match pieces with
  | p :: pieces => s ← text_step s p; plain_loop s pieces last err size
  | [] =>
      s ← text_step s last;
      match err with
      | None => completeText (ts_count s) size (ts_rune s)
      | Some e => Fail e
      end
  end.

Definition inspectPlainText (ctx : option error) (source : Reader) (size : Z) : result unit :=
  let r := contextReader ctx source in
  plain_loop {| ts_count := 0; ts_rune := []; ts_token := [] |} (rd_pieces r) (rd_last r) (rd_err r) size.

(** [bytes.TrimSpace]. *)
Definition TrimSpaceB (b : list Z) : list Z := str_bytes (TrimSpace (bytes_str b)).

Definition passive_tokens : list (list Z) :=
  str_bytes <$> ["<!doctype"; "<!entity"; "<html"; "<script"; "<svg"; "-----begin private key";
                 "-----begin rsa private key"].
Definition passiveText (data : list Z) : bool :=
  if negb (valid_bytes data) || dangerousHead (TrimSpaceB data) then false
  else if existsb (λ '(r, _), IsControl r && negb (r =? 10) && negb (r =? 13) && negb (r =? 9)) (decode_runes 0 data)
  then false
  else negb (containsToken (bytes_ToLower data) passive_tokens).

(** *** Delimited text *)

Definition formulaCell (cell : string) : bool :=
  let cell := TrimSpace cell in
  match cell with
  | EmptyString => false
  | String c _ =>
      if bool_decide (c = "="%char) || bool_decide (c = "@"%char) then true
      else if bool_decide (c = "+"%char) || bool_decide (c = "-"%char) then negb (ParseFloat_ok cell)
      else HasPrefix cell (bytes_str [0xEF; 0xBC; 0x9D]) || HasPrefix cell (bytes_str [0xEF; 0xBC; 0xA0])
  end.
Definition activeRecord (record : list string) : bool := existsb formulaCell record.

(** [csv.Reader.Read] over the data: the records, then [io.EOF] or a parse error. *)
Definition passiveCSVRecord (records : list (list string)) (err : option error)
  : result (list string * list (list string)) :=
  match records with
  | record :: rest => guard! negb (activeRecord record) else errActive ;; Ok (record, rest)
  | [] => Fail (match err with None => io_EOF | Some _ => errStructure end)
  end.

Fixpoint csv_rows (records : list (list string)) (err : option error) (rows : Z) : result Z :=
  match passiveCSVRecord records err with
  | Fail e => if errors_Is e io_EOF then Ok rows else Fail e
  | Ok _ => match records with _ :: records => csv_rows records err (rows + 1) | [] => Ok rows end
  end.

Definition validateDelimited (data : list Z) (id : FormatID) : result unit :=
  let '(records, err) := csv_Records (if bool_decide (id = IDTSV) then 9 else 44) data in
  match passiveCSVRecord records err with
  | Fail e => Fail (if errors_Is e io_EOF then errStructure else e)
  | Ok (first, rest) =>
      guard! negb (Z.of_nat (length first) <? 2) else errStructure ;;
      rows ← csv_rows rest err 1;
      guard! negb (rows <? 2) else errStructure ;; Ok ()
  end.

(** *** The XML walk

    A visitor of the start elements keeps a state of its own. *)

Record walk (V : Type) := { w_depth : Z; w_roots : Z; w_inside : bool; w_visit : V }.
Arguments w_depth {V} _.
Arguments w_roots {V} _.
Arguments w_inside {V} _.
Arguments w_visit {V} _.

Definition activeElements : list string :=
  ["script"; "html"; "svg"; "iframe"; "object"; "oleobject"; "activex"; "altchunk"; "fldchar"; "instrtext"; "fldsimple";
   "ddelink"; "externallink"; "applet"; "plugin"; "encryption-data"; "encrypted-package"; "event-listener";
   "event-listeners"; "execute-macro"].

Definition activeAttribute (a : xml_Attr) : bool :=
  let name := ToLower (xn_Local (xa_Name a)) in
  if HasPrefix name "on" || (name == "formula") then true
  else (name == "targetmode") && negb (xa_Value a == "Internal").

Fixpoint passiveAttributes (seen : list xml_Name) (attrs : list xml_Attr) : result unit :=
  match attrs with
  | [] => Ok ()
  | a :: attrs =>
      guard! negb (xa_Name a ∈? seen) else errStructure ;;
      guard! negb (activeAttribute a) else errActive ;;
      passiveAttributes (xa_Name a :: seen) attrs
  end.

Definition passiveElement (t : xml_StartElement) : result unit :=
  guard! negb ((ToLower (xn_Local (xe_Name t)) ∈? activeElements) || (xn_Space (xe_Name t) == XIncludeNS))
    else errActive ;;
  passiveAttributes [] (xe_Attr t).

Definition validXMLDeclaration (target : string) (depth roots : Z) : bool :=
  (target == "xml") && (depth =? 0) && (roots =? 0).

(** [scriptSection.inspect]: whether the walk is inside an empty script section. *)
Definition script_inspect (inside : bool) (t : xml_Token) : result bool :=
  match t with
  | StartElement e =>
      guard! negb inside else errActive ;;
      if negb (EqualFold (xn_Local (xe_Name e)) "scripts") then Ok inside
      else guard! xn_Space (xe_Name e) == officeNS else errActive ;; Ok true
  | CharData text => guard! negb (inside && negb (TrimSpace text == "")) else errActive ;; Ok inside
  | EndElement _ => Ok false
  | _ => Ok inside
  end.

Section visitor.
Context {V : Type} (visit : V → xml_StartElement → Z → result V).

Definition startXML (s : walk V) (e : xml_StartElement) : result (walk V) :=
  let depth := w_depth s + 1 in
  guard! negb ((MaxXMLDepth <? depth) || (MaxXMLAttributes <? Z.of_nat (length (xe_Attr e)))) else errBudget ;;
  passiveElement e;;
  v ← visit (w_visit s) e depth;
  Ok {| w_depth := depth; w_roots := if w_depth s =? 0 then w_roots s + 1 else w_roots s;
        w_inside := w_inside s; w_visit := v |}.

Definition xmlToken (s : walk V) (t : xml_Token) : result (walk V) :=
  inside ← script_inspect (w_inside s) t;
  let s := {| w_depth := w_depth s; w_roots := w_roots s; w_inside := inside; w_visit := w_visit s |} in
  match t with
  | Directive => Fail errActive
  | ProcInst target => guard! validXMLDeclaration target (w_depth s) (w_roots s) else errActive ;; Ok s
  | StartElement e => startXML s e
  | EndElement _ =>
      Ok {| w_depth := w_depth s - 1; w_roots := w_roots s; w_inside := inside; w_visit := w_visit s |}
  | CharData text => guard! negb ((w_depth s =? 0) && negb (TrimSpace text == "")) else errStructure ;; Ok s
  | Comment => Ok s
  end.

Fixpoint xml_loop (s : walk V) (tokens : list xml_Token) (eof : bool) : result (walk V) :=
  match tokens with
  | [] => if eof then Ok s else Fail errStructure
  | t :: tokens => s ← xmlToken s t; xml_loop s tokens eof
  end.

Definition validateXML (ctx : option error) (data : list Z) (v : V) : result V :=
  let '(tokens, eof) := match ctx with None => xml_Tokens data | Some _ => ([], false) end in
  s ← xml_loop {| w_depth := 0; w_roots := 0; w_inside := false; w_visit := v |} tokens eof;
  guard! negb (negb (w_depth s =? 0) || negb (w_roots s =? 1)) else errStructure ;;
  ctx_check ctx;; Ok (w_visit s).

End visitor.

(** A nil visitor. *)
Definition no_visit (v : unit) (e : xml_StartElement) (depth : Z) : result unit := Ok v.

Definition inspectXML (ctx : option error) (data : list Z) : result unit :=
  validateXML no_visit ctx data ();;
  match DocumentGuard.Inspect "" None (λ _, ctx) data with
  | Ok _ => Ok ()
  | Fail _ => Fail errActive
  end.

Definition trim_bom (data : list Z) : list Z :=
  if HasPrefixB data [0xEF; 0xBB; 0xBF] then drop 3 data else data.

Definition inspectText (ctx : option error) (r : Reader) (size : Z) (f : Format) : result unit :=
  if bool_decide (f_Strategy f = Text) then inspectPlainText ctx r size
  else
    guard! negb (MaxTextBytes <? size) else errBudget ;;
    data ← ReadLimit (MaxTextBytes + 1) (contextReader ctx r);
    guard! Z.of_nat (length data) =? size else errStructure ;;
    let data := trim_bom data in
    guard! passiveText data else errActive ;;
    match f_Strategy f with
    | JSON => guard! json_Valid data else errStructure ;; Ok ()
    | XML => inspectXML ctx data
    | Delimited => validateDelimited data (f_ID f)
    | _ => Ok ()
    end.

(** ** E-mail *)

Definition header_get (h : string → list string) (name : string) : string := default "" (head (h name)).

Fixpoint mailAddresses (h : string → list string) (names : list string) : result unit :=
  match names with
  | [] => Ok ()
  | name :: names =>
      guard! (length (h name) =? 1)%nat else errStructure ;;
      guard! mail_Addresses (header_get h name) else errStructure ;;
      mailAddresses h names
  end.

Definition mailHeaders (h : string → list string) : result unit :=
  mailAddresses h ["From"; "To"];;
  guard! (length (h "Date") =? 1)%nat && (length (h "Content-Type") =? 1)%nat else errStructure ;;
  guard! mail_Date (header_get h "Date") else errStructure ;;
  match mail_MediaType (header_get h "Content-Type") with
  | None => Fail errStructure
  | Some (t, charset) =>
      guard! t == "text/plain" else errOpaque ;;
      let charset := ToLower charset in
      guard! (charset == "") || (charset == "utf-8") || (charset == "us-ascii") else errOpaque ;; Ok ()
  end.

(** The body under its transfer encoding. *)
Definition mailBody (h : string → list string) (message : list Z) : result drained :=
  guard! negb (1 <? Z.of_nat (length (h "Content-Transfer-Encoding"))) else errStructure ;;
  let encoding := ToLower (header_get h "Content-Transfer-Encoding") in
  if encoding ∈? [""; "7bit"; "8bit"] then Ok (mail_Body message)
  else if encoding == "base64" then Ok (mail_Base64 message)
  else if encoding == "quoted-printable" then Ok (mail_QuotedPrintable message)
  else Fail errOpaque.

Definition inspectEmail (ctx : option error) (source : Reader) (size : Z) : result unit :=
  guard! negb (MaxTextBytes <? size) else errBudget ;;
  b ← ReadLimit (MaxTextBytes + 1) (contextReader ctx source);
  guard! Z.of_nat (length b) =? size else errStructure ;;
  match mail_Headers b with
  | None => Fail errStructure
  | Some h =>
      mailHeaders h;;
      body ← mailBody h b;
      match ReadAllLimit (MaxTextBytes + 1) (match ctx with None => body | Some _ => ([], false) end) with
      | None => Fail errStructure
      | Some decoded =>
          guard! negb ((decoded == []) || negb (passiveText decoded)) else errActive ;; Ok ()
      end
  end.

(** ** Signatures *)

Definition cut_semicolon (m : string) : string := match Cut ";" m with Some (before, _) => before | None => m end.

Definition slice (lo hi : nat) (b : list Z) : list Z := take (hi - lo) (drop lo b).

Definition inspectMOV (ctx : option error) (head : list Z) : result unit :=
  guard! negb ((length head <? 12)%nat || negb (slice 4 8 head == str_bytes "ftyp")
               || negb (slice 8 12 head == str_bytes "qt  ")) else errStructure ;;
  ctx_check ctx.

Definition inspectAVI (ctx : option error) (head : list Z) : result unit :=
  guard! negb ((length head <? 12)%nat || negb (take 4 head == str_bytes "RIFF")
               || negb (slice 8 12 head == str_bytes "AVI ")) else errStructure ;;
  ctx_check ctx.

Definition pdf_tokens : list (list Z) :=
  str_bytes <$> ["/Encrypt"; "/JavaScript"; "/JS"; "/Launch"; "/EmbeddedFile"; "/OpenAction"; "/AA"; "/RichMedia";
                 "/XFA"; "#"].

Definition HasSuffixB (b suffix : list Z) : bool :=
  (length suffix <=? length b)%nat && bool_decide (drop (length b - length suffix) b = suffix).

Definition inspectPDF (ctx : option error) (r : ReadSeeker) (size : Z) : result unit :=
  guard! negb (size <? 12) else errStructure ;;
  r1 ← r (Z.max 0 (size - 1024));
  tail ← ReadLimit 1024 r1;
  guard! HasSuffixB (TrimSpaceB tail) (str_bytes "%%EOF") else errStructure ;;
  r2 ← r 0;
  rejectTokens ctx r2 pdf_tokens.

Definition inspectSignature (ctx : option error) (r : ReadSeeker) (size : Z) (head : list Z) (f : Format) : result unit :=
  if bool_decide (f_ID f = IDMOV) then inspectMOV ctx head
  else if bool_decide (f_ID f = IDAVI) then inspectAVI ctx head
  else
    let detected := cut_semicolon (DetectContentType head) in
    guard! (detected == f_MIME f) || (detected ∈? f_Aliases f) else errStructure ;;
    if bool_decide (f_ID f = IDPDF) then inspectPDF ctx r size else ctx_check ctx.

Definition textSignature (head : list Z) (strategy : Strategy) : bool :=
  let m := cut_semicolon (DetectContentType head) in
  (m == "text/plain") || bool_decide (strategy = XML) && (m == "text/xml").

(** ** The inspection *)

(** [inspectZIP], which inspects the leaves of an archive in turn. *)
Context (inspectZIP : option error → ReadSeeker → Z → Format → Profiles → result unit).

(** [r0] is the source after the seek to its start. *)
Definition inspectFormat (ctx : option error) (r : ReadSeeker) (r0 : Reader) (size : Z) (head : list Z) (f : Format)
    (p : Profiles) : result unit :=
  match f_Strategy f with
  | RFC822 => inspectEmail ctx r0 size
  | ZIP | OOXML | ODF => inspectZIP ctx r size f p
  | Text | JSON | XML | Delimited =>
      guard! textSignature head (f_Strategy f) else errStructure ;;
      inspectText ctx r0 size f
  | Signature => inspectSignature ctx r size head f
  | NoStrategy | Unavailable => Fail errOpaque
  end.

Definition Inspect_with (ctx : option error) (source : ReadSeeker) (size : Z) (filename declared : string)
    (profiles : Profiles) : result Result :=
  match byName filename with
  | None => Ok (unknown filename unknown_format declared)
  | Some f =>
      if negb (bool_decide (f_Decision f = Some Allow)) then Ok (outcome f (default Allow (f_Decision f)) Opaque_ declared)
      else if negb (enabled f profiles) then Ok (outcome f Restricted Disabled declared)
      else if size <=? 0 then Ok (outcome f Reject Invalid declared)
      else
        r ← source 0;
        head ← ReadFull (Z.min size 512) r;
        if dangerousHead head then Ok (outcome f Reject Active declared)
        else
          r0 ← source 0;
          inspectionResult f declared (inspectFormat ctx source r0 size head f profiles)
  end.

End policy.
