(* ===== verification/PolicyStreams.v ===== *)
(** * File policy: inspections of a stream

    The token search and the plain text inspection of [FilePolicy] read their source
    piece by piece. Whatever the pieces are, the search is exact, and an accepted text
    is valid UTF-8 without control characters or active markup. *)

From stdpp Require Import prelude gmap strings sorting.
From Stdlib Require Import ZArith Lia Ascii.
From S2P Require Import Prelude GoStrings Utf8 Paths ByteSearch DocumentGuard FilePolicy.
Local Open Scope Z_scope.

(** ** The token search *)

Lemma rejectTokens_loop_exact tokens seen tail pieces last :
  Forall (λ t, (length t <= 33)%nat) tokens → containsToken seen tokens = false →
  (∃ pre, seen = pre ++ tail ∧ ∀ b, containsToken (seen ++ b) tokens = containsToken (tail ++ b) tokens) →
  rejectTokens_loop tokens tail pieces last None
  = if containsToken (seen ++ mjoin pieces ++ last) tokens then Fail errActive else Ok ().
Proof.
  intros Ht. revert seen tail. induction pieces as [|p pieces IH]; intros seen tail Hs (pre & Hp & Hw).
  { cbn. by rewrite Hw. }
  assert (Heq : seen ++ mjoin (p :: pieces) ++ last = (seen ++ p) ++ mjoin pieces ++ last)
    by (cbn; by rewrite <-!app_assoc).
  rewrite Heq. cbn [rejectTokens_loop]. rewrite <-Hw. destruct (containsToken (seen ++ p) tokens) eqn:E.
  - assert (containsToken ((seen ++ p) ++ mjoin pieces ++ last) tokens = true) as ->; [|done].
    apply containsAny_spec in E as (t & Hin & Hocc).
    apply containsAny_spec. exists t. split; [done|]. by apply occurs_app_l.
  - apply IH; [done|]. destruct (last_bytes_suffix 32 (tail ++ p)) as [pre' Hpre]. exists (pre ++ pre'). split.
    + by rewrite <-app_assoc, <-Hpre, Hp, <-app_assoc.
    + intros b. rewrite <-app_assoc, Hw, app_assoc. rewrite Hw in E. unfold containsToken in *.
      rewrite (containsAny_window 32 (tail ++ p)) by done. by rewrite E.
Qed.

(** The verdict is that of one search over the whole content. *)
Lemma rejectTokens_exact r tokens :
  Forall (λ t, (length t <= 33)%nat) tokens → Forall (λ t, t ≠ []) tokens → rd_err r = None →
  rejectTokens None r tokens = if containsToken (rd_content r) tokens then Fail errActive else Ok ().
Proof.
  intros Ht Hne He. unfold rejectTokens, contextReader, rd_content. rewrite He.
  apply (rejectTokens_loop_exact tokens [] []); [done| |by exists []].
  apply containsAny_false. intros t Hin Hocc. rewrite Forall_forall in Hne. by eapply Hne, occurs_nil.
Qed.

(** ** Runes across reads *)

Definition text_rune (r : Z) : Prop := scalar r ∧ forbiddenTextRune r = false.

(** Deciding the comparisons of the decoder from the context. *)
Ltac z_decide :=
  repeat match goal with
  | |- context [?a <=? ?b] =>
      first [rewrite (proj2 (Z.leb_le a b)) by lia | rewrite (proj2 (Z.leb_gt a b)) by lia]
  | |- context [?a <? ?b] =>
      first [rewrite (proj2 (Z.ltb_lt a b)) by lia | rewrite (proj2 (Z.ltb_ge a b)) by lia]
  | |- context [?a =? ?b] =>
      first [rewrite (proj2 (Z.eqb_eq a b)) by lia | rewrite (proj2 (Z.eqb_neq a b)) by lia]
  end; cbn [andb negb].

Lemma partial_2 b0 : 0xC2 <= b0 <= 0xDF → decode_rune [b0] = (RuneError, 1%nat) ∧ FullRune [b0] = false.
Proof. intros ?. unfold decode_rune, FullRune. z_decide. done. Qed.

Lemma partial_3 b0 b1 n :
  0xE0 <= b0 <= 0xEF → 0x80 <= b1 <= 0xBF → (b0 = 0xE0 → 0xA0 <= b1) → (b0 = 0xED → b1 <= 0x9F) → (0 < n < 3)%nat →
  decode_rune (take n [b0; b1]) = (RuneError, 1%nat) ∧ FullRune (take n [b0; b1]) = false.
Proof.
  intros ???? Hn. destruct n as [|[|[|n] ] ]; try lia; cbn [take]; unfold decode_rune, FullRune; cbn [length]; z_decide.
  - done.
  - destruct (Z.eqb_spec b0 0xE0), (Z.eqb_spec b0 0xED), (Z.eqb_spec b0 0xF0), (Z.eqb_spec b0 0xF4); try lia; z_decide; done.
Qed.

Lemma partial_4 b0 b1 b2 n :
  0xF0 <= b0 <= 0xF4 → 0x80 <= b1 <= 0xBF → 0x80 <= b2 <= 0xBF →
  (b0 = 0xF0 → 0x90 <= b1) → (b0 = 0xF4 → b1 <= 0x8F) → (0 < n < 4)%nat →
  decode_rune (take n [b0; b1; b2]) = (RuneError, 1%nat) ∧ FullRune (take n [b0; b1; b2]) = false.
Proof.
  intros ????? Hn. unfold cont.
  destruct n as [|[|[|[|n] ] ] ]; try lia; cbn [take]; unfold decode_rune, FullRune, cont; cbn [length]; z_decide;
    [done|..];
    destruct (Z.eqb_spec b0 0xE0), (Z.eqb_spec b0 0xED), (Z.eqb_spec b0 0xF0), (Z.eqb_spec b0 0xF4); try lia; z_decide; done.
Qed.

(** The beginning of an encoding is no rune and not full. *)
Lemma partial_rune r n :
  scalar r → (0 < n < length (encode_rune r))%nat →
  decode_rune (take n (encode_rune r)) = (RuneError, 1%nat) ∧ FullRune (take n (encode_rune r)) = false.
Proof.
  intros Hr Hn. assert (Hb : 0 <= r <= 0x10FFFF) by (unfold scalar in Hr; lia).
  unfold encode_rune in *. repeat case_match; z_bools; cbn [length] in Hn; [lia|..].
  - assert (n = 1%nat) as -> by lia. apply partial_2. Z.to_euclidean_division_equations; lia.
  - assert (Hsc : r < 0xD800 ∨ 0xE000 <= r) by (unfold scalar in Hr; lia).
    match goal with |- context [take n [?a; ?b; ?c] ] => replace (take n [a; b; c]) with (take n [a; b])
      by (destruct n as [|[|[|n] ] ]; done || lia) end.
    apply partial_3; [Z.to_euclidean_division_equations; lia..|lia].
  - match goal with |- context [take n [?a; ?b; ?c; ?d] ] => replace (take n [a; b; c; d]) with (take n [a; b; c])
      by (destruct n as [|[|[|[|n] ] ] ]; done || lia) end.
    apply partial_4; [Z.to_euclidean_division_equations; lia..|lia].
Qed.

Lemma take_encode_cons n r rs :
  take n (encode_runes (r :: rs)) = take n (encode_rune r) ++ take (n - length (encode_rune r)) (encode_runes rs).
Proof. rewrite encode_runes_cons. apply take_app. Qed.

Lemma validateTextRunes_cons fuel b rest :
  validateTextRunes (S fuel) (b :: rest) =
    let '(ch, n) := decode_rune (b :: rest) in
    if (ch =? RuneError) && (n =? 1)%nat then
      if negb (FullRune (b :: rest)) then Ok (b :: rest) else Fail errActive
    else if forbiddenTextRune ch then Fail errActive
    else validateTextRunes fuel (drop n (b :: rest)).
Proof. done. Qed.

(** A prefix of a clean text is validated up to the rune it cuts. *)
Lemma validate_prefix fuel rs n :
  Forall text_rune rs → (length (take n (encode_runes rs)) <= fuel)%nat →
  ∃ k tail, validateTextRunes fuel (take n (encode_runes rs)) = Ok tail
    ∧ take n (encode_runes rs) = encode_runes (take k rs) ++ tail
    ∧ ((length (encode_runes rs) <= n)%nat → tail = []).
Proof.
  intros Hrs. revert n fuel. induction Hrs as [|r rs [Hr Hok] Hrs IH]; intros n fuel Hf.
  { exists O, []. change (encode_runes []) with (@nil Z). rewrite take_nil. by destruct fuel. }
  destruct n as [|n]; [exists O, []; by destruct fuel|]. pose proof (encode_rune_length r) as Hl.
  rewrite take_encode_cons in *. rewrite length_app in Hf. rewrite encode_runes_cons.
  destruct (decide (length (encode_rune r) <= S n)%nat) as [Hn|Hn].
  - rewrite take_ge in Hf |- * by lia. pose proof (decode_encode_rune r (take (S n - length (encode_rune r)) (encode_runes rs)) Hr) as Hd.
    destruct (IH (S n - length (encode_rune r))%nat (fuel - 1)%nat) as (k & tail & Hv & Ht & Hend); [lia|].
    exists (S k), tail. rewrite Ht at 2. cbn [take]. rewrite encode_runes_cons, <-app_assoc.
    split_and!; [|done|rewrite length_app; intros ?; apply Hend; lia].
    destruct fuel as [|fuel]; [lia|]. rewrite Nat.sub_succ, Nat.sub_0_r in Hv.
    destruct (encode_rune_cons r) as (b & bs & E). rewrite E in Hd |- *. cbn [app] in *.
    rewrite validateTextRunes_cons, Hd. rewrite <-E.
    assert ((r =? RuneError) && (length (encode_rune r) =? 1)%nat = false) as ->.
    { destruct (Z.eqb_spec r RuneError) as [->|]; done. }
    rewrite Hok, E. cbn [length drop]. change (b :: bs ++ ?x) with ((b :: bs) ++ x) in *.
    rewrite drop_app_length. rewrite E in Hv. exact Hv.
  - replace (S n - length (encode_rune r))%nat with O by lia. rewrite take_0, app_nil_r.
    destruct (partial_rune r (S n)) as [Hd Hfull]; [done|lia|].
    exists O, (take (S n) (encode_rune r)). split_and!; [|done|rewrite length_app; lia].
    destruct (encode_rune_cons r) as (b & bs & E). rewrite E in *. cbn [take] in *.
    destruct fuel as [|fuel]; [cbn in Hf; lia|]. rewrite validateTextRunes_cons, Hd. cbn [Z.eqb andb]. 
    rewrite Z.eqb_refl, Hfull. done.
Qed.

(** What has been passed over is the encoding of clean runes. *)
Lemma validate_sound fuel b tail :
  Forall is_byte b → (length b <= fuel)%nat → validateTextRunes fuel b = Ok tail →
  ∃ rs, Forall text_rune rs ∧ b = encode_runes rs ++ tail.
Proof.
  revert b. induction fuel as [|fuel IH]; intros b Hb Hf H.
  { destruct b; [|cbn in Hf; lia]. injection H as <-. by exists []. }
  destruct b as [|x b]; [injection H as <-; by exists []|].
  rewrite validateTextRunes_cons in H. destruct (decode_rune (x :: b)) as [r n] eqn:E.
  destruct ((r =? RuneError) && (n =? 1)%nat) eqn:Ebad.
  { destruct (FullRune (x :: b)); [done|]. injection H as <-. by exists []. }
  destruct (forbiddenTextRune r) eqn:Hok; [done|].
  destruct (decode_valid _ _ _ _ Hb E) as (Hr & Ht & Hn); [intros [-> ->]; by rewrite Z.eqb_refl in Ebad|].
  pose proof (encode_rune_length r) as Hl.
  destruct (IH (drop n (x :: b))) as (rs & Hrs & Hd); [by apply Forall_drop|rewrite length_drop; cbn in *; lia|done|].
  exists (r :: rs). split; [by constructor|]. by rewrite encode_runes_cons, <-app_assoc, <-Hd, <-Ht, take_drop.
Qed.

(** ** The plain text inspection *)

Definition lower_byte (b : Z) : Z := if (65 <=? b) && (b <=? 90) then b + 32 else b.
Definition lowerB (bs : list Z) : list Z := lower_byte <$> bs.
Definition ascii_bytes (bs : list Z) : Prop := Forall (λ b, 0 <= b < 0x80) bs.

Lemma lowerB_idem bs : lowerB (lowerB bs) = lowerB bs.
Proof.
  unfold lowerB. rewrite <-list_fmap_compose. apply list_fmap_ext. intros i b _. unfold compose, lower_byte.
  destruct ((65 <=? b) && (b <=? 90)) eqn:E; [|by rewrite E]. z_bools.
  by rewrite (proj2 (Z.leb_gt (b + 32) 90)), andb_false_r by lia.
Qed.

(** [bytes.ToLower] leaves the ASCII parts of a text where they are. *)
Class LowerLaws (dec : Decoders) : Prop := {
  lower_contains b t : ascii_bytes t → occurs t (lowerB b) → occurs t (bytes_ToLower b);
  lower_suffix b u pre : ascii_bytes u → lowerB b = pre ++ u → ∃ pre', bytes_ToLower b = pre' ++ u;
  lower_ascii b : ascii_bytes b → bytes_ToLower b = lowerB b }.

(** The tokens are in lower case and short. *)
Definition token_ok (t : list Z) : Prop := ascii_bytes t ∧ lowerB t = t ∧ (length t <= 33)%nat ∧ t ≠ [].
#[export] Instance token_ok_dec t : base.Decision (token_ok t).
Proof. unfold token_ok, ascii_bytes. apply _. Defined.

Lemma text_tokens_ok : Forall token_ok text_tokens.
Proof. apply (bool_decide_eq_true_1 _). vm_compute. reflexivity. Qed.

Section plain.
Context {lib : Stdlib} {dec : Decoders} {laws : LowerLaws dec}.

(** What the window remembers of the text read so far. *)
Record remembers (seen : list Z) (window : list Z) : Prop := {
  rm_clean : ∀ t, t ∈ text_tokens → ¬ occurs t (lowerB seen);
  rm_suffix : ∀ u pre, ascii_bytes u → (length u <= 32)%nat → lowerB seen = pre ++ u → ∃ pre', window = pre' ++ u }.

Lemma lowerB_app a b : lowerB (a ++ b) = lowerB a ++ lowerB b.
Proof. apply fmap_app. Qed.

Lemma lowerB_suffix_lower c pre u : lowerB c = pre ++ u → lowerB u = u.
Proof.
  intros H. assert (E : lowerB (pre ++ u) = pre ++ u) by (by rewrite <-H, lowerB_idem).
  rewrite lowerB_app in E. apply app_inj_1 in E as [_ E]; [done|]. unfold lowerB. by rewrite length_fmap.
Qed.

Lemma remembers_step seen window p :
  remembers seen window → forbiddenTextWindow (bytes_ToLower (window ++ p)) = false →
  remembers (seen ++ p) (last_bytes 32 (bytes_ToLower (window ++ p))).
Proof.
  intros [Hclean Hsuf] Hno. unfold forbiddenTextWindow, containsToken in Hno.
  pose proof (proj1 (containsAny_false _ _) Hno) as Hno'. constructor.
  - intros t Hin Hocc. pose proof (proj1 (Forall_forall _ _) text_tokens_ok t Hin) as (Ha & Hl & Hlen & _).
    apply (Hno' t Hin). apply lower_contains; [done|].
    rewrite lowerB_app in Hocc. apply occurs_app_inv in Hocc as [Hocc|(pre & u & v & post & [(-> & Hv & Hu & Hp)|(pre' & post' & Hp)])].
    + by destruct (Hclean t).
    + destruct (Hsuf u pre) as [pre' ->]; [by apply Forall_app in Ha as [? _]| |done|].
      { rewrite length_app in Hlen. destruct v; [done|]. cbn in Hlen. lia. }
      rewrite !lowerB_app, Hp, (lowerB_suffix_lower seen pre u Hu). exists (lowerB pre'), post. by rewrite <-!app_assoc.
    + rewrite lowerB_app. apply occurs_app_r. rewrite Hp. by exists pre', post'.
  - intros u pre Ha Hlen Hu. rewrite lowerB_app in Hu.
    assert (∃ pre', lowerB (window ++ p) = pre' ++ u) as [pre' Hl].
    { apply app_eq_app in Hu as (l & [ [Hs Hu]|[Hs Hp] ]).
      - destruct (Hsuf l pre) as [w Hw]; [rewrite Hu in Ha; by apply Forall_app in Ha as [? _]| |done|].
        { rewrite Hu, length_app in Hlen. lia. }
        exists (lowerB w). rewrite Hw, !lowerB_app, (lowerB_suffix_lower seen pre l Hs), Hu. by rewrite <-app_assoc.
      - exists (lowerB window ++ l). by rewrite lowerB_app, Hp, app_assoc. }
    destruct (lower_suffix _ _ _ Ha Hl) as [w ->]. by apply last_bytes_keeps.
Qed.

Lemma plain_loop_sound s seen pieces last size :
  plain_loop s pieces last None size = Ok () → Forall is_byte (ts_rune s ++ mjoin pieces ++ last) →
  remembers seen (ts_token s) →
  (∃ rs, Forall text_rune rs ∧ ts_rune s ++ mjoin pieces ++ last = encode_runes rs)
  ∧ size = ts_count s + Z.of_nat (length (mjoin pieces ++ last))
  ∧ ∀ t, t ∈ text_tokens → ¬ occurs t (lowerB (seen ++ mjoin pieces ++ last)).
Proof.
  revert s seen. induction pieces as [|p pieces IH]; intros s seen H Hb Hr; cbn [plain_loop] in H;
    apply bind_Ok in H as (s' & Hstep & H); unfold text_step in Hstep;
    apply bind_Ok in Hstep as (tail & Hv & Hstep); apply guard_Ok in Hstep as [Hno [= <-] ];
    apply negb_true_iff in Hno; pose proof (remembers_step _ _ _ Hr Hno) as Hr'.
  - change (mjoin []) with (@nil Z) in *. cbn [app] in *. apply validate_sound in Hv as (rs & Hrs & E); [|done|done].
    unfold completeText in H. cbn [ts_count ts_rune] in H. apply guard_Ok in H as [Hc _].
    apply negb_true_iff, orb_false_iff in Hc as [Hc Ht]. apply negb_false_iff in Hc, Ht.
    apply bool_decide_eq_true in Ht. z_bools. subst tail. rewrite app_nil_r in E.
    split_and!; [by exists rs|done|apply Hr'].
  - change (mjoin (p :: pieces)) with (p ++ mjoin pieces) in *. rewrite <-app_assoc in *.
    assert (Hb' : Forall is_byte (ts_rune s ++ p)) by (rewrite app_assoc in Hb; by apply Forall_app in Hb as [? _]).
    apply validate_sound in Hv as (rs & Hrs & E); [|done|done].
    apply (IH _ (seen ++ p)) in H as ((rs' & Hrs' & E') & Hc & Hocc); cbn [ts_rune ts_token ts_count] in *.
    + split_and!.
      * exists (rs ++ rs'). split; [by apply Forall_app|]. by rewrite encode_runes_app, <-E', !app_assoc, E.
      * rewrite !length_app in *. lia.
      * by rewrite <-app_assoc in Hocc.
    + rewrite app_assoc, E, <-app_assoc in Hb. by apply Forall_app in Hb as [_ ?].
    + done.
Qed.

(** On ASCII text the window misses nothing and finds nothing that is not there: the
    state follows the runes read and the lower case of what has been read. *)
Record tracks (s : text_state) (seen : list Z) (rs : list Z) : Prop := {
  tk_runes : seen = encode_runes rs ++ ts_rune s;
  tk_window : ∃ pre, lowerB seen = pre ++ ts_token s }.

Lemma ascii_prefix a b : ascii_bytes (a ++ b) → ascii_bytes a.
Proof. intros H. by apply Forall_app in H as [? _]. Qed.

Lemma ascii_lower bs : ascii_bytes bs → ascii_bytes (lowerB bs).
Proof.
  intros H. apply Forall_fmap. eapply Forall_impl; [exact H|]. intros b Hb. unfold compose, lower_byte.
  cbn in Hb. case_match; z_bools; lia.
Qed.

Lemma text_step_complete s seen before rs p rest :
  Forall text_rune rs → ascii_bytes (encode_runes (before ++ rs)) →
  (∀ t, t ∈ text_tokens → ¬ occurs t (lowerB (encode_runes (before ++ rs)))) →
  seen ++ p ++ rest = encode_runes (before ++ rs) → tracks s seen before →
  ∃ s' k, text_step s p = Ok s' ∧ tracks s' (seen ++ p) (before ++ take k rs)
    ∧ ts_count s' = ts_count s + Z.of_nat (length p) ∧ (rest = [] → ts_rune s' = []).
Proof.
  intros Hrs Ha Hno Heq [Hseen [pre Hpre] ]. pose proof Heq as Eq.
  rewrite encode_runes_app, Hseen, <-!app_assoc in Eq. apply app_inv_head in Eq.
  assert (Hq : take (length (ts_rune s ++ p)) (encode_runes rs) = ts_rune s ++ p)
    by (by rewrite <-Eq, app_assoc, take_app_length).
  destruct (validate_prefix (length (ts_rune s ++ p)) rs (length (ts_rune s ++ p)) Hrs) as (k & tail & Hv & Ht & Hend);
    [by rewrite Hq|]. rewrite Hq in Hv, Ht.
  assert (Hlow : lowerB (seen ++ p) = pre ++ ts_token s ++ lowerB p) by (by rewrite lowerB_app, Hpre, <-app_assoc).
  assert (Hasc : ascii_bytes (seen ++ p)) by (apply (ascii_prefix _ rest); by rewrite <-app_assoc, Heq).
  assert (Htok : bytes_ToLower (ts_token s ++ p) = ts_token s ++ lowerB p).
  { rewrite lower_ascii, lowerB_app.
    - by rewrite (lowerB_suffix_lower seen pre (ts_token s) Hpre).
    - apply Forall_app in Hasc as [Hs Hp]. apply Forall_app. split; [|done].
      apply ascii_lower in Hs. rewrite Hpre in Hs. by apply Forall_app in Hs as [_ ?]. }
  unfold text_step. rewrite Hv. cbn [mbind result_bind]. rewrite Htok.
  assert (forbiddenTextWindow (ts_token s ++ lowerB p) = false) as ->.
  { apply containsAny_false. intros t Hin Hocc. apply (Hno t Hin). rewrite <-Heq, app_assoc, lowerB_app, Hlow.
    apply occurs_app_l, occurs_app_r, Hocc. }
  eexists _, k. split_and!; [done| |done|intros ->; rewrite app_nil_r in Eq; apply Hend; by rewrite Eq]. constructor.
  - cbn [ts_rune]. by rewrite encode_runes_app, <-app_assoc, <-Ht, app_assoc, <-Hseen.
  - cbn [ts_token]. destruct (last_bytes_suffix 32 (ts_token s ++ lowerB p)) as [pre' Hp'].
    exists (pre ++ pre'). by rewrite Hlow, Hp' at 1; rewrite <-app_assoc.
Qed.

Lemma plain_loop_complete s seen before rs pieces last size :
  Forall text_rune rs → ascii_bytes (encode_runes (before ++ rs)) →
  (∀ t, t ∈ text_tokens → ¬ occurs t (lowerB (encode_runes (before ++ rs)))) →
  seen ++ mjoin pieces ++ last = encode_runes (before ++ rs) → tracks s seen before →
  size = ts_count s + Z.of_nat (length (mjoin pieces ++ last)) →
  plain_loop s pieces last None size = Ok ().
Proof.
  revert s seen before rs. induction pieces as [|p pieces IH]; intros s seen before rs Hrs Ha Hno Heq Ht Hsize;
    cbn [plain_loop].
  - change (mjoin []) with (@nil Z) in *. cbn [app] in *.
    destruct (text_step_complete s seen before rs last [] Hrs Ha Hno) as (s' & k & -> & _ & Hc & Hend);
      [by rewrite app_nil_r|done|]. cbn [mbind result_bind].
    unfold completeText. by rewrite Hc, Hsize, Z.eqb_refl, Hend.
  - change (mjoin (p :: pieces)) with (p ++ mjoin pieces) in *. rewrite <-app_assoc in *.
    destruct (text_step_complete s seen before rs p (mjoin pieces ++ last) Hrs Ha Hno)
      as (s' & k & -> & Htr & Hc & _); [done|done|]. cbn [mbind result_bind].
    apply (IH s' (seen ++ p) (before ++ take k rs) (drop k rs));
      rewrite <-?app_assoc, ?take_drop; try done; [by apply Forall_drop|].
    rewrite Hsize, Hc, !length_app. lia.
Qed.

End plain.


(** ** An instance *)

Definition toy_dec : Decoders := {|
  ParseMediaType m := Some m; DetectContentType _ := "text/plain; charset=utf-8"; bytes_ToLower := lowerB;
  json_Valid _ := true; csv_Records _ _ := ([], None); ParseFloat_ok _ := true; mail_Headers _ := None;
  mail_Body _ := ([], true); mail_Base64 _ := ([], true); mail_QuotedPrintable _ := ([], true);
  mail_Addresses _ := true; mail_Date _ := true; mail_MediaType _ := None |}.

#[export] Instance toy_laws : LowerLaws toy_dec.
Proof. constructor; [done|intros b u pre _ E; by exists pre|done]. Qed.

(** A text cut in the middle of a rune and one whose token is cut. *)
Definition toy_reader (a b : string) : Reader := {| rd_pieces := [str_bytes a]; rd_last := str_bytes b; rd_err := None |}.

