(* ===== verification/ZipPolicy.v ===== *)
(** * File policy: containers

    [filepolicy/zip.go] and [filepolicy/office.go]: the end record and the directory of
    a ZIP archive, the layout of its local entries, its budgets, the package structure
    of OOXML and ODF documents, and the inspection of every member; [Inspect] itself.

    [archive/zip] reads the directory, [compress/flate] and [hash/crc32] decode a
    member: parameters. *)

From stdpp Require Import prelude gmap strings sorting.
From Stdlib Require Import ZArith Lia Ascii.
From S2P Require Import Prelude GoStrings Utf8 Paths ByteSearch DocumentGuard FilePolicy.
Local Open Scope Z_scope.

Class ZipLib := {
  zip_Directory : ReadSeeker → Z → option (list zip_File);
  zip_OpenRaw : zip_File → option drained;
  flate_Decode : drained → drained * Z;
  crc32 : list Z → Z;
  unicode_Mn : Z → bool;
}.

(** [binary.LittleEndian]. *)
Fixpoint le (b : list Z) : Z := match b with [] => 0 | x :: b => x + 256 * le b end.

(** [seekReaderAt.ReadAt] of exactly [n] bytes. *)
Definition ReadAt (r : ReadSeeker) (n off : Z) : result (list Z) :=
  s ← r off;
  match ReadFull n s with
  | Ok b => Ok b
  | Fail e => Fail (if errors_Is e io_ErrUnexpectedEOF then io_EOF else e)
  end.

(** [bytes.NewReader] of a member already in memory. *)
Definition bytes_source (b : list Z) : ReadSeeker :=
  λ off, Ok {| rd_pieces := []; rd_last := drop (Z.to_nat off) b; rd_err := None |}.

Record zipInspection := {
  zi_reader : ReadSeeker; zi_files : gmap string zip_File; zi_order : list zip_File; zi_directory : Z }.

Definition IsDir (f : zip_File) : bool := bool_decide (zf_Mode f = ModeDir).
Definition zip_Store : Z := 0.
Definition zip_Deflate : Z := 8.

Definition contentTypesNS : string := "http://schemas.openxmlformats.org/package/2006/content-types".
Definition packageRelsNS : string := "http://schemas.openxmlformats.org/package/2006/relationships".
Definition officeRelsNS : string := "http://schemas.openxmlformats.org/officeDocument/2006/relationships/".
Definition odfOfficeNS : string := "urn:oasis:names:tc:opendocument:xmlns:office:1.0".
Definition odfManifestNS : string := "urn:oasis:names:tc:opendocument:xmlns:manifest:1.0".

Record officeMain := { om_part : string; om_contentType : string; om_root : string; om_namespace : string }.

Definition officeMains (id : FormatID) : option officeMain :=
  match id with
  | IDDOCX => Some {| om_part := "word/document.xml";
      om_contentType := "application/vnd.openxmlformats-officedocument.wordprocessingml.document.main+xml";
      om_root := "document"; om_namespace := "http://schemas.openxmlformats.org/wordprocessingml/2006/main" |}
  | IDXLSX => Some {| om_part := "xl/workbook.xml";
      om_contentType := "application/vnd.openxmlformats-officedocument.spreadsheetml.sheet.main+xml";
      om_root := "workbook"; om_namespace := "http://schemas.openxmlformats.org/spreadsheetml/2006/main" |}
  | IDPPTX => Some {| om_part := "ppt/presentation.xml";
      om_contentType := "application/vnd.openxmlformats-officedocument.presentationml.presentation.main+xml";
      om_root := "presentation"; om_namespace := "http://schemas.openxmlformats.org/presentationml/2006/main" |}
  | _ => None
  end.
(** A missing key of the map is the zero record. *)
Definition main_of (id : FormatID) : officeMain :=
  default {| om_part := ""; om_contentType := ""; om_root := ""; om_namespace := "" |} (officeMains id).

Section zip.
Context {lib : Stdlib} {dec : Decoders} {zlib : ZipLib}.

(** ** The directory *)

Definition validZIPEnd (b : list Z) (size : Z) : bool :=
  (le (slice 4 8 b) =? 0)
  && (le (slice 12 16 b) <=? MaxEntries * (46 + MaxNameBytes + 1024 + MaxNameBytes))
  && (le (slice 8 10 b) =? le (slice 10 12 b))
  && (le (slice 20 22 b) =? 0)
  && (le (slice 12 16 b) + le (slice 16 20 b) =? size - 22).

Definition invalidEntryPrefix (name : string) : bool :=
  ContainsAny name ["\"; ":"; "%"]%char || HasPrefix name "/".

Definition safeEntryName (name : string) : bool :=
  if (MaxNameBytes <? len name) || negb (ValidString name) then false
  else if invalidEntryPrefix name then false
  else let trim := TrimSuffix name "/" in
       if negb (ValidPath trim) || negb (Clean trim == trim) then false
       else negb (ContainsFunc name (λ r, IsControl r || IsFormat r || unicode_Mn r)).

Definition unsupportedZIPEncoding (f : zip_File) : bool :=
  negb (Z.land (zf_Flags f) (0xFFFF - 0x808) =? 0)
  || negb (zf_Method f =? zip_Store) && negb (zf_Method f =? zip_Deflate).

Definition zipEntryBudget (f : zip_File) : result unit :=
  guard! negb (MaxExpandedBytes <? zf_UncompressedSize64 f) else errBudget ;;
  guard! negb (MaxContainerBytes <? zf_CompressedSize64 f) else errBudget ;;
  guard! negb ((Z.max 1 (zf_CompressedSize64 f) * MaxExpansionRatio) mod 2 ^ 64 <? zf_UncompressedSize64 f) else errBudget ;;
  guard! negb ((1024 <? Z.of_nat (length (zf_Extra f))) || (MaxNameBytes <? len (zf_Comment f))) else errBudget ;;
  Ok ().

(** The extra fields, of the kinds that carry times and identifiers only. *)
Fixpoint validateZIPExtra_loop (fuel : nat) (extra : list Z) : result unit :=
  match fuel, extra with
  | S fuel, _ :: _ =>
      guard! negb (Z.of_nat (length extra) <? 4) else errStructure ;;
      let kind := le (take 2 extra) in
      let size := le (slice 2 4 extra) in
      guard! negb (Z.of_nat (length extra) - 4 <? size) else errStructure ;;
      guard! negb (negb (kind =? 0x5455) && negb (kind =? 0x7875) && negb (kind =? 0xa)) else errOpaque ;;
      validateZIPExtra_loop fuel (drop (4 + Z.to_nat size) extra)
  | _, _ => Ok ()
  end.
Definition validateZIPExtra (extra : list Z) : result unit := validateZIPExtra_loop (length extra) extra.

Definition emptyZIPDirectory (f : zip_File) : result unit :=
  guard! (zf_CompressedSize64 f =? 0) && (zf_UncompressedSize64 f =? 0) && (zf_CRC32 f =? 0) else errStructure ;;
  validateZIPExtra (zf_Extra f).

Definition entryMetadata (f : zip_File) : result unit :=
  guard! negb (unsupportedZIPEncoding f) else errOpaque ;;
  guard! negb (bool_decide (zf_Mode f = ModeOther)) else errActive ;;
  zipEntryBudget f;;
  if IsDir f then emptyZIPDirectory f else validateZIPExtra (zf_Extra f).

Fixpoint index (order : list zip_File) (expanded : Z) (files : gmap string zip_File) : result (gmap string zip_File) :=
  match order with
  | [] => Ok files
  | f :: order =>
      guard! safeEntryName (zf_Name f) else errStructure ;;
      let name := ToLower (zf_Name f) in
      guard! negb (bool_decide (is_Some (files !! name))) else errStructure ;;
      entryMetadata f;;
      let expanded := (expanded + zf_UncompressedSize64 f) mod 2 ^ 64 in
      guard! negb (MaxExpandedBytes <? expanded) else errBudget ;;
      index order expanded (<[name := f]> files)
  end.

Definition openZIP (r : ReadSeeker) (size : Z) : result zipInspection :=
  guard! negb (size <? 22) else errStructure ;;
  end_ ← ReadAt r 22 (size - 22);
  guard! bool_decide (take 4 end_ = [80; 75; 5; 6]) else errStructure ;;
  let count := le (slice 10 12 end_) in
  guard! negb (MaxEntries <? count) else errBudget ;;
  guard! validZIPEnd end_ size else errStructure ;;
  match zip_Directory r size with
  | None => Fail errStructure
  | Some files =>
      guard! negb (negb (Z.of_nat (length files) =? count) || (count =? 0)) else errStructure ;;
      map ← index files 0 ∅;
      Ok {| zi_reader := r; zi_files := map; zi_order := files; zi_directory := le (slice 16 20 end_) |}
  end.

(** ** The layout of the local entries *)

Definition matchingLocalGeometry (name : string) (start offset nameLen extraLen : Z) : bool :=
  (nameLen =? len name) && (extraLen <=? 1024) && (offset =? start + 30 + nameLen + extraLen).

Definition matchingLocalHeader (f : zip_File) (h name : list Z) : bool :=
  bool_decide (name = str_bytes (zf_Name f)) && (le (slice 6 8 h) =? zf_Flags f) && (le (slice 8 10 h) =? zf_Method f).

Definition matchingLocalSizes (f : zip_File) (h : list Z) : bool :=
  (le (slice 14 18 h) =? zf_CRC32 f) && (le (slice 18 22 h) =? zf_CompressedSize64 f)
  && (le (slice 22 26 h) =? zf_UncompressedSize64 f).

Definition compressedEnd (offset size directory : Z) : result Z :=
  guard! negb (MaxContainerBytes <? size) else errBudget ;;
  let end_ := offset + size in
  guard! negb (directory <? end_) else errStructure ;; Ok end_.

Definition localExtra (r : ReadSeeker) (offset size : Z) : result unit :=
  extra ← ReadAt r size offset; validateZIPExtra extra.

Definition descriptor (r : ReadSeeker) (f : zip_File) (start : Z) : result Z :=
  b ← ReadAt r 16 start;
  guard! bool_decide (take 4 b = [80; 75; 7; 8]) else errStructure ;;
  guard! (le (slice 4 8 b) =? zf_CRC32 f) && (le (slice 8 12 b) =? zf_CompressedSize64 f)
         && (le (slice 12 16 b) =? zf_UncompressedSize64 f) else errStructure ;;
  Ok (start + 16).

Definition localEntry (z : zipInspection) (f : zip_File) (start offset : Z) : result Z :=
  h ← ReadAt (zi_reader z) 30 start;
  guard! bool_decide (take 4 h = [80; 75; 3; 4]) else errStructure ;;
  let nameLen := le (slice 26 28 h) in
  let extraLen := le (slice 28 30 h) in
  guard! matchingLocalGeometry (zf_Name f) start offset nameLen extraLen else errStructure ;;
  name ← ReadAt (zi_reader z) nameLen (start + 30);
  guard! matchingLocalHeader f h name else errStructure ;;
  localExtra (zi_reader z) (start + 30 + nameLen) extraLen;;
  end_ ← compressedEnd offset (zf_CompressedSize64 f) (zi_directory z);
  if negb (Z.land (zf_Flags f) 8 =? 0) then descriptor (zi_reader z) f end_
  else guard! matchingLocalSizes f h else errStructure ;; Ok end_.

Fixpoint layout_loop (z : zipInspection) (order : list zip_File) (next : Z) : result Z :=
  match order with
  | [] => Ok next
  | f :: order =>
      match zf_DataOffset f with
      | None => Fail errStructure
      | Some offset => end_ ← localEntry z f next offset; layout_loop z order end_
      end
  end.

(** The order of [sort.Slice] by data offset; an offset that cannot be read is zero. *)
Definition offset_le (f g : zip_File) : Prop := default 0 (zf_DataOffset f) <= default 0 (zf_DataOffset g).
#[export] Instance offset_le_dec f g : base.Decision (offset_le f g).
Proof. unfold offset_le. apply _. Defined.

Definition checkLayout (z : zipInspection) : result zipInspection :=
  let order := merge_sort offset_le (zi_order z) in
  let z := {| zi_reader := zi_reader z; zi_files := zi_files z; zi_order := order; zi_directory := zi_directory z |} in
  next ← layout_loop z order 0;
  guard! next =? zi_directory z else errStructure ;; Ok z.

(** ** Members *)

(** [zipDecoder] over the counted raw data: what it decodes to and what it took. *)
Definition zipDecoder (method : Z) (raw : drained) : drained * Z :=
  if method =? zip_Deflate then flate_Decode raw else (raw, Z.min (Z.of_nat (length raw.1)) (MaxTextBytes + 1)).

Definition readEntry (ctx : option error) (f : zip_File) : result (list Z) :=
  guard! negb (MaxTextBytes <? zf_UncompressedSize64 f) else errBudget ;;
  match zip_OpenRaw f with
  | None => Fail errStructure
  | Some raw =>
      let raw := match ctx with None => raw | Some _ => ([], false) end in
      let '(decoded, count) := zipDecoder (zf_Method f) raw in
      match ReadAllLimit (MaxTextBytes + 1) decoded with
      | None => Fail errStructure
      | Some b =>
          guard! negb (MaxTextBytes <? Z.of_nat (length b)) else errBudget ;;
          guard! (Z.of_nat (length b) =? zf_UncompressedSize64 f) && (count =? zf_CompressedSize64 f)
                 && (crc32 b =? zf_CRC32 f) else errStructure ;;
          Ok b
      end
  end.

Definition part (ctx : option error) (z : zipInspection) (name : string) : result (list Z) :=
  match zi_files z !! ToLower name with
  | None => Fail errStructure
  | Some f => guard! zf_Name f == name else errStructure ;; readEntry ctx f
  end.

Definition hasPart (z : zipInspection) (name : string) : bool :=
  match zi_files z !! ToLower name with Some f => zf_Name f == name | None => false end.
Definition has_key (z : zipInspection) (key : string) : bool := bool_decide (is_Some (zi_files z !! key)).

(** ** OOXML packages *)

Definition attr (e : xml_StartElement) (name : string) : string :=
  first_value (λ n, (xn_Local n == name) && (xn_Space n == "")) (xe_Attr e).
Definition nsAttr (e : xml_StartElement) (namespace name : string) : string :=
  first_value (λ n, (xn_Space n == namespace) && (xn_Local n == name)) (xe_Attr e).

Definition xmlRoot_visit (local namespace : string) (first : bool) (e : xml_StartElement) (depth : Z) : result bool :=
  guard! negb (first && (negb (xn_Local (xe_Name e) == local) || negb (xn_Space (xe_Name e) == namespace)))
    else errStructure ;;
  Ok false.
Definition xmlRoot (ctx : option error) (b : list Z) (local namespace : string) : result unit :=
  (λ _, ()) <$> validateXML (xmlRoot_visit local namespace) ctx b true.

Definition validateWorksheet_visit (v : unit) (e : xml_StartElement) (depth : Z) : result unit :=
  guard! xn_Space (xe_Name e) == SpreadsheetNS else errStructure ;;
  guard! negb ((depth =? 1) && negb (xn_Local (xe_Name e) == "worksheet")) else errStructure ;;
  guard! negb (xn_Local (xe_Name e) == "f") else errActive ;; Ok ().
Definition validateWorksheet (ctx : option error) (b : list Z) : result unit :=
  validateXML validateWorksheet_visit ctx b ().

(** *** The body of the main part *)

Record mainBodyIndex := { mb_body : bool; mb_refs : list string }.

Definition mainBody_visit (main : officeMain) (expected : string) (m : mainBodyIndex) (e : xml_StartElement) (depth : Z)
  : result mainBodyIndex :=
  let local := xn_Local (xe_Name e) in
  let is_body := (depth =? 2) && (xn_Space (xe_Name e) == om_namespace main) && (local == expected) in
  guard! negb (is_body && mb_body m) else errStructure ;;
  let m := {| mb_body := mb_body m || is_body; mb_refs := mb_refs m |} in
  if negb (local == "sheet") && negb (local == "sldId") then Ok m
  else
    guard! negb (negb (depth =? 3) || negb (xn_Space (xe_Name e) == om_namespace main)) else errStructure ;;
    let ref := nsAttr e (TrimSuffix officeRelsNS "/") "id" in
    guard! negb ((ref == "") || (ref ∈? mb_refs m)) else errStructure ;;
    Ok {| mb_body := mb_body m; mb_refs := ref :: mb_refs m |}.

Definition mainReferences_visit (expected : string) (refs : list string) (e : xml_StartElement) (depth : Z)
  : result (list string) :=
  let ref := attr e "Id" in
  if negb (ref ∈? refs) then Ok refs
  else guard! attr e "Type" == officeRelsNS +:+ expected else errStructure ;; Ok (filter (λ r, r ≠ ref) refs).

Definition mainReferences (ctx : option error) (z : zipInspection) (main : officeMain) (id : FormatID)
    (refs : list string) : result unit :=
  guard! negb (refs == []) else errStructure ;;
  let name := Join [Dir (om_part main); "_rels"; Base (om_part main) +:+ ".rels"] in
  b ← part ctx z name;
  let expected := match id with IDXLSX => "worksheet" | IDPPTX => "slide" | _ => "" end in
  left ← validateXML (mainReferences_visit expected) ctx b refs;
  guard! (left : list string) == [] else errStructure ;; Ok ().

Definition mainBody (ctx : option error) (z : zipInspection) (b : list Z) (id : FormatID) (main : officeMain)
  : result unit :=
  let expected := match id with IDDOCX => "body" | IDXLSX => "sheets" | IDPPTX => "sldIdLst" | _ => "" end in
  m ← validateXML (mainBody_visit main expected) ctx b {| mb_body := false; mb_refs := [] |};
  guard! mb_body m else errStructure ;;
  if bool_decide (id = IDDOCX) then Ok () else mainReferences ctx z main id (mb_refs m).

(** *** Content types *)

Definition activeContentType (t : string) : bool :=
  existsb (Contains t) ["macro"; "vba"; "oleobject"; "activex"] || (t == "").

Definition defaultContentType (e : xml_StartElement) (t : string) : result string :=
  let ext := attr e "Extension" in
  let expected := if ext == "xml" then "application/xml"
                  else if ext == "rels" then "application/vnd.openxmlformats-package.relationships+xml" else "" in
  guard! negb (negb (expected == "") && negb (t == expected)) else errStructure ;;
  guard! negb ((ext == "") || ContainsAny ext ["/"; "\"; "."]%char) else errStructure ;;
  Ok (ToLower ext).

Definition overrideContentType (z : zipInspection) (e : xml_StartElement) : result string :=
  let name := attr e "PartName" in
  match zi_files z !! ToLower (TrimPrefix name "/") with
  | None => Fail errStructure
  | Some file =>
      guard! HasPrefix name "/" else errStructure ;;
      guard! "/" +:+ zf_Name file == name else errStructure ;; Ok name
  end.

Definition contentTypeEntry (z : zipInspection) (e : xml_StartElement) : result string :=
  let t := ToLower (attr e "ContentType") in
  guard! negb (activeContentType t) else errActive ;;
  if xn_Local (xe_Name e) == "Default" then defaultContentType e t
  else if xn_Local (xe_Name e) == "Override" then overrideContentType z e
  else Fail errStructure.

Record contentTypeIndex := { ct_seen : list string; ct_mainFound : bool }.

Definition contentTypes_visit (z : zipInspection) (main : officeMain) (c : contentTypeIndex) (e : xml_StartElement)
    (depth : Z) : result contentTypeIndex :=
  guard! xn_Space (xe_Name e) == contentTypesNS else errStructure ;;
  if depth =? 1 then guard! xn_Local (xe_Name e) == "Types" else errStructure ;; Ok c
  else
    guard! depth =? 2 else errStructure ;;
    key ← contentTypeEntry z e;
    guard! negb (key ∈? ct_seen c) else errStructure ;;
    Ok {| ct_seen := key :: ct_seen c;
          ct_mainFound := ct_mainFound c
            || (key == "/" +:+ om_part main) && (attr e "ContentType" == om_contentType main) |}.

Definition contentTypes (ctx : option error) (z : zipInspection) (main : officeMain) : result unit :=
  match zi_files z !! "[content_types].xml" with
  | None => Fail errStructure
  | Some f =>
      guard! zf_Name f == "[Content_Types].xml" else errStructure ;;
      b ← readEntry ctx f;
      index ← validateXML (contentTypes_visit z main) ctx b {| ct_seen := []; ct_mainFound := false |};
      guard! negb (negb (ct_mainFound index) || negb ("xml" ∈? ct_seen index) || negb ("rels" ∈? ct_seen index))
        else errStructure ;; Ok ()
  end.

(** *** Relationships *)

Record relationshipIndex := { rel_seen : list string; rel_root : bool }.

Definition relationshipTarget (z : zipInspection) (name : string) (e : xml_StartElement) : result string :=
  guard! negb (ActiveRelationship (attr e "Type")) else errActive ;;
  let base := if EqualFold name "_rels/.rels" then "" else Join [Dir (Dir name); "source.xml"] in
  match Resolve base (attr e "Target") false (Some (hasPart z)) with
  | Fail _ => Fail errActive
  | Ok target => Ok target
  end.

Definition rootRelationship (name : string) (main : officeMain) (r : relationshipIndex) (e : xml_StartElement)
    (target : string) : result relationshipIndex :=
  if negb (name == "_rels/.rels") || negb (attr e "Type" == officeRelsNS +:+ "officeDocument") then Ok r
  else
    guard! negb (rel_root r || negb (target == om_part main)) else errStructure ;;
    Ok {| rel_seen := rel_seen r; rel_root := true |}.

Definition inspectTarget (ctx : option error) (z : zipInspection) (name : string) (main : officeMain)
    (r : relationshipIndex) (e : xml_StartElement) (target : string) : result relationshipIndex :=
  (if attr e "Type" == officeRelsNS +:+ "worksheet"
   then body ← part ctx z target; validateWorksheet ctx body else Ok ());;
  rootRelationship name main r e target.

Definition relationship_visit (ctx : option error) (z : zipInspection) (name : string) (main : officeMain)
    (r : relationshipIndex) (e : xml_StartElement) (depth : Z) : result relationshipIndex :=
  guard! xn_Space (xe_Name e) == packageRelsNS else errStructure ;;
  if depth =? 1 then guard! xn_Local (xe_Name e) == "Relationships" else errStructure ;; Ok r
  else
    guard! negb (negb (depth =? 2) || negb (xn_Local (xe_Name e) == "Relationship")) else errStructure ;;
    let id := attr e "Id" in
    guard! negb ((id == "") || (id ∈? rel_seen r)) else errStructure ;;
    let r := {| rel_seen := id :: rel_seen r; rel_root := rel_root r |} in
    target ← relationshipTarget z name e;
    inspectTarget ctx z name main r e target.

Definition relationshipPart (ctx : option error) (z : zipInspection) (name : string) (b : list Z) (main : officeMain)
  : result bool :=
  rel_root <$> validateXML (relationship_visit ctx z name main) ctx b {| rel_seen := []; rel_root := false |}.

Fixpoint relationships_loop (ctx : option error) (z : zipInspection) (main : officeMain) (order : list zip_File)
    (rootFound : bool) : result bool :=
  match order with
  | [] => Ok rootFound
  | f :: order =>
      if negb (RelationshipPart (zf_Name f)) then relationships_loop ctx z main order rootFound
      else
        b ← readEntry ctx f;
        root ← relationshipPart ctx z (zf_Name f) b main;
        relationships_loop ctx z main order (rootFound || root)
  end.
Definition relationships (ctx : option error) (z : zipInspection) (main : officeMain) : result unit :=
  rootFound ← relationships_loop ctx z main (zi_order z) false;
  guard! (rootFound : bool) else errStructure ;; Ok ().

Definition validateOOXML (ctx : option error) (z : zipInspection) (f : Format) : result unit :=
  let main := main_of (f_ID f) in
  guard! negb (has_key z "mimetype") else errStructure ;;
  guard! negb (existsb (λ id, negb (bool_decide (id = f_ID f)) && has_key z (om_part (main_of id)))
                 [IDDOCX; IDXLSX; IDPPTX]) else errStructure ;;
  contentTypes ctx z main;;
  relationships ctx z main;;
  b ← part ctx z (om_part main);
  xmlRoot ctx b (om_root main) (om_namespace main);;
  mainBody ctx z b (f_ID f) main.

(** ** ODF packages *)

Definition is_name (e : xml_StartElement) (space local : string) : bool :=
  bool_decide (xe_Name e = {| xn_Space := space; xn_Local := local |}).

Definition odfBody_visit (expected : string) (found : bool) (e : xml_StartElement) (depth : Z) : result bool :=
  guard! negb ((depth =? 1) && negb (is_name e odfOfficeNS "document-content")) else errStructure ;;
  Ok (found || (depth =? 3) && is_name e odfOfficeNS expected).
Definition odfBody (ctx : option error) (b : list Z) (id : FormatID) : result unit :=
  let expected := match id with IDODT => "text" | IDODS => "spreadsheet" | IDODP => "presentation" | _ => "" end in
  found ← validateXML (odfBody_visit expected) ctx b false;
  guard! (found : bool) else errStructure ;; Ok ().

Definition odfManifestEntry (z : zipInspection) (name : string) : result unit :=
  guard! safeEntryName name else errStructure ;;
  if HasSuffix name "/" then Ok ()
  else guard! has_key z (ToLower name) else errStructure ;; Ok ().

Record odfManifestIndex := { om_rootFound : bool; om_seen : list string }.

Definition odfManifest_visit (z : zipInspection) (mime : string) (m : odfManifestIndex) (e : xml_StartElement) (depth : Z)
  : result odfManifestIndex :=
  if depth =? 1 then guard! is_name e odfManifestNS "manifest" else errStructure ;; Ok m
  else
    guard! negb (negb (depth =? 2) || negb (is_name e odfManifestNS "file-entry")) else errActive ;;
    let name := nsAttr e odfManifestNS "full-path" in
    guard! negb (name ∈? om_seen m) else errStructure ;;
    let seen := name :: om_seen m in
    if name == "/" then Ok {| om_rootFound := nsAttr e odfManifestNS "media-type" == mime; om_seen := seen |}
    else odfManifestEntry z name;; Ok {| om_rootFound := om_rootFound m; om_seen := seen |}.

Definition odfManifest (ctx : option error) (z : zipInspection) (f : Format) : result unit :=
  b ← part ctx z "META-INF/manifest.xml";
  index ← validateXML (odfManifest_visit z (f_MIME f)) ctx b {| om_rootFound := false; om_seen := [] |};
  guard! negb (negb (om_rootFound index) || negb ("content.xml" ∈? om_seen index)) else errStructure ;; Ok ().

Definition validateODF (ctx : option error) (z : zipInspection) (f : Format) : result unit :=
  match zi_files z !! "mimetype" with
  | None => Fail errStructure
  | Some m =>
      guard! (from_option (λ first, zf_Name first == zf_Name m) false (head (zi_order z))) && (zf_Method m =? 0)
        else errStructure ;;
      b ← part ctx z "mimetype";
      guard! b == str_bytes (f_MIME f) else errStructure ;;
      b ← part ctx z "content.xml";
      odfBody ctx b (f_ID f);;
      odfManifest ctx z f
  end.

(** ** The members of an archive *)

Definition activeOfficePath (name : string) : bool :=
  existsb (Contains ("/" +:+ name))
    ["/embeddings/"; "/activex/"; "/externallinks/"; "/vbaproject"; "/scripts/"; "/basic/"; "/connections"; "/querytables/"]
  || HasPrefix name "object ".

Definition officeXMLGrammar (ctx : option error) (name : string) (b : list Z) : result unit :=
  if HasPrefix (ToLower name) "xl/worksheets/" then validateWorksheet ctx b else validateXML no_visit ctx b ().

Definition inspectOfficeXML (ctx : option error) (name : string) (b : list Z) (exists_ : string → bool) : result unit :=
  guard! passiveText b else errActive ;;
  officeXMLGrammar ctx name b;;
  match DocumentGuard.Inspect name (Some exists_) (λ _, ctx) b with
  | Ok _ => Ok ()
  | Fail _ => Fail errActive
  end.

Definition inspectOfficePart (ctx : option error) (name : string) (b : list Z) (exists_ : string → bool) : result unit :=
  let lower := ToLower name in
  guard! negb (activeOfficePath lower) else errActive ;;
  if HasSuffix lower ".xml" || HasSuffix lower ".rels" then inspectOfficeXML ctx name b exists_
  else if lower == "mimetype" then Ok ()
  else match byName name with
       | Some f =>
           guard! bool_decide (f_Family f = Image) else errOpaque ;;
           inspectSignature ctx (bytes_source b) (Z.of_nat (length b)) (take 512 b) f
       | None => Fail errOpaque
       end.

Definition containerStrategy (s : Strategy) : bool := match s with ZIP | OOXML | ODF => true | _ => false end.

Section leaf.
(** The inspection of a leaf: [Inspect] with what is left of the fuel. *)
Context (inspectLeaf : option error → ReadSeeker → Z → string → string → Profiles → result Result).

Definition inspectArchiveLeaf (ctx : option error) (name : string) (b : list Z) (p : Profiles) : result unit :=
  match byName name with
  | None => Fail errOpaque
  | Some entryFormat =>
      guard! negb (containerStrategy (f_Strategy entryFormat)) else errOpaque ;;
      result ← inspectLeaf ctx (bytes_source b) (Z.of_nat (length b)) name "" p;
      guard! bool_decide (r_Decision result = Allow) else errOpaque ;; Ok ()
  end.

Definition inspectEntry (ctx : option error) (z : zipInspection) (f : zip_File) (format : Format) (p : Profiles)
  : result unit :=
  ctx_check ctx;;
  b ← readEntry ctx f;
  guard! negb (HasPrefixB b (str_bytes "PK") || dangerousHead b) else errActive ;;
  if bool_decide (f_Strategy format = OOXML) || bool_decide (f_Strategy format = ODF)
  then inspectOfficePart ctx (zf_Name f) b (hasPart z)
  else inspectArchiveLeaf ctx (zf_Name f) b p.

Fixpoint inspectEntries (ctx : option error) (z : zipInspection) (order : list zip_File) (format : Format) (p : Profiles)
  : result unit :=
  match order with
  | [] => Ok ()
  | f :: order =>
      (if IsDir f then Ok () else inspectEntry ctx z f format p);;
      inspectEntries ctx z order format p
  end.

Definition inspectZIP_with (ctx : option error) (r : ReadSeeker) (size : Z) (f : Format) (p : Profiles) : result unit :=
  guard! negb (MaxContainerBytes <? size) else errBudget ;;
  z ← openZIP r size;
  z ← checkLayout z;
  (match f_Strategy f with
   | OOXML => validateOOXML ctx z f
   | ODF => validateODF ctx z f
   | _ => Ok ()
   end);;
  inspectEntries ctx z (zi_order z) f p.

End leaf.

(** ** Inspect

    [Inspect] and [inspectZIP] call each other; a leaf of an archive is never a
    container, so that one level is all the fuel there is to use. *)
Fixpoint inspectZIP (fuel : nat) (ctx : option error) (r : ReadSeeker) (size : Z) (f : Format) (p : Profiles)
  : result unit :=
  match fuel with
  | O => Fail errOpaque
  | S fuel => inspectZIP_with (Inspect_with (inspectZIP fuel)) ctx r size f p
  end.

Definition Inspect (ctx : option error) (source : ReadSeeker) (size : Z) (filename declared : string) (profiles : Profiles)
  : result Result :=
  Inspect_with (inspectZIP 1) ctx source size filename declared profiles.

End zip.
