(* ===== verification/ZipFacts.v ===== *)
(** * File policy: what an accepted archive is

    The local entries of an accepted archive tile its bytes up to the directory, they
    agree with the directory, stay within the budgets, and each member was inspected;
    the mutual recursion of [Inspect] and [inspectZIP] is one level deep. *)

From stdpp Require Import prelude gmap strings sorting.
From Stdlib Require Import ZArith Lia Ascii.
From S2P Require Import Prelude GoStrings Utf8 Codec Paths ByteSearch DocumentGuard FilePolicy PolicyStreams ZipPolicy.
Local Open Scope Z_scope.

(** A source that answers every seek with the bytes of [b] from there, or refuses to
    go past their end. *)
Definition holds (r : ReadSeeker) (b : list Z) : Prop :=
  ∀ off, 0 <= off →
    (∃ s, r off = Ok s ∧ rd_err s = None ∧ rd_content s = drop (Z.to_nat off) b)
    ∨ Z.of_nat (length b) < off ∧ ∃ e, r off = Fail e.

(** The numbers of a directory record are unsigned. *)
Definition unsigned (f : zip_File) : Prop := 0 <= zf_CompressedSize64 f ∧ 0 <= zf_UncompressedSize64 f.

Lemma le_nonneg b : Forall is_byte b → 0 <= le b.
Proof. unfold is_byte. induction 1; cbn; lia. Qed.

Lemma ReadAt_Ok r b n off x :
  holds r b → 0 <= off → 0 <= n → ReadAt r n off = Ok x →
  x = take (Z.to_nat n) (drop (Z.to_nat off) b) ∧ Z.of_nat (length x) = n.
Proof.
  intros Hr Hoff Hn. unfold ReadAt. destruct (Hr off Hoff) as [(s & -> & He & Hc)|(_ & e & ->)]; [|done]. cbn [mbind result_bind].
  unfold ReadFull. rewrite Hc. destruct (Z.leb_spec n (Z.of_nat (length (drop (Z.to_nat off) b)))) as [Hle|Hlt].
  - intros [= <-]. split; [done|]. rewrite length_take. lia.
  - by destruct (errors_Is _ _).
Qed.

(** ** The local entry *)

(** The bytes of one entry: its header, its name, extra fields that carry nothing
    else, [CompressedSize64] bytes of data and, when the flag says so, a descriptor;
    [lead] bytes stand before the data. *)
Definition local_record {lib : Stdlib} (f : zip_File) (lead : Z) (rec : list Z) : Prop :=
  ∃ h extra data desc,
    rec = h ++ str_bytes (zf_Name f) ++ extra ++ data ++ desc
    ∧ length h = 30%nat ∧ take 4 h = [80; 75; 3; 4]
    ∧ le (slice 6 8 h) = zf_Flags f ∧ le (slice 8 10 h) = zf_Method f
    ∧ validateZIPExtra extra = Ok () ∧ lead = 30 + len (zf_Name f) + Z.of_nat (length extra)
    ∧ Z.of_nat (length data) = zf_CompressedSize64 f
    ∧ if negb (Z.land (zf_Flags f) 8 =? 0)
      then length desc = 16%nat ∧ take 4 desc = [80; 75; 7; 8] ∧ le (slice 4 8 desc) = zf_CRC32 f
           ∧ le (slice 8 12 desc) = zf_CompressedSize64 f ∧ le (slice 12 16 desc) = zf_UncompressedSize64 f
      else desc = [] ∧ matchingLocalSizes f h = true.

(** The entries follow one another from [pos], and the reader decodes the data of each
    where it stands. *)
Fixpoint tiles {lib : Stdlib} (pos : Z) (order : list zip_File) (recs : list (list Z)) : Prop :=
  match order, recs with
  | [], [] => True
  | f :: order, rec :: recs =>
      (∃ offset, zf_DataOffset f = Some offset ∧ local_record f (offset - pos) rec)
      ∧ tiles (pos + Z.of_nat (length rec)) order recs
  | _, _ => False
  end.

Section layout.
Context {lib : Stdlib} {dec : Decoders} {zlib : ZipLib}.

Definition at_ (b : list Z) (off n : Z) : list Z := take (Z.to_nat n) (drop (Z.to_nat off) b).

Lemma at_app b off n m : 0 <= off → 0 <= n → 0 <= m → at_ b off (n + m) = at_ b off n ++ at_ b (off + n) m.
Proof.
  intros Ho Hn Hm. unfold at_. rewrite !Z2Nat.inj_add by done. rewrite <-drop_drop.
  generalize (drop (Z.to_nat off) b). intros l. rewrite take_drop_commute.
  rewrite <-(take_drop (Z.to_nat n) (take (Z.to_nat n + Z.to_nat m) l)) at 1.
  f_equal. rewrite take_take. f_equal. lia.
Qed.

Lemma at_length b off n : 0 <= off → 0 <= n → off + n <= Z.of_nat (length b) → Z.of_nat (length (at_ b off n)) = n.
Proof. intros Ho Hn Hb. unfold at_. rewrite length_take, length_drop. lia. Qed.

Lemma localEntry_Ok z b f start offset end_ :
  holds (zi_reader z) b → Forall is_byte b → unsigned f → 0 <= start → zi_directory z <= Z.of_nat (length b) →
  localEntry z f start offset = Ok end_ →
  start <= end_ ∧ local_record f (offset - start) (at_ b start (end_ - start))
  ∧ Z.of_nat (length (at_ b start (end_ - start))) = end_ - start.
Proof.
  intros Hr Hbytes [Hcs Hus] Hs Hdir. unfold localEntry. intros H.
  apply bind_Ok in H as (h & Hh & H). apply (ReadAt_Ok _ b) in Hh as [Eh Lh]; [|done|done|lia].
  apply guard_Ok in H as [Hsig H]. apply bool_decide_eq_true in Hsig.
  apply guard_Ok in H as [Hgeo H]. unfold matchingLocalGeometry in Hgeo.
  apply andb_true_iff in Hgeo as [Hgeo Hoff]. apply andb_true_iff in Hgeo as [Hname Hextra]. z_bools.
  assert (Hel : 0 <= le (slice 28 30 h)).
  { apply le_nonneg, Forall_take, Forall_drop. rewrite Eh. by apply Forall_take, Forall_drop. }
  assert (Hnl : 0 <= len (zf_Name f)) by (unfold len; lia).
  apply bind_Ok in H as (name & Hn & H). apply (ReadAt_Ok _ b) in Hn as [En Ln]; [|done|lia|lia].
  apply guard_Ok in H as [Hhdr H]. unfold matchingLocalHeader in Hhdr.
  apply andb_true_iff in Hhdr as [Hhdr Hm]. apply andb_true_iff in Hhdr as [Hnm Hfl].
  apply bool_decide_eq_true in Hnm. z_bools.
  apply bind_Ok in H as ([] & Hx & H). unfold localExtra in Hx. apply bind_Ok in Hx as (extra & Hx & Hv).
  apply (ReadAt_Ok _ b) in Hx as [Ex Lx]; [|done|lia|lia].
  apply bind_Ok in H as (cend & Hc & H). unfold compressedEnd in Hc. apply guard_Ok in Hc as [_ Hc].
  apply guard_Ok in Hc as [Hin [= <-] ]. apply negb_true_iff in Hin. z_bools.
  rewrite Hname in *. fold (at_ b start 30) in Eh. fold (at_ b (start + 30) (len (zf_Name f))) in En.
  fold (at_ b (start + 30 + len (zf_Name f)) (le (slice 28 30 h))) in Ex.
  set (el := le (slice 28 30 h)) in *. set (nl := len (zf_Name f)) in *. set (cs := zf_CompressedSize64 f) in *.
  assert (Hdata : Z.of_nat (length (at_ b offset cs)) = cs) by (apply at_length; lia).
  assert (Hsplit : ∀ d, 0 <= d → at_ b start (30 + nl + el + cs + d)
    = h ++ str_bytes (zf_Name f) ++ extra ++ at_ b offset cs ++ at_ b (offset + cs) d).
  { intros d Hd. rewrite at_app by lia. rewrite (at_app _ _ (30 + nl + el)) by lia.
    rewrite (at_app _ _ (30 + nl)) by lia. rewrite (at_app _ _ 30) by lia.
    rewrite <-Hnm, Eh, En, Ex, Hoff, <-!app_assoc.
    by replace (start + (30 + nl + el)) with (start + 30 + nl + el) by lia;
      replace (start + (30 + nl)) with (start + 30 + nl) by lia;
      replace (start + (30 + nl + el + cs)) with (start + 30 + nl + el + cs) by lia. }
  destruct (negb (Z.land (zf_Flags f) 8 =? 0)) eqn:Eflag.
  - unfold descriptor in H. apply bind_Ok in H as (desc & Hd & H).
    apply (ReadAt_Ok _ b) in Hd as [Ed Ld]; [|done|lia|lia]. fold (at_ b (offset + cs) 16) in Ed.
    apply guard_Ok in H as [Hsd H]. apply bool_decide_eq_true in Hsd. apply guard_Ok in H as [Hf [= <-] ].
    apply andb_true_iff in Hf as [Hf H3]. apply andb_true_iff in Hf as [H1 H2]. z_bools.
    replace (offset + cs + 16 - start) with (30 + nl + el + cs + 16) by lia.
    specialize (Hsplit 16 ltac:(lia)). rewrite <-Ed in Hsplit. split_and!; [lia| |].
    + exists h, extra, (at_ b offset cs), desc. rewrite Eflag. split_and!; try done; lia.
    + rewrite Hsplit, !length_app, length_str_bytes. unfold nl, len in *. lia.
  - apply guard_Ok in H as [Hsz [= <-] ].
    replace (offset + cs - start) with (30 + nl + el + cs + 0) by lia.
    specialize (Hsplit 0 ltac:(lia)). change (at_ b (offset + cs) 0) with (@nil Z) in Hsplit. split_and!; [lia| |].
    + exists h, extra, (at_ b offset cs), []. rewrite Eflag. split_and!; try done; lia.
    + rewrite Hsplit, !length_app, length_str_bytes. unfold nl, len in *. cbn [length]. lia.
Qed.

Lemma layout_loop_Ok z b order next fin :
  holds (zi_reader z) b → Forall is_byte b → Forall unsigned order → 0 <= next →
  zi_directory z <= Z.of_nat (length b) → layout_loop z order next = Ok fin →
  next <= fin ∧ ∃ recs, tiles next order recs ∧ at_ b next (fin - next) = mjoin recs.
Proof.
  intros Hr Hb Hu Hn Hd. revert next Hn. induction Hu as [|f order Hf Hu IH]; intros next Hn H; cbn [layout_loop] in H.
  - injection H as <-. split; [lia|]. exists []. split; [done|]. by rewrite Z.sub_diag.
  - destruct (zf_DataOffset f) as [offset|] eqn:Eo; [|done]. apply bind_Ok in H as (end_ & He & H).
    apply (localEntry_Ok z b) in He as (Hle & Hrec & Hlen); [|done..]. destruct (IH end_) as (Hle' & recs & Ht & E); [lia|done|].
    split; [lia|]. exists (at_ b next (end_ - next) :: recs). split.
    + cbn [tiles]. split; [eauto|]. rewrite Hlen. by replace (next + (end_ - next)) with end_ by lia.
    + replace (fin - next) with ((end_ - next) + (fin - end_)) by lia. rewrite at_app by lia.
      replace (next + (end_ - next)) with end_ by lia. by rewrite E.
Qed.

(** ** The directory *)

Lemma index_Ok order expanded_ files map :
  0 <= expanded_ <= MaxExpandedBytes → Forall unsigned order → index order expanded_ files = Ok map →
  expanded_ + expanded order <= MaxExpandedBytes
  ∧ Forall (λ f, safeEntryName (zf_Name f) = true ∧ entryMetadata f = Ok ()) order
  ∧ NoDup (ToLower ∘ zf_Name <$> order) ∧ (∀ f, f ∈ order → files !! ToLower (zf_Name f) = None)
  ∧ (∀ f, f ∈ order → map !! ToLower (zf_Name f) = Some f)
  ∧ (∀ n f, files !! n = Some f → map !! n = Some f)
  ∧ (∀ n f, map !! n = Some f → files !! n = Some f ∨ f ∈ order ∧ n = ToLower (zf_Name f)).
Proof.
  intros He Hu. revert expanded_ files He. induction Hu as [|f order [_ Huf] Hu IH]; intros expanded_ files He H.
  { injection H as <-. cbn. split_and!; [lia|by apply Forall_nil|by apply NoDup_nil|by intros ? ?%elem_of_nil|by intros ? ?%elem_of_nil|done|auto]. }
  cbn [index] in H. apply guard_Ok in H as [Hsafe H]. apply guard_Ok in H as [Hnew H].
  apply negb_true_iff, bool_decide_eq_false, eq_None_not_Some in Hnew.
  apply bind_Ok in H as ([] & Hmeta & H). apply guard_Ok in H as [Hmax H]. apply negb_true_iff in Hmax. z_bools.
  assert (Hsmall : zf_UncompressedSize64 f <= MaxExpandedBytes).
  { unfold entryMetadata in Hmeta. apply guard_Ok in Hmeta as [_ Hm]. apply guard_Ok in Hm as [_ Hm].
    apply bind_Ok in Hm as ([] & Hb & _). unfold zipEntryBudget in Hb. apply guard_Ok in Hb as [Hb _].
    apply negb_true_iff in Hb. by z_bools. }
  unfold MaxExpandedBytes in *. rewrite Z.mod_small in * by lia.
  apply IH in H as (Hexp & Hall & Hnd & Hfresh & Hmap & Hkeep & Honly); [|lia].
  cbn [expanded foldr]. fold (expanded order). split_and!.
  - lia.
  - by constructor.
  - cbn. apply NoDup_cons. split; [|done]. intros Hin. apply list_elem_of_fmap in Hin as (g & Hg & Hin).
    apply Hfresh in Hin. unfold compose in Hg. by rewrite <-Hg, lookup_insert_eq in Hin.
  - intros g [->|Hg]%elem_of_cons; [done|]. apply Hfresh in Hg. by apply lookup_insert_None in Hg as [? _].
  - intros g [->|Hg]%elem_of_cons; [|by apply Hmap].
    apply Hkeep, lookup_insert_eq.
  - intros n g Hg. apply Hkeep. rewrite lookup_insert_ne; [done|]. intros <-. congruence.
  - intros n g Hg. apply Honly in Hg as [Hg|[Hin ->] ]; [|right; split; [by right|done] ].
    apply lookup_insert_Some in Hg as [ [<- <-]|[_ Hg] ]; [right; split; [by left|done]|by left].
Qed.

Lemma openZIP_Ok r b size z :
  holds r b → Forall is_byte b → size = Z.of_nat (length b) →
  (∀ files, zip_Directory r size = Some files → Forall unsigned files) →
  openZIP r size = Ok z →
  zip_Directory r size = Some (zi_order z) ∧ zi_reader z = r
  ∧ 1 <= Z.of_nat (length (zi_order z)) <= MaxEntries
  ∧ (∃ dir end_, 0 <= zi_directory z ∧ drop (Z.to_nat (zi_directory z)) b = dir ++ end_ ∧ length end_ = 22%nat
       ∧ take 4 end_ = [80; 75; 5; 6] ∧ le (slice 12 16 end_) = Z.of_nat (length dir)
       ∧ zi_directory z <= Z.of_nat (length b))
  ∧ index (zi_order z) 0 ∅ = Ok (zi_files z).
Proof.
  intros Hr Hb -> Hu H. unfold openZIP in H. apply guard_Ok in H as [H22 H]. apply negb_true_iff in H22. z_bools.
  apply bind_Ok in H as (end_ & He & H). apply (ReadAt_Ok _ b) in He as [Ee Le]; [|done|lia|lia].
  apply guard_Ok in H as [Hsig H]. apply bool_decide_eq_true in Hsig. apply guard_Ok in H as [Hcount H].
  apply negb_true_iff in Hcount. apply guard_Ok in H as [Hend H]. z_bools.
  destruct (zip_Directory r _) as [files|] eqn:Ed; [|done]. apply guard_Ok in H as [Hn H].
  apply bind_Ok in H as (map & Hi & [= <-] ). cbn [zi_order zi_reader zi_directory zi_files]. unfold validZIPEnd in Hend.
  repeat (apply andb_true_iff in Hend as [Hend ?]). z_bools.
  apply negb_true_iff, orb_false_iff in Hn as [Hn Hz]. apply negb_false_iff in Hn. z_bools.
  assert (Hbe : Forall is_byte end_) by (rewrite Ee; by apply Forall_take, Forall_drop).
  assert (Hd0 : 0 <= le (slice 16 20 end_)) by (apply le_nonneg; by apply Forall_take, Forall_drop).
  assert (Hs0 : 0 <= le (slice 12 16 end_)) by (apply le_nonneg; by apply Forall_take, Forall_drop).
  set (d := le (slice 16 20 end_)) in *. set (n := le (slice 12 16 end_)) in *.
  split_and!; [done|done|lia|lia| |done].
  exists (at_ b d n), end_. split_and!; [done| |lia|done| |lia].
  - assert (Hall : at_ b d (n + 22) = drop (Z.to_nat d) b).
    { unfold at_. apply take_ge. rewrite length_drop. lia. }
    rewrite <-Hall, at_app by lia. f_equal. rewrite Ee. unfold at_. repeat f_equal. lia.
  - symmetry. apply at_length; lia.
Qed.

Lemma checkLayout_Ok z b z' :
  holds (zi_reader z) b → Forall is_byte b → Forall unsigned (zi_order z) → zi_directory z <= Z.of_nat (length b) →
  checkLayout z = Ok z' →
  zi_order z' ≡ₚ zi_order z ∧ zi_files z' = zi_files z ∧ zi_reader z' = zi_reader z
  ∧ ∃ recs, tiles 0 (zi_order z') recs ∧ take (Z.to_nat (zi_directory z)) b = mjoin recs.
Proof.
  intros Hr Hb Hu Hd H. unfold checkLayout in H. apply bind_Ok in H as (next & Hl & H).
  apply guard_Ok in H as [Hn [= <-] ]. z_bools. cbn in *.
  pose proof (merge_sort_Permutation offset_le (zi_order z)) as Hperm. split_and!; [done|done|done|].
  apply (layout_loop_Ok _ b) in Hl as (_ & recs & Ht & E); [|done|done|by rewrite Hperm|done|done].
  exists recs. split; [done|]. rewrite <-E, Hn, Z.sub_0_r. done.
Qed.

Lemma inspectEntries_Ok leaf z order format p f :
  inspectEntries leaf None z order format p = Ok () → f ∈ order → IsDir f = false →
  inspectEntry leaf None z f format p = Ok ().
Proof.
  induction order as [|g order IH]; intros H Hin Hdir; [by apply elem_of_nil in Hin|].
  cbn [inspectEntries] in H. apply bind_Ok in H as ([] & Hg & H).
  apply elem_of_cons in Hin as [->|Hin]; [by rewrite Hdir in Hg|by apply IH].
Qed.

End layout.

(** The inspection of one member in memory: its bytes are those the directory promises,
    it is no archive and no program, and its format was inspected in turn. *)
Definition member_inspected {lib : Stdlib} {dec : Decoders} {zlib : ZipLib} (fuel : nat) (z : zipInspection)
    (format : Format) (p : Profiles) (f : zip_File) : Prop :=
  ∃ body, readEntry None f = Ok body
    ∧ Z.of_nat (length body) = zf_UncompressedSize64 f ∧ crc32 body = zf_CRC32 f
    ∧ dangerousHead body = false ∧ HasPrefixB body (str_bytes "PK") = false
    ∧ if bool_decide (f_Strategy format = OOXML) || bool_decide (f_Strategy format = ODF)
      then inspectOfficePart None (zf_Name f) body (hasPart z) = Ok ()
      else ∃ leaf result, byName (zf_Name f) = Some leaf ∧ containerStrategy (f_Strategy leaf) = false
             ∧ Inspect_with (inspectZIP fuel) None (bytes_source body) (Z.of_nat (length body)) (zf_Name f) "" p = Ok result
             ∧ r_Decision result = Allow.

Lemma inspectEntry_Ok {lib : Stdlib} {dec : Decoders} {zlib : ZipLib} fuel z f format p :
  inspectEntry (Inspect_with (inspectZIP fuel)) None z f format p = Ok () → member_inspected fuel z format p f.
Proof.
  unfold inspectEntry. cbn [ctx_check mbind result_bind]. intros H. apply bind_Ok in H as (body & Hread & H).
  apply guard_Ok in H as [Hh H]. apply negb_true_iff, orb_false_iff in Hh as [Hpk Hdang].
  exists body. pose proof Hread as Hr. unfold readEntry in Hr. apply guard_Ok in Hr as [_ Hr].
  destruct (zip_OpenRaw f); [|done]. destruct (zipDecoder _ _) as [decoded count].
  destruct (ReadAllLimit _ _) as [b|]; [|done]. apply guard_Ok in Hr as [_ Hr]. apply guard_Ok in Hr as [Hsz [= ->] ].
  apply andb_true_iff in Hsz as [Hsz Hcrc]. apply andb_true_iff in Hsz as [Hsz _]. z_bools.
  split_and!; [done..|]. destruct (_ || _); [done|]. unfold inspectArchiveLeaf in H.
  destruct (byName (zf_Name f)) as [leaf|]; [|done]. apply guard_Ok in H as [Hc H]. apply negb_true_iff in Hc.
  apply bind_Ok in H as (result & Hi & H). apply guard_Ok in H as [Ha _]. apply bool_decide_eq_true in Ha. eauto 6.
Qed.

(** C6. An accepted archive is, byte for byte, its local entries one after another,
    then its directory, then the end record: no byte is outside an entry, every local
    header agrees with the directory about the name, the sizes, the method and the
    place of the data, at most [MaxEntries] names are distinct up to case and safe,
    what they expand to stays within [MaxExpandedBytes], and every member was decoded
    to the size and checksum the directory promises and inspected. *)
Theorem accepted_archive {lib : Stdlib} {dec : Decoders} {zlib : ZipLib} fuel r b f p :
  holds r b → Forall is_byte b →
  (∀ files, zip_Directory r (Z.of_nat (length b)) = Some files → Forall unsigned files) →
  inspectZIP (S fuel) None r (Z.of_nat (length b)) f p = Ok () →
  ∃ z recs dir end_,
    b = mjoin recs ++ dir ++ end_ ∧ tiles 0 (zi_order z) recs
    ∧ length end_ = 22%nat ∧ take 4 end_ = [80; 75; 5; 6] ∧ le (slice 12 16 end_) = Z.of_nat (length dir)
    ∧ (∃ files, zip_Directory r (Z.of_nat (length b)) = Some files ∧ zi_order z ≡ₚ files)
    ∧ 1 <= Z.of_nat (length (zi_order z)) <= MaxEntries
    ∧ expanded (zi_order z) <= MaxExpandedBytes
    ∧ NoDup (ToLower ∘ zf_Name <$> zi_order z) ∧ Forall (λ g, safeEntryName (zf_Name g) = true) (zi_order z)
    ∧ ∀ g, g ∈ zi_order z → IsDir g = false → member_inspected fuel z f p g.
Proof.
  intros Hr Hb Hu H. cbn [inspectZIP] in H. unfold inspectZIP_with in H. apply guard_Ok in H as [_ H].
  apply bind_Ok in H as (z & Ho & H). apply bind_Ok in H as (z' & Hl & H). apply bind_Ok in H as ([] & _ & H).
  apply (openZIP_Ok _ b) in Ho as (Hdir & Hrd & Hcount & (dir & end_ & Hd0 & Hdrop & Hlen & Hsig & Hsz & Hdb) & Hi);
    [|done..]. specialize (Hu _ Hdir).
  apply (index_Ok) in Hi as (Hexp & Hall & Hnd & _); [|unfold MaxExpandedBytes; lia|done].
  apply (checkLayout_Ok _ b) in Hl as (Hperm & _ & _ & recs & Ht & Htake); [|by rewrite Hrd|done..].
  exists z', recs, dir, end_. split_and!.
  - by rewrite <-Htake, <-Hdrop, take_drop.
  - done.
  - done.
  - done.
  - done.
  - by exists (zi_order z).
  - rewrite Hperm. lia.
  - rewrite Hperm. lia.
  - assert (expanded (zi_order z') = expanded (zi_order z)) as ->; [|lia].
    clear -Hperm. induction Hperm; cbn; unfold expanded in *; lia.
  - by rewrite Hperm.
  - rewrite Hperm. eapply Forall_impl; [done|]. by intros g [? _].
  - intros g Hg Hdirg. by eapply inspectEntry_Ok, inspectEntries_Ok.
Qed.

(** ** One level of recursion *)

Lemma Inspect_with_leaf {lib : Stdlib} {dec : Decoders} zip1 zip2 ctx source size name declared p leaf :
  byName name = Some leaf → containerStrategy (f_Strategy leaf) = false →
  Inspect_with zip1 ctx source size name declared p = Inspect_with zip2 ctx source size name declared p.
Proof. intros Hn Hc. unfold Inspect_with, inspectFormat. rewrite Hn. by destruct (f_Strategy leaf). Qed.

(** The inspection asks [inspectZIP] about the source and [Inspect] about the members
    only through their answers. *)
Lemma Inspect_with_ext {lib : Stdlib} {dec : Decoders} zip1 zip2 ctx source size name declared p :
  (∀ r f, zip1 ctx r size f p = zip2 ctx r size f p) →
  Inspect_with zip1 ctx source size name declared p = Inspect_with zip2 ctx source size name declared p.
Proof.
  intros Hzip. unfold Inspect_with. destruct (byName name) as [f|]; [|reflexivity].
  destruct (negb (bool_decide (f_Decision f = Some Allow))); [reflexivity|].
  destruct (negb (enabled f p)); [reflexivity|]. destruct (size <=? 0); [reflexivity|].
  destruct (source 0) as [r0|]; [|reflexivity]. cbn [mbind result_bind].
  destruct (ReadFull _ _) as [head|]; [|reflexivity]. cbn [mbind result_bind].
  destruct (dangerousHead head); [reflexivity|].
  unfold inspectFormat. destruct (f_Strategy f); rewrite ?Hzip; reflexivity.
Qed.

Lemma inspectZIP_with_ext {lib : Stdlib} {dec : Decoders} {zlib : ZipLib} inspect1 inspect2 ctx r size f p :
  (∀ n b, inspectArchiveLeaf inspect1 ctx n b p = inspectArchiveLeaf inspect2 ctx n b p) →
  inspectZIP_with inspect1 ctx r size f p = inspectZIP_with inspect2 ctx r size f p.
Proof.
  intros Hleaf. unfold inspectZIP_with. case_match; [|reflexivity].
  destruct (openZIP r size) as [z|]; [|reflexivity]. cbn [mbind result_bind].
  destruct (checkLayout z) as [z'|]; [|reflexivity]. cbn [mbind result_bind].
  assert (Hent : ∀ order, inspectEntries inspect1 ctx z' order f p = inspectEntries inspect2 ctx z' order f p).
  { induction order as [|g order IH]; [reflexivity|]. cbn [inspectEntries]. rewrite IH. unfold inspectEntry.
    destruct (IsDir g); [reflexivity|]. destruct (ctx_check ctx); [|reflexivity]. cbn [mbind result_bind].
    destruct (readEntry ctx g); [|reflexivity]. cbn [mbind result_bind]. case_match; [|reflexivity].
    case_match; [reflexivity|]. by rewrite Hleaf. }
  by rewrite Hent.
Qed.

Lemma archive_leaf_depth {lib : Stdlib} {dec : Decoders} zip1 zip2 ctx n b p :
  inspectArchiveLeaf (Inspect_with zip1) ctx n b p = inspectArchiveLeaf (Inspect_with zip2) ctx n b p.
Proof.
  unfold inspectArchiveLeaf. destruct (byName n) as [leaf|] eqn:En; [|reflexivity].
  destruct (containerStrategy (f_Strategy leaf)) eqn:Ec; [reflexivity|]. cbn [negb].
  by rewrite (Inspect_with_leaf zip1 zip2 _ _ _ _ _ _ leaf).
Qed.

(** An archive holds no archive the inspection would enter: more fuel than the one
    level [Inspect] is given changes no verdict, so the recursion of [Inspect] and
    [inspectZIP] ends after one archive. *)
Theorem Inspect_depth {lib : Stdlib} {dec : Decoders} {zlib : ZipLib} fuel ctx source size name declared p :
  Inspect_with (inspectZIP (S fuel)) ctx source size name declared p = Inspect ctx source size name declared p.
Proof.
  unfold Inspect. apply Inspect_with_ext. intros r f. cbn [inspectZIP].
  apply inspectZIP_with_ext. intros n b. apply archive_leaf_depth.
Qed.

(** ** What an allowed file is *)

Lemma catalog_blocked : Forall (λ f, Forall (λ e, e ∉ blocked) (f_Extensions f) ∧ f_Decision f = Some Allow) catalog.
Proof. apply (bool_decide_eq_true_1 _). vm_compute. reflexivity. Qed.

Lemma byName_catalog {lib : Stdlib} name f : byName name = Some f → f ∈ catalog ∧ ToLower (Ext name) ∈ f_Extensions f.
Proof.
  intros H. apply List.find_some in H as [Hin H]. split; [by apply list_elem_of_In|by apply bool_decide_eq_true in H].
Qed.

Lemma pdf_tokens_ok : Forall (λ t, (length t <= 33)%nat) pdf_tokens ∧ Forall (λ t, t ≠ []) pdf_tokens.
Proof. split; apply (bool_decide_eq_true_1 _); vm_compute; reflexivity. Qed.

Lemma ReadFull_holds b s n x :
  rd_err s = None → rd_content s = b → 0 <= n <= Z.of_nat (length b) → ReadFull n s = Ok x → x = take (Z.to_nat n) b.
Proof.
  intros He <- Hn. unfold ReadFull. rewrite (proj2 (Z.leb_le _ _)) by lia. congruence.
Qed.

(** What the inspector of each family of formats vouches for. *)
Definition vouched {lib : Stdlib} {dec : Decoders} {zlib : ZipLib} (r : ReadSeeker) (b : list Z) (f : Format) (p : Profiles)
  : Prop :=
  match f_Strategy f with
  | ZIP | OOXML | ODF => inspectZIP 1 None r (Z.of_nat (length b)) f p = Ok ()
  | Text => (∃ rs, Forall text_rune rs ∧ b = encode_runes rs) ∧ ∀ t, t ∈ text_tokens → ¬ occurs t (lowerB b)
  | JSON => passiveText (trim_bom b) = true ∧ json_Valid (trim_bom b) = true ∧ Z.of_nat (length b) <= MaxTextBytes
  | Delimited | XML => passiveText (trim_bom b) = true ∧ Z.of_nat (length b) <= MaxTextBytes
  | Signature => f_ID f = IDPDF → ∀ t, t ∈ pdf_tokens → ¬ occurs t b
  | _ => True
  end.

Lemma inspectText_data {lib : Stdlib} {dec : Decoders} s b f :
  rd_err s = None → rd_content s = b → f_Strategy f ≠ Text →
  inspectText None s (Z.of_nat (length b)) f = Ok () →
  passiveText (trim_bom b) = true ∧ Z.of_nat (length b) <= MaxTextBytes
  ∧ (f_Strategy f = JSON → json_Valid (trim_bom b) = true).
Proof.
  intros He <- Hs H. unfold inspectText in H. rewrite bool_decide_eq_false_2 in H by done.
  apply guard_Ok in H as [Hmax H]. apply negb_true_iff in Hmax. z_bools.
  apply bind_Ok in H as (data & Hd & H). unfold ReadLimit, contextReader in Hd.
  rewrite (proj2 (Z.leb_gt _ _)) in Hd by lia. unfold ReadAll in Hd. rewrite He in Hd. injection Hd as <-.
  apply guard_Ok in H as [_ H]. apply guard_Ok in H as [Hp H]. split_and!; [done|done|].
  intros Ej. rewrite Ej in H. by apply guard_Ok in H as [? _].
Qed.


(** ** An instance: an archive of one stored text *)

Definition le_bytes (n : nat) (v : Z) : list Z := (λ i, v / 256 ^ Z.of_nat i mod 256) <$> seq 0 n.

Definition toy_file : zip_File :=
  {| zf_Name := "a.txt"; zf_Flags := 0; zf_Method := 0; zf_Mode := ModeRegular; zf_CRC32 := 7;
     zf_CompressedSize64 := 2; zf_UncompressedSize64 := 2; zf_Extra := []; zf_Comment := ""; zf_DataOffset := Some 35 |}.

Definition toy_archive : list Z :=
  [80; 75; 3; 4] ++ le_bytes 2 20 ++ le_bytes 2 0 ++ le_bytes 2 0 ++ le_bytes 4 0 ++ le_bytes 4 7 ++ le_bytes 4 2
  ++ le_bytes 4 2 ++ le_bytes 2 5 ++ le_bytes 2 0 ++ str_bytes "a.txt" ++ str_bytes "hi"
  ++ str_bytes "directory"
  ++ [80; 75; 5; 6] ++ le_bytes 4 0 ++ le_bytes 2 1 ++ le_bytes 2 1 ++ le_bytes 4 9 ++ le_bytes 4 37 ++ le_bytes 2 0.

#[local] Instance toy_zip : ZipLib := {|
  zip_Directory _ _ := Some [toy_file]; zip_OpenRaw _ := Some (str_bytes "hi", true);
  flate_Decode raw := (raw, 0); crc32 _ := 7; unicode_Mn _ := false |}.
#[local] Existing Instance toy_lib.
#[local] Existing Instance toy_dec.

Definition toy_profiles : Profiles := {| pr_Data := true; pr_Office := true; pr_Archives := true |}.

Lemma bytes_source_holds b : holds (bytes_source b) b.
Proof. intros off Hoff. left. eexists. split; [done|]. split; done. Qed.

Lemma toy_archive_bytes : Forall is_byte toy_archive.
Proof. apply (bool_decide_eq_true_1 (Forall (λ b, 0 <= b < 256) _)). vm_compute. reflexivity. Qed.

Definition toy_format : Format := default unknown_format (byName "x.zip").

Lemma accepted_archive_witness :
  inspectZIP 1 None (bytes_source toy_archive) (Z.of_nat (length toy_archive)) toy_format toy_profiles = Ok ()
  ∧ ∃ z recs, tiles 0 (zi_order z) recs ∧ length recs = 1%nat.
Proof.
  assert (H : inspectZIP 1 None (bytes_source toy_archive) (Z.of_nat (length toy_archive)) toy_format toy_profiles = Ok ())
    by (vm_compute; reflexivity).
  split; [done|].
  assert (Hu : ∀ files, zip_Directory (bytes_source toy_archive) (Z.of_nat (length toy_archive)) = Some files →
    files = [toy_file]) by (intros files Hf; cbn in Hf; congruence).
  destruct (accepted_archive 0 _ _ _ _ (bytes_source_holds _) toy_archive_bytes
    ltac:(intros files ->%Hu; repeat constructor; cbn; lia) H)
    as (z & recs & _ & _ & _ & Ht & _ & _ & _ & (files & Hf & Hperm) & _).
  apply Hu in Hf as ->. exists z, recs. split; [done|]. apply Permutation_length in Hperm. revert Hperm Ht.
  destruct (zi_order z) as [|f [|] ]; try done. intros _. destruct recs as [|rec [|] ]; try done; by intros [_ ?].
Defined.

