(* ===== verification/FileDomain.v ===== *)
(** * file-service: the attachment domain

    [services/file-service/internal/domain]: destinations, the statuses of an
    attachment and of its preview, list limits and cursors, the normalisation of what
    a client declares (file name, MIME type, duration), and the keys of the object
    store ([file.go], [preview.go]).

    [uuid.Parse] followed by [String], [mime.ParseMediaType] and the Unicode case
    mapping are parameters. *)

From stdpp Require Import prelude gmap strings sorting.
From Stdlib Require Import ZArith Lia Ascii.
From S2P Require Import Prelude GoStrings Utf8 Codec Paths DocumentGuard FilePolicy.
Local Open Scope Z_scope.

(** ** Errors *)

Definition ErrInvalidInput : error := ErrNew "domain.ErrInvalidInput".
Definition ErrUnauthorized : error := ErrNew "domain.ErrUnauthorized".
Definition ErrNotFound : error := ErrNew "domain.ErrNotFound".
Definition ErrUnavailable : error := ErrNew "domain.ErrUnavailable".
Definition ErrUnsupportedMedia : error := ErrWrap "unsupported media type" ErrInvalidInput.
Definition ErrFormatBlocked : error := ErrWrap "format blocked" ErrUnsupportedMedia.
Definition ErrUnrecognizedContent : error := ErrWrap "content unrecognized" ErrUnsupportedMedia.
Definition ErrInspectionLimit : error := ErrWrap "inspection budget exceeded" ErrUnsupportedMedia.
Definition ErrTooLarge : error := ErrNew "domain.ErrTooLarge".
Definition ErrEmptyFile : error := ErrWrap "empty file" ErrInvalidInput.
Definition ErrTooManyFiles : error := ErrWrap "exactly one file is allowed" ErrInvalidInput.
Definition ErrNotDownloadable : error := ErrNew "domain.ErrNotDownloadable".
Definition ErrAudioTranscodeFailed : error := ErrNew "domain.ErrAudioTranscodeFailed".
Definition ErrUploadsDisabled : error := ErrWrap "uploads disabled" ErrUnavailable.
Definition ErrDependenciesUnavailable : error := ErrWrap "dependencies unavailable" ErrUnavailable.
Definition ErrNoCapacity : error := ErrNew "domain.ErrNoCapacity".
Definition ErrUserAtCapacity : error := ErrWrap "user upload concurrency reached" ErrNoCapacity.
Definition ErrClusterAtCapacity : error := ErrWrap "cluster upload concurrency reached" ErrNoCapacity.
Definition ErrAdmissionUnavailable : error := ErrWrap "upload admission unavailable" ErrUnavailable.
Definition ErrPreviewUnavailable : error := ErrNew "domain.ErrPreviewUnavailable".

(** ** Destinations *)

Definition DestinationKindChannel : string := "channel".
Definition DestinationKindDM : string := "dm".
Definition DestinationKind_Valid (k : string) : bool := (k == DestinationKindChannel) || (k == DestinationKindDM).

Record Destination := { Destination_Kind : string; Destination_ID : string }.
#[export] Instance Destination_eq_dec : EqDecision Destination.
Proof. solve_decision. Defined.

Section domain.
Context {lib : Stdlib} {dec : Decoders} (uuid_Parse : string → option string).

Definition NewDestination (kind id : string) : result Destination :=
  guard! DestinationKind_Valid kind else ErrWrap "invalid destination kind" ErrInvalidInput ;;
  match uuid_Parse id with
  | None => Fail (ErrWrap "invalid destination id" ErrInvalidInput)
  | Some parsed => Ok {| Destination_Kind := kind; Destination_ID := parsed |}
  end.

(** ** Statuses *)

Inductive Status : Set :=
| StatusPendingUpload | StatusPendingScan | StatusClean | StatusRejected | StatusFailed | StatusDeleted.
#[local] Instance Status_dec : EqDecision Status.
Proof. solve_decision. Defined.

Definition Status_text (s : Status) : string :=
  match s with
  | StatusPendingUpload => "pending_upload" | StatusPendingScan => "pending_scan" | StatusClean => "clean"
  | StatusRejected => "rejected" | StatusFailed => "failed" | StatusDeleted => "deleted"
  end.
Definition all_statuses : list Status :=
  [StatusPendingUpload; StatusPendingScan; StatusClean; StatusRejected; StatusFailed; StatusDeleted].

(** [Status.Valid] of a text. *)
Definition Status_Valid (s : string) : bool := s ∈? (Status_text <$> all_statuses).
Definition Downloadable (s : Status) : bool := bool_decide (s = StatusClean).
Definition Listable (s : Status) : bool :=
  match s with StatusPendingScan | StatusClean | StatusRejected => true | _ => false end.

(** ** Listing *)

Definition MaxFilenameBytes : Z := 255.
Definition DefaultAttachmentListLimit : Z := 20.
Definition MaxAttachmentListLimit : Z := 50.

Definition NormalizeAttachmentListLimit (limit : Z) : Z :=
  if limit <=? 0 then DefaultAttachmentListLimit
  else if MaxAttachmentListLimit <? limit then MaxAttachmentListLimit else limit.

Record AttachmentListCursor := { ac_CreatedAt : Time; ac_ID : string }.

Definition EncodeAttachmentListCursor (c : AttachmentListCursor) : string := encode_stamped (ac_CreatedAt c) (ac_ID c).

Definition DecodeAttachmentListCursor (token : string) : result AttachmentListCursor :=
  let invalid := ErrWrap "invalid cursor" ErrInvalidInput in
  match split_token token with
  | None => Fail invalid
  | Some (stamp, id) =>
      match RFC3339.Parse (str_bytes stamp) with
      | None => Fail invalid
      | Some createdAt =>
          match uuid_Parse id with
          | None => Fail invalid
          | Some parsed => Ok {| ac_CreatedAt := createdAt; ac_ID := parsed |}
          end
      end
  end.

(** ** What a client declares *)

Definition AudioKindVoice : string := "voice".
Definition AudioKind_Valid (k : string) : bool := (k == "") || (k == AudioKindVoice).

Definition MaxDeclaredDurationMs : Z := 6 * 60 * 60 * 1000.

(** [strconv.ParseInt(s, 10, 64)]: an optional sign and digits, in range. *)
Fixpoint digits_value (acc : Z) (bs : list Z) : option Z :=
  match bs with
  | [] => Some acc
  | b :: bs => if RFC3339.isDigit b then digits_value (acc * 10 + (b - 48)) bs else None
  end.

Definition ParseInt (s : string) : option Z :=
  let bs := str_bytes s in
  let '(neg, ds) := match bs with 43 :: ds => (false, ds) | 45 :: ds => (true, ds) | _ => (false, bs) end in
  match ds with
  | [] => None
  | _ => v ← digits_value 0 ds;
         let v := if neg : bool then - v else v in
         if bool_decide (in_int64 v) then Some v else None
  end.

Definition NormalizeDeclaredDurationMs (raw : string) : option Z :=
  let raw := TrimSpace raw in
  if raw == "" then None
  else match ParseInt raw with
       | None => None
       | Some value => if (value <=? 0) || (MaxDeclaredDurationMs <? value) then None else Some value
       end.

Definition DefaultContentType : string := "application/octet-stream".
Definition MaxDeclaredMIMEBytes : Z := 255.

Definition NormalizeDetectedMIME (detected : string) : string :=
  let parsed := match ParseMediaType detected with
                | Some parsed => parsed
                | None => TrimSpace (ToLower (cut_semicolon detected))
                end in
  if parsed == "" then DefaultContentType else parsed.

Definition voiceCompatibleContent : list string :=
  ["audio/mpeg"; "audio/ogg"; "audio/wav"; "audio/wave"; "audio/x-wav"; "application/ogg"; "video/webm"; "video/mp4"].
Definition VoiceCompatibleContent (detectedMIME : string) : bool :=
  NormalizeDetectedMIME detectedMIME ∈? voiceCompatibleContent.

(** Removing one byte at a time until what is left is valid UTF-8. *)
Fixpoint trim_invalid (fuel : nat) (bs : list Z) : list Z :=
  match fuel with
  | O => bs
  | S fuel => if valid_bytes bs then bs else trim_invalid fuel (take (length bs - 1) bs)
  end.

Definition truncateUTF8 (value : list Z) (limit : Z) : list Z :=
  if Z.of_nat (length value) <=? limit then value
  else let truncated := take (Z.to_nat limit) value in trim_invalid (length truncated) truncated.

(** What follows the last byte in [set] ([strings.LastIndexAny]). *)
Definition after_last (set : list Z) (bs : list Z) : list Z :=
  foldl (λ acc b, if bool_decide (b ∈ set) then [] else acc ++ [b]) [] bs.

(** [strings.Trim] with an ASCII cutset. *)
Fixpoint trim_left (set : list Z) (bs : list Z) : list Z :=
  match bs with
  | b :: rest => if bool_decide (b ∈ set) then trim_left set rest else bs
  | [] => []
  end.
Definition trim (set : list Z) (bs : list Z) : list Z := rev (trim_left set (rev (trim_left set bs))).

Definition kept_in_filename (r : Z) : bool := negb ((r =? RuneError) || IsControl r || IsFormat r).

(** The loop over the runes of a text into a [strings.Builder]. *)
Definition keep_runes (keep : Z → bool) (bs : list Z) : list Z :=
  encode_runes (filter (λ r, keep r = true) (fst <$> decode_runes 0 bs)).

Definition NormalizeFilename (raw : string) : result (list Z) :=
  guard! valid_bytes (str_bytes raw) else ErrWrap "filename is not valid UTF-8" ErrInvalidInput ;;
  let name := after_last [47; 92] (str_bytes raw) in
  let name := trim [32; 9; 46] (keep_runes kept_in_filename name) in
  guard! (name != []) else ErrWrap "filename is empty" ErrInvalidInput ;;
  Ok (truncateUTF8 name MaxFilenameBytes).

Definition kept_in_mime (r : Z) : bool := negb ((r =? RuneError) || IsControl r || (0x7F <? r)).

Definition NormalizeDeclaredMIME (raw : string) : list Z :=
  let value := str_bytes (TrimSpace (bytes_str (keep_runes kept_in_mime (str_bytes raw)))) in
  if value == [] then str_bytes DefaultContentType else truncateUTF8 value MaxDeclaredMIMEBytes.

Definition StorageObjectKey (attachmentID : string) : string := "nchat/attachments/" +:+ attachmentID.
Definition PreviewObjectKey (previewObjectID : string) : string := "nchat/previews/" +:+ previewObjectID.

(** ** Previews *)

Inductive PreviewLifecycleStatus : Set :=
| PreviewLifecyclePending | PreviewLifecycleScanning | PreviewLifecycleGenerating | PreviewLifecycleAvailable
| PreviewLifecycleFailed | PreviewLifecycleBlocked | PreviewLifecycleExpired.
Definition PreviewLifecycleStatus_text (s : PreviewLifecycleStatus) : string :=
  match s with
  | PreviewLifecyclePending => "pending" | PreviewLifecycleScanning => "scanning"
  | PreviewLifecycleGenerating => "generating" | PreviewLifecycleAvailable => "available"
  | PreviewLifecycleFailed => "failed" | PreviewLifecycleBlocked => "blocked" | PreviewLifecycleExpired => "expired"
  end.
Definition all_lifecycles : list PreviewLifecycleStatus :=
  [PreviewLifecyclePending; PreviewLifecycleScanning; PreviewLifecycleGenerating; PreviewLifecycleAvailable;
   PreviewLifecycleFailed; PreviewLifecycleBlocked; PreviewLifecycleExpired].
Definition PreviewLifecycleStatus_Valid (s : string) : bool := s ∈? (PreviewLifecycleStatus_text <$> all_lifecycles).

Definition CanTransitionTo (s next : PreviewLifecycleStatus) : bool :=
  match s, next with
  | PreviewLifecyclePending, (PreviewLifecycleScanning | PreviewLifecycleGenerating | PreviewLifecycleBlocked)
  | PreviewLifecycleScanning, (PreviewLifecyclePending | PreviewLifecycleBlocked)
  | PreviewLifecycleGenerating, (PreviewLifecycleAvailable | PreviewLifecycleFailed | PreviewLifecycleBlocked)
  | PreviewLifecycleAvailable, (PreviewLifecycleExpired | PreviewLifecycleBlocked)
  | (PreviewLifecycleFailed | PreviewLifecycleExpired), PreviewLifecyclePending => true
  | _, _ => false
  end.

Inductive PreviewStatus : Set :=
| PreviewStatusPending | PreviewStatusReady | PreviewStatusUnsupported | PreviewStatusFailed.
Definition PreviewStatus_text (s : PreviewStatus) : string :=
  match s with
  | PreviewStatusPending => "pending" | PreviewStatusReady => "ready"
  | PreviewStatusUnsupported => "unsupported" | PreviewStatusFailed => "failed"
  end.
Definition PreviewStatus_Valid (s : string) : bool :=
  s ∈? (PreviewStatus_text <$> [PreviewStatusPending; PreviewStatusReady; PreviewStatusUnsupported; PreviewStatusFailed]).
Definition Servable (s : PreviewStatus) : bool := match s with PreviewStatusReady => true | _ => false end.
Definition Terminal (s : PreviewStatus) : bool := match s with PreviewStatusPending => false | _ => true end.

Definition PreviewContentTypeJPEG : string := "image/jpeg".
Definition PreviewContentTypeSheet : string := "application/vnd.nchat.preview-sheet+json".
Definition PreviewContentTypeValid (t : string) : bool := (t == PreviewContentTypeJPEG) || (t == PreviewContentTypeSheet).

Definition MaxPreviewSourceBytes : Z := 20 * 2 ^ 20.

Definition previewableMIMEs : list string :=
  ["image/jpeg"; "image/png"; "image/gif"; "application/pdf"; "text/plain"; "application/zip"].
Definition PreviewSupported (detectedMIME : string) : bool :=
  PreviewMIME (NormalizeDetectedMIME detectedMIME) ∈? previewableMIMEs.

Definition InitialPreviewStatus (detectedMIME : string) (size : Z) : PreviewStatus :=
  if negb (PreviewSupported detectedMIME) || (size <=? 0) || (MaxPreviewSourceBytes <? size)
  then PreviewStatusUnsupported else PreviewStatusPending.

Definition InitialPolicyPreviewStatus (detectedMIME : string) (size : Z) (formatID : FormatID) (version : Z)
  : PreviewStatus :=
  let rendererMIME := PolicyPreviewMIME (NormalizeDetectedMIME detectedMIME) formatID version in
  if rendererMIME == "" then PreviewStatusUnsupported else InitialPreviewStatus rendererMIME size.

(** [filepath.Ext] is [path.Ext] where the separator is a slash. *)
Definition InitialDocumentPreviewStatus (detectedMIME originalFilename : string) (size : Z) : PreviewStatus :=
  if (NormalizeDetectedMIME detectedMIME == "application/octet-stream") && EqualFold (Ext originalFilename) ".ppt" then
    if (0 <? size) && (size <=? MaxPreviewSourceBytes) then PreviewStatusPending else PreviewStatusUnsupported
  else InitialPreviewStatus detectedMIME size.

End domain.

#[export] Instance Status_eq_dec : EqDecision Status.
Proof. solve_decision. Defined.
#[export] Instance PreviewLifecycleStatus_eq_dec : EqDecision PreviewLifecycleStatus.
Proof. solve_decision. Defined.
#[export] Instance PreviewStatus_eq_dec : EqDecision PreviewStatus.
Proof. solve_decision. Defined.

(** ** File names *)

Lemma encode_high r b : scalar r → b ∈ encode_rune r → b < 0x80 → r = b ∧ encode_rune r = [b].
Proof.
  intros Hr Hin Hb. destruct (Z_lt_le_dec r 0x80) as [Hlt|Hge].
  - unfold encode_rune in *. rewrite (proj2 (Z.ltb_lt _ _)) in * by done. by apply list_elem_of_singleton in Hin as ->.
  - pose proof (encode_rune_high r b Hr Hge Hin). lia.
Qed.

(** What follows the last separator is made of whole runes, none a separator. *)
Lemma after_last_runes set rs :
  Forall scalar rs → Forall (λ b, b < 0x80) set →
  ∃ rs', after_last set (encode_runes rs) = encode_runes rs' ∧ Forall scalar rs' ∧ Forall (λ r, r ∉ set) rs'.
Proof.
  intros Hrs Hset. unfold after_last.
  assert (Hgen : ∀ acc, Forall scalar acc → Forall (λ r, r ∉ set) acc →
    ∃ rs', foldl (λ acc b, if bool_decide (b ∈ set) then [] else acc ++ [b]) (encode_runes acc) (encode_runes rs)
           = encode_runes rs' ∧ Forall scalar rs' ∧ Forall (λ r, r ∉ set) rs').
  2: { apply (Hgen []); constructor. }
  induction Hrs as [|r rs Hr Hrs IH]; intros acc Hacc Hno; [by exists acc|].
  rewrite encode_runes_cons, foldl_app. destruct (decide (r ∈ set)) as [Hin|Hnin].
  - assert (encode_rune r = [r]) as ->.
    { pose proof (proj1 (Forall_forall _ _) Hset r Hin) as Hlt. cbn in Hlt. unfold encode_rune.
      by rewrite (proj2 (Z.ltb_lt _ _)). }
    cbn. rewrite bool_decide_eq_true_2 by done. apply (IH []); constructor.
  - assert (Hbytes : ∀ bs acc, (∀ b, b ∈ bs → b ∉ set) →
      foldl (λ acc b, if bool_decide (b ∈ set) then [] else acc ++ [b]) acc bs = acc ++ bs).
    { clear. induction bs as [|b bs IH]; intros acc Hb; cbn; [by rewrite app_nil_r|].
      rewrite bool_decide_eq_false_2 by (apply Hb; by left). rewrite IH; [by rewrite <-app_assoc|].
      intros x Hx. apply Hb. by right. }
    rewrite (Hbytes (encode_rune r)).
    2: { intros b Hb Hin. pose proof (proj1 (Forall_forall _ _) Hset b Hin) as Hlt. cbn in Hlt.
         destruct (encode_high r b Hr Hb Hlt) as [-> _]. done. }
    assert (encode_runes acc ++ encode_rune r = encode_runes (acc ++ [r])) as ->.
    { rewrite encode_runes_app, encode_runes_cons. change (encode_runes []) with (@nil Z). by rewrite app_nil_r. }
    apply IH; apply Forall_app; (split; [done|by constructor]).
Qed.

Lemma keep_runes_encode keep rs :
  Forall scalar rs → keep_runes keep (encode_runes rs) = encode_runes (filter (λ r, keep r = true) rs).
Proof.
  intros Hrs. unfold keep_runes. rewrite decode_runes_encode by done. unfold widths. rewrite <-list_fmap_compose.
  by rewrite (list_fmap_ext _ id), list_fmap_id.
Qed.

Lemma trim_left_runes set rs :
  Forall scalar rs → Forall (λ b, b < 0x80) set →
  ∃ rs', trim_left set (encode_runes rs) = encode_runes rs' ∧ rs' `suffix_of` rs ∧ (∀ r t, rs' = r :: t → r ∉ set).
Proof.
  intros Hrs Hset. induction Hrs as [|r rs Hr Hrs (rs' & E & Hsuf & Hne)]; [by exists []|].
  rewrite encode_runes_cons. destruct (decide (r ∈ set)) as [Hin|Hnin].
  - pose proof (proj1 (Forall_forall _ _) Hset r Hin) as Hlt. cbn in Hlt.
    assert (encode_rune r = [r]) as -> by (unfold encode_rune; by rewrite (proj2 (Z.ltb_lt _ _))).
    cbn. rewrite bool_decide_eq_true_2 by done. exists rs'. split_and!; [done|by apply suffix_cons_r|done].
  - exists (r :: rs). split_and!; [|done|by intros ? ? [= <- _]].
    rewrite encode_runes_cons. destruct (encode_rune_cons r) as (b & bs & E'). rewrite E'. cbn.
    rewrite bool_decide_eq_false_2; [done|]. intros Hin.
    pose proof (proj1 (Forall_forall _ _) Hset b Hin) as Hlt. cbn in Hlt.
    destruct (encode_high r b Hr) as [-> _]; [rewrite E'; by left|done|done].
Qed.

Lemma trim_left_rev_runes set rs :
  Forall scalar rs → Forall (λ b, b < 0x80) set →
  ∃ rs', rev (trim_left set (rev (encode_runes rs))) = encode_runes rs' ∧ rs' `prefix_of` rs.
Proof.
  intros Hrs Hset. induction rs as [|r rs IH] using rev_ind; [by exists []|].
  apply Forall_app in Hrs as [Hrs Hr]. apply Forall_cons in Hr as [Hr _].
  assert (E : encode_runes (rs ++ [r]) = encode_runes rs ++ encode_rune r).
  { rewrite encode_runes_app, encode_runes_cons. change (encode_runes []) with (@nil Z). by rewrite app_nil_r. }
  destruct (decide (r ∈ set)) as [Hin|Hnin].
  - pose proof (proj1 (Forall_forall _ _) Hset r Hin) as Hlt. cbn in Hlt. rewrite E.
    assert (encode_rune r = [r]) as -> by (unfold encode_rune; by rewrite (proj2 (Z.ltb_lt _ _))).
    rewrite rev_app_distr. cbn. rewrite bool_decide_eq_true_2 by done.
    destruct (IH Hrs) as (rs' & Ers & Hp). exists rs'. split; [done|]. by apply prefix_app_r.
  - exists (rs ++ [r]). split; [|done]. etrans; [|apply rev_involutive]. f_equal.
    destruct (exists_last (l := encode_rune r)) as (bs & b & E'); [by destruct (encode_rune_cons r) as (? & ? & ->)|].
    rewrite E, E', app_assoc, rev_app_distr. cbn. rewrite bool_decide_eq_false_2; [done|]. intros Hin.
    pose proof (proj1 (Forall_forall _ _) Hset b Hin) as Hlt. cbn in Hlt.
    destruct (encode_high r b Hr) as [-> _]; [rewrite E'; apply elem_of_app; right; by left|done|done].
Qed.

(** The longest valid prefix is found. *)
Lemma trim_invalid_spec fuel bs :
  (length bs <= fuel)%nat →
  valid_bytes (trim_invalid fuel bs) = true ∧ trim_invalid fuel bs `prefix_of` bs
  ∧ ∀ p, p `prefix_of` bs → valid_bytes p = true → (length p <= length (trim_invalid fuel bs))%nat.
Proof.
  revert bs. induction fuel as [|fuel IH]; intros bs Hf; cbn [trim_invalid].
  { destruct bs; [|cbn in Hf; lia]. split_and!; [done|done|]. by intros p ->%prefix_nil_inv. }
  destruct (valid_bytes bs) eqn:E; [split_and!; [done|done|intros p Hp _; by apply prefix_length]|].
  destruct bs as [|b bs]; [done|].
  destruct (IH (take (length (b :: bs) - 1) (b :: bs))) as (Hv & Hp & Hmax); [rewrite length_take; cbn in *; lia|].
  split_and!; [done|by etrans; [apply Hp|apply prefix_take]|]. intros p Hpre Hvp. apply Hmax; [|done].
  destruct Hpre as [k Hk]. rewrite Hk in E |- *. destruct (exists_last (l := k)) as (k' & x & ->); [intros ->; rewrite app_nil_r in E; congruence|].
  rewrite app_assoc, length_app. cbn [length]. rewrite Nat.add_sub, take_app_length. by exists k'.
Qed.

Lemma truncate_runes rs limit :
  Forall scalar rs → rs ≠ [] → 4 <= limit →
  ∃ m, truncateUTF8 (encode_runes rs) limit = encode_runes (take (S m) rs)
    ∧ Z.of_nat (length (encode_runes (take (S m) rs))) <= limit.
Proof.
  intros Hrs Hne Hl. unfold truncateUTF8. destruct (Z.leb_spec (Z.of_nat (length (encode_runes rs))) limit) as [Hs|Hs].
  { exists (length rs). by rewrite take_ge by lia. }
  set (t := take (Z.to_nat limit) (encode_runes rs)).
  destruct (trim_invalid_spec (length t) t (Nat.le_refl _)) as (Hv & [k Hp] & Hmax).
  set (w := trim_invalid (length t) t) in *.
  assert (Heq : encode_runes rs = w ++ k ++ drop (Z.to_nat limit) (encode_runes rs)).
  { rewrite app_assoc, <-Hp. symmetry. apply take_drop. }
  assert (Ht : w = take (length w) (encode_runes rs)) by (by rewrite Heq, take_app_length).
  rewrite Ht in Hv. destruct (decode_runes_prefix_valid _ _ Hrs Hv) as [m Hm]. rewrite <-Ht in Hm.
  assert (Hlen : Z.of_nat (length w) <= limit).
  { assert (Hle : (length w + length k = length t)%nat) by (by rewrite Hp, length_app).
    unfold t in Hle. rewrite length_take in Hle. lia. }
  destruct m as [|m]; [|by exists m; rewrite <-Hm]. exfalso.
  destruct rs as [|r rs]; [done|]. apply Forall_cons in Hrs as [Hr Hrs]. pose proof (encode_rune_length r) as Hlr.
  assert (H1 : encode_rune r `prefix_of` t).
  { unfold t. rewrite encode_runes_cons, take_app, take_ge by lia. by apply prefix_app_r. }
  apply Hmax in H1.
  - rewrite Hm in H1. cbn in H1. lia.
  - pose proof (encode_valid [r] ltac:(by constructor)) as Hvr. rewrite encode_runes_cons in Hvr.
    change (encode_runes []) with (@nil Z) in Hvr. by rewrite app_nil_r in Hvr.
Qed.

(** A rune that may stand in a stored file name. *)
Definition filename_rune (r : Z) : Prop :=
  scalar r ∧ r ≠ 47 ∧ r ≠ 92 ∧ IsControl r = false ∧ IsFormat r = false.

(** Whatever name a client sends, what is stored is one to 255 bytes of valid
    UTF-8 without a path separator, a control or a format character, and it does not
    start with a dot or a space, so that it is neither [.] nor [..]; a name that is not
    valid UTF-8 is refused. *)
Theorem NormalizeFilename_safe raw name :
  NormalizeFilename raw = Ok name →
  1 <= Z.of_nat (length name) <= MaxFilenameBytes
  ∧ (∃ r rs, name = encode_runes (r :: rs) ∧ Forall filename_rune (r :: rs) ∧ r ∉ [32; 9; 46])
  ∧ valid_bytes (str_bytes raw) = true.
Proof.
  unfold NormalizeFilename. intros H. apply guard_Ok in H as [Hv H]. apply guard_Ok in H as [Hne [= <-] ].
  destruct (valid_encode (str_bytes raw) (str_bytes_is_byte raw) Hv) as (rs & Hrs & E & _). rewrite E in *.
  destruct (after_last_runes [47; 92] rs Hrs) as (rs1 & E1 & Hrs1 & Hsep); [repeat constructor|]. rewrite E1 in *.
  rewrite keep_runes_encode in * by done. set (rs2 := filter _ rs1) in *.
  assert (Hrs2 : Forall filename_rune rs2).
  { apply Forall_forall. intros r [Hk Hin]%list_elem_of_filter. unfold kept_in_filename in Hk.
    apply negb_true_iff, orb_false_iff in Hk as [Hk Hf]. apply orb_false_iff in Hk as [_ Hc].
    rewrite Forall_forall in Hrs1, Hsep. split_and!; [by apply Hrs1| | |done|done];
      intros ->; apply (Hsep _ Hin); set_solver. }
  assert (Hsc2 : Forall scalar rs2) by (eapply Forall_impl; [done|by intros ? [? _]]).
  unfold trim in *.
  destruct (trim_left_runes [32; 9; 46] rs2 Hsc2) as (rs3 & E3 & Hsuf & Hfirst); [repeat constructor|]. rewrite E3 in *.
  assert (Hall : ∀ l, (l `suffix_of` rs2 ∨ l `prefix_of` rs3) → Forall filename_rune l).
  { assert (Hrs3 : Forall filename_rune rs3) by (destruct Hsuf as [? ->]; by apply Forall_app in Hrs2 as [_ ?]).
    intros l [ [k E'] |[k E'] ].
    - rewrite E' in Hrs2. by apply Forall_app in Hrs2 as [_ ?].
    - rewrite E' in Hrs3. by apply Forall_app in Hrs3 as [? _]. }
  assert (Hsc : ∀ l, (l `suffix_of` rs2 ∨ l `prefix_of` rs3) → Forall scalar l)
    by (intros l Hl; eapply Forall_impl; [by apply Hall|by intros ? [? _]]).
  destruct (trim_left_rev_runes [32; 9; 46] rs3) as (rs4 & E4 & Hpre); [by apply Hsc; left|repeat constructor|].
  rewrite E4 in *. apply negb_true_iff, bool_decide_eq_false in Hne.
  assert (Hne4 : rs4 ≠ []) by (by intros ->).
  destruct (truncate_runes rs4 MaxFilenameBytes) as (m & -> & Hm); [by apply Hsc; right|done|done|].
  destruct rs4 as [|r rs4]; [done|]. cbn [take] in *. split_and!; [|done| |done].
  - rewrite encode_runes_cons, length_app. pose proof (encode_rune_length r). lia.
  - exists r, (take m rs4). split_and!; [done| |].
    + assert (Hr4 : Forall filename_rune (r :: rs4)) by (by apply Hall; right).
      apply Forall_cons in Hr4 as [? ?]. constructor; [done|by apply Forall_take].
    + destruct Hpre as [k ->]. by eapply Hfirst.
Qed.

Lemma NormalizeFilename_safe_witness :
  ∃ name, NormalizeFilename "../../etc/.pass
wd." = Ok name ∧ name = str_bytes "passwd" ∧ 1 <= Z.of_nat (length name) <= 255.
Proof.
  exists (str_bytes "passwd"). assert (H : NormalizeFilename "../../etc/.pass
wd." = Ok (str_bytes "passwd")) by (vm_compute; reflexivity).
  split; [done|]. split; [done|]. by apply (NormalizeFilename_safe _ _ H).
Defined.
