(* ===== verification/Cursors.v ===== *)
(** * Cursors of the listings

    The opaque tokens of keyset-paginated listings: chat messages
    ([chat-service/internal/storage/message_store.go]), the administrative listings
    ([admin-service/internal/domain/cursor.go]) and the searches
    ([search-service/internal/domain/cursor.go]); the cursor of an attachment listing is
    in [FileDomain].

    [uuid.Parse] followed by [String], [encoding/json] on the cursor records, SHA-256 and
    the Unicode lower case are parameters; a score is an abstract float. *)

From stdpp Require Import prelude gmap strings sorting.
From Stdlib Require Import ZArith Lia Ascii.
From S2P Require Import Prelude GoStrings Utf8 Codec FileDomain.
Local Open Scope Z_scope.

(** ** Chat messages *)

Module MessageCursor.
Definition chat_ErrInvalidCursor : error := ErrNew "domain.chat_ErrInvalidCursor".
Definition defaultMessageLimit : Z := 50.
Definition maxMessageLimit : Z := 100.

Record Position := { CreatedAt : Time; ID : string }.

Definition EncodeCursor (c : Position) : string := encode_stamped (CreatedAt c) (ID c).

Definition DecodeCursor (uuid_Parse : string → option string) (s : string) : result Position :=
  match split_token s with
  | None => Fail chat_ErrInvalidCursor
  | Some (stamp, id) =>
      match RFC3339.Parse (str_bytes stamp) with
      | None => Fail chat_ErrInvalidCursor
      | Some ts => guard! bool_decide (is_Some (uuid_Parse id)) else chat_ErrInvalidCursor ;; Ok {| CreatedAt := ts; ID := id |}
      end
  end.
End MessageCursor.

(** ** Administrative listings *)

Module AdminCursor.
Definition ErrInvalidInput : error := ErrNew "domain.ErrInvalidInput".

Record Cursor := { At : Time; ID : string }.
Definition first_page : Cursor := {| At := time_zero; ID := "" |}.

Definition IsZero (c : Cursor) : bool := ID c == "".

Definition Encode (c : Cursor) : string := if IsZero c then "" else encode_stamped (At c) (ID c).

Definition DecodeToken (uuid_Parse : string → option string) (token : string) : result Cursor :=
  if token == "" then Ok first_page
  else match split_token token with
       | None => Fail ErrInvalidInput
       | Some (stamp, id) =>
           match RFC3339.Parse (str_bytes stamp) with
           | None => Fail ErrInvalidInput
           | Some parsed => guard! bool_decide (is_Some (uuid_Parse id)) else ErrInvalidInput ;; Ok {| At := parsed; ID := id |}
           end
       end.

Definition ValidUUID (uuid_Parse : string → option string) (value : string) : bool := bool_decide (is_Some (uuid_Parse value)).
End AdminCursor.

Lemma encode_stamped_not_empty t id : RFC3339.printable t → encode_stamped t id ≠ "".
Proof.
  intros Ht E. pose proof (split_encode t id Ht) as H. rewrite E in H.
  unfold split_token in H. cbn in H. discriminate.
Qed.

(** ** Searches *)

Module SearchCursor.
Definition CursorVersion : Z := 1.
Definition MaxCursorEncodedBytes : Z := 1024.
Definition CursorMessages : string := "messages".
Definition CursorMessagesV2 : string := "messages.v2".
Definition CursorUsers : string := "users".
Definition CursorChannels : string := "channels".
Definition CursorGroups : string := "groups".
Definition CursorFiles : string := "files".
Definition CursorLinks : string := "links".
Definition MaxLinkRank : Z := 3.
Definition ErrInvalidCursor : error := ErrNew "domain.ErrInvalidCursor".

(** [float64]: which scores are numbers. *)
Class Float (F : Type) := { finite : F → bool }.

(** [json.Marshal] of a record, and a strict decoder on the whole of a text: it refuses
    unknown fields and anything after the value. *)
Class Json (A : Type) := { Marshal : A → option (list Z); Decode : list Z → option A }.

Section search.
Context {F : Type} {float : Float F} (uuid_Parse : string → option string) (ToLower : string → string)
  (sha256 : list Z → list Z).

Record LegacyMessageCursor := {
  lm_Version : Z; lm_Type : string; lm_QueryHash : string; lm_Score : F; lm_CreatedAt : Time; lm_ID : string }.
Record MessageCursor := {
  mc_Version : Z; mc_Type : string; mc_QueryHash : string; mc_Score : F; mc_CreatedAt : Time; mc_ID : string;
  mc_RankedAt : Time }.
Record TimeCursor := { tc_Version : Z; tc_Type : string; tc_QueryHash : string; tc_CreatedAt : Time; tc_ID : string }.
Record NameCursor := { nc_Version : Z; nc_Type : string; nc_QueryHash : string; nc_Name : string; nc_ID : string }.
Record LinkCursor := {
  lc_Version : Z; lc_Type : string; lc_QueryHash : string; lc_Rank : Z; lc_CreatedAt : Time; lc_MessageID : string;
  lc_TargetKey : string }.

(** [hex.EncodeToString], and the texts [hex.DecodeString] takes. *)
Definition hex_digit (v : Z) : Z := if v <? 10 then 48 + v else 87 + v.
Definition hex_Encode (bs : list Z) : string := bytes_str (mjoin ((λ b, [hex_digit (b / 16); hex_digit (b mod 16)]) <$> bs)).
Definition is_hex (c : Z) : bool :=
  (48 <=? c) && (c <=? 57) || (97 <=? c) && (c <=? 102) || (65 <=? c) && (c <=? 70).

Definition queryHash (query : string) : string := hex_Encode (sha256 (str_bytes (TrimSpace query))).

Definition validID (id : string) : bool :=
  match uuid_Parse id with None => false | Some parsed => parsed == ToLower id end.
Definition validNameKind (kind : string) : bool :=
  (kind == CursorUsers) || (kind == CursorChannels) || (kind == CursorGroups).
Definition validTargetKey (key : string) : bool :=
  if negb (len key =? 32) then false else forallb is_hex (str_bytes key) && (ToLower key == key).
Definition validLinkCursor (rank : Z) (createdAt : Time) (messageID targetKey : string) : bool :=
  (0 <=? rank) && (rank <=? MaxLinkRank) && negb (time_IsZero createdAt) && validID messageID && validTargetKey targetKey.

Definition encodeCursor {A} {json : Json A} (value : A) : result string :=
  match Marshal value with
  | None => Fail (ErrNew "json.Marshal")
  | Some b => Ok (bytes_str (Base64.encode b))
  end.

Definition decodeCursor {A} {json : Json A} (raw : string) : result A :=
  guard! negb ((raw == "") || (MaxCursorEncodedBytes <? len raw)) else ErrInvalidCursor ;;
  match Base64.decode true (str_bytes raw) with
  | None => Fail ErrInvalidCursor
  | Some b => match Decode b with None => Fail ErrInvalidCursor | Some v => Ok v end
  end.

(** What a decoder does with the record: one refusal for every way to be invalid. *)
Definition accept {A} (valid : A → bool) (r : result A) : result A :=
  match r with
  | Fail _ => Fail ErrInvalidCursor
  | Ok c => if valid c then Ok c else Fail ErrInvalidCursor
  end.

Context {json_legacy : Json LegacyMessageCursor} {json_message : Json MessageCursor} {json_time : Json TimeCursor}
  {json_name : Json NameCursor} {json_link : Json LinkCursor}.

Definition EncodeLinkCursor (query : string) (rank : Z) (createdAt : Time) (messageID targetKey : string) : result string :=
  guard! validLinkCursor rank createdAt messageID targetKey else ErrInvalidCursor ;;
  encodeCursor {| lc_Version := CursorVersion; lc_Type := CursorLinks; lc_QueryHash := queryHash query; lc_Rank := rank;
                  lc_CreatedAt := createdAt; lc_MessageID := messageID; lc_TargetKey := targetKey |}.
Definition DecodeLinkCursor (raw query : string) : result LinkCursor :=
  accept (λ c, (lc_Version c =? CursorVersion) && (lc_Type c == CursorLinks) && (lc_QueryHash c == queryHash query)
               && validLinkCursor (lc_Rank c) (lc_CreatedAt c) (lc_MessageID c) (lc_TargetKey c)) (decodeCursor raw).

Definition EncodeMessageCursor (query : string) (score : F) (createdAt : Time) (id : string) (rankedAt : Time) : result string :=
  guard! negb (negb (validID id) || negb (finite score) || time_IsZero createdAt || time_IsZero rankedAt) else ErrInvalidCursor ;;
  encodeCursor {| mc_Version := CursorVersion; mc_Type := CursorMessagesV2; mc_QueryHash := queryHash query; mc_Score := score;
                  mc_CreatedAt := createdAt; mc_ID := id; mc_RankedAt := rankedAt |}.
Definition DecodeMessageCursor (raw query : string) : result MessageCursor :=
  accept (λ c, (mc_Version c =? CursorVersion) && (mc_Type c == CursorMessagesV2) && (mc_QueryHash c == queryHash query)
               && validID (mc_ID c) && negb (time_IsZero (mc_CreatedAt c)) && negb (time_IsZero (mc_RankedAt c))
               && finite (mc_Score c)) (decodeCursor raw).

Definition EncodeLegacyMessageCursor (query : string) (score : F) (createdAt : Time) (id : string) : result string :=
  guard! negb (negb (validID id) || negb (finite score) || time_IsZero createdAt) else ErrInvalidCursor ;;
  encodeCursor {| lm_Version := CursorVersion; lm_Type := CursorMessages; lm_QueryHash := queryHash query; lm_Score := score;
                  lm_CreatedAt := createdAt; lm_ID := id |}.
Definition DecodeLegacyMessageCursor (raw query : string) : result LegacyMessageCursor :=
  accept (λ c, (lm_Version c =? CursorVersion) && (lm_Type c == CursorMessages) && (lm_QueryHash c == queryHash query)
               && validID (lm_ID c) && negb (time_IsZero (lm_CreatedAt c)) && finite (lm_Score c)) (decodeCursor raw).

Definition EncodeNameCursor (kind query name id : string) : result string :=
  guard! negb (negb (validNameKind kind) || (name == "") || negb (validID id)) else ErrInvalidCursor ;;
  encodeCursor {| nc_Version := CursorVersion; nc_Type := kind; nc_QueryHash := queryHash query; nc_Name := name; nc_ID := id |}.
Definition DecodeNameCursor (raw kind query : string) : result NameCursor :=
  accept (λ c, (nc_Version c =? CursorVersion) && (nc_Type c == kind) && validNameKind (nc_Type c)
               && (nc_QueryHash c == queryHash query) && negb (nc_Name c == "") && validID (nc_ID c)) (decodeCursor raw).

Definition EncodeFileCursor (query : string) (createdAt : Time) (id : string) : result string :=
  guard! negb (negb (validID id) || time_IsZero createdAt) else ErrInvalidCursor ;;
  encodeCursor {| tc_Version := CursorVersion; tc_Type := CursorFiles; tc_QueryHash := queryHash query;
                  tc_CreatedAt := createdAt; tc_ID := id |}.
Definition DecodeFileCursor (raw query : string) : result TimeCursor :=
  accept (λ c, (tc_Version c =? CursorVersion) && (tc_Type c == CursorFiles) && (tc_QueryHash c == queryHash query)
               && validID (tc_ID c) && negb (time_IsZero (tc_CreatedAt c))) (decodeCursor raw).

(** *** Round trips *)

(** [encoding/json] gives a record back, for the records it can write. *)
Definition json_law {A} (json : Json A) : Prop :=
  ∀ v b, Marshal v = Some b → Forall is_byte b ∧ b ≠ [] ∧ Decode b = Some v.

Lemma bytes_str_len bs : Forall is_byte bs → len (bytes_str bs) = Z.of_nat (length bs).
Proof. intros Hb. unfold len. rewrite <-length_str_bytes. by rewrite str_bytes_str. Qed.

Lemma decode_encodeCursor {A} {json : Json A} (v : A) raw :
  json_law json → encodeCursor v = Ok raw → len raw <= MaxCursorEncodedBytes → decodeCursor raw = Ok v.
Proof.
  intros Hlaw H Hlen. unfold encodeCursor in H. destruct (Marshal v) as [b|] eqn:Em; [|done]. injection H as <-.
  destruct (Hlaw v b Em) as (Hb & Hne & Hd). unfold decodeCursor.
  rewrite bool_decide_eq_false_2.
  2: { intros E. assert (Hd' : Base64.decode true (str_bytes (bytes_str (Base64.encode b))) = Some b)
         by (by rewrite encode_bytes, Base64.decode_encode).
       rewrite E in Hd'. by injection Hd' as <-. } rewrite (proj2 (Z.ltb_ge _ _)) by done. cbn [orb negb].
  by rewrite encode_bytes, Base64.decode_encode, Hd.
Qed.

Lemma accept_Ok {A} valid (r : result A) c : accept valid r = Ok c ↔ r = Ok c ∧ valid c = true.
Proof. destruct r as [a|e]; cbn; [destruct (valid a) eqn:E|]; split; try (by intros [= ->]); try (by intros [ [= ->] ?]); intros [ [= ->] ?]; congruence. Qed.

(** What a minted token decodes to, and for whom. *)
Lemma minted {A} {json : Json A} (v : A) raw valid :
  json_law json → encodeCursor v = Ok raw → len raw <= MaxCursorEncodedBytes →
  accept valid (decodeCursor raw) = if valid v then Ok v else Fail ErrInvalidCursor.
Proof. intros Hlaw He Hlen. by rewrite (decode_encodeCursor v raw Hlaw He Hlen). Qed.

End search.

Arguments LegacyMessageCursor : clear implicits.
Arguments MessageCursor : clear implicits.

(** A search token within the accepted length decodes to the position it was minted
    for, and only for the query (up to its hash) and the kind it was minted for: the
    cursor of one listing never resumes another. *)
Theorem search_cursors_round_trip {F} {float : Float F} uuid_Parse ToLower sha256
    {json_legacy : Json (LegacyMessageCursor F)} {json_message : Json (MessageCursor F)}
    {json_time : Json TimeCursor} {json_name : Json NameCursor} {json_link : Json LinkCursor} raw query query' :
  json_law json_legacy → json_law json_message → json_law json_time → json_law json_name → json_law json_link →
  len raw <= MaxCursorEncodedBytes →
  let same := bool_decide (queryHash sha256 query = queryHash sha256 query') in
  (∀ kind kind' name id, EncodeNameCursor uuid_Parse ToLower sha256 kind query name id = Ok raw →
     DecodeNameCursor uuid_Parse ToLower sha256 raw kind' query' =
       if same && bool_decide (kind = kind')
       then Ok {| nc_Version := 1; nc_Type := kind; nc_QueryHash := queryHash sha256 query; nc_Name := name; nc_ID := id |}
       else Fail ErrInvalidCursor)
  ∧ (∀ createdAt id, EncodeFileCursor uuid_Parse ToLower sha256 query createdAt id = Ok raw →
     DecodeFileCursor uuid_Parse ToLower sha256 raw query' =
       if same then Ok {| tc_Version := 1; tc_Type := CursorFiles; tc_QueryHash := queryHash sha256 query;
                          tc_CreatedAt := createdAt; tc_ID := id |} else Fail ErrInvalidCursor)
  ∧ (∀ rank createdAt id key, EncodeLinkCursor uuid_Parse ToLower sha256 query rank createdAt id key = Ok raw →
     DecodeLinkCursor uuid_Parse ToLower sha256 raw query' =
       if same then Ok {| lc_Version := 1; lc_Type := CursorLinks; lc_QueryHash := queryHash sha256 query; lc_Rank := rank;
                          lc_CreatedAt := createdAt; lc_MessageID := id; lc_TargetKey := key |} else Fail ErrInvalidCursor)
  ∧ (∀ score createdAt id rankedAt, EncodeMessageCursor uuid_Parse ToLower sha256 query score createdAt id rankedAt = Ok raw →
     DecodeMessageCursor uuid_Parse ToLower sha256 raw query' =
       if same then Ok {| mc_Version := 1; mc_Type := CursorMessagesV2; mc_QueryHash := queryHash sha256 query; mc_Score := score;
                          mc_CreatedAt := createdAt; mc_ID := id; mc_RankedAt := rankedAt |} else Fail ErrInvalidCursor)
  ∧ (∀ score createdAt id, EncodeLegacyMessageCursor uuid_Parse ToLower sha256 query score createdAt id = Ok raw →
     DecodeLegacyMessageCursor uuid_Parse ToLower sha256 raw query' =
       if same then Ok {| lm_Version := 1; lm_Type := CursorMessages; lm_QueryHash := queryHash sha256 query; lm_Score := score;
                          lm_CreatedAt := createdAt; lm_ID := id |} else Fail ErrInvalidCursor).
Proof.
  intros Hl Hm Ht Hn Hk Hlen same. split_and!.
  - intros kind kind' name id H. apply guard_Ok in H as [Hg H]. unfold DecodeNameCursor.
    rewrite (minted _ _ _ Hn H Hlen). cbn [nc_Version nc_Type nc_QueryHash nc_Name nc_ID].
    apply negb_true_iff, orb_false_iff in Hg as [Hg Hid]. apply orb_false_iff in Hg as [Hkind Hname].
    apply negb_false_iff in Hkind, Hid. rewrite Hkind, Hname, Hid, Z.eqb_refl, !andb_true_r. cbn [andb].
    by rewrite andb_comm.
  - intros createdAt id H. apply guard_Ok in H as [Hg H]. unfold DecodeFileCursor.
    rewrite (minted _ _ _ Ht H Hlen). cbn [tc_Version tc_Type tc_QueryHash tc_CreatedAt tc_ID].
    apply negb_true_iff, orb_false_iff in Hg as [Hid Hz]. apply negb_false_iff in Hid.
    by rewrite Hid, Hz, Z.eqb_refl, bool_decide_eq_true_2, !andb_true_r.
  - intros rank createdAt id key H. apply guard_Ok in H as [Hg H]. unfold DecodeLinkCursor.
    rewrite (minted _ _ _ Hk H Hlen). cbn [lc_Version lc_Type lc_QueryHash lc_Rank lc_CreatedAt lc_MessageID lc_TargetKey].
    by rewrite Hg, Z.eqb_refl, bool_decide_eq_true_2, !andb_true_r.
  - intros score createdAt id rankedAt H. apply guard_Ok in H as [Hg H]. unfold DecodeMessageCursor.
    rewrite (minted _ _ _ Hm H Hlen). cbn [mc_Version mc_Type mc_QueryHash mc_Score mc_CreatedAt mc_ID mc_RankedAt].
    apply negb_true_iff, orb_false_iff in Hg as [Hg Hr]. apply orb_false_iff in Hg as [Hg Hc].
    apply orb_false_iff in Hg as [Hid Hf]. apply negb_false_iff in Hid, Hf.
    by rewrite Hid, Hf, Hr, Hc, Z.eqb_refl, bool_decide_eq_true_2, !andb_true_r.
  - intros score createdAt id H. apply guard_Ok in H as [Hg H]. unfold DecodeLegacyMessageCursor.
    rewrite (minted _ _ _ Hl H Hlen). cbn [lm_Version lm_Type lm_QueryHash lm_Score lm_CreatedAt lm_ID].
    apply negb_true_iff, orb_false_iff in Hg as [Hg Hc]. apply orb_false_iff in Hg as [Hid Hf].
    apply negb_false_iff in Hid, Hf.
    by rewrite Hid, Hf, Hc, Z.eqb_refl, bool_decide_eq_true_2, !andb_true_r.
Qed.

(** *** An instance *)

Definition toy_name : NameCursor :=
  {| nc_Version := 1; nc_Type := "users"; nc_QueryHash := ""; nc_Name := "ana"; nc_ID := "u1" |}.
#[export] Instance NameCursor_eq_dec : EqDecision NameCursor.
Proof. solve_decision. Defined.
Definition toy_json : Json NameCursor := {|
  Marshal v := if decide (v = toy_name) then Some [123; 125] else None;
  Decode b := if bool_decide (b = [123; 125]) then Some toy_name else None |}.
Definition no_json A : Json A := {| Marshal _ := None; Decode _ := None |}.
Definition toy_float : Float Z := {| finite _ := true |}.

Lemma search_cursors_round_trip_witness :
  EncodeNameCursor (json_name := toy_json) Some id (λ _, []) "users" "an" "ana" "u1" = Ok "e30"
  ∧ DecodeNameCursor (json_name := toy_json) Some id (λ _, []) "e30" "users" "ana" = Ok toy_name
  ∧ DecodeNameCursor (json_name := toy_json) Some id (λ _, []) "e30" "groups" "an" = Fail ErrInvalidCursor.
Proof.
  assert (H : EncodeNameCursor (json_name := toy_json) Some id (λ _, []) "users" "an" "ana" "u1" = Ok "e30")
    by (vm_compute; reflexivity).
  assert (Hlaw : json_law toy_json).
  { intros v b Hv. cbn in Hv. case_decide; [|done]. injection Hv as <-. subst v.
    split; [repeat constructor; unfold is_byte; lia|done]. }
  assert (Hno : ∀ A, json_law (no_json A)) by done.
  split; [done|]. split.
  - apply (search_cursors_round_trip (float := toy_float) Some id (λ _, []) "e30" "an" "ana" (Hno _) (Hno _) (Hno _) Hlaw (Hno _)
      ltac:(vm_compute; discriminate)) with (kind' := "users") in H. exact H.
  - apply (search_cursors_round_trip (float := toy_float) Some id (λ _, []) "e30" "an" "an" (Hno _) (Hno _) (Hno _) Hlaw (Hno _)
      ltac:(vm_compute; discriminate)) with (kind' := "groups") in H. exact H.
Defined.

End SearchCursor.

(** ** The round trip of a time and an identifier *)

(** A position of an attachment, message or administrative listing survives its
    token: the time to the nanosecond (years 0 to 9999) and the identifier. *)
Theorem stamped_cursors_round_trip (uuid_Parse : string → option string) t id :
  RFC3339.printable t → uuid_Parse id = Some id →
  DecodeAttachmentListCursor uuid_Parse (EncodeAttachmentListCursor {| ac_CreatedAt := t; ac_ID := id |})
    = Ok {| ac_CreatedAt := t; ac_ID := id |}
  ∧ MessageCursor.DecodeCursor uuid_Parse (MessageCursor.EncodeCursor {| MessageCursor.CreatedAt := t; MessageCursor.ID := id |})
    = Ok {| MessageCursor.CreatedAt := t; MessageCursor.ID := id |}
  ∧ (id ≠ "" → AdminCursor.DecodeToken uuid_Parse (AdminCursor.Encode {| AdminCursor.At := t; AdminCursor.ID := id |})
    = Ok {| AdminCursor.At := t; AdminCursor.ID := id |})
  ∧ AdminCursor.DecodeToken uuid_Parse (AdminCursor.Encode AdminCursor.first_page) = Ok AdminCursor.first_page.
Proof.
  intros Ht Hid. split_and!.
  - unfold DecodeAttachmentListCursor, EncodeAttachmentListCursor. cbn [ac_CreatedAt ac_ID].
    by rewrite split_encode, parse_stamp, Hid.
  - unfold MessageCursor.DecodeCursor, MessageCursor.EncodeCursor. cbn [MessageCursor.CreatedAt MessageCursor.ID].
    rewrite split_encode, parse_stamp, Hid by done. by rewrite bool_decide_eq_true_2.
  - intros Hne. unfold AdminCursor.DecodeToken, AdminCursor.Encode, AdminCursor.IsZero. cbn [AdminCursor.At AdminCursor.ID].
    rewrite (bool_decide_eq_false_2 (id = "")) by done.
    rewrite bool_decide_eq_false_2 by (by apply encode_stamped_not_empty).
    rewrite split_encode, parse_stamp, Hid by done. by rewrite bool_decide_eq_true_2.
  - done.
Qed.

(** 1 March 2024, 12:30:00.5. *)
Definition toy_time : Time := RFC3339.days_of 2024 3 1 * RFC3339.dayNs + 45000 * 10 ^ 9 + 500000000.

Lemma stamped_cursors_round_trip_witness :
  stamped toy_time "u" = "2024-03-01T12:30:00.5Z|u"
  ∧ DecodeAttachmentListCursor Some (EncodeAttachmentListCursor {| ac_CreatedAt := toy_time; ac_ID := "u" |})
    = Ok {| ac_CreatedAt := toy_time; ac_ID := "u" |}.
Proof.
  split; [vm_compute; reflexivity|].
  apply (stamped_cursors_round_trip Some toy_time "u"); [split; vm_compute; discriminate|done].
Defined.
