(* ===== verification/Uploads.v ===== *)
(** * Uploads

    [services/file-service/internal/service/attachment_service.go] from [Upload] to
    [finalizeUpload], with its compensation, and [attachment_policy.go]: a client's
    stream is bounded, sniffed, scanned for markup, encrypted and stored; the stored
    object is inspected, the destination authorized again, the key wrapped and the row
    finalized, or the object deleted and the row marked failed.

    The client is the list of what its stream gives; the object store, the metadata
    store and the authorizer are arguments that say what each call answers, and the
    calls made are listed in order. *)

From stdpp Require Import prelude gmap strings sorting.
From Stdlib Require Import ZArith Lia Ascii.
From S2P Require Import Prelude GoStrings Utf8 ByteSearch DocumentGuard FilePolicy.
From S2P Require Import PolicyStreams ZipPolicy ZipFacts FileDomain Envelope AttachmentRange.
Local Open Scope Z_scope.

(** ** The client's stream *)

(** What is left of the body: the pieces its reads give and how it ends ([None] is
    [io.EOF]); a read gives at most what it is asked for. *)
Record client := { cl_pieces : list (list Z); cl_err : option error }.

Definition client_Read (c : client) (n : Z) : list Z * option error * client :=
  match cl_pieces c with
  | [] => ([], Some (default io_EOF (cl_err c)), c)
  | p :: pieces =>
      if blen p <=? n then (p, None, {| cl_pieces := pieces; cl_err := cl_err c |})
      else (ztake n p, None, {| cl_pieces := zdrop n p :: pieces; cl_err := cl_err c |})
  end.

Definition cl_content (c : client) : list Z := mjoin (cl_pieces c).

(** [boundedSource]. *)
Record boundedSource := { b_src : client; b_remaining : Z; b_err : option error }.

Definition sourceFailure (err : error) : error :=
  if errors_Is err ErrTooLarge || errors_Is err FileDomain.ErrInvalidInput then err
  else ErrWrap "upload stream failed" FileDomain.ErrInvalidInput.

Definition bounded_Read (b : boundedSource) (n : Z) : list Z * option error * boundedSource :=
  match b_err b with
  | Some e => ([], Some e, b)
  | None =>
      let n := if b_remaining b + 1 <? n then b_remaining b + 1 else n in
      let '(p, err, src) := client_Read (b_src b) n in
      let remaining := b_remaining b - blen p in
      if remaining <? 0 then
        ([], Some ErrTooLarge, {| b_src := src; b_remaining := remaining; b_err := Some ErrTooLarge |})
      else match err with
           | Some e =>
               if errors_Is e io_EOF then (p, err, {| b_src := src; b_remaining := remaining; b_err := None |})
               else let e := sourceFailure e in
                    (p, Some e, {| b_src := src; b_remaining := remaining; b_err := Some e |})
           | None => (p, None, {| b_src := src; b_remaining := remaining; b_err := None |})
           end
  end.

Definition activeMarkupTokens : list (list Z) :=
  str_bytes <$> ["<!doctype html"; "<html"; "<script"; "<svg"; "<?xml"].

(** [activeMarkupReader]: the last bytes read and the error it reported. *)
Record markup := { mk_tail : list Z; mk_err : option error }.

(** [io.MultiReader] of the head and the source, under the markup reader when the head
    is plain text. *)
Record chain := { ch_head : list Z; ch_src : boundedSource; ch_markup : option markup }.

Definition multi_Read (c : chain) (n : Z) : list Z * option error * chain :=
  match ch_head c with
  | [] =>
      let '(p, err, src) := bounded_Read (ch_src c) n in
      (p, err, {| ch_head := []; ch_src := src; ch_markup := ch_markup c |})
  | head => (ztake n head, None, {| ch_head := zdrop n head; ch_src := ch_src c; ch_markup := ch_markup c |})
  end.

Definition longestToken : Z := 14.
Definition ErrActiveMarkup : error := ErrWrap "active markup in text upload" ErrUnsupportedMedia.

Section uploads.
Context {cipher : AEAD} {lib : Stdlib} {dec : Decoders} {zlib : ZipLib}.

Definition chain_Read (c : chain) (n : Z) : list Z * option error * chain :=
  let '(p, err, c) := multi_Read c n in
  match ch_markup c, p with
  | Some m, _ :: _ =>
      let window := mk_tail m ++ p in
      if existsb (ContainsB (bytes_ToLower window)) activeMarkupTokens then
        (p, Some ErrActiveMarkup,
         {| ch_head := ch_head c; ch_src := ch_src c;
            ch_markup := Some {| mk_tail := mk_tail m; mk_err := Some ErrActiveMarkup |} |})
      else
        let keep := Z.min (blen window) (longestToken - 1) in
        (p, err,
         {| ch_head := ch_head c; ch_src := ch_src c;
            ch_markup := Some {| mk_tail := zdrop (blen window - keep) window; mk_err := mk_err m |} |})
  | _, _ => (p, err, c)
  end.

(** [io.ReadFull] of [n] bytes: the error of the read that completes them is dropped. *)
Fixpoint chain_ReadFull (fuel : nat) (c : chain) (n : Z) (got : list Z) : option (list Z * option error * chain) :=
  match fuel with
  | O => None
  | S fuel =>
      if n <=? blen got then Some (got, None, c)
      else
        let '(p, err, c) := chain_Read c (n - blen got) in
        let got := got ++ p in
        match err with
        | None => chain_ReadFull fuel c n got
        | Some e =>
            if n <=? blen got then Some (got, None, c)
            else Some (got, Some (if negb (got == []) && (e == io_EOF) then Envelope.io_ErrUnexpectedEOF else e), c)
        end
  end.

(** Turns enough for every read: each takes a piece, part of one, or the end. *)
Definition chain_turns (c : chain) : nat :=
  S (S (length (ch_head c) + length (cl_pieces (b_src (ch_src c))) + length (cl_content (b_src (ch_src c))))).

(** What the encrypting reader takes, chunk after chunk, until a chunk comes short: the
    stream [Envelope] encrypts. *)
Fixpoint pump (fuel : nat) (c : chain) : option (Source * chain) :=
  match fuel with
  | O => None
  | S fuel =>
      '(plain, err, c) ← chain_ReadFull (chain_turns c) c ChunkSize [];
      match err with
      | None =>
          '(src, c) ← pump fuel c;
          Some ({| src_content := plain ++ src_content src; src_fail := src_fail src |}, c)
      | Some e =>
          Some ({| src_content := plain;
                   src_fail := if errors_Is e io_EOF || errors_Is e Envelope.io_ErrUnexpectedEOF then None else Some e |}, c)
      end
  end.

(** The chain as a store leaves it that gave up after [n] chunks. *)
Fixpoint pull (n : nat) (c : chain) : option chain :=
  match n with
  | O => Some c
  | S n =>
      '(_, err, c) ← chain_ReadFull (chain_turns c) c ChunkSize [];
      match err with None => pull n c | Some _ => Some c end
  end.

(** ** What an upload is given *)

Record UploadTarget := {
  ut_SessionID : string; ut_Destination : Destination; ut_WorkspaceID : string; ut_UploaderID : string;
  ut_MaxUploadBytes : Z }.
Record UploadInput := {
  ui_Target : UploadTarget; ui_Filename : string; ui_DeclaredMIME : string; ui_Purpose : string;
  ui_DurationMs : string; ui_Content : client }.
Record AuthorizedDestination := { ad_ID : string; ad_WorkspaceID : string; ad_MaxUploadBytes : Z }.

Record NewAttachment := {
  na_PolicyVersion : Z; na_ID : string; na_WorkspaceID : string; na_UploaderID : string; na_Destination : Destination;
  na_Filename : list Z; na_DeclaredMIME : list Z; na_StorageObjectKey : string; na_EnvelopeVersion : Z;
  na_KeyWrapVersion : Z; na_DraftExpiresAt : option Time; na_AudioKind : string; na_DeclaredDurationMs : Z }.
Record UploadedAttachment := {
  ua_PolicyVersion : Z; ua_FormatID : FormatID; ua_ID : string; ua_Status : Status; ua_PreviewStatus : PreviewStatus;
  ua_DetectedMIME : string; ua_Size : Z; ua_CiphertextSize : Z; ua_WrappedDEK : bytes; ua_KEKKeyID : string }.

(** The calls an upload makes, with what they carry. *)
Inductive call :=
| CallCreatePending (a : NewAttachment)
| CallPut (key : string) (body : bytes)
| CallInspect
| CallAuthorize (destination : Destination) (userID sessionID : string)
| CallMarkUploaded (u : UploadedAttachment)
| CallDelete (key : string)
| CallMarkFailed (id failureCode : string).

(** What the outside answers in one upload. [u_Put] is given the drained body and the
    error it ended with, [u_Pulled] is how many chunks a failing store took;
    [u_Objects] is what the store answers to the reads of the inspection. *)
Record UploadEnv := {
  u_Now : Time; u_ID : string; u_DataKey : result bytes; u_BaseNonce : bytes; u_WrapNonce : bytes;
  u_Create : option error; u_Put : bytes → error → result Z; u_Pulled : nat; u_Objects : ObjectStore;
  u_Authorize : result AuthorizedDestination; u_Mark : option error; u_Delete : option error;
  u_MarkFailed : option error }.

(** The view, or the errors [errors.Join] holds, the cause first. *)
Inductive outcome_ :=
| Uploaded (u : UploadedAttachment) (filename : list Z)
| Refused (errs : list error).

(** ** The service *)

Context (parse_uuid : string → option bytes) (sha256 : bytes → bytes).
(** The keyring, the key ring's scan switch and the format profiles of the service. *)
Context (keys : option Keyring) (scanRequired : bool) (profiles : Profiles).

Definition UploadPurposeMessageDraft : string := "message_draft".
Definition UploadPurposeVoiceMessage : string := "voice_message".
Definition messageDraftTTL : Duration := 24 * Hour.
Definition sniffLimit : Z := 512.

Record uploadTarget := {
  tg_destination : Destination; tg_sessionID : string; tg_workspaceID : string; tg_uploaderID : string;
  tg_filename : list Z; tg_declaredMIME : list Z; tg_draftExpiresAt : option Time; tg_maxUploadBytes : Z;
  tg_audioKind : string; tg_declaredDurationMs : Z }.

Definition resolveUploadTarget (now : Time) (input : UploadInput) : result uploadTarget :=
  filename ← NormalizeFilename (ui_Filename input);
  let t := ui_Target input in
  guard! negb ((ut_UploaderID t == "") || (ut_WorkspaceID t == "") || (ut_MaxUploadBytes t <=? 0)) else ErrUnauthorized ;;
  '(expires, kind) ←
    (if ui_Purpose input == "" then Ok (None, "")
     else if ui_Purpose input == UploadPurposeMessageDraft then Ok (Some (time_Add now messageDraftTTL), "")
     else if ui_Purpose input == UploadPurposeVoiceMessage then Ok (Some (time_Add now messageDraftTTL), AudioKindVoice)
     else Fail (ErrWrap "unsupported upload purpose" FileDomain.ErrInvalidInput));
  Ok {| tg_destination := ut_Destination t; tg_sessionID := ut_SessionID t; tg_workspaceID := ut_WorkspaceID t;
        tg_uploaderID := ut_UploaderID t; tg_filename := filename;
        tg_declaredMIME := NormalizeDeclaredMIME (ui_DeclaredMIME input); tg_draftExpiresAt := expires;
        tg_maxUploadBytes := ut_MaxUploadBytes t; tg_audioKind := kind;
        tg_declaredDurationMs := default 0 (NormalizeDeclaredDurationMs (ui_DurationMs input)) |}.

Definition uploadSourceError (err : error) : error :=
  if errors_Is err ErrTooLarge then ErrTooLarge
  else if errors_Is err FileDomain.ErrInvalidInput then err
  else ErrWrap "upload stream failed" FileDomain.ErrInvalidInput.

(** [readHead]: the chain of the bounded source alone, before there is a head. *)
Definition readHead (src : boundedSource) : option (result (list Z) * boundedSource) :=
  let c := {| ch_head := []; ch_src := src; ch_markup := None |} in
  '(head, err, c) ← chain_ReadFull (chain_turns c) c sniffLimit [];
  Some (match err with
        | None => Ok head
        | Some e => if errors_Is e io_EOF || errors_Is e Envelope.io_ErrUnexpectedEOF then Ok head else Fail e
        end, ch_src c).

Definition blockedUploadPrefix (detected : string) (head : list Z) : bool :=
  if HasPrefixB head (str_bytes "MZ") || HasPrefixB head [0x7f; 69; 76; 70] then true
  else (detected == "application/x-msdownload") || (detected == "text/html; charset=utf-8").

Record sniffedContent := { sn_head : list Z; sn_detectedMIME : string; sn_scanMarkup : bool }.

Definition sniffContent (src : boundedSource) : option (result sniffedContent * boundedSource) :=
  '(head, src) ← readHead src;
  Some (match head with
        | Fail e => Fail (uploadSourceError e)
        | Ok head =>
            guard! negb (head == []) else ErrEmptyFile ;;
            let detected := DetectContentType head in
            guard! negb (blockedUploadPrefix detected head) else ErrUnsupportedMedia ;;
            Ok {| sn_head := head; sn_detectedMIME := detected;
                  sn_scanMarkup := NormalizeDetectedMIME detected == "text/plain" |}
        end, src).

Definition uploadFailureCause (storageErr : error) (c : chain) : error :=
  match ch_markup c ≫= mk_err with
  | Some e => e
  | None => match b_err (ch_src c) with Some e => uploadSourceError e | None => storageErr end
  end.

(** [compensatePersistedObject]: the object first, the row only once it is gone. *)
Definition compensatePersistedObject (env : UploadEnv) (failureCode : string) (cause : error) : outcome_ * list call :=
  let key := StorageObjectKey (u_ID env) in
  match u_Delete env with
  | Some deleteErr => (Refused [cause; ErrWrap "delete attachment object" deleteErr], [CallDelete key])
  | None =>
      let calls := [CallDelete key; CallMarkFailed (u_ID env) failureCode] in
      match u_MarkFailed env with
      | Some markErr => (Refused [cause; ErrWrap "mark attachment failed" markErr], calls)
      | None => (Refused [cause], calls)
      end
  end.

(** ** The inspection of the stored object *)

(** Reads of a [rangeReader] until its first error, with the store answering [st]. *)
Fixpoint range_drain (fuel : nat) (st : ObjectStore) (r : rangeReader) : Reader :=
  match fuel with
  | O => {| rd_pieces := []; rd_last := []; rd_err := None |}
  | S fuel =>
      match rr_Read st r (64 * 1024) with
      | None => {| rd_pieces := []; rd_last := []; rd_err := None |}
      | Some (p, Some e, _) =>
          {| rd_pieces := []; rd_last := p; rd_err := if errors_Is e io_EOF then None else Some e |}
      | Some (p, None, r) =>
          let rest := range_drain fuel st r in
          {| rd_pieces := p :: rd_pieces rest; rd_last := rd_last rest; rd_err := rd_err rest |}
      end
  end.

(** The source [inspectPending] hands to the policy. *)
Definition range_source (st : ObjectStore) (r : rangeReader) : ReadSeeker :=
  λ off, match Seek r off io_SeekStart with
         | (Fail e, _) => Fail e
         | (Ok _, r) => Ok (range_drain (S (Z.to_nat (eo_size (rr_object r)))) st r)
         end.

Definition policyError (r : Result) : error :=
  match r_Code r with
  | Unsupported => ErrUnsupportedMedia
  | BudgetExceeded => ErrInspectionLimit
  | Invalid | Mismatch => ErrUnrecognizedContent
  | _ => ErrFormatBlocked
  end.

Definition inspectPending (env : UploadEnv) (target : uploadTarget) (id dataKey : bytes) (size : Z) : result Result :=
  let r := {| rr_object := {| eo_objectID := u_ID env; eo_workspaceID := tg_workspaceID target; eo_size := size;
                              eo_wrappedDEK := []; eo_kekKeyID := ""; eo_keyWrapVersion := 0; eo_envelopeVersion := 0 |};
              rr_dataKey := dataKey; rr_objectID := id; rr_header := None; rr_pos := 0; rr_streamPos := 0;
              rr_stream := None |} in
  match Inspect None (range_source (u_Objects env) r) size (bytes_str (tg_filename target))
          (bytes_str (tg_declaredMIME target)) profiles with
  | Fail _ => Fail (ErrWrap "inspection unavailable" FileDomain.ErrUnavailable)
  | Ok result => guard! bool_decide (r_Decision result = Allow) else policyError result ;; Ok result
  end.

Definition reauthorizeUpload (env : UploadEnv) (target : uploadTarget) : result unit :=
  authorized ← u_Authorize env;
  guard! (ad_WorkspaceID authorized == tg_workspaceID target)
         && (ad_ID authorized == Destination_ID (tg_destination target)) else FileDomain.ErrNotFound ;;
  Ok ().

(** ** Finalizing *)

Definition finalizeUpload (env : UploadEnv) (target : uploadTarget) (id workspaceID dataKey : bytes) (c : chain)
    (ciphertextSize : Z) : outcome_ * list call :=
  let status := if scanRequired then StatusPendingScan else StatusClean in
  let size := tg_maxUploadBytes target - b_remaining (ch_src c) in
  let compensate code cause calls :=
    let '(o, after) := compensatePersistedObject env code cause in (o, calls ++ after) in
  if negb (ciphertextSize =? CiphertextSize size) then
    compensate "envelope_incomplete" (ErrNew "stored envelope is incomplete") []
  else match inspectPending env target id dataKey size with
  | Fail e => compensate "format_inspection" e [CallInspect]
  | Ok result =>
      let detectedMIME := f_MIME (r_Format result) in
      let status := if f_Enterprise (r_Format result) then StatusPendingScan else status in
      let calls := [CallInspect; CallAuthorize (tg_destination target) (tg_uploaderID target) (tg_sessionID target)] in
      match reauthorizeUpload env target with
      | Fail e => compensate "authorization_changed" e calls
      | Ok _ =>
          match Wrap sha256 keys (u_WrapNonce env) dataKey
                  {| AttachmentID := id; WorkspaceID := workspaceID; PlaintextSize := size;
                     Binding_KeyWrapVersion := KeyWrapVersion; ContentEnvelopeVersion := EnvelopeVersion |} with
          | Fail e => compensate "key_wrap" (ErrWrap "wrap attachment key" e) calls
          | Ok (wrappedDEK, keyID) =>
              let u := {| ua_PolicyVersion := Version; ua_FormatID := f_ID (r_Format result); ua_ID := u_ID env;
                          ua_Status := status;
                          ua_PreviewStatus := InitialPolicyPreviewStatus detectedMIME size (f_ID (r_Format result)) (r_Version result);
                          ua_DetectedMIME := detectedMIME; ua_Size := size; ua_CiphertextSize := ciphertextSize;
                          ua_WrappedDEK := wrappedDEK; ua_KEKKeyID := keyID |} in
              match u_Mark env with
              | Some e => compensate "metadata_finalize" (ErrWrap "finalize attachment metadata" e) (calls ++ [CallMarkUploaded u])
              | None => (Uploaded u (tg_filename target), calls ++ [CallMarkUploaded u])
              end
          end
      end
  end.

Definition newAttachment (env : UploadEnv) (target : uploadTarget) : NewAttachment :=
  {| na_PolicyVersion := Version; na_ID := u_ID env; na_WorkspaceID := tg_workspaceID target;
     na_UploaderID := tg_uploaderID target; na_Destination := tg_destination target; na_Filename := tg_filename target;
     na_DeclaredMIME := tg_declaredMIME target; na_StorageObjectKey := StorageObjectKey (u_ID env);
     na_EnvelopeVersion := EnvelopeVersion; na_KeyWrapVersion := KeyWrapVersion;
     na_DraftExpiresAt := tg_draftExpiresAt target; na_AudioKind := tg_audioKind target;
     na_DeclaredDurationMs := tg_declaredDurationMs target |}.

(** [preparePendingAttachment] up to the row, then [persistEncryptedObject]. *)
Definition storeContent (env : UploadEnv) (target : uploadTarget) (content : sniffedContent) (source : boundedSource)
  : option (outcome_ * list call) :=
  match parse_uuid (u_ID env), parse_uuid (tg_workspaceID target) with
  | Some id, Some workspaceID =>
      match u_DataKey env with
      | Fail e => Some (Refused [ErrWrap "prepare attachment key" e], [])
      | Ok dataKey =>
          let c := {| ch_head := sn_head content; ch_src := source;
                      ch_markup := if sn_scanMarkup content then Some {| mk_tail := []; mk_err := None |} else None |} in
          '(plaintext, ended) ← pump (chain_turns c) c;
          left ← pull (u_Pulled env) c;
          match NewEncryptingReader (u_BaseNonce env) plaintext dataKey id with
          | Fail e => Some (Refused [ErrWrap "prepare attachment envelope" e], [])
          | Ok encrypted =>
              let create := CallCreatePending (newAttachment env target) in
              match u_Create env with
              | Some e => Some (Refused [ErrWrap "persist attachment metadata" e], [create])
              | None =>
                  '(body, last) ← drain enc_fill (S (S (length (src_content plaintext)))) encrypted;
                  let calls := [create; CallPut (StorageObjectKey (u_ID env)) body] in
                  let '(o, after) :=
                    match u_Put env body last with
                    | Fail e => compensatePersistedObject env "storage_write" (uploadFailureCause e left)
                    | Ok ciphertextSize => finalizeUpload env target id workspaceID dataKey ended ciphertextSize
                    end in
                  Some (o, calls ++ after)
              end
          end
      end
  | _, _ => Some (Refused [ErrNew "invalid authorized workspace id"], [])
  end.

(** [Upload]. [None] when a loop ran out of turns. *)
Definition Upload (env : UploadEnv) (input : UploadInput) : option (outcome_ * list call) :=
  match resolveUploadTarget (u_Now env) input with
  | Fail e => Some (Refused [e], [])
  | Ok target =>
      let source := {| b_src := ui_Content input; b_remaining := tg_maxUploadBytes target; b_err := None |} in
      '(content, source) ← sniffContent source;
      match content with
      | Fail e => Some (Refused [e], [])
      | Ok content =>
          if (tg_audioKind target == AudioKindVoice) && negb (VoiceCompatibleContent (sn_detectedMIME content))
          then Some (Refused [ErrUnsupportedMedia], [])
          else storeContent env target content source
      end
  end.

End uploads.
