(* ===== verification/UploadFacts.v ===== *)
(** * Uploads: what is stored, and what a refusal leaves

    The bytes of an upload through the bounded source, the markup reader, the
    encryption and back through the reader of a stored object; the calls every upload
    makes, whatever fails. *)

From stdpp Require Import prelude gmap strings sorting.
From Stdlib Require Import ZArith Lia Ascii.
From S2P Require Import Prelude GoStrings Utf8 ByteSearch DocumentGuard FilePolicy.
From S2P Require Import PolicyStreams ZipPolicy ZipFacts FileDomain Envelope AttachmentRange Uploads.
Local Open Scope Z_scope.

(** ** Errors that end a stream *)

Definition benign (e : error) : bool := errors_Is e io_EOF || errors_Is e io_ErrUnexpectedEOF.

Lemma errors_Is_leaf e a b : errors_Is e (ErrNew a) = true → errors_Is e (ErrNew b) = true → a = b.
Proof.
  induction e as [i|i e IH|t x n e IH]; cbn; rewrite ?orb_true_iff, ?bool_decide_eq_true.
  - intros [ [= ->]|] [ [= ->]|]; done.
  - intros [?|Ha] [?|Hb]; try done. eauto.
  - intros [?|Ha] [?|Hb]; try done. eauto.
Qed.

Lemma fatal_of e id : errors_Is e (ErrNew id) = true → id ≠ "io.EOF" → id ≠ "io.ErrUnexpectedEOF" → benign e = false.
Proof.
  intros He H1 H2. apply orb_false_iff. split; apply not_true_iff_false; intros H; [apply H1|apply H2];
    eapply errors_Is_leaf; eauto.
Qed.

Lemma sourceFailure_fatal e : benign (sourceFailure e) = false.
Proof.
  unfold sourceFailure. destruct (errors_Is e ErrTooLarge) eqn:E1; [by apply (fatal_of _ _ E1)|].
  destruct (errors_Is e FileDomain.ErrInvalidInput) eqn:E2; [by apply (fatal_of _ _ E2)|]. reflexivity.
Qed.

(** ** The chain delivers the client's bytes *)

Definition chain_content (c : chain) : list Z := ch_head c ++ cl_content (b_src (ch_src c)).
Definition chain_ok (c : chain) : Prop := b_err (ch_src c) = None ∧ 0 <= b_remaining (ch_src c).
(** What is left of the budget once the client's stream is over. *)
Definition slack (c : chain) : Z := b_remaining (ch_src c) - blen (cl_content (b_src (ch_src c))).
Definition client_ended (c : client) : Prop := match cl_err c with None => True | Some e => errors_Is e io_EOF = true end.
Definition weight (c : chain) : nat :=
  length (ch_head c) + length (cl_pieces (b_src (ch_src c))) + length (cl_content (b_src (ch_src c))).

(** One read further: [p] was delivered. *)
Record moved (c : chain) (p : list Z) (c' : chain) : Prop := {
  mv_ok : chain_ok c';
  mv_content : chain_content c = p ++ chain_content c';
  mv_slack : slack c' = slack c;
  mv_end : cl_err (b_src (ch_src c')) = cl_err (b_src (ch_src c));
  mv_weight : (weight c' + length p <= weight c)%nat }.

(** The end of the stream: everything was delivered. *)
Record finished (c : chain) : Prop := {
  fin_ok : chain_ok c; fin_content : chain_content c = []; fin_end : client_ended (b_src (ch_src c)) }.

Lemma moved_refl c : chain_ok c → moved c [] c.
Proof. intros H. by split; rewrite ?Nat.add_0_r. Qed.

Lemma moved_trans c p c' q c'' : moved c p c' → moved c' q c'' → moved c (p ++ q) c''.
Proof.
  intros [? ? ? ? ?] [? ? ? ? ?]. split; try congruence.
  - rewrite <-(assoc_L (++)). congruence.
  - rewrite length_app. lia.
Qed.

Lemma client_Read_spec s n :
  0 < n →
  let '(p, err, s') := client_Read s n in
  match err with
  | None => cl_content s = p ++ cl_content s' ∧ cl_err s' = cl_err s ∧ blen p <= n
            ∧ (length (cl_pieces s') + length (cl_content s') + length p <= length (cl_pieces s) + length (cl_content s))%nat
            ∧ (length (cl_pieces s') + length (cl_content s') < length (cl_pieces s) + length (cl_content s))%nat
  | Some e => p = [] ∧ s' = s ∧ cl_content s = [] ∧ e = default io_EOF (cl_err s)
  end.
Proof.
  intros Hn. unfold client_Read, cl_content. destruct s as [ [|p pieces] err]; cbn [cl_pieces cl_err]; [done|].
  assert (Hcons : ∀ q, mjoin (q :: pieces) = q ++ mjoin pieces) by done.
  destruct (Z.leb_spec (blen p) n) as [Hle|Hgt]; cbn [cl_pieces cl_err]; rewrite !Hcons; clear Hcons.
  - split_and!; try done; rewrite ?length_app; cbn [length]; lia.
  - assert (Hp : blen (ztake n p) = n) by (apply blen_ztake; lia).
    pose proof (f_equal length (ztake_zdrop n p)) as Hl. rewrite length_app in Hl. unfold blen in Hp.
    rewrite (assoc_L (++)), ztake_zdrop. split_and!; try done; rewrite ?length_app; unfold blen; cbn [length]; lia.
Qed.

Lemma multi_Read_spec c n :
  chain_ok c → 0 < n →
  let '(p, err, c') := multi_Read c n in
  ch_markup c' = ch_markup c ∧
  match err with
  | None => moved c p c' ∧ blen p <= n ∧ (weight c' < weight c)%nat
  | Some e => p = [] ∧ (benign e = true ∧ finished c ∧ ch_head c' = [] ∧ ch_src c' = ch_src c ∨ benign e = false)
  end.
Proof.
  intros [Hb Hr] Hn. unfold multi_Read. destruct (ch_head c) as [|h head] eqn:Eh.
  - unfold bounded_Read. rewrite Hb. set (m := if _ <? _ then _ else _).
    assert (Hm : 0 < m) by (unfold m; destruct (_ <? _); lia).
    assert (Hmn : m <= n ∧ m <= b_remaining (ch_src c) + 1) by (unfold m; destruct (Z.ltb_spec (b_remaining (ch_src c) + 1) n); lia).
    pose proof (client_Read_spec (b_src (ch_src c)) m Hm) as Hc.
    destruct (client_Read _ m) as [ [p err] s']. destruct err as [e|].
    + destruct Hc as (-> & -> & Hnil & ->). change (blen []) with 0. rewrite Z.sub_0_r.
      rewrite (proj2 (Z.ltb_ge _ _)) by lia.
      destruct (errors_Is _ io_EOF) eqn:Ee; cbn.
      * split; [done|]. split; [done|]. left. split; [unfold benign; by rewrite Ee|]. split; [|split; [done|]].
        -- split; [done| |]; unfold chain_content, client_ended; rewrite ?Eh, ?Hnil; [done|].
           by destruct (cl_err _).
        -- destruct c as [? [? ? ?] ?]. cbn in *. by subst.
      * split; [done|]. split; [done|]. right. apply sourceFailure_fatal.
    + destruct Hc as (Hcont & Hend & Hlen & Hw1 & Hw2). destruct (Z.ltb_spec (b_remaining (ch_src c) - blen p) 0) as [|Hge]; cbn.
      { split; [done|]. split; [done|]. right. reflexivity. }
      split; [done|]. split; [|split; [lia|unfold weight; cbn; rewrite Eh; cbn; lia] ].
      split; cbn; try done.
      * unfold chain_content. cbn. by rewrite Eh.
      * unfold slack. cbn. rewrite Hcont, blen_app. lia.
      * unfold weight. cbn. rewrite Eh. cbn. lia.
  - assert (Hlen : (length (ztake n (h :: head)) + length (zdrop n (h :: head)))%nat = length (h :: head))
      by (by rewrite <-length_app, ztake_zdrop).
    assert (Hpos : (0 < length (ztake n (h :: head)))%nat) by (unfold ztake; rewrite length_take; cbn; lia).
    split; [done|]. split; [|split].
    + split; cbn; try done.
      * unfold chain_content. cbn [ch_head ch_src]. by rewrite Eh, (assoc_L (++)), ztake_zdrop.
      * unfold weight. cbn [ch_head ch_src]. rewrite Eh. lia.
    + unfold blen, ztake. rewrite length_take. lia.
    + unfold weight. cbn [ch_head ch_src]. rewrite Eh. lia.
Qed.

Section chain.
Context {cipher : AEAD} {laws : AEADLaws cipher} {lib : Stdlib} {dec : Decoders} {zlib : ZipLib}.

Lemma moved_markup c p c' m :
  moved c p c' → moved c p {| ch_head := ch_head c'; ch_src := ch_src c'; ch_markup := m |}.
Proof. by intros [? ? ? ? ?]. Qed.

Lemma chain_Read_spec c n :
  chain_ok c → 0 < n →
  let '(p, err, c') := chain_Read c n in
  moved c p c' ∧ blen p <= n ∧ (weight c' < weight c)%nat ∧ (err = None ∨ err = Some ErrActiveMarkup)
  ∨ p = [] ∧ ∃ e, err = Some e ∧ (benign e = true ∧ finished c ∧ ch_head c' = [] ∧ ch_src c' = ch_src c ∨ benign e = false).
Proof.
  intros Hok Hn. unfold chain_Read. pose proof (multi_Read_spec c n Hok Hn) as H.
  destruct (multi_Read c n) as [ [p err] c']. destruct H as [Hm H]. destruct err as [e|].
  - destruct H as [-> H]. destruct (ch_markup c'); right; eauto 6.
  - destruct H as (Hmv & Hlen & Hw). destruct (ch_markup c') as [m|], p as [|x p]; [left; eauto 6| |left; eauto 6..].
    destruct (existsb _ _); left; (split; [by apply moved_markup|eauto]).
Qed.

Lemma chain_ReadFull_spec fuel c n got :
  chain_ok c → (weight c < fuel)%nat → blen got <= n →
  ∃ out err c', chain_ReadFull fuel c n got = Some (got ++ out, err, c') ∧
    match err with
    | None => moved c out c' ∧ blen (got ++ out) = n
    | Some e =>
        benign e = true ∧ moved c out c' ∧ finished c' ∨ benign e = false
    end.
Proof.
  revert c got. induction fuel as [|fuel IH]; intros c got Hok Hf Hn; [lia|]. cbn [chain_ReadFull].
  destruct (Z.leb_spec n (blen got)) as [Hle|Hlt].
  { exists [], None, c. rewrite app_nil_r. split; [done|]. split; [by apply moved_refl|lia]. }
  pose proof (chain_Read_spec c (n - blen got) Hok ltac:(lia)) as H.
  destruct (chain_Read c (n - blen got)) as [ [p err] c'].
  destruct H as [(Hmv & Hlen & Hw & Herr)|(-> & e & -> & H)].
  - assert (Hgot : blen (got ++ p) <= n) by (rewrite blen_app; lia).
    destruct Herr as [-> | ->].
    + destruct (IH c' (got ++ p) (mv_ok _ _ _ Hmv) ltac:(lia) Hgot) as (out & err & c2 & -> & H2).
      exists (p ++ out), err, c2. rewrite (assoc_L (++)). split; [done|]. destruct err as [e|].
      * destruct H2 as [(He & Hmv2 & Hfin)|He]; [left|by right]. split; [done|]. split; [|done]. by eapply moved_trans.
      * destruct H2 as [Hmv2 Hl]. split; [by eapply moved_trans|done].
    + exists p. destruct (Z.leb_spec n (blen (got ++ p))); [exists None|exists (Some ErrActiveMarkup)]; exists c'.
      * split; [done|]. split; [done|lia].
      * rewrite (bool_decide_eq_false_2 (ErrActiveMarkup = io_EOF)) by done. rewrite andb_false_r. split; [done|]. by right.
  - rewrite app_nil_r. rewrite (proj2 (Z.leb_gt _ _)) by lia. exists []. rewrite app_nil_r.
    eexists (Some _), c'. split; [reflexivity|]. destruct H as [(He & [Hk Hc Hend] & Hh & Hs)|He].
    + left. split; [by destruct (_ && _)|].
      assert (Hcc : chain_content c' = chain_content c).
      { unfold chain_content in *. rewrite Hh, Hs. by apply app_eq_nil in Hc as [-> ->]. }
      assert (Hok' : chain_ok c') by (unfold chain_ok; by rewrite Hs).
      split; [split; cbn; try done; [by unfold slack; rewrite Hs|by rewrite Hs|]|].
      { unfold weight. rewrite Hh, Hs. cbn. lia. }
      split; [done|by rewrite Hcc|by rewrite Hs].
    + right. destruct (negb _ && _) eqn:E; [|done]. apply andb_prop in E as [_ E].
      apply bool_decide_eq_true in E as ->. done.
Qed.

Lemma chain_turns_enough c : (weight c < chain_turns c)%nat.
Proof. unfold chain_turns, weight. lia. Qed.

(** What the encryption reads is the client's content, or it meets an error. *)
Lemma pump_spec fuel c :
  chain_ok c → (weight c < fuel)%nat →
  ∃ src c', pump fuel c = Some (src, c') ∧
    (src_fail src = None ∧ moved c (src_content src) c' ∧ finished c'
     ∨ ∃ e, src_fail src = Some e ∧ benign e = false).
Proof.
  destruct sizes as (Hcs & _). revert c. induction fuel as [|fuel IH]; intros c Hok Hf; [lia|]. cbn [pump].
  destruct (chain_ReadFull_spec (chain_turns c) c ChunkSize [] Hok (chain_turns_enough c)) as (plain & err & c' & -> & H).
  { change (blen []) with 0. lia. }
  cbn [mbind option_bind]. change ([] ++ plain) with plain in *. destruct err as [e|].
  - eexists _, c'. split; [reflexivity|]. cbn [src_content src_fail]. fold (benign e).
    destruct H as [(He & Hmv & Hfin)|He]; rewrite He; [by left|right; eauto].
  - destruct H as [Hmv Hl]. assert (Hw : (weight c' < weight c)%nat).
    { pose proof (mv_weight _ _ _ Hmv). unfold blen in Hl. lia. }
    destruct (IH c' (mv_ok _ _ _ Hmv) ltac:(lia)) as (src & c2 & -> & H2).
    eexists _, c2. split; [reflexivity|]. cbn [src_content src_fail].
    destruct H2 as [(He & Hmv2 & Hfin)|He]; [left|by right]. split; [done|]. split; [by eapply moved_trans|done].
Qed.

Lemma pull_total n c : chain_ok c → ∃ c', pull n c = Some c'.
Proof.
  destruct sizes as (Hcs & _). revert c. induction n as [|n IH]; intros c Hok; [by exists c|]. cbn [pull].
  destruct (chain_ReadFull_spec (chain_turns c) c ChunkSize [] Hok (chain_turns_enough c)) as (plain & err & c' & -> & H).
  { change (blen []) with 0. lia. }
  cbn [mbind option_bind]. destruct err as [e|]; [by eexists|]. destruct H as [Hmv _]. by apply IH, (mv_ok _ _ _ Hmv).
Qed.

(** ** The encrypted stream *)

Lemma chunks_fuel p : (length (chunks p) < S (S (length p)))%nat.
Proof.
  destruct sizes as (Hcs & _). pose proof (chunks_count p). pose proof (blen_nonneg p).
  pose proof (Z.div_le_upper_bound (blen p) ChunkSize (blen p) Hcs ltac:(nia)). unfold blen in *. lia.
Qed.

Lemma enc_refill_fails p e s b o :
  es_src s = {| src_content := p; src_fail := Some e |} → benign e = false →
  (∃ r e', refill enc_fill (running s b o) = r ∧ bf_err r = Some e' ∧ e' ≠ io_EOF) ∨
  ChunkSize <= blen p ∧ ∃ s' b', refill enc_fill (running s b o) = running s' b' 0
    ∧ es_src s' = {| src_content := zdrop ChunkSize p; src_fail := Some e |}.
Proof.
  intros Hsrc He. unfold refill, enc_fill, running. cbn [bf_state bf_buf bf_offset bf_done bf_err].
  destruct (Z.eqb_spec (es_index s) MaxUint32) as [_|_]; [left; by eexists _, _|].
  rewrite Hsrc. unfold ReadFull. cbn [src_content src_fail]. destruct (Z.leb_spec ChunkSize (blen p)) as [Hl|Hs].
  - right. split; [done|]. by eexists _, _.
  - left. fold (benign e). rewrite He. eexists _, e. split; [done|]. split; [done|]. by intros ->.
Qed.

(** The encryption of a stream that fails does not end as one that is complete. *)
Lemma enc_drain_fails p e s b o fuel :
  es_src s = {| src_content := p; src_fail := Some e |} → benign e = false → (length (chunks p) < fuel)%nat →
  ∃ out e', drain enc_fill fuel (running s b o) = Some (out, e') ∧ e' ≠ io_EOF.
Proof.
  destruct sizes as (Hc & _). intros Hsrc He. revert s b o fuel Hsrc.
  induction p as [p IH] using bytes_ind. intros s b o fuel Hsrc Hfuel. destruct fuel as [|fuel]; [lia|].
  rewrite drain_refill by done.
  destruct (enc_refill_fails p e s b o Hsrc He) as [(r & e' & -> & Hr & Hne)|(Hl & s' & b' & -> & Hs')].
  - rewrite (drain_err _ _ _ e'); [by eexists _, _|done|].
    pose proof (chunks_nonempty p). destruct (chunks p); cbn in *; [done|lia].
  - rewrite chunks_long in Hfuel by done. cbn in Hfuel.
    destruct (IH (zdrop ChunkSize p) ltac:(rewrite blen_zdrop; lia) s' b' 0 fuel Hs' ltac:(lia)) as (out & e' & -> & He').
    by eexists _, _.
Qed.

Lemma enc_drain_total p f s b o fuel :
  es_src s = {| src_content := p; src_fail := f |} → (length (chunks p) < fuel)%nat →
  ∃ out e, drain enc_fill fuel (running s b o) = Some (out, e).
Proof.
  destruct sizes as (Hc & _). revert s b o fuel.
  induction p as [p IH] using bytes_ind. intros s b o fuel Hsrc Hfuel. destruct fuel as [|fuel]; [lia|].
  rewrite drain_refill by done.
  assert (Hpos : (0 < fuel)%nat) by (pose proof (chunks_nonempty p); destruct (chunks p); cbn in *; [done|lia]).
  assert (Hcase : (∃ r, refill enc_fill (running s b o) = r ∧ (is_Some (bf_err r) ∨ bf_err r = None ∧ bf_done r = true)) ∨
    ChunkSize <= blen p ∧ ∃ s' b', refill enc_fill (running s b o) = running s' b' 0
      ∧ es_src s' = {| src_content := zdrop ChunkSize p; src_fail := f |}).
  { unfold refill, enc_fill, running. cbn [bf_state bf_buf bf_offset bf_done bf_err].
    destruct (_ =? MaxUint32); [left; eexists; split; [reflexivity|left; by eexists]|].
    rewrite Hsrc. unfold ReadFull. cbn [src_content src_fail]. destruct (Z.leb_spec ChunkSize (blen p)) as [Hl|Hs].
    - right. split; [done|]. by eexists _, _.
    - left. destruct f as [e|]; [destruct (errors_Is e io_EOF || errors_Is e io_ErrUnexpectedEOF)|destruct (ztake ChunkSize p)];
        (eexists; split; [reflexivity|cbn; eauto]). }
  destruct Hcase as [(r & -> & [[e He]|[He Hd] ])|(Hl & s' & b' & -> & Hs')].
  - rewrite (drain_err _ _ _ e) by done. by eexists _, _.
  - rewrite drain_done by done. by eexists _, _.
  - rewrite chunks_long in Hfuel by done. cbn in Hfuel.
    destruct (IH (zdrop ChunkSize p) ltac:(rewrite blen_zdrop; lia) s' b' 0 fuel Hs' ltac:(lia)) as (out & e' & ->).
    by eexists _, _.
Qed.

(** A body that ended is the envelope of the whole content. *)
Lemma body_of src base key id encrypted :
  NewEncryptingReader base src key id = Ok encrypted → (∀ e, src_fail src = Some e → benign e = false) →
  ∃ body last, drain enc_fill (S (S (length (src_content src)))) encrypted = Some (body, last) ∧
    (last = io_EOF → src_fail src = None ∧ blen key = KeySize ∧
     (blen (src_content src) / ChunkSize < MaxUint32 → body = envelope (aead_new key) id base (src_content src))).
Proof.
  intros He Hfail. unfold NewEncryptingReader, newAEAD in He.
  destruct (Z.eqb_spec (blen key) KeySize) as [Hk|]; [|done]. cbn [negb mbind result_bind] in He. injection He as <-.
  set (s := {| es_src := src; es_aead := _; es_attachmentID := _; es_baseNonce := _; es_index := _ |}).
  destruct (enc_drain_total (src_content src) (src_fail src) s (magic ++ base) 0 (S (S (length (src_content src)))))
    as (body & last & Hd); [by destruct src|apply chunks_fuel|].
  exists body, last. split; [exact Hd|]. intros ->. destruct src as [p [e|] ]; cbn [src_content src_fail] in *.
  - destruct (enc_drain_fails p e s (magic ++ base) 0 (S (S (length p)))) as (out & e' & Hd' & Hne);
      [done|by apply Hfail|apply chunks_fuel|]. rewrite Hd in Hd'. by injection Hd' as <- <-.
  - split; [done|]. split; [done|]. intros Hmax.
    pose proof (enc_drain p s (magic ++ base) 0 (S (S (length p))) eq_refl) as Hd'.
    specialize (Hd' ltac:(cbn; lia) (chunks_fuel p)). rewrite Hd in Hd'. by injection Hd' as ->.
Qed.
End chain.

Section upload.
Context {cipher : AEAD} {laws : AEADLaws cipher} {lib : Stdlib} {dec : Decoders} {zlib : ZipLib}.
Context (parse_uuid : string → option bytes) (sha256 : bytes → bytes).
Context (keys : option Keyring) (scanRequired : bool) (profiles : Profiles).

Abbreviation Upload := (Upload parse_uuid sha256 keys scanRequired profiles).
Abbreviation finalizeUpload := (finalizeUpload sha256 keys scanRequired profiles).

(** ** The first bytes *)

Lemma multi_Read_head c n p err c' : multi_Read c n = (p, err, c') → ch_head c = [] → ch_head c' = [] ∧ ch_markup c' = ch_markup c.
Proof. unfold multi_Read. intros H Hh. rewrite Hh in H. destruct (bounded_Read _ _) as [ [? ?] ?]. by injection H as <- <- <-. Qed.

Lemma chain_ReadFull_head fuel c n got out err c' :
  chain_ReadFull fuel c n got = Some (out, err, c') → ch_head c = [] → ch_markup c = None → ch_head c' = [].
Proof.
  revert c got. induction fuel as [|fuel IH]; intros c got; [done|]. cbn [chain_ReadFull].
  destruct (_ <=? _); [by intros [= _ _ <-]|]. unfold chain_Read. intros H Hh Hm.
  destruct (multi_Read c _) as [ [p e] c1] eqn:E. apply multi_Read_head in E as [Hh1 Hm1]; [|done].
  rewrite Hm1, Hm in H. destruct e as [e|]; [|by apply (IH c1 _ H); congruence].
  destruct (_ <=? _); injection H as _ _ <-; done.
Qed.

Lemma sniff_spec src :
  b_err src = None → 0 <= b_remaining src →
  ∃ r src', sniffContent src = Some (r, src') ∧ ∀ sn m, r = Ok sn →
    let c := {| ch_head := sn_head sn; ch_src := src'; ch_markup := m |} in
    chain_ok c ∧ sn_head sn ≠ [] ∧ chain_content c = cl_content (b_src src)
    ∧ slack c = b_remaining src - blen (cl_content (b_src src))
    ∧ cl_err (b_src src') = cl_err (b_src src).
Proof.
  intros Hb Hr. unfold sniffContent, readHead. set (c := {| ch_head := []; ch_src := src; ch_markup := None |}).
  destruct (chain_ReadFull_spec (chain_turns c) c sniffLimit []) as (head & err & c' & E & H);
    [done|apply chain_turns_enough|done|].
  rewrite E. cbn [mbind option_bind]. change ([] ++ head) with head in *. eexists _, (ch_src c'). split; [reflexivity|].
  intros sn m Hsn. pose proof (chain_ReadFull_head _ _ _ _ _ _ _ E eq_refl eq_refl) as Hh.
  assert (Hmv : moved c head c' ∧ sn_head sn = head ∧ head ≠ []).
  { assert (Hok : ∀ h : list Z, (guard! negb (h == []) else ErrEmptyFile ;;
        guard! negb (blockedUploadPrefix (DetectContentType h) h) else ErrUnsupportedMedia ;;
        Ok {| sn_head := h; sn_detectedMIME := DetectContentType h;
              sn_scanMarkup := NormalizeDetectedMIME (DetectContentType h) == "text/plain" |}) = Ok sn → sn_head sn = h ∧ h ≠ []).
    { intros h Hg. apply guard_Ok in Hg as [Hne Hg]. apply guard_Ok in Hg as [_ [= <-] ].
      split; [done|]. by apply negb_true_iff, bool_decide_eq_false in Hne. }
    destruct err as [e|]; [|split; [apply H|by apply Hok] ]. fold (benign e) in Hsn.
    destruct H as [(He & Hmv & _)|He]; rewrite He in Hsn; [split; [done|by apply Hok]|done]. }
  destruct Hmv as ([Hok Hc Hs He _] & -> & Hne). cbv zeta.
  unfold chain_content, slack in *. cbn [ch_head ch_src c] in *. rewrite Hh in Hc. cbn [app] in Hc.
  split; [done|]. split; [done|]. split; [done|]. split; [|done]. rewrite <-Hs. reflexivity.
Qed.

(** ** Finalizing *)

(** What a refusal does to the object and the row. *)
Definition undone (env : UploadEnv) (calls : list call) : Prop :=
  ∃ code, calls = CallDelete (StorageObjectKey (u_ID env)) ::
    match u_Delete env with None => [CallMarkFailed (u_ID env) code] | Some _ => [] end.

Lemma compensate_spec env code cause :
  ∃ errs after, compensatePersistedObject env code cause = (Refused (cause :: errs), after) ∧ undone env after.
Proof.
  unfold compensatePersistedObject, undone. destruct (u_Delete env); [|destruct (u_MarkFailed env)];
    (eexists _, _; split; [reflexivity|by exists code]).
Qed.

(** A finalized upload, or the calls made until something refused it. *)
Definition settled (env : UploadEnv) (target : uploadTarget) (o : outcome_) (calls : list call) : Prop :=
  ∃ u mid rest, calls = mid ++ rest
    ∧ mid `prefix_of` [CallInspect; CallAuthorize (tg_destination target) (tg_uploaderID target) (tg_sessionID target);
                       CallMarkUploaded u]
    ∧ (o = Uploaded u (tg_filename target) ∧ rest = [] ∧ CallMarkUploaded u ∈ mid ∧ ua_ID u = u_ID env ∧ u_Mark env = None
       ∨ ∃ cause errs, o = Refused (cause :: errs) ∧ undone env rest).

Lemma settled_refused env target u calls code cause :
  calls `prefix_of` [CallInspect; CallAuthorize (tg_destination target) (tg_uploaderID target) (tg_sessionID target);
                     CallMarkUploaded u] →
  settled env target (compensatePersistedObject env code cause).1 (calls ++ (compensatePersistedObject env code cause).2).
Proof.
  intros Hp. destruct (compensate_spec env code cause) as (errs & after & -> & Hu).
  exists u, calls, after. split; [done|]. split; [done|]. right. by eexists _, _.
Qed.

Lemma finalize_settled env target id ws key c n :
  settled env target (finalizeUpload env target id ws key c n).1 (finalizeUpload env target id ws key c n).2.
Proof.
  pose {| ua_PolicyVersion := 0; ua_FormatID := NoID; ua_ID := ""; ua_Status := StatusFailed;
          ua_PreviewStatus := PreviewStatusFailed; ua_DetectedMIME := ""; ua_Size := 0; ua_CiphertextSize := 0;
          ua_WrappedDEK := []; ua_KEKKeyID := "" |} as u0.
  assert (Hc : ∀ code cause u calls,
    calls `prefix_of` [CallInspect; CallAuthorize (tg_destination target) (tg_uploaderID target) (tg_sessionID target);
                       CallMarkUploaded u] →
    let r := let '(o, after) := compensatePersistedObject env code cause in (o, calls ++ after) in
    settled env target r.1 r.2).
  { intros code cause u calls Hp. pose proof (settled_refused env target u calls code cause Hp) as H.
    by destruct (compensatePersistedObject env code cause). }
  unfold Uploads.finalizeUpload. destruct (negb _). { apply (Hc _ _ u0), prefix_nil. }
  destruct (inspectPending _ _ _ _ _ _) as [result|e]. 2: { apply (Hc _ _ u0). by eexists. }
  destruct (reauthorizeUpload _ _) as [ []|e]. 2: { apply (Hc _ _ u0). by eexists. }
  destruct (Wrap _ _ _ _ _) as [ [wrapped keyID]|e]. 2: { apply (Hc _ _ u0). by eexists. }
  destruct (u_Mark env) as [e|] eqn:Em. { eapply Hc. by exists []. }
  cbn [fst snd]. eexists _, _, []. rewrite app_nil_r. split; [reflexivity|]. split; [by exists []|].
  left. split_and!; try done. apply elem_of_app. right. by left.
Qed.

(** What a finalized upload rests on. *)
Lemma finalize_inv env target id ws key c n u name calls :
  finalizeUpload env target id ws key c n = (Uploaded u name, calls) →
  let size := tg_maxUploadBytes target - b_remaining (ch_src c) in
  ∃ result, inspectPending profiles env target id key size = Ok result
    ∧ n = CiphertextSize size ∧ ua_Size u = size ∧ ua_CiphertextSize u = n ∧ ua_FormatID u = f_ID (r_Format result)
    ∧ ua_ID u = u_ID env ∧ name = tg_filename target
    ∧ (ua_Status u = if scanRequired || f_Enterprise (r_Format result) then StatusPendingScan else StatusClean)
    ∧ Wrap sha256 keys (u_WrapNonce env) key
        {| AttachmentID := id; WorkspaceID := ws; PlaintextSize := size; Binding_KeyWrapVersion := KeyWrapVersion;
           ContentEnvelopeVersion := EnvelopeVersion |} = Ok (ua_WrappedDEK u, ua_KEKKeyID u).
Proof.
  assert (Hc : ∀ code cause cs, (let '(o, after) := compensatePersistedObject env code cause in (o, cs ++ after)) ≠ (Uploaded u name, calls)).
  { intros code cause cs. destruct (compensate_spec env code cause) as (errs & after & -> & _). done. }
  unfold Uploads.finalizeUpload. cbv zeta. destruct (Z.eqb_spec n (CiphertextSize (tg_maxUploadBytes target - b_remaining (ch_src c)))) as [Hn|];
    cbn [negb]; [|by intros ?%Hc].
  destruct (inspectPending _ _ _ _ _ _) as [result|e]; [|by intros ?%Hc].
  destruct (reauthorizeUpload _ _) as [ []|e]; [|by intros ?%Hc].
  destruct (Wrap _ _ _ _ _) as [ [wrapped keyID]|e] eqn:Ew; [|by intros ?%Hc].
  destruct (u_Mark env) as [e|]; [by intros ?%Hc|]. intros [= <- <- _]. exists result. cbn. split_and!; try done.
  by destruct scanRequired, (f_Enterprise _).
Qed.

(** ** The whole upload *)

Lemma resolve_Ok now input target :
  resolveUploadTarget now input = Ok target →
  tg_maxUploadBytes target = ut_MaxUploadBytes (ui_Target input) ∧ 0 < tg_maxUploadBytes target
  ∧ tg_workspaceID target = ut_WorkspaceID (ui_Target input).
Proof.
  unfold resolveUploadTarget. intros (name & _ & H)%bind_Ok. apply guard_Ok in H as [Hg H].
  apply bind_Ok in H as ([? ?] & _ & [= <-]). cbn. split; [done|]. split; [|done].
  apply negb_true_iff, orb_false_iff in Hg as [_ Hg]. by apply Z.leb_gt in Hg.
Qed.

(** A part of the calls after the row was created. *)
Definition stored_calls (env : UploadEnv) (o : outcome_) (calls : list call) : Prop :=
  ∃ target body after, calls = CallCreatePending (newAttachment env target)
                               :: CallPut (StorageObjectKey (u_ID env)) body :: after ∧ settled env target o after.

Lemma storeContent_spec env target content source :
  let c := {| ch_head := sn_head content; ch_src := source;
              ch_markup := if sn_scanMarkup content then Some {| mk_tail := []; mk_err := None |} else None |} in
  chain_ok c →
  ∃ o calls, storeContent parse_uuid sha256 keys scanRequired profiles env target content source = Some (o, calls) ∧
    ((calls = [] ∨ ∃ e, calls = [CallCreatePending (newAttachment env target)] ∧ u_Create env = Some e)
       ∧ (∃ e, o = Refused [e])
     ∨ stored_calls env o calls).
Proof.
  intros c Hok. unfold storeContent. fold c.
  destruct (parse_uuid (u_ID env)) as [id|]; [|by eexists _, _; split; [reflexivity|left; eauto] ].
  destruct (parse_uuid (tg_workspaceID target)) as [ws|]; [|by eexists _, _; split; [reflexivity|left; eauto] ].
  destruct (u_DataKey env) as [key|e]; [|by eexists _, _; split; [reflexivity|left; eauto] ].
  destruct (pump_spec (chain_turns c) c Hok (chain_turns_enough c)) as (src & c' & -> & Hp). cbn [mbind option_bind].
  destruct (pull_total (u_Pulled env) c Hok) as (left & ->). cbn [mbind option_bind].
  destruct (NewEncryptingReader _ _ _ _) as [encrypted|e] eqn:Ee; [|by eexists _, _; split; [reflexivity|left; eauto] ].
  destruct (u_Create env) as [e|] eqn:Ec; [by eexists _, _; split; [reflexivity|left; eauto 6] |].
  assert (Hfail : ∀ e, src_fail src = Some e → benign e = false).
  { intros e He. destruct Hp as [(He' & _)|(e' & He' & Hb)]; congruence. }
  destruct (body_of src (u_BaseNonce env) key id encrypted Ee Hfail) as (body & last & -> & _). cbn [mbind option_bind].
  destruct (u_Put env body last) as [n|e].
  - pose proof (finalize_settled env target id ws key c' n) as Hf.
    destruct (finalizeUpload _ _ _ _ _ _ _) as [o after]. eexists _, _. split; [reflexivity|]. right.
    by exists target, body, after.
  - pose (u0 := {| ua_PolicyVersion := 0; ua_FormatID := NoID; ua_ID := ""; ua_Status := StatusFailed;
          ua_PreviewStatus := PreviewStatusFailed; ua_DetectedMIME := ""; ua_Size := 0; ua_CiphertextSize := 0;
          ua_WrappedDEK := []; ua_KEKKeyID := "" |}).
    pose proof (settled_refused env target u0 [] "storage_write" (uploadFailureCause e left) (prefix_nil _)) as Hf.
    destruct (compensatePersistedObject _ _ _) as [o after]. eexists _, _. split; [reflexivity|]. right.
    by exists target, body, after.
Qed.

Lemma Upload_start env input target :
  resolveUploadTarget (u_Now env) input = Ok target →
  let source := {| b_src := ui_Content input; b_remaining := tg_maxUploadBytes target; b_err := None |} in
  b_err source = None ∧ 0 <= b_remaining source.
Proof. intros H. apply resolve_Ok in H as (_ & ? & _). split; [done|cbn; lia]. Qed.
End upload.

(** ** The inspection reads what was stored *)

Lemma rr_Read_err {cipher : AEAD} st r n piece e r' : rr_Read st r n = Some (piece, Some e, r') → piece = [].
Proof.
  assert (HRead : ∀ s q err s', Read dec_fill s n = Some (q, Some err, s') → q = []).
  { intros s q err s'. unfold Read. destruct (read_loop dec_fill 3 s) as [ [ [?|] ?]|]; congruence. }
  unfold rr_Read. cbv zeta. set (opened := if orb _ _ then _ else _). destruct opened as [ [ [err|] r1]|]; [congruence| |done].
  destruct (rr_stream r1) as [s|]; [|done]. destruct (Read dec_fill s n) as [ [ [q err] s']|] eqn:E; [|done].
  intros [= -> -> _]. by eapply HRead.
Qed.

Section inspected.
Context {cipher : AEAD} {laws : AEADLaws cipher}.
Context (k id base p : bytes) (Hk : blen k = KeySize) (Hb : blen base = baseNonceSize)
        (Hmax : blen p / ChunkSize < MaxUint32).

Lemma rd_content_cons q rest e :
  rd_content {| rd_pieces := q :: rd_pieces rest; rd_last := rd_last rest; rd_err := e |} = q ++ rd_content rest.
Proof. unfold rd_content. cbn [rd_pieces rd_last]. symmetry. apply (assoc_L (++)). Qed.

Lemma range_drain_spec st fuel r :
  reader_ok k id base p r → faithful k id base p st → available st → blen p - rr_pos r < Z.of_nat fuel →
  rd_err (range_drain fuel st r) = None ∧ rd_content (range_drain fuel st r) = zdrop (rr_pos r) p.
Proof.
  intros Hr Hst Hav. revert r Hr. induction fuel as [|fuel IH]; intros r Hr Hf.
  { pose proof (ok_pos _ _ _ _ r Hr). lia. }
  cbn [range_drain].
  destruct (rr_Read_spec k id base p Hk Hb Hmax st r (64 * 1024) Hr Hst ltac:(lia)) as (piece & err & r' & E & Hr' & Hstep).
  rewrite E. pose proof (ok_pos _ _ _ _ r Hr) as Hpos. destruct err as [e|].
  - apply rr_Read_err in E as ->. inversion Hstep as [| | |? ? Hend|]; subst; [|done]. split; [done|].
    symmetry. apply zdrop_all. lia.
  - inversion Hstep as [| |? ? ? Hne Hle Hpc| |]; subst.
    assert (Hpl : 0 < blen piece) by (destruct piece; [done|unfold blen; cbn; lia]).
    destruct (IH r' Hr' ltac:(lia)) as [He Hc]. cbn [rd_err]. split; [done|].
    rewrite rd_content_cons, Hc.
    replace (rr_pos r') with (rr_pos r + blen piece) by lia. rewrite Hpc at 1. rewrite <-zdrop_zdrop by lia. apply ztake_zdrop.
Qed.

(** The source the policy inspects holds the client's content. *)
Lemma range_source_holds st r :
  reader_ok k id base p r → faithful k id base p st → available st → holds (range_source st r) p.
Proof.
  intros Hr Hst Hav off Hoff. unfold range_source, Seek. rewrite (ok_size _ _ _ _ r Hr).
  change (io_SeekStart =? io_SeekStart) with true. cbn match. rewrite (proj2 (Z.ltb_ge off 0)) by done. cbn [orb].
  destruct (Z.ltb_spec (blen p) off) as [Hlt|Hle]; cbn match.
  - right. split; [done|]. by eexists.
  - left. eexists. split; [reflexivity|]. cbn [rr_object rr_with]. rewrite (ok_size _ _ _ _ r Hr).
    assert (Hok : reader_ok k id base p (rr_with r (rr_header r) off (rr_streamPos r) (rr_stream r))).
    { apply with_ok; [done|lia|apply (ok_header _ _ _ _ r Hr)|apply (ok_stream _ _ _ _ r Hr)]. }
    apply (range_drain_spec st _ _ Hok Hst Hav). cbn [rr_pos rr_with]. lia.
Qed.
End inspected.

(** * Theorems *)

Section theorems.
Context {cipher : AEAD} {laws : AEADLaws cipher} {lib : Stdlib} {dec : Decoders} {zlib : ZipLib}.
Context (parse_uuid : string → option bytes) (sha256 : bytes → bytes).
Context (keys : option Keyring) (scanRequired : bool) (profiles : Profiles).

(** Every step of an accepted upload. *)
Lemma Upload_inv env input u name calls :
  Upload parse_uuid sha256 keys scanRequired profiles env input = Some (Uploaded u name, calls) →
  (∀ body last n, u_Put env body last = Ok n → last = io_EOF) →
  ut_MaxUploadBytes (ui_Target input) / ChunkSize < MaxUint32 →
  let p := cl_content (ui_Content input) in
  ∃ target id ws key c, let base := u_BaseNonce env in
    resolveUploadTarget (u_Now env) input = Ok target
    ∧ parse_uuid (u_ID env) = Some id ∧ parse_uuid (tg_workspaceID target) = Some ws ∧ u_DataKey env = Ok key
    ∧ blen key = KeySize ∧ client_ended (ui_Content input) ∧ 0 < blen p <= ut_MaxUploadBytes (ui_Target input)
    ∧ CallPut (StorageObjectKey (u_ID env)) (envelope (aead_new key) id base p) ∈ calls
    ∧ tg_maxUploadBytes target - b_remaining (ch_src c) = blen p
    ∧ ∃ after, finalizeUpload sha256 keys scanRequired profiles env target id ws key c (CiphertextSize (blen p))
        = (Uploaded u name, after).
Proof.
  intros H Hput Hmax p. unfold Upload in H. destruct (resolveUploadTarget _ _) as [target|] eqn:Er; [|done].
  pose proof (resolve_Ok _ _ _ Er) as (Hlim & Hpos & _). destruct (Upload_start env input target Er) as [Hb Hr]. cbv zeta in Hb, Hr.
  destruct (sniff_spec _ Hb Hr) as (r & src' & Es & Hs). rewrite Es in H. cbn [mbind option_bind] in H.
  destruct r as [sn|]; [|done]. destruct (_ && _); [done|]. unfold storeContent in H.
  destruct (parse_uuid (u_ID env)) as [id|]; [|done]. destruct (parse_uuid (tg_workspaceID target)) as [ws|] eqn:Ews; [|done].
  destruct (u_DataKey env) as [key|]; [|done].
  set (c0 := {| ch_head := sn_head sn; ch_src := src'; ch_markup := _ |}) in H.
  destruct (Hs sn (ch_markup c0) eq_refl) as (Hok & Hne & Hcont & Hslack & Hend). fold c0 in Hok, Hcont, Hslack.
  cbn [b_src b_remaining] in Hcont, Hslack, Hend.
  destruct (pump_spec (chain_turns c0) c0 Hok (chain_turns_enough c0)) as (src & c' & Ep & Hp). rewrite Ep in H. cbn [mbind option_bind] in H.
  destruct (pull_total (u_Pulled env) c0 Hok) as (left & El). rewrite El in H. cbn [mbind option_bind] in H.
  destruct (NewEncryptingReader _ _ _ _) as [encrypted|] eqn:Ee; [|done]. destruct (u_Create env); [done|].
  assert (Hfail : ∀ e, src_fail src = Some e → benign e = false).
  { intros e He. destruct Hp as [(He' & _)|(e' & He' & Hben)]; congruence. }
  destruct (body_of src (u_BaseNonce env) key id encrypted Ee Hfail) as (body & last & Ed & Hbody). rewrite Ed in H. cbn [mbind option_bind] in H.
  destruct (u_Put env body last) as [n|e] eqn:Eput.
  2: { destruct (compensate_spec env "storage_write" (uploadFailureCause e left)) as (errs & after & Ec & _). by rewrite Ec in H. }
  apply Hput in Eput as Hlast. destruct (finalizeUpload _ _ _ _ _ _ _) as [o after] eqn:Ef. injection H as -> <-.
  destruct (Hbody Hlast) as (Hsf & Hk & Henv).
  destruct Hp as [(_ & Hmv & [Hok' Hnil Hce])|(e & He & _)]; [|congruence].
  assert (Hsc : src_content src = p).
  { pose proof (mv_content _ _ _ Hmv) as Hc. rewrite Hnil, app_nil_r in Hc. rewrite <-Hc. exact Hcont. }
  rewrite Hsc in Henv. pose proof (mv_slack _ _ _ Hmv) as Hsl. assert (Hsl' : slack c0 = tg_maxUploadBytes target - blen p) by exact Hslack. rewrite Hsl' in Hsl.
  apply app_eq_nil in Hnil as [_ Hnil]. unfold slack in Hsl. rewrite Hnil in Hsl. change (blen []) with 0 in Hsl.
  destruct Hok' as [_ Hrem]. fold p in Hsl.
  assert (Hle : blen p <= ut_MaxUploadBytes (ui_Target input)) by lia.
  pose proof (finalize_inv sha256 keys scanRequired profiles env target id ws key c' n u name after Ef) as (result & _ & Hn & _).
  assert (Hsize : tg_maxUploadBytes target - b_remaining (ch_src c') = blen p) by lia. rewrite Hsize in Hn.
  destruct sizes as (Hcs & _). exists target, id, ws, key, c'. split_and!; try done.
  - unfold client_ended in *. rewrite (mv_end _ _ _ Hmv) in Hce. change (ch_src c0) with src' in Hce. by rewrite Hend in Hce.
  - destruct (decide (p = [])) as [Hp|Hp]; [|unfold blen; destruct p; [done|cbn; lia] ].
    exfalso. apply Hne. assert (Hc : sn_head sn ++ cl_content (b_src src') = []) by (rewrite <-Hp; exact Hcont).
    by apply app_eq_nil in Hc as [? _].
  - rewrite Henv; [by right; left|]. eapply Z.le_lt_trans; [|exact Hmax]. by apply Z.div_le_mono.
  - exists after. by rewrite <-Hn.
Qed.

(** What a ring wraps it unwraps. *)
Lemma Unwrap_Wrap nonce dataKey binding wrapped keyID :
  blen nonce = nonceSize → Wrap sha256 keys nonce dataKey binding = Ok (wrapped, keyID) →
  Unwrap sha256 keys wrapped keyID binding = Ok dataKey.
Proof.
  intros Hn. unfold Wrap, Unwrap. destruct keys as [ring|]; [|done].
  destruct (Envelope.keys ring !! activeID ring) as [active|] eqn:Ea; [|done].
  intros (sealed & Hw & [= <- <-])%bind_Ok. rewrite Ea. by eapply unwrap_wrap.
Qed.

(** C5. What a client uploads is what is served. When an upload is accepted, the client's
    stream ended, its content is not empty and within the limit, and the object handed to
    the store is the envelope of exactly that content under a fresh key bound to the
    attachment; the file policy allowed the file it read back from that very object; the
    row starts clean only where no scan is required of it; and from the recorded row any
    later opening of the object reads and seeks as a plain file of the content does,
    whatever the store refuses along the way. *)
Theorem upload_download env input u name calls :
  Upload parse_uuid sha256 keys scanRequired profiles env input = Some (Uploaded u name, calls) →
  (∀ body last n, u_Put env body last = Ok n → last = io_EOF) →
  blen (u_BaseNonce env) = baseNonceSize → blen (u_WrapNonce env) = nonceSize →
  ut_MaxUploadBytes (ui_Target input) / ChunkSize < MaxUint32 →
  let p := cl_content (ui_Content input) in
  ∃ id key result,
    client_ended (ui_Content input) ∧ 0 < blen p <= ut_MaxUploadBytes (ui_Target input) ∧ ua_Size u = blen p
    ∧ CallPut (StorageObjectKey (u_ID env)) (envelope (aead_new key) id (u_BaseNonce env) p) ∈ calls
    ∧ r_Decision result = Allow ∧ ua_FormatID u = f_ID (r_Format result)
    ∧ ua_Status u = (if scanRequired || f_Enterprise (r_Format result) then StatusPendingScan else StatusClean)
    ∧ (faithful key id (u_BaseNonce env) p (u_Objects env) → available (u_Objects env) →
         ∃ source declared, holds source p
           ∧ Inspect None source (blen p) (bytes_str name) declared profiles = Ok result)
    ∧ ∀ st ops, faithful key id (u_BaseNonce env) p st → Forall (faithful key id (u_BaseNonce env) p) ops.*1 →
        Forall op_ok ops →
        let stored := {| eo_objectID := u_ID env; eo_workspaceID := ut_WorkspaceID (ui_Target input); eo_size := ua_Size u;
                         eo_wrappedDEK := ua_WrappedDEK u; eo_kekKeyID := ua_KEKKeyID u;
                         eo_keyWrapVersion := KeyWrapVersion; eo_envelopeVersion := EnvelopeVersion |} in
        (∃ e, openEncryptedObject parse_uuid sha256 st keys stored = Some (Fail e) ∧ ¬ available st) ∨
        ∃ r, openEncryptedObject parse_uuid sha256 st keys stored = Some (Ok r) ∧
          ∃ outs r', reader_run r ops = Some (outs, r') ∧ file_run p 0 ops outs.
Proof.
  intros H Hput Hbase Hnonce Hmax p.
  destruct (Upload_inv env input u name calls H Hput Hmax) as
    (target & id & ws & key & c & Er & Hid & Hws & _ & Hk & Hend & Hlen & Hin & Hsize & after & Hf).
  fold p in Hlen, Hin, Hsize, Hf. apply resolve_Ok in Er as (_ & _ & Ews). rewrite Ews in Hws.
  destruct (finalize_inv sha256 keys scanRequired profiles env target id ws key c _ u name after Hf) as
    (result & Hi & _ & Hus & _ & Hfid & Huid & Hname & Hst & Hw).
  rewrite Hsize in Hi, Hus, Hw. apply Unwrap_Wrap in Hw; [|done].
  assert (Hmax' : blen p / ChunkSize < MaxUint32).
  { destruct sizes as (Hcs & _). eapply Z.le_lt_trans; [|exact Hmax]. apply Z.div_le_mono; [done|lia]. }
  unfold inspectPending in Hi. destruct (Inspect _ _ _ _ _ _) as [res|] eqn:Ei; [|done].
  apply guard_Ok in Hi as [Hallow [= ->] ]. apply bool_decide_eq_true in Hallow.
  exists id, key, result. split_and!; try done.
  - lia.
  - lia.
  - intros Hfaith Hav. eexists _, _. split; [|rewrite Hname; exact Ei].
    apply (range_source_holds key id (u_BaseNonce env) p Hk Hbase Hmax' _ _); [by apply initial_ok|done|done].
  - intros st ops Hst' Hops Hok. cbv zeta. rewrite Hus.
    by apply (open_then_run parse_uuid sha256 keys _ id ws key (u_BaseNonce env) p st ops).
Qed.
End theorems.

(** ** An instance *)

Section instance.
#[local] Existing Instance toy_lib.
#[local] Existing Instance toy_dec.
#[local] Existing Instance toy_zip.

Definition toy_stored (p : bytes) : ObjectStore :=
  let stored := envelope (aead_new toy_key) (replicate 16 3) (replicate 8 5) p in
  {| Open := Ok {| src_content := stored; src_fail := None |};
     OpenRange off := Ok {| src_content := zdrop off stored; src_fail := None |}; CloseBody := None |}.

Definition toy_env (p : bytes) : UploadEnv :=
  {| u_Now := 0; u_ID := "o"; u_DataKey := Ok toy_key; u_BaseNonce := replicate 8 5; u_WrapNonce := replicate 12 6;
     u_Create := None; u_Put body last := if last == io_EOF then Ok (blen body) else Fail last; u_Pulled := 0;
     u_Objects := toy_stored p; u_Authorize := Ok {| ad_ID := "c"; ad_WorkspaceID := "w"; ad_MaxUploadBytes := 100 |};
     u_Mark := None; u_Delete := None; u_MarkFailed := None |}.

Definition toy_input (pieces : list (list Z)) : UploadInput :=
  {| ui_Target := {| ut_SessionID := "s"; ut_Destination := {| Destination_Kind := DestinationKindChannel; Destination_ID := "c" |};
                     ut_WorkspaceID := "w"; ut_UploaderID := "u"; ut_MaxUploadBytes := 200000 |};
     ui_Filename := "a.txt"; ui_DeclaredMIME := "text/plain"; ui_Purpose := ""; ui_DurationMs := "";
     ui_Content := {| cl_pieces := pieces; cl_err := None |} |}.

Definition toy_upload (pieces : list (list Z)) : option (outcome_ * list call) :=
  Upload ex_parse toy_sha256 ex_ring true toy_profiles (toy_env (mjoin pieces)) (toy_input pieces).

Example toy_uploaded :
  (λ r, match r with (Uploaded u _, calls) => (ua_Size u, ua_Status u, length calls) | _ => (0, StatusFailed, 0%nat) end)
    <$> toy_upload [str_bytes "h"; []; str_bytes "i"] = Some (2, StatusPendingScan, 5%nat).
Proof. vm_compute. reflexivity. Qed.

(** The bytes that are stored are those of the two reads, and any later opening of the
    object delivers them. *)
Lemma upload_download_witness :
  ∃ u name calls, toy_upload [str_bytes "h"; []; str_bytes "i"] = Some (Uploaded u name, calls)
    ∧ (∃ id key, CallPut (StorageObjectKey "o") (envelope (aead_new key) id (replicate 8 5) (str_bytes "hi")) ∈ calls)
    ∧ ua_Size u = 2.
Proof.
  destruct (toy_upload [str_bytes "h"; []; str_bytes "i"]) as [ [ [u name|errs] calls]|] eqn:E.
  2: { assert (H : (λ r, match r with (Uploaded _ _, _) => true | _ => false end) <$> toy_upload [str_bytes "h"; []; str_bytes "i"] = Some true)
         by (vm_compute; reflexivity). by rewrite E in H. }
  2: { assert (H : (λ _, ()) <$> toy_upload [str_bytes "h"; []; str_bytes "i"] = Some ()) by (vm_compute; reflexivity).
       by rewrite E in H. }
  exists u, name, calls. split; [done|].
  destruct (upload_download ex_parse toy_sha256 ex_ring true toy_profiles _ (toy_input [str_bytes "h"; []; str_bytes "i"]) u name calls E)
    as (id & key & result & _ & _ & Hs & Hin & _).
  - intros body last n. cbn [u_Put toy_env]. case_bool_decide; [by intros _|done].
  - reflexivity.
  - reflexivity.
  - vm_compute. reflexivity.
  - split; [exists id, key; exact Hin|exact Hs].
Defined.

(** ** A detection that is lost *)

(** The markup reader reports a token with the read that completes it; when that read
    also completes the chunk being encrypted, [io.ReadFull] drops the error, the next
    reads do not repeat it, and the stream ends as a complete one. *)
Definition split_markup : chain :=
  {| ch_head := replicate 512 97;
     ch_src := {| b_src := {| cl_pieces := [replicate (64 * 1024 - 512 - 7) 97 ++ str_bytes "<script"; str_bytes ">alert(1)"]; cl_err := None |};
                  b_remaining := 200000; b_err := None |};
     ch_markup := Some {| mk_tail := []; mk_err := None |} |}.

Example markup_detected_and_dropped :
  (λ r : Source * chain, (src_fail r.1, ch_markup r.2 ≫= mk_err)) <$> pump (chain_turns split_markup) split_markup
  = Some (None, Some ErrActiveMarkup).
Proof. vm_compute. reflexivity. Qed.
End instance.
