(* ===== verification/Signatures.v ===== *)
(** * The evidence of a scan

    [services/file-service/internal/signatures/policy.go], the guarded client of
    [internal/scanner/guarded.go] once the guardian has answered, and the condition
    the database puts on an approval (the function [files.require_fresh_scan] of
    migration 000020 of the files schema): which generation of the signature
    database a clean verdict must come from, and how old it may be. *)

From stdpp Require Import prelude strings.
From Stdlib Require Import ZArith Lia Ascii.
From S2P Require Import Prelude GoStrings Utf8.
Local Open Scope Z_scope.

Definition Engine : string := "1.4.6".
Definition ErrUntrusted : error := ErrNew "signatures.ErrUntrusted".

Record Evidence := {
  Generation : string; ev_Engine : string; DailyVersion : Z; DatabaseTime : Time; LoadedAt : Time;
  CompletedAt : Time }.

#[export] Instance Evidence_eq_dec : EqDecision Evidence.
Proof. solve_decision. Defined.

(** ** Package [hex] *)

Definition hex_value (c : Z) : option Z :=
  if (48 <=? c) && (c <=? 57) then Some (c - 48)
  else if (97 <=? c) && (c <=? 102) then Some (c - 87)
  else if (65 <=? c) && (c <=? 70) then Some (c - 55) else None.
Definition hex_digit (v : Z) : Z := if v <? 10 then 48 + v else 87 + v.

(** [hex.DecodeString] and [hex.EncodeToString], on bytes. *)
Fixpoint hex_Decode (cs : list Z) : option (list Z) :=
  match cs with
  | [] => Some []
  | [_] => None
  | h :: l :: cs => a ← hex_value h; b ← hex_value l; r ← hex_Decode cs; Some (a * 16 + b :: r)
  end.
Fixpoint hex_Encode (bs : list Z) : list Z :=
  match bs with [] => [] | b :: bs => hex_digit (b / 16) :: hex_digit (b mod 16) :: hex_Encode bs end.

(** ** The guardian's evidence *)

Definition ValidGeneration (id : string) : bool :=
  match hex_Decode (str_bytes id) with
  | Some decoded => (Z.of_nat (length decoded) =? 32) && (hex_Encode decoded == str_bytes id)
  | None => false
  end.

Definition Valid (e : Evidence) (now : Time) (maxAge : Duration) : option error :=
  if negb (ValidGeneration (Generation e)) || negb (ev_Engine e == Engine) || (DailyVersion e <=? 0)
  then Some ErrUntrusted
  else if (maxAge <=? 0) || time_IsZero (DatabaseTime e) || time_Before (LoadedAt e) (DatabaseTime e)
  then Some ErrUntrusted
  else if time_Before now (LoadedAt e) || negb (time_Before now (time_Add (DatabaseTime e) maxAge))
  then Some ErrUntrusted
  else None.

Definition ValidCompletion (e : Evidence) (now : Time) (maxAge : Duration) : option error :=
  match Valid e now maxAge with
  | Some err => Some err
  | None =>
      if time_Before (CompletedAt e) (LoadedAt e) || time_After (CompletedAt e) now then Some ErrUntrusted else None
  end.

(** ** The guarded scanner *)

Inductive Verdict := VerdictClean | VerdictInfected | VerdictOther.
#[export] Instance Verdict_eq_dec : EqDecision Verdict.
Proof. solve_decision. Defined.

Definition ErrProtocol : error := ErrNew "scanner.ErrProtocol".
Definition ErrStreamTooLarge : error := ErrNew "scanner.ErrStreamTooLarge".
Definition ErrGuardianUnavailable : error := ErrNew "scanner.ErrGuardianUnavailable".

Record GuardedReply := { gr_Result : string; gr_Evidence : Evidence }.

Definition guardedStatusError (status : Z) : option error :=
  if status =? 200 then None
  else if status =? 413 then Some ErrStreamTooLarge
  else if status =? 504 then Some context_DeadlineExceeded
  else if status =? 408 then Some context_Canceled
  else if status =? 503 then Some ErrGuardianUnavailable
  else Some ErrProtocol.

(** What the request came to: no answer, or a status and the reply decoded from the
    body; the clock is read before the request and after the reply. *)
Definition ScanWithEvidence (maxAge : Duration) (started now : Time) (answer : option (Z * result GuardedReply))
  : result (Verdict * Evidence) :=
  match answer with
  | None => Fail ErrGuardianUnavailable
  | Some (status, decoded) =>
      match guardedStatusError status with
      | Some err => Fail err
      | None =>
          reply ← decoded;
          match ValidCompletion (gr_Evidence reply) now maxAge with
          | Some err => Fail err
          | None =>
              if time_Before (CompletedAt (gr_Evidence reply)) started then Fail ErrUntrusted
              else if gr_Result reply == "infected" then Ok (VerdictInfected, gr_Evidence reply)
              else if negb (gr_Result reply == "clean") then Fail ErrProtocol
              else Ok (VerdictClean, gr_Evidence reply)
          end
      end
  end.

(** ** The database's own condition *)

(** The pattern ['^[0-9a-f]{64}$']. *)
Definition is_lower_hex (c : Z) : bool := ((48 <=? c) && (c <=? 57)) || ((97 <=? c) && (c <=? 102)).
Definition is_generation (s : string) : bool :=
  (Z.of_nat (length (str_bytes s)) =? 64) && forallb is_lower_hex (str_bytes s).

(** The columns a proof fills, under a policy of [age] seconds, at [checked_at]. *)
Definition fresh_evidence (age : Z) (checked_at : Time) (e : Evidence) : bool :=
  is_generation (Generation e) && (ev_Engine e == Engine) && (0 <? DailyVersion e) &&
  (DatabaseTime e <=? checked_at) && (DatabaseTime e <=? LoadedAt e) &&
  (LoadedAt e <=? CompletedAt e) && (CompletedAt e <=? checked_at) &&
  (checked_at <? DatabaseTime e + age * Second).

(** ** The two conditions are one *)

Lemma hex_digit_value c : is_lower_hex c = true → ∃ v, hex_value c = Some v ∧ 0 <= v < 16 ∧ hex_digit v = c.
Proof.
  unfold is_lower_hex, hex_value, hex_digit. intros H.
  destruct ((48 <=? c) && (c <=? 57)) eqn:H1; [exists (c - 48)|].
  - rewrite andb_true_iff, !Z.leb_le in H1. destruct (c - 48 <? 10) eqn:?; [|lia]. split_and!; [done|lia..].
  - destruct ((97 <=? c) && (c <=? 102)) eqn:H2; [|done]. exists (c - 87).
    rewrite andb_true_iff, !Z.leb_le in H2. destruct (c - 87 <? 10) eqn:?; [lia|]. split_and!; [done|lia..].
Qed.

Lemma hex_value_range c v : hex_value c = Some v → 0 <= v < 16.
Proof.
  unfold hex_value. repeat case_match; intros [= <-];
    repeat match goal with H : _ && _ = true |- _ => rewrite andb_true_iff, !Z.leb_le in H end; lia.
Qed.

Lemma hex_digit_lower v : 0 <= v < 16 → is_lower_hex (hex_digit v) = true.
Proof. intros. unfold is_lower_hex, hex_digit. destruct (v <? 10) eqn:?; lia. Qed.

Lemma byte_split a b : 0 <= b < 16 → (a * 16 + b) / 16 = a ∧ (a * 16 + b) mod 16 = b.
Proof.
  intros. split.
  - rewrite Z.div_add_l, Z.div_small; lia.
  - rewrite Z.add_comm, Z_mod_plus_full, Z.mod_small; lia.
Qed.

Lemma hex_Decode_lower n cs : length cs = (2 * n)%nat → forallb is_lower_hex cs = true →
  ∃ bs, hex_Decode cs = Some bs ∧ length bs = n ∧ hex_Encode bs = cs.
Proof.
  revert cs. induction n as [|n IH]; intros cs Hl Hf.
  - destruct cs; [|simpl in Hl; lia]. by exists [].
  - destruct cs as [|h [|l cs]]; simpl in Hl; try lia. simpl in Hf. rewrite !andb_true_iff in Hf.
    destruct Hf as (Hh & Hlo & Hf). destruct (IH cs) as (bs & Hd & Hn & He); [lia|done|].
    destruct (hex_digit_value _ Hh) as (a & Ha & Ra & <-). destruct (hex_digit_value _ Hlo) as (b & Hb & Rb & <-).
    exists (a * 16 + b :: bs). simpl. rewrite Ha, Hb, Hd. destruct (byte_split a b Rb) as [-> ->].
    split_and!; [done|simpl; lia|by rewrite He].
Qed.

Lemma hex_Encode_shape bs : length (hex_Encode bs) = (2 * length bs)%nat.
Proof. induction bs as [|b bs IH]; simpl; lia. Qed.

Lemma hex_Decode_range n cs bs : (length cs <= n)%nat → hex_Decode cs = Some bs → Forall (λ b, 0 <= b < 256) bs.
Proof.
  revert cs bs. induction n as [|n IH]; intros cs bs Hn Hd.
  - destruct cs; [|simpl in Hn; lia]. simplify_eq/=. constructor.
  - destruct cs as [|h [|l cs]]; simplify_eq/=; [constructor|].
    destruct (hex_value h) as [a|] eqn:Ha; [|done]. destruct (hex_value l) as [b|] eqn:Hb; [|done].
    destruct (hex_Decode cs) as [r|] eqn:Hr; [|done]. simplify_eq/=.
    apply hex_value_range in Ha, Hb. constructor; [lia|]. apply (IH cs); [lia|done].
Qed.

Lemma hex_Encode_lower bs : Forall (λ b, 0 <= b < 256) bs → forallb is_lower_hex (hex_Encode bs) = true.
Proof.
  induction 1 as [|b bs Hb _ IH]; [done|]. simpl. rewrite !hex_digit_lower, IH; [done|apply Z.mod_pos_bound; lia|].
  split; [apply Z.div_pos; lia|apply Z.div_lt_upper_bound; lia].
Qed.

(** Go's round trip through [hex] and the database's pattern accept the same names. *)
Lemma ValidGeneration_is_the_pattern id : ValidGeneration id = is_generation id.
Proof.
  unfold ValidGeneration, is_generation. set (cs := str_bytes id). apply eq_true_iff_eq. split.
  - destruct (hex_Decode cs) as [bs|] eqn:Hd; [|done]. rewrite !andb_true_iff, !Z.eqb_eq, bool_decide_eq_true.
    intros [Hl He]. rewrite <- He. rewrite hex_Encode_shape. split; [lia|].
    by eapply hex_Encode_lower, hex_Decode_range.
  - rewrite andb_true_iff, Z.eqb_eq. intros [Hl Hf].
    destruct (hex_Decode_lower 32 cs) as (bs & -> & Hn & He); [lia|done|].
    rewrite He, Hn, bool_decide_eq_true_2 by done. done.
Qed.

(** The guardian's evidence and the database's proof are one condition: under a
    policy of a positive number of seconds, an evidence whose database has a date is
    accepted by the scanner's client at an instant exactly when the trigger of the
    table of attachments accepts it at that instant.  So no verdict the client takes
    is refused for its evidence by a database with the same clock, and none the
    client would refuse is stored. *)
Theorem ValidCompletion_is_the_trigger e now age : 0 < age → DatabaseTime e ≠ time_zero →
  ValidCompletion e now (age * Second) = (if fresh_evidence age now e then None else Some ErrUntrusted).
Proof.
  intros Hage Hdb. unfold ValidCompletion, Valid, fresh_evidence, time_Before, time_After, time_IsZero, time_Add.
  rewrite ValidGeneration_is_the_pattern, (bool_decide_eq_false_2 (DatabaseTime e = time_zero)) by done.
  destruct (is_generation _); [|done]. destruct (bool_decide (ev_Engine e = Engine)); [|done]. simpl.
  assert (HS : 0 < Second) by done. assert (0 < age * Second) by nia.
  destruct (DailyVersion e <=? 0) eqn:?, (0 <? DailyVersion e) eqn:?; try lia; [done|]. simpl.
  destruct (age * Second <=? 0) eqn:?; [lia|]. simpl.
  repeat match goal with |- context [?a <? ?b] => destruct (a <? b) eqn:? | |- context [?a <=? ?b] => destruct (a <=? b) eqn:? end;
    simpl; try done; lia.
Qed.

(** The evidence of a verdict the guarded scanner gives is fresh by the database's own
    condition, and of a scan completed after it was asked for. *)
Lemma ScanWithEvidence_fresh age started now answer verdict e :
  ScanWithEvidence (age * Second) started now answer = Ok (verdict, e) →
  started <= CompletedAt e ∧ CompletedAt e <= now ∧ verdict ≠ VerdictOther ∧ ValidCompletion e now (age * Second) = None.
Proof.
  unfold ScanWithEvidence. destruct answer as [[status decoded]|]; [|done].
  destruct (guardedStatusError status); [done|]. destruct decoded as [reply|]; [|done]. cbn [mbind result_bind].
  destruct (ValidCompletion _ _ _) eqn:Hv; [done|]. unfold time_Before.
  destruct (CompletedAt _ <? started) eqn:Hs; [done|].
  assert (Hnow : CompletedAt (gr_Evidence reply) <= now).
  { revert Hv. unfold ValidCompletion. destruct (Valid _ _ _); [done|]. unfold time_Before, time_After.
    destruct (CompletedAt _ <? LoadedAt _), (now <? CompletedAt _) eqn:?; simpl; intros; try discriminate; lia. }
  destruct (_ == "infected"); [intros [= <- <-]; split_and!; [lia|lia|done|done]|].
  destruct (negb _); [done|]. intros [= <- <-]. split_and!; [lia|lia|done|done].
Qed.

Definition toy_evidence : Evidence :=
  {| Generation := "00112233445566778899aabbccddeeff00112233445566778899aabbccddeeff"; ev_Engine := "1.4.6";
     DailyVersion := 27000; DatabaseTime := 10 * Hour; LoadedAt := 11 * Hour; CompletedAt := 12 * Hour |}.

Lemma ValidCompletion_is_the_trigger_witness :
  ValidCompletion toy_evidence (13 * Hour) (86400 * Second) = None ∧ fresh_evidence 86400 (13 * Hour) toy_evidence = true.
Proof.
  assert (H : fresh_evidence 86400 (13 * Hour) toy_evidence = true) by (vm_compute; reflexivity).
  split; [|exact H].
  rewrite (ValidCompletion_is_the_trigger toy_evidence (13 * Hour) 86400); [by rewrite H|lia|by vm_compute].
Defined.
