(* ===== verification/Attachments.v ===== *)
(** * The rows of stored files

    [services/file-service/internal/storage]: the statements of attachment_store.go,
    scan_store.go, preview_store.go, object_cleanup_store.go and
    signature_approval.go over the tables [files.attachments],
    [files.attachment_preview_pages] and [files.object_cleanup_jobs], with the
    triggers and the checks that the migrations of the files schema (000001 to
    000020) put on them; and the part of chat-service's [CreateMessage] that links
    a stored file to a message.

    A statement is atomic: a function of the database's state and of the instants
    its transaction sees.  The instants are whole (the column type rounds them to a
    microsecond); names are as the driver gives them, canonical. *)

From stdpp Require Import prelude gmap strings sorting.
From Stdlib Require Import ZArith Lia.
From S2P Require Import Prelude GoStrings Utf8 FilePolicy FileDomain Envelope Uploads Signatures.
Local Open Scope Z_scope.

(** ** The tables *)

(** What [CreatePending] writes and nothing changes. *)
Record File := {
  at_WorkspaceID : string; at_UploaderID : string; at_Destination : Destination; at_Filename : list Z;
  at_DeclaredMIME : list Z; at_StorageObjectKey : string; at_EnvelopeVersion : Z; at_KeyWrapVersion : Z;
  at_AudioKind : option string; at_DeclaredDurationMs : option Z; at_CreatedAt : Time }.

(** What [MarkUploaded] writes about the stored bytes. *)
Record Content := {
  ct_DetectedMIME : string; ct_Size : Z; ct_CiphertextSize : Z; ct_WrappedDEK : bytes; ct_KEKKeyID : string;
  ct_UploadedAt : Time }.

(** The columns of the scan: its schedule, the versions of the format policy and the
    proof, whose six columns are written together or not at all. *)
Record Scan := {
  sc_attempts : Z; sc_next : option Time; sc_policy_version : Z; sc_scan_version : Z; sc_format : FormatID;
  sc_proof : option Evidence }.

(** The binding of one stored preview object, and one page. *)
Record Binding := {
  bd_ObjectID : string; bd_Size : Z; bd_WrappedDEK : bytes; bd_KEKKeyID : string; bd_EnvelopeVersion : Z;
  bd_KeyWrapVersion : Z }.
Record Page := { pg_binding : Binding; pg_content_type : string }.

Record Preview := {
  pv_status : PreviewStatus; pv_lifecycle : PreviewLifecycleStatus; pv_failure_reason : option string;
  pv_binding : option Binding; pv_page_count : Z; pv_content_type : string; pv_attempts : Z;
  pv_next : option Time; pv_expires_at : option Time }.

Record Row := {
  at_file : File; at_status : Status; at_failure_code : option string; at_content : option Content;
  at_scan : Scan; at_preview : Preview; at_draft_expires_at : option Time; at_deleted_at : option Time;
  at_updated_at : Time }.

(** A row of [object_cleanup_jobs], whose object key is unique. *)
Record Job := { jb_ID : string; jb_attempts : Z; jb_next : Time }.

(** The only row of [signature_policy]. *)
Record SignaturePolicy := {
  sp_enabled : bool; sp_max_age_seconds : option Z; sp_approval_reference : option string }.

(** [message_attachments] keeps, for an attachment, the message it is part of: its
    column [attachment_id] is unique; of [chat.messages] the state is read. *)
Record DB := {
  attachments : gmap string Row; preview_pages : gmap (string * Z) Page; cleanup_jobs : gmap string Job;
  signature_policy : option SignaturePolicy; message_attachments : gmap string string;
  message_status : gmap string string }.

Definition set_attachments (db : DB) (m : gmap string Row) : DB :=
  {| attachments := m; preview_pages := preview_pages db; cleanup_jobs := cleanup_jobs db;
     signature_policy := signature_policy db; message_attachments := message_attachments db;
     message_status := message_status db |}.
Definition set_pages (db : DB) (m : gmap (string * Z) Page) : DB :=
  {| attachments := attachments db; preview_pages := m; cleanup_jobs := cleanup_jobs db;
     signature_policy := signature_policy db; message_attachments := message_attachments db;
     message_status := message_status db |}.
Definition set_jobs (db : DB) (m : gmap string Job) : DB :=
  {| attachments := attachments db; preview_pages := preview_pages db; cleanup_jobs := m;
     signature_policy := signature_policy db; message_attachments := message_attachments db;
     message_status := message_status db |}.
Definition set_links (db : DB) (m : gmap string string) : DB :=
  {| attachments := attachments db; preview_pages := preview_pages db; cleanup_jobs := cleanup_jobs db;
     signature_policy := signature_policy db; message_attachments := m; message_status := message_status db |}.

(** The instants of a transaction: [now()], the clock the triggers read before the
    row is written, and the clock when the transaction commits. *)
Record Tx := { tx_now : Time; tx_clock : Time; tx_commit : Time }.

(** ** What the database does when a row is written *)

Definition pg_error (code : string) : error := ErrStruct "PgError" code 0 (ErrNew "pgconn.PgError").
Definition check_violation : error := pg_error "23514".
Definition unique_violation : error := pg_error "23505".

(** The function [files.require_active_signature_policy]. *)
Definition require_active_signature_policy (policy : option SignaturePolicy) : result Z :=
  match policy with
  | None => Fail (pg_error "NC002")
  | Some p =>
      if negb (sp_enabled p) then Fail (pg_error "NC001")
      else match sp_max_age_seconds p, sp_approval_reference p with
           | Some age, Some reference =>
               if (age <=? 0) || (31536000 <? age) || forallb (λ c, c =? 32) (str_bytes reference) then Fail (pg_error "NC002")
               else Ok age
           | _, _ => Fail (pg_error "NC002")
           end
  end.

(** The function [files.require_fresh_scan], of the triggers [attachments_fresh_scan]
    ([before] is [TG_WHEN = 'BEFORE']) and [attachments_fresh_scan_commit]; [old] is
    absent in an [INSERT]. *)
Definition require_fresh_scan (before : bool) (policy : option SignaturePolicy) (checked_at : Time)
    (old : option Row) (new : Row) : result unit :=
  let updating := match old with Some _ => true | None => false end in
  let proof_changed :=
    match old with Some o => bool_decide (sc_proof (at_scan new) ≠ sc_proof (at_scan o)) | None => true end in
  let was_clean := match old with Some o => bool_decide (at_status o = StatusClean) | None => false end in
  if updating && negb before && was_clean && negb proof_changed then Ok tt
  else if bool_decide (at_status new ≠ StatusClean) then
    if updating && proof_changed then Fail check_violation else Ok tt
  else match policy with
  | None => Fail (pg_error "NC002")
  | Some p =>
      if negb (sp_enabled p) then
        if updating && was_clean && proof_changed then Fail (pg_error "NC001") else Ok tt
      else
        age ← require_active_signature_policy policy;
        match sc_proof (at_scan new) with
        | None => Fail check_violation
        | Some e =>
            if negb (fresh_evidence age checked_at e) then Fail check_violation
            else if before && updating && was_clean &&
              match old with
              | Some o => match sc_proof (at_scan o) with Some e' => CompletedAt e <=? CompletedAt e' | None => false end
              | None => false
              end then Fail (pg_error "NC003")
            else Ok tt
        end
  end.

Definition lifecycle_of (s : PreviewStatus) : PreviewLifecycleStatus :=
  match s with
  | PreviewStatusReady => PreviewLifecycleAvailable
  | PreviewStatusUnsupported => PreviewLifecycleBlocked
  | PreviewStatusFailed => PreviewLifecycleFailed
  | PreviewStatusPending => PreviewLifecyclePending
  end.
Definition status_of (l : PreviewLifecycleStatus) : PreviewStatus :=
  match l with
  | PreviewLifecycleAvailable => PreviewStatusReady
  | PreviewLifecycleBlocked => PreviewStatusUnsupported
  | PreviewLifecycleFailed | PreviewLifecycleExpired => PreviewStatusFailed
  | PreviewLifecyclePending | PreviewLifecycleScanning | PreviewLifecycleGenerating => PreviewStatusPending
  end.

Definition with_lifecycle (p : Preview) (s : PreviewStatus) (l : PreviewLifecycleStatus) (expires : option Time) : Preview :=
  {| pv_status := s; pv_lifecycle := l; pv_failure_reason := pv_failure_reason p; pv_binding := pv_binding p;
     pv_page_count := pv_page_count p; pv_content_type := pv_content_type p; pv_attempts := pv_attempts p;
     pv_next := pv_next p; pv_expires_at := expires |}.

(** The function [files.sync_attachment_preview_lifecycle]. *)
Definition sync_attachment_preview_lifecycle (now : Time) (old : option Preview) (new : Preview) : Preview :=
  let by_status :=
    match old with Some o => bool_decide (pv_status new ≠ pv_status o) | None => true end in
  let l := if by_status then lifecycle_of (pv_status new) else pv_lifecycle new in
  let s := if by_status then pv_status new else status_of (pv_lifecycle new) in
  with_lifecycle new s l
    (if bool_decide (l = PreviewLifecycleAvailable)
     then match pv_expires_at new with None => Some (now + 30 * 24 * Hour) | Some t => Some t end else None).

(** The [CHECK]s of the table that a statement of the service could break. *)
Definition binding_check (b : Binding) : bool :=
  (0 <? bd_Size b) && (1 <=? RuneCount (bd_KEKKeyID b)) && (RuneCount (bd_KEKKeyID b) <=? 64) &&
  (0 <? bd_EnvelopeVersion b) && (bd_KeyWrapVersion b =? 2).
Definition failure_reasons : list string :=
  ["active_content"; "invalid_document"; "unsupported_format"; "timeout"; "conversion_failed"; "output_too_large";
   "render_failed"; "attempts_exhausted"; "expired"].
Definition file_check (f : File) : bool :=
  DestinationKind_Valid (Destination_Kind (at_Destination f)) &&
  (1 <=? Z.of_nat (length (decode_runes 0 (at_Filename f)))) && (Z.of_nat (length (decode_runes 0 (at_Filename f))) <=? 255) &&
  (Z.of_nat (length (decode_runes 0 (at_DeclaredMIME f))) <=? 255) &&
  (0 <? at_EnvelopeVersion f) && (at_KeyWrapVersion f =? 2) &&
  match at_AudioKind f with Some k => k == "voice" | None => true end &&
  match at_DeclaredDurationMs f with Some d => 0 <? d | None => true end.
Definition row_check (r : Row) : bool :=
  let p := at_preview r in
  file_check (at_file r) &&
  match at_failure_code r with Some c => RuneCount c <=? 64 | None => true end &&
  match at_content r with
  | None => bool_decide (at_status r = StatusPendingUpload ∨ at_status r = StatusFailed)
  | Some c => (0 <=? ct_Size c) && (0 <=? ct_CiphertextSize c) && (RuneCount (ct_DetectedMIME c) <=? 255) &&
              (1 <=? RuneCount (ct_KEKKeyID c)) && (RuneCount (ct_KEKKeyID c) <=? 64)
  end &&
  (0 <=? sc_attempts (at_scan r)) && (0 <=? sc_policy_version (at_scan r)) && (0 <=? sc_scan_version (at_scan r)) &&
  (bool_decide (at_status r ≠ StatusClean) || (sc_policy_version (at_scan r) <=? sc_scan_version (at_scan r))) &&
  (0 <=? pv_attempts p) && (1 <=? pv_page_count p) && PreviewContentTypeValid (pv_content_type p) &&
  match pv_binding p with
  | Some b => binding_check b
  | None => bool_decide (pv_status p ≠ PreviewStatusReady)
  end &&
  match pv_failure_reason p with Some reason => reason ∈? failure_reasons | None => true end &&
  (bool_decide (pv_lifecycle p ≠ PreviewLifecycleAvailable) || match pv_expires_at p with Some _ => true | None => false end).

(** The two [UNIQUE] columns: another row has neither the row's storage key nor its
    preview object. *)
Definition object_of (r : Row) : option string := bd_ObjectID <$> pv_binding (at_preview r).
Definition no_clash (id : string) (new : Row) (db : DB) : bool :=
  bool_decide (map_Forall (λ id' r, id' = id ∨
      (at_StorageObjectKey (at_file r) ≠ at_StorageObjectKey (at_file new) ∧
       (object_of r = None ∨ object_of r ≠ object_of new))) (attachments db)).

Definition set_preview (r : Row) (p : Preview) : Row :=
  {| at_file := at_file r; at_status := at_status r; at_failure_code := at_failure_code r; at_content := at_content r;
     at_scan := at_scan r; at_preview := p; at_draft_expires_at := at_draft_expires_at r;
     at_deleted_at := at_deleted_at r; at_updated_at := at_updated_at r |}.

(** Which of the triggers' columns a statement's [SET] names. *)
Record Sets := { sets_scan : bool; sets_preview : bool }.

(** One row written: the triggers [BEFORE] in the order of their names, the checks,
    the uniqueness, and the deferred trigger at the commit of the statement. *)
Definition written (tx : Tx) (sets : Sets) (id : string) (old : option Row) (new : Row) (db : DB) : result Row :=
  _ ← (if sets_scan sets then require_fresh_scan true (signature_policy db) (tx_clock tx) old new else Ok tt);
  let new := if sets_preview sets
             then set_preview new (sync_attachment_preview_lifecycle (tx_now tx) (at_preview <$> old) (at_preview new))
             else new in
  guard! row_check new else check_violation ;;
  guard! no_clash id new db else unique_violation ;;
  _ ← require_fresh_scan false (signature_policy db) (tx_commit tx) old new;
  Ok new.

(** [UPDATE files.attachments SET set WHERE id IN ids], for the rows there are. *)
Fixpoint update (tx : Tx) (sets : Sets) (set : Row → Row) (ids : list string) (db : DB) : result DB :=
  match ids with
  | [] => Ok db
  | id :: ids =>
      match attachments db !! id with
      | None => update tx sets set ids db
      | Some old =>
          new ← written tx sets id (Some old) (set old) db;
          update tx sets set ids (set_attachments db (<[id := new]> (attachments db)))
      end
  end.
Definition update_where (tx : Tx) (sets : Sets) (guard : Row → bool) (set : Row → Row) (id : string) (db : DB)
  : result (Z * DB) :=
  match attachments db !! id with
  | Some r => if guard r then db' ← update tx sets set [id] db; Ok (1, db') else Ok (0, db)
  | None => Ok (0, db)
  end.

(** [INSERT INTO files.object_cleanup_jobs (object_key) ... ON CONFLICT DO NOTHING];
    [new_id] is the identifier each new row draws. *)
Fixpoint enqueue (new_id : string → string) (now : Time) (keys : list string) (db : DB) : result DB :=
  match keys with
  | [] => Ok db
  | key :: keys =>
      guard! (1 <=? RuneCount key) && (RuneCount key <=? 128) else check_violation ;;
      match cleanup_jobs db !! key with
      | Some _ => enqueue new_id now keys db
      | None =>
          enqueue new_id now keys
            (set_jobs db (<[key := {| jb_ID := new_id key; jb_attempts := 0; jb_next := now |}]> (cleanup_jobs db)))
      end
  end.

(** ** Columns written *)

Definition set_status (r : Row) (s : Status) : Row :=
  {| at_file := at_file r; at_status := s; at_failure_code := at_failure_code r; at_content := at_content r;
     at_scan := at_scan r; at_preview := at_preview r; at_draft_expires_at := at_draft_expires_at r;
     at_deleted_at := at_deleted_at r; at_updated_at := at_updated_at r |}.
Definition set_failure (r : Row) (code : option string) : Row :=
  {| at_file := at_file r; at_status := at_status r; at_failure_code := code; at_content := at_content r;
     at_scan := at_scan r; at_preview := at_preview r; at_draft_expires_at := at_draft_expires_at r;
     at_deleted_at := at_deleted_at r; at_updated_at := at_updated_at r |}.
Definition set_content (r : Row) (c : Content) : Row :=
  {| at_file := at_file r; at_status := at_status r; at_failure_code := at_failure_code r; at_content := Some c;
     at_scan := at_scan r; at_preview := at_preview r; at_draft_expires_at := at_draft_expires_at r;
     at_deleted_at := at_deleted_at r; at_updated_at := at_updated_at r |}.
Definition set_scan (r : Row) (sc : Scan) : Row :=
  {| at_file := at_file r; at_status := at_status r; at_failure_code := at_failure_code r; at_content := at_content r;
     at_scan := sc; at_preview := at_preview r; at_draft_expires_at := at_draft_expires_at r;
     at_deleted_at := at_deleted_at r; at_updated_at := at_updated_at r |}.
Definition set_draft (r : Row) (expires : option Time) : Row :=
  {| at_file := at_file r; at_status := at_status r; at_failure_code := at_failure_code r; at_content := at_content r;
     at_scan := at_scan r; at_preview := at_preview r; at_draft_expires_at := expires;
     at_deleted_at := at_deleted_at r; at_updated_at := at_updated_at r |}.
Definition set_deleted (r : Row) (at_ : option Time) : Row :=
  {| at_file := at_file r; at_status := at_status r; at_failure_code := at_failure_code r; at_content := at_content r;
     at_scan := at_scan r; at_preview := at_preview r; at_draft_expires_at := at_draft_expires_at r;
     at_deleted_at := at_; at_updated_at := at_updated_at r |}.
Definition set_updated (r : Row) (now : Time) : Row :=
  {| at_file := at_file r; at_status := at_status r; at_failure_code := at_failure_code r; at_content := at_content r;
     at_scan := at_scan r; at_preview := at_preview r; at_draft_expires_at := at_draft_expires_at r;
     at_deleted_at := at_deleted_at r; at_updated_at := now |}.
Definition with_schedule (sc : Scan) (attempts : Z) (next : option Time) : Scan :=
  {| sc_attempts := attempts; sc_next := next; sc_policy_version := sc_policy_version sc;
     sc_scan_version := sc_scan_version sc; sc_format := sc_format sc; sc_proof := sc_proof sc |}.
Definition with_verdict (sc : Scan) (version : Z) (proof : option Evidence) : Scan :=
  {| sc_attempts := sc_attempts sc; sc_next := None; sc_policy_version := sc_policy_version sc;
     sc_scan_version := version; sc_format := sc_format sc; sc_proof := proof |}.

(** The [CASE]s that conclude a preview no one will render. *)
Definition conclude_pending (p : Preview) : Preview :=
  match pv_status p with
  | PreviewStatusPending =>
      {| pv_status := PreviewStatusUnsupported; pv_lifecycle := pv_lifecycle p; pv_failure_reason := pv_failure_reason p;
         pv_binding := pv_binding p; pv_page_count := pv_page_count p; pv_content_type := pv_content_type p;
         pv_attempts := pv_attempts p; pv_next := None; pv_expires_at := pv_expires_at p |}
  | _ => p
  end.

Definition wrap_err {A} (text : string) (r : result A) : result A :=
  match r with Ok a => Ok a | Fail e => Fail (ErrWrap text e) end.

(** ** Uploads: attachment_store.go *)

Definition pending_row (now : Time) (a : NewAttachment) : Row :=
  {| at_file := {| at_WorkspaceID := na_WorkspaceID a; at_UploaderID := na_UploaderID a;
                   at_Destination := na_Destination a; at_Filename := na_Filename a;
                   at_DeclaredMIME := na_DeclaredMIME a; at_StorageObjectKey := na_StorageObjectKey a;
                   at_EnvelopeVersion := na_EnvelopeVersion a; at_KeyWrapVersion := na_KeyWrapVersion a;
                   at_AudioKind := if na_AudioKind a == "" then None else Some (na_AudioKind a);
                   at_DeclaredDurationMs := if 0 <? na_DeclaredDurationMs a then Some (na_DeclaredDurationMs a) else None;
                   at_CreatedAt := now |};
     at_status := StatusPendingUpload; at_failure_code := None; at_content := None;
     at_scan := {| sc_attempts := 0; sc_next := None; sc_policy_version := na_PolicyVersion a; sc_scan_version := 0;
                   sc_format := NoID; sc_proof := None |};
     at_preview := {| pv_status := PreviewStatusPending; pv_lifecycle := PreviewLifecyclePending;
                      pv_failure_reason := None; pv_binding := None; pv_page_count := 1;
                      pv_content_type := PreviewContentTypeJPEG; pv_attempts := 0; pv_next := None;
                      pv_expires_at := None |};
     at_draft_expires_at := na_DraftExpiresAt a; at_deleted_at := None; at_updated_at := now |}.

Definition CreatePending (tx : Tx) (a : NewAttachment) (db : DB) : result (unit * DB) :=
  guard! 0 <? na_KeyWrapVersion a else ErrWrap "attachment requires a key wrap version" FileDomain.ErrInvalidInput ;;
  guard! DestinationKind_Valid (Destination_Kind (na_Destination a))
    else ErrWrap "invalid destination kind" FileDomain.ErrInvalidInput ;;
  wrap_err "create pending attachment"
    (match attachments db !! na_ID a with
     | Some _ => Fail unique_violation
     | None =>
         row ← written tx {| sets_scan := true; sets_preview := true |} (na_ID a) None (pending_row (tx_now tx) a) db;
         Ok (tt, set_attachments db (<[na_ID a := row]> (attachments db)))
     end).

Definition uploaded_row (now : Time) (u : UploadedAttachment) (r : Row) : Row :=
  let p := at_preview r in
  set_updated (set_content (set_status (set_scan (set_preview r
    {| pv_status := ua_PreviewStatus u; pv_lifecycle := pv_lifecycle p; pv_failure_reason := pv_failure_reason p;
       pv_binding := pv_binding p; pv_page_count := pv_page_count p; pv_content_type := pv_content_type p;
       pv_attempts := pv_attempts p;
       pv_next := if bool_decide (ua_PreviewStatus u = PreviewStatusPending) then Some now else None;
       pv_expires_at := pv_expires_at p |})
    {| sc_attempts := sc_attempts (at_scan r);
       sc_next := if bool_decide (ua_Status u = StatusPendingScan) then Some now else None;
       sc_policy_version := ua_PolicyVersion u;
       sc_scan_version := if bool_decide (ua_Status u = StatusClean) then ua_PolicyVersion u else 0;
       sc_format := ua_FormatID u; sc_proof := sc_proof (at_scan r) |})
    (ua_Status u))
    {| ct_DetectedMIME := ua_DetectedMIME u; ct_Size := ua_Size u; ct_CiphertextSize := ua_CiphertextSize u;
       ct_WrappedDEK := ua_WrappedDEK u; ct_KEKKeyID := ua_KEKKeyID u; ct_UploadedAt := now |}) now.

Definition MarkUploaded (tx : Tx) (u : UploadedAttachment) (db : DB) : result (unit * DB) :=
  guard! negb ((ua_WrappedDEK u == []) || (ua_KEKKeyID u == ""))
    else ErrWrap "attachment cannot be finalised without its key binding" FileDomain.ErrInvalidInput ;;
  guard! (match ua_PreviewStatus u with PreviewStatusPending | PreviewStatusUnsupported => true | _ => false end : bool)
    else ErrWrap "invalid initial preview status" FileDomain.ErrInvalidInput ;;
  '(affected, db') ← wrap_err "mark attachment uploaded"
    (update_where tx {| sets_scan := true; sets_preview := true |} (λ r, bool_decide (at_status r = StatusPendingUpload))
      (uploaded_row (tx_now tx) u) (ua_ID u) db);
  guard! affected =? 1 else ErrWrap "attachment not pending upload" FileDomain.ErrNotFound ;;
  Ok (tt, db').

Definition MarkFailed (tx : Tx) (id failureCode : string) (db : DB) : result (unit * DB) :=
  '(_, db') ← wrap_err "mark attachment failed"
    (update_where tx {| sets_scan := true; sets_preview := false |} (λ r, bool_decide (at_status r = StatusPendingUpload))
      (λ r, set_updated (set_failure (set_status r StatusFailed) (Some failureCode)) (tx_now tx)) id db);
  Ok (tt, db').

(** ** Drafts *)

Definition unlinked (db : DB) (id : string) : bool := bool_decide (message_attachments db !! id = None).

(** The [SET] of both removals of a draft; [at_] is the [deleted_at] they write. *)
Definition removed_draft (now : Time) (at_ : option Time → option Time) (r : Row) : Row :=
  set_updated (set_deleted (set_scan (set_preview r (conclude_pending (at_preview r)))
    (with_schedule (at_scan r) (sc_attempts (at_scan r)) None)) (at_ (at_deleted_at r))) now.
Definition coalesce (now : Time) (t : option Time) : option Time := Some (default now t).
Definition preview_set : Sets := {| sets_scan := false; sets_preview := true |}.

Definition CancelDraft (new_id : string → string) (tx : Tx) (attachmentID uploaderID : string) (db : DB)
  : result (unit * DB) :=
  guard! negb ((attachmentID == "") || (uploaderID == ""))
    else ErrWrap "attachment and uploader are required" FileDomain.ErrInvalidInput ;;
  match attachments db !! attachmentID with
  | Some r =>
      if (at_UploaderID (at_file r) == uploaderID) && match at_draft_expires_at r with Some _ => true | None => false end &&
         unlinked db attachmentID
      then
        wrap_err "cancel attachment draft"
          (db' ← update tx preview_set (removed_draft (tx_now tx) (coalesce (tx_now tx))) [attachmentID] db;
           db'' ← enqueue new_id (tx_now tx) [at_StorageObjectKey (at_file r)] db';
           Ok (tt, db''))
      else Fail FileDomain.ErrNotFound
  | None => Fail FileDomain.ErrNotFound
  end.

(** ** Batches

    [ORDER BY ... LIMIT n FOR UPDATE SKIP LOCKED]: [locked] are the rows another
    transaction holds.  Rows the order leaves equal come by identifier. *)
Section batch.
Context {R : Type} (key : R → Z * Z * Z).
Definition batch_le (x y : string * R) : Prop :=
  let '(a, b, c) := key (snd x) in let '(a', b', c') := key (snd y) in
  a < a' ∨ (a = a' ∧ (b < b' ∨ (b = b' ∧ (c < c' ∨ (c = c' ∧ String.le (fst x) (fst y)))))).
#[export] Instance batch_le_dec : RelDecision batch_le.
Proof. intros x y. unfold batch_le. destruct (key (snd x)) as [ [??] ?], (key (snd y)) as [ [??] ?]. apply _. Defined.
Definition batch (locked : string → bool) (guard : string → R → bool) (limit : Z) (rows : gmap string R) : list string :=
  fst <$> take (Z.to_nat limit)
    (merge_sort batch_le (map_to_list (filter (λ kv, guard (fst kv) (snd kv) && negb (locked (fst kv)) = true) rows))).
End batch.

(** [x NULLS FIRST], as the first two components of an order. *)
Definition nulls_first (t : option Time) : Z * Z := match t with None => (0, 0) | Some t => (1, t) end.
Definition reached (t : option Time) (now : Time) : bool := match t with None => false | Some t => t <=? now end.
Definition due_by (t : option Time) (now : Time) : bool := match t with None => true | Some t => t <=? now end.
Definition live (r : Row) : bool := match at_deleted_at r with None => true | Some _ => false end.

Definition ExpireDrafts (locked : string → bool) (new_id : string → string) (tx : Tx) (limit : Z) (db : DB)
  : result (Z * DB) :=
  guard! negb ((limit <=? 0) || (100 <? limit)) else ErrWrap "invalid expiry batch size" FileDomain.ErrInvalidInput ;;
  let ids := batch (λ r, (1, default 0 (at_draft_expires_at r), 0)) locked
               (λ id r, reached (at_draft_expires_at r) (tx_now tx) && live r && unlinked db id) limit (attachments db) in
  let keys := omap (λ id, (λ r, at_StorageObjectKey (at_file r)) <$> attachments db !! id) ids in
  wrap_err "expire attachment drafts"
    (db' ← update tx preview_set (removed_draft (tx_now tx) (λ _, Some (tx_now tx))) ids db;
     db'' ← enqueue new_id (tx_now tx) keys db';
     Ok (Z.of_nat (length ids), db'')).

(** ** Verdicts and removal *)

Record AttachmentLifecycleState := { ls_Status : Status; ls_PreviewStatus : PreviewStatus; ls_ScanStatusUnchanged : bool }.

Definition ErrSignaturePolicyInactive : error := ErrNew "service.ErrSignaturePolicyInactive".
Definition ErrSignaturePolicyInvalid : error := ErrNew "service.ErrSignaturePolicyInvalid".
Definition ErrScanSuperseded : error := ErrNew "service.ErrScanSuperseded".
Definition ErrScanAlreadyRecorded : error := ErrNew "service.ErrScanAlreadyRecorded".
Definition ErrScanConflict : error := ErrNew "service.ErrScanConflict".

(** The object a row that says [ready] names. *)
Definition published_object (r : Row) : list string :=
  match pv_status (at_preview r), pv_binding (at_preview r) with
  | PreviewStatusReady, Some b => [PreviewObjectKey (bd_ObjectID b)]
  | _, _ => []
  end.

(** One conditional statement on the row [attachmentID] of a workspace: the state it
    leaves, and the keys it queues. *)
Definition lifecycle_statement (new_id : string → string) (tx : Tx) (sets : Sets) (guard : Row → bool) (set : Row → Row)
    (queued : Row → list string) (attachmentID workspaceID notApplicable : string) (db : DB)
  : result (AttachmentLifecycleState * DB) :=
  match attachments db !! attachmentID with
  | Some r =>
      if (at_WorkspaceID (at_file r) == workspaceID) && guard r then
        wrap_err "apply attachment transition"
          (db' ← update tx sets set [attachmentID] db;
           match attachments db' !! attachmentID with
           | Some r' =>
               db'' ← enqueue new_id (tx_now tx) (queued r') db';
               Ok ({| ls_Status := at_status r'; ls_PreviewStatus := pv_status (at_preview r');
                      ls_ScanStatusUnchanged := false |}, db'')
           | None => Fail (ErrNew "no row")
           end)
      else Fail (ErrWrap notApplicable FileDomain.ErrNotFound)
  | None => Fail (ErrWrap notApplicable FileDomain.ErrNotFound)
  end.

Definition rejectable (r : Row) : bool :=
  live r && match at_status r with StatusPendingScan | StatusClean | StatusRejected => true | _ => false end.
Definition rejected_row (now : Time) (r : Row) : Row :=
  set_updated (set_scan (set_preview (set_status r StatusRejected) (conclude_pending (at_preview r)))
    (with_schedule (at_scan r) (sc_attempts (at_scan r)) None)) now.

Definition MarkScanRejected (new_id : string → string) (tx : Tx) (attachmentID workspaceID : string) (db : DB)
  : result (AttachmentLifecycleState * DB) :=
  guard! negb ((attachmentID == "") || (workspaceID == ""))
    else ErrWrap "a scan verdict needs an attachment and its workspace" FileDomain.ErrInvalidInput ;;
  lifecycle_statement new_id tx {| sets_scan := true; sets_preview := true |} rejectable (rejected_row (tx_now tx))
    published_object attachmentID workspaceID "attachment cannot take a scan verdict" db.

Definition approvable (r : Row) : bool :=
  live r && match at_status r with StatusPendingScan | StatusClean => true | _ => false end &&
  (sc_policy_version (at_scan r) <=? FilePolicy.Version).
Definition approved_row (now : Time) (proof : option Evidence) (r : Row) : Row :=
  set_updated (set_scan (set_status r StatusClean) (with_verdict (at_scan r) FilePolicy.Version proof)) now.

Inductive scan_outcome := Applied | Rescanned | Missing | Superseded | AlreadyRecorded | Conflict.

(** The function [files.persist_proven_scan]. *)
Definition persist_proven_scan (tx : Tx) (id workspaceID : string) (e : Evidence) (db : DB)
  : result (option (Status * PreviewStatus) * scan_outcome * DB) :=
  _ ← require_active_signature_policy (signature_policy db);
  match attachments db !! id with
  | Some r =>
      if negb ((at_WorkspaceID (at_file r) == workspaceID) && live r) then Ok (None, Missing, db)
      else if negb (match at_status r with StatusPendingScan | StatusClean => true | _ => false end) then
        Ok (None, Superseded, db)
      else if (sc_policy_version (at_scan r) <=? FilePolicy.Version) &&
        (bool_decide (at_status r ≠ StatusClean) || bool_decide (CompletedAt <$> sc_proof (at_scan r) ≠ Some (CompletedAt e)))
      then
        db' ← update tx {| sets_scan := true; sets_preview := false |} (approved_row (tx_now tx) (Some e)) [id] db;
        match attachments db' !! id with
        | Some r' => Ok (Some (at_status r', pv_status (at_preview r')),
                         if bool_decide (at_status r = StatusClean) then Rescanned else Applied, db')
        | None => Fail (ErrNew "no row")
        end
      else if bool_decide (at_status r = StatusClean) && bool_decide (sc_proof (at_scan r) = Some e) then
        Ok (None, AlreadyRecorded, db)
      else Ok (None, Conflict, db)
  | None => Ok (None, Missing, db)
  end.

Definition signatureWriteError (err : error) : error :=
  match errors_As err "PgError" with
  | Some (code, _) =>
      if code == "NC001" then ErrWrap "nc001" ErrSignaturePolicyInactive
      else if code == "NC002" then ErrWrap "nc002" ErrSignaturePolicyInvalid
      else if code ∈? ["NC003"; "40001"; "40P01"] then ErrWrap "nc003" ErrScanConflict
      else ErrWrap "persist signature approval" err
  | None => ErrWrap "persist signature approval" err
  end.

Definition markProvenClean (tx : Tx) (attachmentID workspaceID : string) (e : Evidence) (db : DB)
  : result (AttachmentLifecycleState * DB) :=
  match persist_proven_scan tx attachmentID workspaceID e db with
  | Fail err => Fail (signatureWriteError err)
  | Ok (Some (s, p), (Applied | Rescanned) as outcome, db') =>
      Ok ({| ls_Status := s; ls_PreviewStatus := p;
             ls_ScanStatusUnchanged := match outcome with Rescanned => true | _ => false end |}, db')
  | Ok (_, Missing, _) => Fail FileDomain.ErrNotFound
  | Ok (_, Superseded, _) => Fail ErrScanSuperseded
  | Ok (_, AlreadyRecorded, _) => Fail ErrScanAlreadyRecorded
  | Ok (_, _, _) => Fail ErrScanConflict
  end.

Definition MarkScanClean (tx : Tx) (attachmentID workspaceID : string) (evidence : option Evidence) (db : DB)
  : result (AttachmentLifecycleState * DB) :=
  match evidence with
  | Some e =>
      guard! negb ((attachmentID == "") || (workspaceID == "")) else FileDomain.ErrInvalidInput ;;
      markProvenClean tx attachmentID workspaceID e db
  | None =>
      guard! negb ((attachmentID == "") || (workspaceID == ""))
        else ErrWrap "a scan verdict needs an attachment and its workspace" FileDomain.ErrInvalidInput ;;
      lifecycle_statement (λ k, k) tx {| sets_scan := true; sets_preview := false |} approvable
        (λ r, approved_row (tx_now tx) (sc_proof (at_scan r)) r) (λ _, [])
        attachmentID workspaceID "attachment cannot take a clean verdict" db
  end.

Definition MarkAttachmentDeleted (new_id : string → string) (tx : Tx) (attachmentID workspaceID : string) (db : DB)
  : result (AttachmentLifecycleState * DB) :=
  guard! negb ((attachmentID == "") || (workspaceID == ""))
    else ErrWrap "a removal needs an attachment and its workspace" FileDomain.ErrInvalidInput ;;
  lifecycle_statement new_id tx preview_set (λ _, true)
    (λ r, set_updated (set_deleted (set_preview r (conclude_pending (at_preview r)))
                        (coalesce (tx_now tx) (at_deleted_at r))) (tx_now tx))
    published_object attachmentID workspaceID "attachment cannot be removed" db.

(** ** Scans: scan_store.go *)

Definition maxScanAttemptsCounter : Z := 32000.
Definition scanBackoffSteps : Z := 8.

Record ScanJob := {
  sj_AttachmentID : string; sj_WorkspaceID : string; sj_Destination : Destination; sj_Size : Z;
  sj_StorageObjectKey : string; sj_EnvelopeVersion : Z; sj_WrappedDEK : bytes; sj_KEKKeyID : string;
  sj_KeyWrapVersion : Z; sj_Attempts : Z; sj_Filename : list Z; sj_DeclaredMIME : list Z; sj_PolicyVersion : Z }.

Definition scan_due (now : Time) (r : Row) : bool :=
  bool_decide (at_status r = StatusPendingScan) && live r &&
  match at_content r with Some _ => true | None => false end && due_by (sc_next (at_scan r)) now.
Definition claimed_scan (now : Time) (lease : Z) (r : Row) : Row :=
  let sc := at_scan r in
  set_updated (set_scan r (with_schedule sc (Z.min (sc_attempts sc + 1) maxScanAttemptsCounter)
    (Some (now + lease * Z.min (sc_attempts sc + 1) scanBackoffSteps * Second)))) now.
Definition scan_job (id : string) (r : Row) : option ScanJob :=
  c ← at_content r;
  Some {| sj_AttachmentID := id; sj_WorkspaceID := at_WorkspaceID (at_file r); sj_Destination := at_Destination (at_file r);
          sj_Size := ct_Size c; sj_StorageObjectKey := at_StorageObjectKey (at_file r);
          sj_EnvelopeVersion := at_EnvelopeVersion (at_file r); sj_WrappedDEK := ct_WrappedDEK c;
          sj_KEKKeyID := ct_KEKKeyID c; sj_KeyWrapVersion := at_KeyWrapVersion (at_file r);
          sj_Attempts := sc_attempts (at_scan r); sj_Filename := at_Filename (at_file r);
          sj_DeclaredMIME := at_DeclaredMIME (at_file r); sj_PolicyVersion := sc_policy_version (at_scan r) |}.

Definition ClaimDueScans (locked : string → bool) (tx : Tx) (batchSize : Z) (lease : Duration) (db : DB)
  : result (list ScanJob * DB) :=
  guard! negb ((batchSize <=? 0) || (lease <=? 0)) else ErrWrap "invalid scan claim parameters" FileDomain.ErrInvalidInput ;;
  let ids := batch (λ r, (nulls_first (sc_next (at_scan r)), at_CreatedAt (at_file r))) locked
               (λ _ r, scan_due (tx_now tx) r) batchSize (attachments db) in
  db' ← wrap_err "claim due scans"
    (update tx {| sets_scan := false; sets_preview := false |} (claimed_scan (tx_now tx) (lease / Second)) ids db);
  Ok (omap (λ id, attachments db' !! id ≫= scan_job id) ids, db').

Definition CountPendingScans (db : DB) : Z :=
  Z.of_nat (size (filter (λ kv, bool_decide (at_status (snd kv) = StatusPendingScan) && live (snd kv) = true) (attachments db))).

(** ** Previews: preview_store.go *)

Definition maxPreviewAttemptsCounter : Z := 32000.

Record PreviewJob := {
  pj_PolicyVersion : Z; pj_FormatID : FormatID; pj_AttachmentID : string; pj_WorkspaceID : string;
  pj_DetectedMIME : string; pj_OriginalFilename : list Z; pj_Size : Z; pj_StorageObjectKey : string;
  pj_EnvelopeVersion : Z; pj_WrappedDEK : bytes; pj_KEKKeyID : string; pj_KeyWrapVersion : Z; pj_Attempts : Z }.

Definition preview_due (now : Time) (r : Row) : bool :=
  bool_decide (pv_status (at_preview r) = PreviewStatusPending) &&
  match pv_lifecycle (at_preview r) with PreviewLifecyclePending | PreviewLifecycleGenerating => true | _ => false end &&
  bool_decide (at_status r = StatusClean) && live r && match at_content r with Some _ => true | None => false end &&
  due_by (pv_next (at_preview r)) now.
Definition claimed_preview (now : Time) (lease : Z) (r : Row) : Row :=
  let p := at_preview r in
  set_updated (set_preview r
    {| pv_status := pv_status p; pv_lifecycle := PreviewLifecycleGenerating; pv_failure_reason := pv_failure_reason p;
       pv_binding := pv_binding p; pv_page_count := pv_page_count p; pv_content_type := pv_content_type p;
       pv_attempts := Z.min (pv_attempts p + 1) maxPreviewAttemptsCounter; pv_next := Some (now + lease * Second);
       pv_expires_at := pv_expires_at p |}) now.
Definition preview_job (id : string) (r : Row) : option PreviewJob :=
  c ← at_content r;
  Some {| pj_PolicyVersion := sc_policy_version (at_scan r); pj_FormatID := sc_format (at_scan r);
          pj_AttachmentID := id; pj_WorkspaceID := at_WorkspaceID (at_file r); pj_DetectedMIME := ct_DetectedMIME c;
          pj_OriginalFilename := at_Filename (at_file r); pj_Size := ct_Size c;
          pj_StorageObjectKey := at_StorageObjectKey (at_file r); pj_EnvelopeVersion := at_EnvelopeVersion (at_file r);
          pj_WrappedDEK := ct_WrappedDEK c; pj_KEKKeyID := ct_KEKKeyID c;
          pj_KeyWrapVersion := at_KeyWrapVersion (at_file r); pj_Attempts := pv_attempts (at_preview r) |}.

Definition ClaimDuePreviews (locked : string → bool) (tx : Tx) (batchSize : Z) (lease : Duration) (db : DB)
  : result (list PreviewJob * DB) :=
  guard! negb ((batchSize <=? 0) || (lease <=? 0)) else ErrWrap "invalid preview claim parameters" FileDomain.ErrInvalidInput ;;
  let ids := batch (λ r, (nulls_first (pv_next (at_preview r)), at_CreatedAt (at_file r))) locked
               (λ _ r, preview_due (tx_now tx) r) batchSize (attachments db) in
  db' ← wrap_err "claim due previews" (update tx preview_set (claimed_preview (tx_now tx) (lease / Second)) ids db);
  Ok (omap (λ id, attachments db' !! id ≫= preview_job id) ids, db').

Definition RevalidateClaim (attachmentID : string) (claimAttempt : Z) (db : DB) : result bool :=
  guard! negb ((attachmentID == "") || (claimAttempt <=? 0))
    else ErrWrap "revalidation needs a claim" FileDomain.ErrInvalidInput ;;
  Ok (match attachments db !! attachmentID with
      | Some r => bool_decide (at_status r = StatusClean) && live r &&
                  bool_decide (pv_status (at_preview r) = PreviewStatusPending) &&
                  (pv_attempts (at_preview r) =? claimAttempt)
      | None => false
      end).

Record PreviewPage := { pp_PageNumber : Z; pp_binding : Binding; pp_ContentType : string }.
Record PreviewResult := {
  pr_AttachmentID : string; pr_ClaimAttempt : Z; pr_binding : Binding; pr_PageCount : Z;
  pr_ExtraPages : list PreviewPage; pr_ContentType : string }.

(** Who may still conclude a claim: the row is being generated under its token. *)
Definition generating (claimAttempt : Z) (r : Row) : bool :=
  bool_decide (pv_status (at_preview r) = PreviewStatusPending) &&
  bool_decide (pv_lifecycle (at_preview r) = PreviewLifecycleGenerating) &&
  (pv_attempts (at_preview r) =? claimAttempt).

Definition ready_row (now : Time) (b : Binding) (pageCount : Z) (contentType : string) (r : Row) : Row :=
  let p := at_preview r in
  set_updated (set_preview r
    {| pv_status := PreviewStatusReady; pv_lifecycle := pv_lifecycle p; pv_failure_reason := pv_failure_reason p;
       pv_binding := Some b; pv_page_count := pageCount; pv_content_type := contentType; pv_attempts := pv_attempts p;
       pv_next := None; pv_expires_at := pv_expires_at p |}) now.

(** The two statements about pages: those of [id] are deleted, then new ones are put. *)
Definition clear_pages (ids : list string) (db : DB) : DB :=
  set_pages db (filter (λ kv, (fst (fst kv) ∈? ids) = false) (preview_pages db)).
Fixpoint insert_pages (id : string) (extra : list PreviewPage) (db : DB) : result DB :=
  match extra with
  | [] => Ok db
  | p :: extra =>
      guard! (2 <=? pp_PageNumber p) && binding_check (pp_binding p) && PreviewContentTypeValid (pp_ContentType p)
        else check_violation ;;
      guard! bool_decide (preview_pages db !! (id, pp_PageNumber p) = None) &&
             bool_decide (map_Forall (λ _ q, bd_ObjectID (pg_binding q) ≠ bd_ObjectID (pp_binding p)) (preview_pages db))
        else unique_violation ;;
      insert_pages id extra (set_pages db
        (<[(id, pp_PageNumber p) := {| pg_binding := pp_binding p; pg_content_type := pp_ContentType p |}]> (preview_pages db)))
  end.

Definition or_jpeg (t : string) : string := if t == "" then PreviewContentTypeJPEG else t.
Definition int16 (z : Z) : Z := (z + 2 ^ 15) mod 2 ^ 16 - 2 ^ 15.
Definition stored_page (p : PreviewPage) : PreviewPage :=
  {| pp_PageNumber := int16 (pp_PageNumber p);
     pp_binding := {| bd_ObjectID := bd_ObjectID (pp_binding p); bd_Size := bd_Size (pp_binding p);
                      bd_WrappedDEK := bd_WrappedDEK (pp_binding p); bd_KEKKeyID := bd_KEKKeyID (pp_binding p);
                      bd_EnvelopeVersion := int16 (bd_EnvelopeVersion (pp_binding p));
                      bd_KeyWrapVersion := int16 (bd_KeyWrapVersion (pp_binding p)) |};
     pp_ContentType := or_jpeg (pp_ContentType p) |}.

Definition MarkPreviewReady (tx : Tx) (res : PreviewResult) (db : DB) : result (bool * DB) :=
  let b := pr_binding res in
  guard! negb ((bd_ObjectID b == "") || (bd_Size b <=? 0) || (bd_WrappedDEK b == []) || (bd_KEKKeyID b == ""))
    else ErrWrap "preview cannot be recorded without its key binding" FileDomain.ErrInvalidInput ;;
  guard! 0 <? pr_ClaimAttempt res else ErrWrap "a preview needs its claim" FileDomain.ErrInvalidInput ;;
  let pageCount := if pr_PageCount res <=? 0 then 1 else pr_PageCount res in
  let contentType := or_jpeg (pr_ContentType res) in
  guard! PreviewContentTypeValid contentType else ErrWrap "unknown preview content type" FileDomain.ErrInvalidInput ;;
  wrap_err "mark preview ready"
    ('(count, db') ← update_where tx preview_set
       (λ r, generating (pr_ClaimAttempt res) r && bool_decide (at_status r = StatusClean) && live r)
       (ready_row (tx_now tx) b pageCount contentType) (pr_AttachmentID res) db;
     if count =? 1 then
       db'' ← insert_pages (pr_AttachmentID res) (stored_page <$> pr_ExtraPages res) (clear_pages [pr_AttachmentID res] db');
       Ok (true, db'')
     else Ok (false, db')).

Definition terminal_row (now : Time) (status : PreviewStatus) (r : Row) : Row :=
  let p := at_preview r in
  let unsupported := bool_decide (status = PreviewStatusUnsupported) in
  set_updated (set_preview r
    {| pv_status := status;
       pv_lifecycle := if unsupported then PreviewLifecycleBlocked else PreviewLifecycleFailed;
       pv_failure_reason := Some (if unsupported then "unsupported_format" else "render_failed");
       pv_binding := pv_binding p; pv_page_count := pv_page_count p; pv_content_type := pv_content_type p;
       pv_attempts := pv_attempts p; pv_next := None; pv_expires_at := pv_expires_at p |}) now.

Definition MarkPreviewTerminal (tx : Tx) (attachmentID : string) (claimAttempt : Z) (status : PreviewStatus) (db : DB)
  : result (bool * DB) :=
  guard! (match status with PreviewStatusUnsupported | PreviewStatusFailed => true | _ => false end : bool)
    else ErrWrap "invalid terminal preview status" FileDomain.ErrInvalidInput ;;
  guard! 0 <? claimAttempt else ErrWrap "a terminal state needs its claim" FileDomain.ErrInvalidInput ;;
  '(affected, db') ← wrap_err "mark preview terminal"
    (update_where tx preview_set (generating claimAttempt) (terminal_row (tx_now tx) status) attachmentID db);
  Ok (affected =? 1, db').

Definition previewRegenerationCooldown : Duration := 24 * Hour.
Definition regenerable (now : Time) (r : Row) : bool :=
  live r && bool_decide (at_status r = StatusClean) &&
  (bool_decide (pv_lifecycle (at_preview r) = PreviewLifecycleExpired) ||
   (bool_decide (pv_lifecycle (at_preview r) = PreviewLifecycleFailed) &&
    (at_updated_at r <=? now - previewRegenerationCooldown))).
Definition regenerated_row (now : Time) (r : Row) : Row :=
  let p := at_preview r in
  set_updated (set_preview r
    {| pv_status := pv_status p; pv_lifecycle := PreviewLifecyclePending; pv_failure_reason := None;
       pv_binding := pv_binding p; pv_page_count := pv_page_count p; pv_content_type := pv_content_type p;
       pv_attempts := 0; pv_next := Some now; pv_expires_at := pv_expires_at p |}) now.

(** The two [EXISTS] read the statement's snapshot: the second is about the row as it
    was before the update. *)
Definition RegenerateDocumentPreview (tx : Tx) (attachmentID : string) (db : DB) : result (unit * DB) :=
  '(affected, db') ← wrap_err "regenerate document preview"
    (update_where tx preview_set (regenerable (tx_now tx)) (regenerated_row (tx_now tx)) attachmentID db);
  let already := match attachments db !! attachmentID with
                 | Some r => live r && bool_decide (at_status r = StatusClean) &&
                             bool_decide (pv_lifecycle (at_preview r) = PreviewLifecyclePending)
                 | None => false
                 end in
  guard! (affected =? 1) || already else FileDomain.ErrPreviewUnavailable ;;
  Ok (tt, db').

(** ** Objects to remove: object_cleanup_store.go *)

Record ObjectCleanupJob := { oj_ID : string; oj_ObjectKey : string; oj_Attempts : Z }.

Definition Enqueue (new_id : string → string) (now : Time) (objectKey : string) (db : DB) : result (unit * DB) :=
  guard! negb (objectKey == "") else ErrWrap "a cleanup job needs an object key" FileDomain.ErrInvalidInput ;;
  db' ← wrap_err "enqueue object cleanup" (enqueue new_id now [objectKey] db);
  Ok (tt, db').

Definition preview_expired (now : Time) (r : Row) : bool :=
  bool_decide (pv_lifecycle (at_preview r) = PreviewLifecycleAvailable) &&
  reached (pv_expires_at (at_preview r)) now && live r.
Definition expired_row (now : Time) (r : Row) : Row :=
  let p := at_preview r in
  set_updated (set_preview r
    {| pv_status := pv_status p; pv_lifecycle := PreviewLifecycleExpired; pv_failure_reason := Some "expired";
       pv_binding := None; pv_page_count := 1; pv_content_type := PreviewContentTypeJPEG; pv_attempts := pv_attempts p;
       pv_next := pv_next p; pv_expires_at := None |}) now.

(** The keys of page one and of the other pages of the rows [ids]. *)
Definition preview_keys (ids : list string) (db : DB) : list string :=
  (ids ≫= λ id, match attachments db !! id ≫= object_of with Some o => [PreviewObjectKey o] | None => [] end) ++
  ((λ kv, PreviewObjectKey (bd_ObjectID (pg_binding (snd kv)))) <$>
     map_to_list (filter (λ kv, (fst (fst kv) ∈? ids) = true) (preview_pages db))).

Definition ExpireDuePreviews (locked : string → bool) (new_id : string → string) (tx : Tx) (limit : Z) (db : DB)
  : result (Z * DB) :=
  guard! 0 <? limit else ErrWrap "expiry limit must be positive" FileDomain.ErrInvalidInput ;;
  let ids := batch (λ r, (1, default 0 (pv_expires_at (at_preview r)), 0)) locked
               (λ _ r, preview_expired (tx_now tx) r) limit (attachments db) in
  wrap_err "expire document previews"
    (db1 ← enqueue new_id (tx_now tx) (preview_keys ids db) db;
     db2 ← update tx preview_set (expired_row (tx_now tx)) ids (clear_pages ids db1);
     Ok (Z.of_nat (length ids), db2)).

(** A job is claimed by its object key, the name its row has. *)
Definition claimed_job (now : Time) (lease : Z) (j : Job) : Job :=
  {| jb_ID := jb_ID j; jb_attempts := Z.min (jb_attempts j + 1) maxPreviewAttemptsCounter;
     jb_next := now + lease * Second |}.
Definition ClaimDueCleanups (locked : string → bool) (now : Time) (batchSize : Z) (lease : Duration) (db : DB)
  : result (list ObjectCleanupJob * DB) :=
  guard! negb ((batchSize <=? 0) || (lease <=? 0)) else ErrWrap "invalid cleanup claim parameters" FileDomain.ErrInvalidInput ;;
  let keys := batch (λ j, (1, jb_next j, 0)) locked (λ _ j, jb_next j <=? now) batchSize (cleanup_jobs db) in
  let jobs := map_imap (λ k j, Some (if k ∈? keys then claimed_job now (lease / Second) j else j)) (cleanup_jobs db) in
  Ok (omap (λ k, (λ j, {| oj_ID := jb_ID j; oj_ObjectKey := k; oj_Attempts := jb_attempts j |}) <$> jobs !! k) keys,
      set_jobs db jobs).

Definition Complete (jobID : string) (claimAttempt : Z) (db : DB) : result (bool * DB) :=
  guard! negb ((jobID == "") || (claimAttempt <=? 0)) else ErrWrap "completing a cleanup needs its claim" FileDomain.ErrInvalidInput ;;
  let mine := λ kv : string * Job, ((jb_ID (snd kv) == jobID) && (jb_attempts (snd kv) =? claimAttempt)) in
  Ok (bool_decide (filter (λ kv, mine kv = true) (cleanup_jobs db) ≠ ∅),
      set_jobs db (filter (λ kv, mine kv = false) (cleanup_jobs db))).

(** What the delivery gate would still serve from the row. *)
Definition servable (r : Row) : bool :=
  bool_decide (pv_status (at_preview r) = PreviewStatusReady) && bool_decide (at_status r = StatusClean) && live r.
Definition IsObjectReferenced (objectKey : string) (db : DB) : bool :=
  bool_decide (map_Exists (λ _ r, servable r = true ∧ PreviewObjectKey <$> object_of r = Some objectKey) (attachments db)).

(** ** Publication: chat-service, [createMessageQuery]

    The message's destination is one of the two; [ids] are the attachments the sender
    names, in order.  [None] is the row of [invalid_attachments], which stops the
    message. *)
Record Linking := {
  lk_MessageID : string; lk_WorkspaceID : string; lk_Destination : Destination; lk_SenderID : string;
  lk_AttachmentIDs : list string; lk_MaxBytes : Z }.

Definition authorized_attachment (lk : Linking) (db : DB) (id : string) : bool :=
  match attachments db !! id with
  | Some r =>
      (at_WorkspaceID (at_file r) == lk_WorkspaceID lk) && bool_decide (at_Destination (at_file r) = lk_Destination lk) &&
      (at_UploaderID (at_file r) == lk_SenderID lk) &&
      match at_status r with StatusPendingScan | StatusClean => true | _ => false end && live r && unlinked db id
  | None => false
  end.
Definition size_of (db : DB) (id : string) : Z :=
  match attachments db !! id ≫= at_content with Some c => ct_Size c | None => 0 end.
Definition total_size (db : DB) (ids : list string) : Z := foldr (λ id n, size_of db id + n) 0 ids.

Definition link_attachments (tx : Tx) (lk : Linking) (db : DB) : option (result DB) :=
  if negb (forallb (authorized_attachment lk db) (lk_AttachmentIDs lk)) ||
     (lk_MaxBytes lk <? total_size db (lk_AttachmentIDs lk)) then None
  else Some
    (guard! bool_decide (NoDup (lk_AttachmentIDs lk)) else unique_violation ;;
     update tx {| sets_scan := false; sets_preview := false |} (λ r, set_updated (set_draft r None) (tx_now tx))
       (lk_AttachmentIDs lk)
       (set_links db (foldr (λ id m, <[id := lk_MessageID lk]> m) (message_attachments db) (lk_AttachmentIDs lk)))).

(** ** Reads *)

(** The rows a reader can be shown at all: not removed, and not part of a message that
    is no longer active. *)
Definition not_withdrawn (db : DB) (id : string) : bool :=
  match message_attachments db !! id with
  | None => true
  | Some m => match message_status db !! m with None => true | Some s => s == "active" end
  end.

Definition GetPreviewPage (attachmentID : string) (page : Z) (db : DB) : result PreviewPage :=
  match preview_pages db !! (attachmentID, page) with
  | None => Fail FileDomain.ErrNotFound
  | Some p => Ok {| pp_PageNumber := page; pp_binding := pg_binding p; pp_ContentType := pg_content_type p |}
  end.

Record ListDestinationAttachmentsQuery := {
  lq_WorkspaceID : string; lq_Destination : Destination; lq_Limit : Z; lq_Before : option AttachmentListCursor }.
Record ListedAttachment := {
  la_ID : string; la_Status : Status; la_PreviewStatus : PreviewStatus; la_Filename : list Z;
  la_DetectedMIME : string; la_Size : Z; la_CreatedAt : Time; la_AudioKind : string; la_DeclaredDurationMs : Z }.
Record ListedAttachmentPage := { lp_Attachments : list ListedAttachment; lp_Next : option AttachmentListCursor }.

Definition all_domain_statuses : list Status :=
  [StatusPendingUpload; StatusPendingScan; StatusClean; StatusRejected; StatusFailed; StatusDeleted].
Definition listableStatuses : list Status := List.filter Listable all_domain_statuses.

Definition listed (id : string) (r : Row) : ListedAttachment :=
  {| la_ID := id; la_Status := at_status r; la_PreviewStatus := pv_status (at_preview r);
     la_Filename := at_Filename (at_file r);
     la_DetectedMIME := match at_content r with Some c => ct_DetectedMIME c | None => "" end;
     la_Size := match at_content r with Some c => ct_Size c | None => 0 end;
     la_CreatedAt := at_CreatedAt (at_file r); la_AudioKind := default "" (at_AudioKind (at_file r));
     la_DeclaredDurationMs := default 0 (at_DeclaredDurationMs (at_file r)) |}.

(** [(a.created_at, a.id) < (c.created_at, c.id)], and [ORDER BY a.created_at DESC,
    a.id DESC]. *)
Definition before (x y : Time * string) : Prop :=
  fst x < fst y ∨ (fst x = fst y ∧ String.le (snd x) (snd y) ∧ snd x ≠ snd y).
#[export] Instance before_dec : RelDecision before.
Proof. intros x y. unfold before. apply _. Defined.
Definition stamp (l : ListedAttachment) : Time * string := (la_CreatedAt l, la_ID l).
Definition newest_first (x y : ListedAttachment) : Prop := stamp x = stamp y ∨ before (stamp y) (stamp x).
#[export] Instance newest_first_dec : RelDecision newest_first.
Proof. intros x y. unfold newest_first. apply _. Defined.

Definition listable_row (q : ListDestinationAttachmentsQuery) (db : DB) (id : string) (r : Row) : bool :=
  bool_decide (at_Destination (at_file r) = lq_Destination q) && live r &&
  (at_WorkspaceID (at_file r) == lq_WorkspaceID q) && (at_status r ∈? listableStatuses) && not_withdrawn db id &&
  match lq_Before q with
  | None => true
  | Some c => bool_decide (before (at_CreatedAt (at_file r), id) (ac_CreatedAt c, ac_ID c))
  end.

Definition listedPage (rows : list ListedAttachment) (limit : Z) : ListedAttachmentPage :=
  if Z.of_nat (length rows) <=? limit then {| lp_Attachments := rows; lp_Next := None |}
  else
    let rows := take (Z.to_nat limit) rows in
    {| lp_Attachments := rows;
       lp_Next := (λ l, {| ac_CreatedAt := la_CreatedAt l; ac_ID := la_ID l |}) <$> last rows |}.

Definition ListDestinationAttachments (q : ListDestinationAttachmentsQuery) (db : DB) : result ListedAttachmentPage :=
  guard! DestinationKind_Valid (Destination_Kind (lq_Destination q))
    else ErrWrap "invalid destination kind" FileDomain.ErrInvalidInput ;;
  let limit := NormalizeAttachmentListLimit (lq_Limit q) in
  let matching := filter (λ kv, listable_row q db (fst kv) (snd kv) = true) (attachments db) in
  let rows := take (Z.to_nat (limit + 1)) (merge_sort newest_first ((λ kv, listed (fst kv) (snd kv)) <$> map_to_list matching)) in
  Ok (listedPage rows limit).
