(* ===== verification/AttachmentRows.v ===== *)
(** * What a stored file's row can become

    The statements of [Attachments] as one transition system: every request the
    services send, what it does to each row, and the invariants: the row's states
    only move the way the domain allows, its identity and its stored content are
    fixed, a removal and a rejection are final, and an approval is backed by a
    fresh proof wherever the database asks for one. *)

From stdpp Require Import prelude gmap strings sorting.
From Stdlib Require Import ZArith Lia.
From S2P Require Import Prelude GoStrings Utf8 FilePolicy FileDomain Envelope Uploads Signatures Attachments.
Local Open Scope Z_scope.

(** ** The requests *)

Inductive request :=
| ReqCreatePending (a : NewAttachment)
| ReqMarkUploaded (u : UploadedAttachment)
| ReqMarkFailed (id code : string)
| ReqCancelDraft (id uploaderID : string)
| ReqExpireDrafts (limit : Z)
| ReqMarkScanRejected (id workspaceID : string)
| ReqMarkScanClean (id workspaceID : string) (evidence : option Evidence)
| ReqMarkAttachmentDeleted (id workspaceID : string)
| ReqClaimDueScans (batchSize : Z) (lease : Duration)
| ReqClaimDuePreviews (batchSize : Z) (lease : Duration)
| ReqMarkPreviewReady (res : PreviewResult)
| ReqMarkPreviewTerminal (id : string) (claimAttempt : Z) (status : PreviewStatus)
| ReqRegenerate (id : string)
| ReqEnqueue (key : string)
| ReqExpireDuePreviews (limit : Z)
| ReqClaimDueCleanups (batchSize : Z) (lease : Duration)
| ReqComplete (jobID : string) (claimAttempt : Z)
| ReqLink (lk : Linking)
| ReqMessage (id status : string)
| ReqPolicy (p : option SignaturePolicy).

(** What a transaction of the database is given: the rows others hold, the identifiers
    new jobs draw, and its instants. *)
Record Given := { g_locked : string → bool; g_new_id : string → string; g_tx : Tx }.

Definition state_of {A} (r : result (A * DB)) : option DB := match r with Ok (_, db) => Some db | Fail _ => None end.

Definition set_message (id status : string) (db : DB) : DB :=
  {| attachments := attachments db; preview_pages := preview_pages db; cleanup_jobs := cleanup_jobs db;
     signature_policy := signature_policy db; message_attachments := message_attachments db;
     message_status := <[id := status]> (message_status db) |}.
Definition set_policy (p : option SignaturePolicy) (db : DB) : DB :=
  {| attachments := attachments db; preview_pages := preview_pages db; cleanup_jobs := cleanup_jobs db;
     signature_policy := p; message_attachments := message_attachments db; message_status := message_status db |}.

(** The state a request leaves; [None] when its statement is refused and rolled back. *)
Definition perform (g : Given) (req : request) (db : DB) : option DB :=
  match req with
  | ReqCreatePending a => state_of (CreatePending (g_tx g) a db)
  | ReqMarkUploaded u => state_of (MarkUploaded (g_tx g) u db)
  | ReqMarkFailed id code => state_of (MarkFailed (g_tx g) id code db)
  | ReqCancelDraft id uploaderID => state_of (CancelDraft (g_new_id g) (g_tx g) id uploaderID db)
  | ReqExpireDrafts limit => state_of (ExpireDrafts (g_locked g) (g_new_id g) (g_tx g) limit db)
  | ReqMarkScanRejected id ws => state_of (MarkScanRejected (g_new_id g) (g_tx g) id ws db)
  | ReqMarkScanClean id ws evidence => state_of (MarkScanClean (g_tx g) id ws evidence db)
  | ReqMarkAttachmentDeleted id ws => state_of (MarkAttachmentDeleted (g_new_id g) (g_tx g) id ws db)
  | ReqClaimDueScans n lease => state_of (ClaimDueScans (g_locked g) (g_tx g) n lease db)
  | ReqClaimDuePreviews n lease => state_of (ClaimDuePreviews (g_locked g) (g_tx g) n lease db)
  | ReqMarkPreviewReady res => state_of (MarkPreviewReady (g_tx g) res db)
  | ReqMarkPreviewTerminal id attempt status => state_of (MarkPreviewTerminal (g_tx g) id attempt status db)
  | ReqRegenerate id => state_of (RegenerateDocumentPreview (g_tx g) id db)
  | ReqEnqueue key => state_of (Enqueue (g_new_id g) (tx_now (g_tx g)) key db)
  | ReqExpireDuePreviews limit => state_of (ExpireDuePreviews (g_locked g) (g_new_id g) (g_tx g) limit db)
  | ReqClaimDueCleanups n lease => state_of (ClaimDueCleanups (g_locked g) (tx_now (g_tx g)) n lease db)
  | ReqComplete id attempt => state_of (Complete id attempt db)
  | ReqLink lk => match link_attachments (g_tx g) lk db with Some (Ok db') => Some db' | _ => None end
  | ReqMessage id status => Some (set_message id status db)
  | ReqPolicy p => Some (set_policy p db)
  end.

(** An upload ends [pending_scan], or [clean] where no scan is required. *)
Definition sensible (req : request) : Prop :=
  match req with
  | ReqMarkUploaded u => ua_Status u = StatusPendingScan ∨ ua_Status u = StatusClean
  | _ => True
  end.

(** ** The effect of an update *)

Definition synced (tx : Tx) (sets : Sets) (old : option Row) (new : Row) : Row :=
  if sets_preview sets
  then set_preview new (sync_attachment_preview_lifecycle (tx_now tx) (at_preview <$> old) (at_preview new)) else new.

Definition accepted (tx : Tx) (sets : Sets) (policy : option SignaturePolicy) (old : option Row) (new : Row) : Prop :=
  row_check (synced tx sets old new) = true ∧
  (sets_scan sets = true → require_fresh_scan true policy (tx_clock tx) old new = Ok ()) ∧
  require_fresh_scan false policy (tx_commit tx) old (synced tx sets old new) = Ok ().

Lemma written_Ok tx sets id old new db r : written tx sets id old new db = Ok r ↔
  r = synced tx sets old new ∧ accepted tx sets (signature_policy db) old new ∧ no_clash id r db = true.
Proof.
  unfold written, accepted. fold (synced tx sets old new). rewrite bind_Ok. split.
  - intros (u & Hu & H). cbn zeta in H. fold (synced tx sets old new) in H.
    rewrite !guard_Ok, bind_Ok in H. destruct H as (Hc & Hn & ([] & Hf & [= <-])).
    split_and!; try done. intros Hs. rewrite Hs in Hu. by destruct u.
  - intros (-> & (Hc & Hs & Hf) & Hn). exists (). split; [destruct (sets_scan sets); auto|].
    cbn zeta. fold (synced tx sets old new). rewrite !guard_Ok, bind_Ok. eauto.
Qed.

(** The rest of the database. *)
Definition same_frame (db db' : DB) : Prop :=
  preview_pages db' = preview_pages db ∧ cleanup_jobs db' = cleanup_jobs db ∧
  signature_policy db' = signature_policy db ∧ message_attachments db' = message_attachments db ∧
  message_status db' = message_status db.

Lemma row_update_Ok tx sets f ids db db' : NoDup ids → update tx sets f ids db = Ok db' →
  same_frame db db' ∧
  ∀ id, attachments db' !! id =
    (λ r, if bool_decide (id ∈ ids) then synced tx sets (Some r) (f r) else r) <$> attachments db !! id.
Proof.
  revert db. induction ids as [|i ids IH]; intros db Hnd Hu; cbn [update] in Hu.
  - injection Hu as <-. split; [repeat split|]. intros id. by destruct (attachments db !! id).
  - apply NoDup_cons in Hnd as [Hi Hnd]. destruct (attachments db !! i) as [old|] eqn:Hold.
    + apply bind_Ok in Hu as (new & (-> & Ha & Hc)%written_Ok & Hu). apply IH in Hu as [Hf Hl]; [|done].
      split; [done|]. intros id. rewrite Hl. cbn [attachments set_attachments].
      destruct (decide (id = i)) as [->|Hne].
      * rewrite lookup_insert_eq, Hold. simpl. rewrite bool_decide_eq_false_2 by done.
        by rewrite bool_decide_eq_true_2 by constructor.
      * rewrite lookup_insert_ne by done. destruct (attachments db !! id); [|done]. simpl. f_equal.
        by apply (f_equal (λ b : bool, if b then _ else _)), bool_decide_ext; rewrite elem_of_cons; naive_solver.
    + apply IH in Hu as [Hf Hl]; [|done]. split; [done|]. intros id. rewrite Hl.
      destruct (decide (id = i)) as [->|Hne]; [by rewrite Hold|]. destruct (attachments db !! id); [|done]. simpl. f_equal.
      by apply (f_equal (λ b : bool, if b then _ else _)), bool_decide_ext; rewrite elem_of_cons; naive_solver.
Qed.

Lemma update_accepted tx sets f ids db db' id r : NoDup ids → update tx sets f ids db = Ok db' →
  id ∈ ids → attachments db !! id = Some r →
  accepted tx sets (signature_policy db) (Some r) (f r).
Proof.
  revert db. induction ids as [|i ids IH]; intros db Hnd Hu Hid Hr; [by apply not_elem_of_nil in Hid|].
  cbn [update] in Hu. apply NoDup_cons in Hnd as [Hi Hnd]. apply elem_of_cons in Hid as [->|Hid].
  - rewrite Hr in Hu. apply bind_Ok in Hu as (new & (_ & Ha & _)%written_Ok & _). done.
  - destruct (attachments db !! i) as [old|] eqn:Hold; [|by eapply IH].
    apply bind_Ok in Hu as (new & _ & Hu). change (signature_policy db) with (signature_policy (set_attachments db (<[i:=new]> (attachments db)))).
    eapply IH; [done..|]. cbn [attachments set_attachments]. rewrite lookup_insert_ne; [done|]. intros ->. done.
Qed.

(** The statements about the other tables leave the rows alone. *)
Lemma enqueue_frame new_id now keys db db' : enqueue new_id now keys db = Ok db' →
  attachments db' = attachments db ∧ preview_pages db' = preview_pages db ∧ signature_policy db' = signature_policy db ∧
  message_attachments db' = message_attachments db ∧ message_status db' = message_status db.
Proof.
  revert db. induction keys as [|k keys IH]; intros db; cbn [enqueue]; [by intros [= <-]|].
  intros [_ H]%guard_Ok. destruct (cleanup_jobs db !! k); by apply IH in H.
Qed.

Lemma enqueue_jobs new_id now keys db db' k : enqueue new_id now keys db = Ok db' →
  cleanup_jobs db' !! k =
    match cleanup_jobs db !! k with
    | Some j => Some j
    | None => if bool_decide (k ∈ keys) then Some {| jb_ID := new_id k; jb_attempts := 0; jb_next := now |} else None
    end.
Proof.
  revert db. induction keys as [|k' keys IH]; intros db; cbn [enqueue].
  - intros [= <-]. by destruct (cleanup_jobs db !! k).
  - intros [_ H]%guard_Ok. destruct (cleanup_jobs db !! k') eqn:Hk'.
    + rewrite (IH _ H). destruct (cleanup_jobs db !! k) eqn:Hk; [done|].
      erewrite bool_decide_ext; [done|]. rewrite elem_of_cons. split; [by right|]. intros [->|?]; [congruence|done].
    + rewrite (IH _ H). cbn [cleanup_jobs set_jobs]. destruct (decide (k = k')) as [->|Hne].
      * by rewrite lookup_insert_eq, Hk', bool_decide_eq_true_2 by constructor.
      * rewrite lookup_insert_ne by done. destruct (cleanup_jobs db !! k); [done|].
        erewrite bool_decide_ext; [done|]. rewrite elem_of_cons. naive_solver.
Qed.

Lemma insert_pages_frame id extra db db' : insert_pages id extra db = Ok db' →
  attachments db' = attachments db ∧ cleanup_jobs db' = cleanup_jobs db ∧ signature_policy db' = signature_policy db ∧
  message_attachments db' = message_attachments db ∧ message_status db' = message_status db.
Proof.
  revert db. induction extra as [|p extra IH]; intros db; cbn [insert_pages]; [by intros [= <-]|].
  intros [_ [_ H]%guard_Ok]%guard_Ok. by apply IH in H.
Qed.

Lemma elem_of_batch {R : Type} key locked guard limit (rows : gmap string R) id :
  id ∈ batch key locked guard limit rows → ∃ r, rows !! id = Some r ∧ guard id r = true ∧ locked id = false.
Proof.
  unfold batch. intros ([i r] & -> & Hin)%list_elem_of_fmap. apply elem_of_take in Hin as (n & Hn & _).
  apply list_elem_of_lookup_2 in Hn. rewrite merge_sort_Permutation in Hn. apply elem_of_map_to_list in Hn.
  apply map_lookup_filter_Some in Hn as [Hr Hg]. cbn [fst snd] in *.
  apply andb_true_iff in Hg as [Hg Hl]. apply negb_true_iff in Hl. eauto.
Qed.

Lemma NoDup_batch {R : Type} key locked guard limit (rows : gmap string R) : NoDup (batch key locked guard limit rows).
Proof.
  unfold batch. rewrite fmap_take. eapply sublist_NoDup; [|apply sublist_take].
  rewrite merge_sort_Permutation. apply NoDup_fst_map_to_list.
Qed.

Lemma wrap_err_Ok {A} text (r : result A) a : wrap_err text r = Ok a ↔ r = Ok a.
Proof. destruct r; naive_solver. Qed.

(** ** What a request does to a row *)

Definition both_set : Sets := {| sets_scan := true; sets_preview := true |}.
Definition scan_set : Sets := {| sets_scan := true; sets_preview := false |}.
Definition no_set : Sets := {| sets_scan := false; sets_preview := false |}.

(** The [WHERE] and the [SET] of a request, on one row. *)
Definition change (g : Given) (req : request) (r : Row) : option (Sets * (Row → Row)) :=
  let now := tx_now (g_tx g) in
  match req with
  | ReqMarkUploaded u =>
      if bool_decide (at_status r = StatusPendingUpload) &&
         match ua_PreviewStatus u with PreviewStatusPending | PreviewStatusUnsupported => true | _ => false end
      then Some (both_set, uploaded_row now u) else None
  | ReqMarkFailed _ code =>
      if bool_decide (at_status r = StatusPendingUpload)
      then Some (scan_set, λ r, set_updated (set_failure (set_status r StatusFailed) (Some code)) now) else None
  | ReqCancelDraft _ _ => Some (preview_set, removed_draft now (coalesce now))
  | ReqExpireDrafts _ => if live r then Some (preview_set, removed_draft now (λ _, Some now)) else None
  | ReqMarkScanRejected _ _ => if rejectable r then Some (both_set, rejected_row now) else None
  | ReqMarkScanClean _ _ None =>
      if approvable r then Some (scan_set, λ r, approved_row now (sc_proof (at_scan r)) r) else None
  | ReqMarkScanClean _ _ (Some e) => if approvable r then Some (scan_set, approved_row now (Some e)) else None
  | ReqMarkAttachmentDeleted _ _ =>
      Some (preview_set, λ r, set_updated (set_deleted (set_preview r (conclude_pending (at_preview r)))
                                             (coalesce now (at_deleted_at r))) now)
  | ReqClaimDueScans _ lease => if scan_due now r then Some (no_set, claimed_scan now (lease / Second)) else None
  | ReqClaimDuePreviews _ lease => if preview_due now r then Some (preview_set, claimed_preview now (lease / Second)) else None
  | ReqMarkPreviewReady res =>
      if generating (pr_ClaimAttempt res) r && bool_decide (at_status r = StatusClean) && live r
      then Some (preview_set, ready_row now (pr_binding res) (if pr_PageCount res <=? 0 then 1 else pr_PageCount res)
                                (or_jpeg (pr_ContentType res))) else None
  | ReqMarkPreviewTerminal _ attempt status =>
      if generating attempt r && match status with PreviewStatusUnsupported | PreviewStatusFailed => true | _ => false end
      then Some (preview_set, terminal_row now status) else None
  | ReqRegenerate _ => if regenerable now r then Some (preview_set, regenerated_row now) else None
  | ReqExpireDuePreviews _ => if preview_expired now r then Some (preview_set, expired_row now) else None
  | ReqLink _ => if live r then Some (no_set, λ r, set_updated (set_draft r None) now) else None
  | ReqCreatePending _ | ReqEnqueue _ | ReqClaimDueCleanups _ _ | ReqComplete _ _ | ReqMessage _ _ | ReqPolicy _ => None
  end.

(** Which row a request names; a batch names none. *)
Definition touched (req : request) (id : string) : Prop :=
  match req with
  | ReqMarkUploaded u => ua_ID u = id
  | ReqMarkFailed i _ | ReqCancelDraft i _ | ReqMarkScanRejected i _ | ReqMarkScanClean i _ _
  | ReqMarkAttachmentDeleted i _ | ReqMarkPreviewTerminal i _ _ | ReqRegenerate i => i = id
  | ReqMarkPreviewReady res => pr_AttachmentID res = id
  | ReqLink lk => id ∈ lk_AttachmentIDs lk
  | _ => True
  end.

(** A request's effect on the row [id]: nothing or its change, accepted; a row appears
    only when an upload begins. *)
Definition row_effect (g : Given) (req : request) (db db' : DB) (id : string) : Prop :=
  match attachments db !! id with
  | Some old =>
      ∃ new, attachments db' !! id = Some new ∧
        (new = old ∨ touched req id ∧
                     ∃ sets f, change g req old = Some (sets, f) ∧ new = synced (g_tx g) sets (Some old) (f old) ∧
                       accepted (g_tx g) sets (signature_policy db) (Some old) (f old))
  | None =>
      attachments db' !! id = None ∨
      ∃ a, req = ReqCreatePending a ∧ id = na_ID a ∧
        attachments db' !! id = Some (synced (g_tx g) both_set None (pending_row (tx_now (g_tx g)) a)) ∧
        accepted (g_tx g) both_set (signature_policy db) None (pending_row (tx_now (g_tx g)) a)
  end.

Lemma update_effect g req sets f ids db db1 db' :
  NoDup ids → update (g_tx g) sets f ids db = Ok db1 → attachments db' = attachments db1 →
  (∀ id, id ∈ ids → touched req id) →
  (∀ id r, id ∈ ids → attachments db !! id = Some r → change g req r = Some (sets, f)) →
  ∀ id, row_effect g req db db' id.
Proof.
  intros Hnd Hu He Htc Hch id. destruct (row_update_Ok _ _ _ _ _ _ Hnd Hu) as [_ Hl].
  unfold row_effect. rewrite He, Hl. destruct (attachments db !! id) as [old|] eqn:Hold; [|by left]. simpl.
  eexists; split; [done|]. case_bool_decide as Hid; [|by left].
  right. split; [auto|]. exists sets, f. split_and!; [eauto|done|]. by eapply update_accepted.
Qed.

Lemma same_effect g req db db' : attachments db' = attachments db → ∀ id, row_effect g req db db' id.
Proof. intros He id. unfold row_effect. rewrite He. destruct (attachments db !! id); eauto. Qed.

Lemma update_where_Ok tx sets guard f id db n db' : update_where tx sets guard f id db = Ok (n, db') →
  (n = 0 ∧ db' = db) ∨
  (n = 1 ∧ update tx sets f [id] db = Ok db' ∧ ∃ r, attachments db !! id = Some r ∧ guard r = true).
Proof.
  unfold update_where. destruct (attachments db !! id) as [r|] eqn:Hr; [|intros [= <- <-]; by left].
  destruct (guard r) eqn:Hg; [|intros [= <- <-]; by left].
  intros (db1 & Hu & [= <- <-])%bind_Ok. right. eauto.
Qed.

(** Reading a request that succeeded, step by step. *)
Ltac succeeded H :=
  repeat first
    [ progress (rewrite guard_Ok in H); let H' := fresh "Hg" in destruct H as [H' H]
    | rewrite wrap_err_Ok in H
    | rewrite bind_Ok in H; let x := fresh "x" in let H' := fresh "Hs" in destruct H as (x & H' & H) ].

Lemma lifecycle_statement_effect new_id g req sets guard f queued id ws text db st db' :
  lifecycle_statement new_id (g_tx g) sets guard f queued id ws text db = Ok (st, db') →
  touched req id → (∀ r, guard r = true → change g req r = Some (sets, f)) →
  ∃ r r' db1, attachments db !! id = Some r ∧ at_WorkspaceID (at_file r) = ws ∧ guard r = true ∧
    update (g_tx g) sets f [id] db = Ok db1 ∧ attachments db1 !! id = Some r' ∧
    enqueue new_id (tx_now (g_tx g)) (queued r') db1 = Ok db' ∧ attachments db' = attachments db1 ∧
    st = {| ls_Status := at_status r'; ls_PreviewStatus := pv_status (at_preview r'); ls_ScanStatusUnchanged := false |} ∧
    ∀ i, row_effect g req db db' i.
Proof.
  unfold lifecycle_statement. intros H Htc Hch. destruct (attachments db !! id) as [r|] eqn:Hr; [|done].
  destruct (_ && _) eqn:Hg; [|done]. apply andb_true_iff in Hg as [Hws%bool_decide_eq_true Hg]. succeeded H.
  destruct (attachments x !! id) as [r'|] eqn:Hr'; [|done]. succeeded H. injection H as <- <-.
  destruct (enqueue_frame _ _ _ _ _ Hs0) as [He _]. exists r, r', x. split_and!; try done.
  eapply update_effect; [apply NoDup_singleton|done|done|by intros ? ->%list_elem_of_singleton|].
  intros i r0 ->%list_elem_of_singleton Hr0. rewrite Hr in Hr0. injection Hr0 as <-. auto.
Qed.

Lemma persist_effect g id ws e db out db' : persist_proven_scan (g_tx g) id ws e db = Ok (out, db') →
  (db' = db ∧ fst out = None) ∨
  ∃ r, attachments db !! id = Some r ∧ approvable r = true ∧
    update (g_tx g) scan_set (approved_row (tx_now (g_tx g)) (Some e)) [id] db = Ok db'.
Proof.
  unfold persist_proven_scan. intros (age & _ & H)%bind_Ok. revert H.
  destruct (attachments db !! id) as [r|] eqn:Hr; [|naive_solver].
  destruct (negb ((at_WorkspaceID _ == ws) && live r)) eqn:H1; [naive_solver|].
  destruct (negb (match at_status r with StatusPendingScan | StatusClean => true | _ => false end)) eqn:H2; [naive_solver|].
  destruct ((sc_policy_version _ <=? _) && _) eqn:H3; intros H.
  - right. exists r. apply bind_Ok in H as (db1 & Hu & H). destruct (attachments db1 !! id); [|done]. injection H as _ <-.
    split_and!; [done| |done]. unfold approvable.
    apply negb_false_iff, andb_true_iff in H1 as [_ ->]. apply negb_false_iff in H2 as ->. by apply andb_true_iff in H3 as [-> _].
  - left. by destruct ((at_status r == StatusClean) && (sc_proof (at_scan r) == Some e)); injection H as <- <-.
Qed.

(** Every request changes rows only by its change, and only where its guard holds. *)
Lemma perform_effect g req db db' : perform g req db = Some db' →
  ∀ id, row_effect g req db db' id.
Proof.
  intros H. destruct req; cbn [perform] in H; unfold state_of in H.
  - (* CreatePending *)
    destruct (CreatePending (g_tx g) a db) as [ [? ?]|] eqn:Hc; [injection H as ->|done]. unfold CreatePending in Hc.
    succeeded Hc. destruct (attachments db !! na_ID a) eqn:Hn; [done|]. succeeded Hc. injection Hc as _ <-.
    apply written_Ok in Hs as (-> & Hacc & _). intros id. unfold row_effect. cbn [attachments set_attachments].
    destruct (decide (na_ID a = id)) as [<-|Hne].
    + rewrite Hn, lookup_insert_eq. right. eauto.
    + rewrite lookup_insert_ne by done. destruct (attachments db !! id); eauto.
  - (* MarkUploaded *)
    destruct (MarkUploaded (g_tx g) u db) as [ [? ?]|] eqn:Hc; [injection H as ->|done]. unfold MarkUploaded in Hc.
    succeeded Hc. destruct x as [n db1]. succeeded Hc. injection Hc as _ <-. apply wrap_err_Ok in Hs.
    apply update_where_Ok in Hs as [(-> & ->)|(-> & Hu & r & Hr & Hg')]; [done|].
    eapply update_effect with (2 := Hu); [apply NoDup_singleton|done|by intros ? ->%list_elem_of_singleton|].
    intros i r0 ->%list_elem_of_singleton Hr0. rewrite Hr in Hr0. injection Hr0 as <-. cbn [change].
    rewrite Hg'. by destruct (ua_PreviewStatus u).
  - (* MarkFailed *)
    destruct (MarkFailed (g_tx g) id code db) as [ [? ?]|] eqn:Hc; [injection H as ->|done]. unfold MarkFailed in Hc.
    succeeded Hc. destruct x as [n db1]. injection Hc as _ <-. apply wrap_err_Ok in Hs.
    apply update_where_Ok in Hs as [(-> & ->)|(-> & Hu & r & Hr & Hg')]; [by apply same_effect|].
    eapply update_effect with (2 := Hu); [apply NoDup_singleton|done|by intros ? ->%list_elem_of_singleton|].
    intros i r0 ->%list_elem_of_singleton Hr0. rewrite Hr in Hr0. injection Hr0 as <-. cbn [change]. by rewrite Hg'.
  - (* CancelDraft *)
    destruct (CancelDraft _ (g_tx g) id uploaderID db) as [ [? ?]|] eqn:Hc; [injection H as ->|done]. unfold CancelDraft in Hc.
    succeeded Hc. destruct (attachments db !! id) as [r|] eqn:Hr; [|done]. destruct (_ && _); [|done]. succeeded Hc.
    injection Hc as _ <-. destruct (enqueue_frame _ _ _ _ _ Hs0) as [He _].
    eapply update_effect with (2 := Hs); [apply NoDup_singleton|done|by intros ? ->%list_elem_of_singleton|]. done.
  - (* ExpireDrafts *)
    destruct (ExpireDrafts _ _ (g_tx g) limit db) as [ [? ?]|] eqn:Hc; [injection H as ->|done]. unfold ExpireDrafts in Hc.
    succeeded Hc. injection Hc as _ <-. destruct (enqueue_frame _ _ _ _ _ Hs0) as [He _].
    eapply update_effect with (2 := Hs); [apply NoDup_batch|done|done|].
    intros i r (r0 & Hr0 & Hg0 & _)%elem_of_batch Hr. rewrite Hr in Hr0. injection Hr0 as <-. cbn [change].
    apply andb_true_iff in Hg0 as [ [_ ->]%andb_true_iff _]. done.
  - (* MarkScanRejected *)
    destruct (MarkScanRejected _ (g_tx g) id workspaceID db) as [ [? ?]|] eqn:Hc; [injection H as ->|done].
    unfold MarkScanRejected in Hc. succeeded Hc.
    eapply lifecycle_statement_effect in Hc as (?&?&?&?&?&?&?&?&?&?&?&?); [done|done|].
    intros r Hr. cbn [change]. by rewrite Hr.
  - (* MarkScanClean *)
    destruct (MarkScanClean (g_tx g) id workspaceID evidence db) as [ [? ?]|] eqn:Hc; [injection H as ->|done].
    unfold MarkScanClean in Hc. destruct evidence as [e|]; succeeded Hc.
    + unfold markProvenClean in Hc. destruct (persist_proven_scan _ _ _ _ _) as [ [out db1]|] eqn:Hp; [|done].
      assert (db1 = db' ∧ fst out ≠ None) as [-> Hout].
      { destruct out as [ [ [??]|] []]; try done; by injection Hc as _ <-. }
      apply persist_effect in Hp as [ [_ ?]|(r & Hr & Ha & Hu)]; [done|].
      eapply update_effect with (2 := Hu); [apply NoDup_singleton|done|by intros ? ->%list_elem_of_singleton|].
      intros i r0 ->%list_elem_of_singleton Hr0. rewrite Hr in Hr0. injection Hr0 as <-. cbn [change]. by rewrite Ha.
    + eapply lifecycle_statement_effect in Hc as (?&?&?&?&?&?&?&?&?&?&?&?); [done|done|].
      intros r Hr. cbn [change]. by rewrite Hr.
  - (* MarkAttachmentDeleted *)
    destruct (MarkAttachmentDeleted _ (g_tx g) id workspaceID db) as [ [? ?]|] eqn:Hc; [injection H as ->|done].
    unfold MarkAttachmentDeleted in Hc. succeeded Hc.
    eapply lifecycle_statement_effect in Hc as (?&?&?&?&?&?&?&?&?&?&?&?); [done|done|]. done.
  - (* ClaimDueScans *)
    destruct (ClaimDueScans _ (g_tx g) batchSize lease db) as [ [? ?]|] eqn:Hc; [injection H as ->|done].
    unfold ClaimDueScans in Hc. succeeded Hc. injection Hc as _ <-. apply wrap_err_Ok in Hs.
    eapply update_effect with (2 := Hs); [apply NoDup_batch|done|done|].
    intros i r (r0 & Hr0 & Hg0 & _)%elem_of_batch Hr. rewrite Hr in Hr0. injection Hr0 as <-. cbn [change]. by rewrite Hg0.
  - (* ClaimDuePreviews *)
    destruct (ClaimDuePreviews _ (g_tx g) batchSize lease db) as [ [? ?]|] eqn:Hc; [injection H as ->|done].
    unfold ClaimDuePreviews in Hc. succeeded Hc. injection Hc as _ <-. apply wrap_err_Ok in Hs.
    eapply update_effect with (2 := Hs); [apply NoDup_batch|done|done|].
    intros i r (r0 & Hr0 & Hg0 & _)%elem_of_batch Hr. rewrite Hr in Hr0. injection Hr0 as <-. cbn [change]. by rewrite Hg0.
  - (* MarkPreviewReady *)
    destruct (MarkPreviewReady (g_tx g) res db) as [ [? ?]|] eqn:Hc; [injection H as ->|done]. unfold MarkPreviewReady in Hc.
    succeeded Hc. destruct x as [n db1]. apply update_where_Ok in Hs as [(-> & ->)|(-> & Hu & r & Hr & Hg')].
    + injection Hc as _ <-. by apply same_effect.
    + change (1 =? 1) with true in Hc. cbv iota in Hc. succeeded Hc. injection Hc as _ <-.
      destruct (insert_pages_frame _ _ _ _ Hs) as [He _].
      eapply update_effect with (2 := Hu); [apply NoDup_singleton|by rewrite He|by intros ? ->%list_elem_of_singleton|].
      intros i r0 ->%list_elem_of_singleton Hr0. rewrite Hr in Hr0. injection Hr0 as <-. cbn [change]. by rewrite Hg'.
  - (* MarkPreviewTerminal *)
    destruct (MarkPreviewTerminal (g_tx g) id claimAttempt status db) as [ [? ?]|] eqn:Hc; [injection H as ->|done].
    unfold MarkPreviewTerminal in Hc. succeeded Hc. destruct x as [n db1]. injection Hc as _ <-. apply wrap_err_Ok in Hs.
    apply update_where_Ok in Hs as [(-> & ->)|(-> & Hu & r & Hr & Hg')]; [by apply same_effect|].
    eapply update_effect with (2 := Hu); [apply NoDup_singleton|done|by intros ? ->%list_elem_of_singleton|].
    intros i r0 ->%list_elem_of_singleton Hr0. rewrite Hr in Hr0. injection Hr0 as <-. cbn [change].
    rewrite Hg'. by destruct status.
  - (* Regenerate *)
    destruct (RegenerateDocumentPreview (g_tx g) id db) as [ [? ?]|] eqn:Hc; [injection H as ->|done].
    unfold RegenerateDocumentPreview in Hc. succeeded Hc. destruct x as [n db1]. succeeded Hc. injection Hc as _ <-.
    apply wrap_err_Ok in Hs. apply update_where_Ok in Hs as [(-> & ->)|(-> & Hu & r & Hr & Hg')]; [by apply same_effect|].
    eapply update_effect with (2 := Hu); [apply NoDup_singleton|done|by intros ? ->%list_elem_of_singleton|].
    intros i r0 ->%list_elem_of_singleton Hr0. rewrite Hr in Hr0. injection Hr0 as <-. cbn [change]. by rewrite Hg'.
  - (* Enqueue *)
    destruct (Enqueue _ _ key db) as [ [? ?]|] eqn:Hc; [injection H as ->|done]. unfold Enqueue in Hc. succeeded Hc.
    injection Hc as _ <-. apply wrap_err_Ok in Hs. destruct (enqueue_frame _ _ _ _ _ Hs) as [He _]. by apply same_effect.
  - (* ExpireDuePreviews *)
    destruct (ExpireDuePreviews _ _ (g_tx g) limit db) as [ [? ?]|] eqn:Hc; [injection H as ->|done].
    unfold ExpireDuePreviews in Hc. succeeded Hc. injection Hc as _ <-.
    destruct (enqueue_frame _ _ _ _ _ Hs) as (He & _ & Hp & _). intros id.
    unshelve epose proof (update_effect g (ReqExpireDuePreviews limit) _ _ _ _ _ x0 _ Hs0 eq_refl (λ _ _, I) _ id) as Hx.
    + apply NoDup_batch.
    + intros i r (r0 & Hr0 & Hg0 & _)%elem_of_batch Hr. cbn in Hr. rewrite He, Hr0 in Hr. injection Hr as ->.
      cbn [change]. by rewrite Hg0.
    + unfold row_effect in *. cbn [clear_pages set_pages signature_policy attachments] in Hx. rewrite He, Hp in Hx. exact Hx.
  - (* ClaimDueCleanups *)
    destruct (ClaimDueCleanups _ _ batchSize lease db) as [ [? ?]|] eqn:Hc; [injection H as ->|done].
    unfold ClaimDueCleanups in Hc. succeeded Hc. injection Hc as _ <-. by apply same_effect.
  - (* Complete *)
    destruct (Complete jobID claimAttempt db) as [ [? ?]|] eqn:Hc; [injection H as ->|done]. unfold Complete in Hc.
    succeeded Hc. injection Hc as _ <-. by apply same_effect.
  - (* Link *)
    unfold link_attachments in H. destruct (_ || _) eqn:Ho; [done|]. apply orb_false_iff in Ho as [Ho _].
    apply negb_false_iff in Ho. rewrite forallb_forall in Ho.
    destruct (bool_decide (NoDup (lk_AttachmentIDs lk))) eqn:Hg; [|done]. apply bool_decide_eq_true in Hg.
    destruct (update _ _ _ _ _) as [db1|] eqn:Hc; [injection H as ->|done]. intros id.
    unshelve epose proof (update_effect g (ReqLink lk) _ _ _ _ _ db' Hg Hc eq_refl (λ _ H, H) _ id) as Hx; [|exact Hx].
    intros i r Hi Hr. cbn [change]. cbn in Hr.
    apply list_elem_of_In, Ho in Hi. unfold authorized_attachment in Hi. rewrite Hr in Hi.
    rewrite !andb_true_iff in Hi. destruct Hi as [ [_ Hl] _]. by rewrite Hl.
  - injection H as <-. by apply same_effect.
  - injection H as <-. by apply same_effect.
Qed.

(** ** The invariant of a row and what it can become *)

(** What holds of every row beyond the table's own checks: the two columns of the
    preview agree, an expiry belongs to a preview that is available, key material to an
    upload that ended, a schedule to a job that is open; and a preview is only worked on
    once the scan has approved the file, and not left open when it has condemned it. *)
Record row_wf (r : Row) : Prop := {
  wf_check : row_check r = true;
  wf_preview : status_of (pv_lifecycle (at_preview r)) = pv_status (at_preview r);
  wf_lifecycle : pv_lifecycle (at_preview r) ≠ PreviewLifecycleScanning;
  wf_expires : pv_expires_at (at_preview r) ≠ None ↔ pv_lifecycle (at_preview r) = PreviewLifecycleAvailable;
  wf_content : at_content r = None ↔ at_status r = StatusPendingUpload ∨ at_status r = StatusFailed;
  wf_deleted : at_status r ≠ StatusDeleted;
  wf_scan_next : sc_next (at_scan r) ≠ None → at_status r = StatusPendingScan;
  wf_preview_next : pv_next (at_preview r) ≠ None → pv_status (at_preview r) = PreviewStatusPending;
  wf_generating : pv_lifecycle (at_preview r) = PreviewLifecycleGenerating → 0 < pv_attempts (at_preview r);
  wf_stage :
    match at_status r with
    | StatusPendingUpload => pv_lifecycle (at_preview r) = PreviewLifecyclePending ∨
                             (pv_lifecycle (at_preview r) = PreviewLifecycleBlocked ∧ live r = false)
    | StatusPendingScan | StatusFailed =>
        pv_lifecycle (at_preview r) = PreviewLifecyclePending ∨ pv_lifecycle (at_preview r) = PreviewLifecycleBlocked
    | StatusRejected => pv_status (at_preview r) ≠ PreviewStatusPending
    | StatusClean | StatusDeleted => True
    end }.

(** The order in which a row's status moves; [rejected] and [failed] are final. *)
Definition status_step (s s' : Status) : bool :=
  bool_decide (s = s') ||
  match s, s' with
  | StatusPendingUpload, (StatusPendingScan | StatusClean | StatusFailed) => true
  | StatusPendingScan, (StatusClean | StatusRejected) => true
  | StatusClean, StatusRejected => true
  | _, _ => false
  end.

Record evolves (old new : Row) : Prop := {
  ev_file : at_file new = at_file old;
  ev_content : ∀ c, at_content old = Some c → at_content new = Some c;
  ev_status : status_step (at_status old) (at_status new) = true;
  ev_deleted : ∀ t, at_deleted_at old = Some t → at_deleted_at new = Some t;
  ev_lifecycle : pv_lifecycle (at_preview new) = pv_lifecycle (at_preview old) ∨
    CanTransitionTo (pv_lifecycle (at_preview old)) (pv_lifecycle (at_preview new)) = true ∨
    (live old = false ∧ at_status old = StatusPendingUpload);
  ev_published : pv_status (at_preview old) = PreviewStatusReady → pv_status (at_preview new) = PreviewStatusReady →
    pv_binding (at_preview new) = pv_binding (at_preview old) }.

Lemma sync_spec now old new : let p := sync_attachment_preview_lifecycle now old new in
  pv_lifecycle p = (if match old with Some o => bool_decide (pv_status new ≠ pv_status o) | None => true end
                    then lifecycle_of (pv_status new) else pv_lifecycle new) ∧
  pv_status p = status_of (pv_lifecycle p) ∧
  (pv_expires_at p ≠ None ↔ pv_lifecycle p = PreviewLifecycleAvailable) ∧
  pv_binding p = pv_binding new ∧ pv_attempts p = pv_attempts new ∧ pv_next p = pv_next new.
Proof.
  cbv zeta. unfold sync_attachment_preview_lifecycle. cbn [pv_lifecycle with_lifecycle pv_status pv_expires_at pv_binding pv_attempts pv_next].
  set (c := match old with Some o => _ | None => _ end). set (l := if c then _ else _).
  split_and!; try done.
  - subst l. destruct c; [by destruct (pv_status new)|done].
  - case_bool_decide as Hl; [|naive_solver]. destruct (pv_expires_at new); naive_solver.
Qed.

(** What a change does to the parts of a row [row_wf] and [evolves] speak of. *)
Ltac row_fields := cbn [synced sets_preview both_set scan_set no_set preview_set at_file at_status at_content at_scan at_preview at_deleted_at
  set_preview set_scan set_status set_content set_updated set_failure set_draft set_deleted uploaded_row removed_draft
  rejected_row approved_row claimed_scan claimed_preview ready_row terminal_row regenerated_row expired_row
  with_schedule with_verdict sc_next sc_attempts pv_status pv_lifecycle pv_binding pv_next pv_attempts pv_expires_at] in *.

Lemma conclude_pending_spec p :
  pv_status (conclude_pending p) = match pv_status p with PreviewStatusPending => PreviewStatusUnsupported | s => s end ∧
  pv_lifecycle (conclude_pending p) = pv_lifecycle p ∧ pv_binding (conclude_pending p) = pv_binding p ∧
  pv_attempts (conclude_pending p) = pv_attempts p ∧
  pv_next (conclude_pending p) = match pv_status p with PreviewStatusPending => None | _ => pv_next p end.
Proof. unfold conclude_pending. destruct (pv_status p) eqn:E; cbn; by rewrite ?E. Qed.

(** How the preview of a row [r] moves when a statement writes [p] over it. *)
Definition moved (tx : Tx) (r : Row) (p : Preview) : Preview := sync_attachment_preview_lifecycle (tx_now tx) (Some (at_preview r)) p.

Lemma moved_status tx r p : pv_status p ≠ pv_status (at_preview r) →
  pv_status (moved tx r p) = pv_status p ∧ pv_lifecycle (moved tx r p) = lifecycle_of (pv_status p).
Proof.
  intros Hne. pose proof (sync_spec (tx_now tx) (Some (at_preview r)) p) as (Hl & Hs & _). fold (moved tx r p) in *.
  rewrite bool_decide_eq_true_2 in Hl by done. rewrite Hs, Hl. by destruct (pv_status p).
Qed.

Lemma moved_lifecycle tx r p : pv_status p = pv_status (at_preview r) →
  pv_status (moved tx r p) = status_of (pv_lifecycle p) ∧ pv_lifecycle (moved tx r p) = pv_lifecycle p.
Proof.
  intros He. pose proof (sync_spec (tx_now tx) (Some (at_preview r)) p) as (Hl & Hs & _). fold (moved tx r p) in *.
  rewrite bool_decide_eq_false_2 in Hl by naive_solver. by rewrite Hs, Hl.
Qed.

Lemma conclude_moved tx r p : p = conclude_pending (at_preview r) → row_wf r →
  let q := moved tx r p in
  status_of (pv_lifecycle q) = pv_status q ∧ pv_binding q = pv_binding (at_preview r) ∧ pv_attempts q = pv_attempts (at_preview r) ∧
  pv_status q ≠ PreviewStatusPending ∧
  match pv_status (at_preview r) with
  | PreviewStatusPending => pv_lifecycle q = PreviewLifecycleBlocked ∧ pv_next q = None
  | _ => pv_lifecycle q = pv_lifecycle (at_preview r) ∧ pv_next q = pv_next (at_preview r)
  end ∧
  (pv_expires_at q ≠ None ↔ pv_lifecycle q = PreviewLifecycleAvailable).
Proof.
  intros -> Hwf. cbv zeta. set (p := conclude_pending _).
  destruct (conclude_pending_spec (at_preview r)) as (Hs & Hl & Hb & Ha & Hn). fold p in Hs, Hl, Hb, Ha, Hn.
  pose proof (sync_spec (tx_now tx) (Some (at_preview r)) p) as (_ & Hqs & Hqe & Hqb & Hqa & Hqn). fold (moved tx r p) in *.
  rewrite Hqb, Hqa, Hqn, Hb, Ha, Hn. pose proof (wf_preview _ Hwf) as Hw.
  destruct (pv_status (at_preview r)) eqn:E.
  - destruct (moved_status tx r p) as [H1 H2]; [congruence|]. rewrite H1, H2, Hs. split_and!; try done. by rewrite H2, Hs in Hqe.
  - destruct (moved_lifecycle tx r p) as [H1 H2]; [congruence|]. rewrite Hl in *. rewrite H1, H2, Hw in *. naive_solver.
  - destruct (moved_lifecycle tx r p) as [H1 H2]; [congruence|]. rewrite Hl in *. rewrite H1, H2, Hw in *. naive_solver.
  - destruct (moved_lifecycle tx r p) as [H1 H2]; [congruence|]. rewrite Hl in *. rewrite H1, H2, Hw in *. naive_solver.
Qed.

Ltac open_change Hch Hg :=
  cbn [change] in Hch;
  lazymatch type of Hch with
  | None = Some _ => discriminate Hch
  | (if ?c then _ else _) = Some _ => destruct c eqn:Hg; [|discriminate Hch]; first [injection Hch as <- <-|injection Hch as <-]
  | Some _ = Some _ => injection Hch as <- <-
  | match ?e with Some _ => _ | None => _ end = Some _ => destruct e; open_change Hch Hg
  end.

Lemma approvable_status r : approvable r = true → at_status r = StatusPendingScan ∨ at_status r = StatusClean.
Proof. unfold approvable. destruct (at_status r); rewrite ?andb_true_iff; naive_solver. Qed.

(** A change that leaves the preview's columns alone. *)
Lemma plain_change g req old sets f : row_wf old → sensible req → change g req old = Some (sets, f) →
  sets_preview sets = false → row_check (f old) = true → row_wf (f old) ∧ evolves old (f old).
Proof.
  intros Hwf Hs Hch Hset Hc.
  assert (at_preview (f old) = at_preview old ∧ at_file (f old) = at_file old ∧ at_deleted_at (f old) = at_deleted_at old ∧
          at_content (f old) = at_content old) as (Hp & Hf & Hd & Hco).
  { destruct req; open_change Hch Hg; done. }
  assert (status_step (at_status old) (at_status (f old)) = true ∧ at_status (f old) ≠ StatusDeleted ∧
          (sc_next (at_scan (f old)) ≠ None → at_status (f old) = StatusPendingScan) ∧
          (at_status (f old) = at_status old ∨ at_status (f old) = StatusClean ∧ at_content old ≠ None ∨
           at_status (f old) = StatusFailed ∧ at_status old = StatusPendingUpload)) as (Hst & Hde & Hn & Hcase).
  { pose proof (wf_scan_next _ Hwf) as Hnext. pose proof (wf_content _ Hwf) as Hcontent. pose proof (wf_deleted _ Hwf).
    destruct req; open_change Hch Hg; row_fields; try discriminate Hset.
    - apply bool_decide_eq_true in Hg. rewrite Hg in *. split_and!; [done|done|by intros ?%Hnext|by right; right].
    - apply approvable_status in Hg. split_and!; [by destruct Hg as [-> | ->]|done|done|].
      right; left. split; [done|]. rewrite Hcontent. by destruct Hg as [-> | ->]; intros [|].
    - apply approvable_status in Hg. split_and!; [by destruct Hg as [-> | ->]|done|done|].
      right; left. split; [done|]. rewrite Hcontent. by destruct Hg as [-> | ->]; intros [|].
    - unfold scan_due in Hg. rewrite !andb_true_iff, bool_decide_eq_true in Hg. destruct Hg as [ [ [-> _] _] _].
      split_and!; [done|done|done|by left].
    - split_and!; [by destruct (at_status old)|done|done|by left]. }
  destruct Hwf. split; constructor; rewrite ?Hp, ?Hf, ?Hd, ?Hco; auto; unfold live in *; rewrite ?Hd.
  - rewrite wf_content0. destruct Hcase as [->|[ [-> ?]|[-> Hup] ] ]; [done| |].
    + rewrite <- wf_content0. split; [done|by intros [|]].
    + rewrite Hup. split; intros _; [by right|by left].
  - destruct Hcase as [->|[ [-> ?]|[-> Hup] ] ]; [done|done|]. rewrite Hup in *. destruct wf_stage0 as [?|[? ?] ]; auto.
Qed.

Lemma synced_fields tx sets old new : sets_preview sets = true →
  let r := synced tx sets (Some old) new in
  at_preview r = moved tx old (at_preview new) ∧ at_file r = at_file new ∧ at_status r = at_status new ∧
  at_content r = at_content new ∧ at_scan r = at_scan new ∧ at_deleted_at r = at_deleted_at new ∧ live r = live new.
Proof. intros Hs. unfold synced. rewrite Hs. done. Qed.

(** A removal or a rejection: an open preview is concluded, the rest of it is kept. *)
Lemma concluding_change g req old sets f : row_wf old → change g req old = Some (sets, f) →
  at_preview (f old) = conclude_pending (at_preview old) → sets_preview sets = true →
  at_content (f old) = at_content old → at_file (f old) = at_file old →
  (at_status (f old) = at_status old ∧ live (f old) = false ∨ at_status (f old) = StatusRejected ∧ rejectable old = true) →
  (∀ t, at_deleted_at old = Some t → at_deleted_at (f old) = Some t) →
  (sc_next (at_scan (f old)) = None ∨ at_status (f old) = at_status old ∧ at_scan (f old) = at_scan old) →
  let new := synced (g_tx g) sets (Some old) (f old) in
  row_check new = true → row_wf new ∧ evolves old new.
Proof.
  intros Hwf Hch Hp Hset Hco Hf Hst Hd Hn. cbv zeta. set (new := synced _ _ _ _). intros Hc.
  destruct (synced_fields (g_tx g) sets old (f old) Hset) as (Ep & Ef & Es & Ec & Esc & Ed & El). fold new in Ep, Ef, Es, Ec, Esc, Ed, El.
  destruct (conclude_moved (g_tx g) old (at_preview (f old)) Hp Hwf) as (Q1 & Q2 & Q3 & Q4 & Q5 & Q6). rewrite <- Ep in *.
  assert (Hstatus : at_status new = at_status old ∧ live new = false ∨
    at_status new = StatusRejected ∧ (at_status old = StatusPendingScan ∨ at_status old = StatusClean ∨ at_status old = StatusRejected)).
  { rewrite Es, El. destruct Hst as [?|[-> Hr] ]; [by left|right]. split; [done|].
    unfold rejectable in Hr. apply andb_true_iff in Hr as [_ Hr]. destruct (at_status old); auto; done. }
  assert (Hq : pv_lifecycle (at_preview new) = PreviewLifecycleBlocked ∧ pv_status (at_preview old) = PreviewStatusPending ∧ pv_next (at_preview new) = None ∨
               pv_lifecycle (at_preview new) = pv_lifecycle (at_preview old) ∧ pv_status (at_preview old) ≠ PreviewStatusPending ∧ pv_next (at_preview new) = pv_next (at_preview old)).
  { destruct (pv_status (at_preview old)); [left|right..]; naive_solver. }
  pose proof (wf_preview _ Hwf) as Hw. destruct Hwf. split; constructor; rewrite ?Ef, ?Ec, ?Esc, ?Hco, ?Hf, ?Ed, ?Q3, ?Q2; auto.
  - destruct Hq as [(-> & _)|(-> & _)]; done.
  - rewrite wf_content0. destruct Hstatus as [ [-> _]|[-> H] ]; [done|]. destruct H as [->|[->| ->] ]; split; intros [|]; done.
  - destruct Hstatus as [ [-> _]|[-> _] ]; done.
  - destruct Hn as [->|[Hs ->] ]; [done|]. rewrite Es, Hs. done.
  - destruct Hq as [(_ & _ & ->)|(_ & Hne & ->)]; [done|]. by intros ?%wf_preview_next0.
  - destruct Hq as [(-> & _)|(-> & _)]; auto; done.
  - destruct Hstatus as [ [Hs Hl]|[Hs _] ]; rewrite Hs; [|done].
    destruct Hq as [(-> & _)|(-> & Hne & _)]; [destruct (at_status old); auto; done|].
    destruct (at_status old); try done. destruct wf_stage0 as [?|[? _] ]; auto.
  - destruct Hstatus as [ [-> _]|[-> H] ]; [by destruct (at_status old)|]. by destruct H as [->|[->| ->] ].
  - destruct Hq as [(-> & Hpe & _)|(-> & _)]; [|by left]. rewrite Hpe in Hw.
    destruct (pv_lifecycle (at_preview old)); try done; auto.
Qed.

(** A statement that moves the lifecycle and leaves the status to the trigger. *)
Lemma lifecycle_change g req old sets f : row_wf old → change g req old = Some (sets, f) →
  sets_preview sets = true → pv_status (at_preview (f old)) = pv_status (at_preview old) →
  at_status (f old) = at_status old → at_scan (f old) = at_scan old →
  at_content (f old) = at_content old → at_file (f old) = at_file old → at_deleted_at (f old) = at_deleted_at old →
  at_status old = StatusClean ∨ at_status old = StatusRejected ∧ status_of (pv_lifecycle (at_preview (f old))) ≠ PreviewStatusPending →
  let l := pv_lifecycle (at_preview old) in let l' := pv_lifecycle (at_preview (f old)) in
  (l' = l ∨ CanTransitionTo l l' = true) → l' ≠ PreviewLifecycleScanning →
  (pv_next (at_preview (f old)) ≠ None → status_of l' = PreviewStatusPending) →
  (l' = PreviewLifecycleGenerating → 0 < pv_attempts (at_preview (f old))) →
  (status_of l' = PreviewStatusReady → status_of l = PreviewStatusReady → pv_binding (at_preview (f old)) = pv_binding (at_preview old)) →
  let new := synced (g_tx g) sets (Some old) (f old) in
  row_check new = true → row_wf new ∧ evolves old new.
Proof.
  intros Hwf Hch Hset Hps Hst Hn Hco Hf Hd Hso. cbv zeta. intros Hl Hsc Hnx Hgen Hb. set (new := synced _ _ _ _). intros Hc.
  destruct (synced_fields (g_tx g) sets old (f old) Hset) as (Ep & Ef & Es & Ec & Esc & Ed & El). fold new in Ep, Ef, Es, Ec, Esc, Ed, El.
  destruct (moved_lifecycle (g_tx g) old _ Hps) as [M1 M2].
  pose proof (sync_spec (g_tx g).(tx_now) (Some (at_preview old)) (at_preview (f old))) as (_ & _ & Qe & Qb & Qa & Qn).
  fold (moved (g_tx g) old (at_preview (f old))) in Qe, Qb, Qa, Qn. rewrite <- Ep in *.
  destruct Hwf. split; constructor; rewrite ?Ef, ?Ec, ?Esc, ?Hco, ?Hf, ?Ed, ?Hd, ?Es, ?Hst, ?Qn, ?Qa, ?Qb, ?M1, ?M2, ?Hn; auto; try done.
  - by rewrite M2 in Qe.
  - by destruct Hso as [-> |[-> ?] ].
  - by destruct (at_status old).
  - destruct Hl; auto.
  - rewrite <- wf_preview0. auto.
Qed.

(** A statement that concludes a preview that is being generated. *)
Lemma concluded_change g req old sets f : row_wf old → change g req old = Some (sets, f) →
  sets_preview sets = true → pv_lifecycle (at_preview old) = PreviewLifecycleGenerating →
  pv_status (at_preview (f old)) ≠ PreviewStatusPending → pv_next (at_preview (f old)) = None →
  at_status (f old) = at_status old → at_content (f old) = at_content old → at_file (f old) = at_file old →
  at_deleted_at (f old) = at_deleted_at old → at_scan (f old) = at_scan old →
  let new := synced (g_tx g) sets (Some old) (f old) in
  row_check new = true → row_wf new ∧ evolves old new.
Proof.
  intros Hwf Hch Hset Hgen Hps Hnx Hst Hco Hf Hd Hn. cbv zeta. set (new := synced _ _ _ _). intros Hc.
  destruct (synced_fields (g_tx g) sets old (f old) Hset) as (Ep & Ef & Es & Ec & Esc & Ed & El). fold new in Ep, Ef, Es, Ec, Esc, Ed, El.
  pose proof (wf_preview _ Hwf) as Hw. rewrite Hgen in Hw. cbn in Hw.
  destruct (moved_status (g_tx g) old (at_preview (f old))) as [M1 M2]; [congruence|].
  pose proof (sync_spec (g_tx g).(tx_now) (Some (at_preview old)) (at_preview (f old))) as (_ & Qs & Qe & Qb & Qa & Qn).
  fold (moved (g_tx g) old (at_preview (f old))) in Qs, Qe, Qb, Qa, Qn. rewrite <- Ep in *.
  assert (Hstage : at_status old = StatusClean).
  { pose proof (wf_stage _ Hwf) as Hs. pose proof (wf_deleted _ Hwf). rewrite Hgen, <- Hw in Hs.
    destruct (at_status old); naive_solver. }
  destruct Hwf. split; constructor; rewrite ?Ef, ?Ec, ?Esc, ?Hco, ?Hf, ?Ed, ?Hd, ?Es, ?Hst, ?Hstage, ?Qn, ?Qb, ?M1, ?M2, ?Hn; auto; try done.
  - by destruct (pv_status (at_preview (f old))).
  - by destruct (pv_status (at_preview (f old))).
  - by rewrite M2 in Qe.
  - by rewrite wf_content0, Hstage.
  - by rewrite <- Hstage.
  - by destruct (pv_status (at_preview (f old))).
  - rewrite Hgen. destruct (pv_status (at_preview (f old))); auto; done.
  - by rewrite <- Hw.
Qed.

Lemma uploaded_change g u old f : row_wf old → ua_Status u = StatusPendingScan ∨ ua_Status u = StatusClean →
  change g (ReqMarkUploaded u) old = Some (both_set, f) →
  let new := synced (g_tx g) both_set (Some old) (f old) in
  row_check new = true → row_wf new ∧ evolves old new.
Proof.
  intros Hwf Hu Hch. cbv zeta. open_change Hch Hg. apply andb_true_iff in Hg as [Hup%bool_decide_eq_true Hini].
  set (f := uploaded_row _ _). set (new := synced _ _ _ _). intros Hc.
  destruct (synced_fields (g_tx g) both_set old (f old) eq_refl) as (Ep & Ef & Es & Ec & Esc & Ed & El). fold new in Ep, Ef, Es, Ec, Esc, Ed, El.
  assert (Fp : pv_status (at_preview (f old)) = ua_PreviewStatus u ∧ pv_lifecycle (at_preview (f old)) = pv_lifecycle (at_preview old) ∧
    pv_binding (at_preview (f old)) = pv_binding (at_preview old) ∧
    pv_next (at_preview (f old)) = if bool_decide (ua_PreviewStatus u = PreviewStatusPending) then Some (tx_now (g_tx g)) else None) by done.
  destruct Fp as (F1 & F2 & F3 & F4). change (at_status (f old)) with (ua_Status u) in Es.
  change (at_file (f old)) with (at_file old) in Ef. change (at_deleted_at (f old)) with (at_deleted_at old) in Ed.
  change (live (f old)) with (live old) in El.
  assert (Hlc : pv_lifecycle (at_preview old) = PreviewLifecyclePending ∨
                pv_lifecycle (at_preview old) = PreviewLifecycleBlocked ∧ live old = false).
  { pose proof (wf_stage _ Hwf) as H. by rewrite Hup in H. }
  pose proof (wf_preview _ Hwf) as Hw.
  assert (Hq : pv_status (at_preview new) = ua_PreviewStatus u ∧ pv_lifecycle (at_preview new) = lifecycle_of (ua_PreviewStatus u)).
  { rewrite Ep. destruct (decide (pv_status (at_preview (f old)) = pv_status (at_preview old))) as [He|He].
    - destruct (moved_lifecycle (g_tx g) old _ He) as [-> ->]. rewrite F2, Hw, <- F1, He. split; [done|].
      destruct Hlc as [Hl|[Hl _] ]; rewrite <- Hw, Hl; done.
    - destruct (moved_status (g_tx g) old _ He) as [-> ->]. by rewrite F1. }
  pose proof (sync_spec (g_tx g).(tx_now) (Some (at_preview old)) (at_preview (f old))) as (_ & Qs & Qe & Qb & Qa & Qn).
  fold (moved (g_tx g) old (at_preview (f old))) in Qs, Qe, Qb, Qa, Qn. rewrite <- Ep in *.
  destruct Hq as [Q1 Q2]. assert (Hps : ua_PreviewStatus u = PreviewStatusPending ∨ ua_PreviewStatus u = PreviewStatusUnsupported).
  { destruct (ua_PreviewStatus u); auto; done. }
  destruct Hwf. split; constructor; rewrite ?Ef, ?Ed, ?Es, ?Q1, ?Q2, ?Qn, ?F4; auto; try done.
  - by destruct (ua_PreviewStatus u).
  - by destruct (ua_PreviewStatus u).
  - by rewrite Q2 in Qe.
  - rewrite Ec. split; [done|]. destruct Hu as [-> | ->]; by intros [|].
  - by destruct Hu as [-> | ->].
  - rewrite Esc. unfold f, uploaded_row. row_fields. destruct (decide (ua_Status u = StatusPendingScan)) as [Hd|Hd]; [auto|].
    rewrite (bool_decide_eq_false_2 _ Hd). by intros [].
  - case_bool_decide; [auto|]. by intros [].
  - by destruct (ua_PreviewStatus u).
  - destruct Hps as [-> | ->], Hu as [-> | ->]; cbn; auto.
  - intros c Hcc. assert (at_content old = None) as Hno by (apply wf_content0; by left). congruence.
  - rewrite Hup. by destruct Hu as [-> | ->].
  - destruct Hlc as [-> |[-> Hlv] ]; [|by right; right]. destruct Hps as [-> | ->]; auto.
Qed.

Lemma row_check_attempts r : row_check r = true → 0 <= pv_attempts (at_preview r).
Proof. unfold row_check. rewrite !andb_true_iff, !Z.leb_le. tauto. Qed.

Lemma change_preserves g req old sets f : row_wf old → sensible req → change g req old = Some (sets, f) →
  let new := synced (g_tx g) sets (Some old) (f old) in
  row_check new = true → row_wf new ∧ evolves old new.
Proof.
  intros Hwf Hs Hch. cbv zeta. intros Hc. destruct (sets_preview sets) eqn:Hset.
  2:{ assert (E : synced (g_tx g) sets (Some old) (f old) = f old) by (unfold synced; by rewrite Hset).
      rewrite E in *. by eapply plain_change. }
  destruct req; try (by open_change Hch Hg; discriminate Hset); pose proof Hch as Hch'.
  - assert (sets = both_set) as -> by (open_change Hch Hg; done). by eapply uploaded_change.
  - open_change Hch Hg. apply (concluding_change _ _ _ _ _ Hwf Hch'); try done; [by left|by intros t Ht; unfold coalesce; row_fields; rewrite Ht|by left].
  - open_change Hch Hg. unfold live in Hg.
    apply (concluding_change _ _ _ _ _ Hwf Hch'); try done; [by left|intros t Ht; by rewrite Ht in Hg|by left].
  - open_change Hch Hg. apply (concluding_change _ _ _ _ _ Hwf Hch'); try done; [by right|by left].
  - open_change Hch Hg. apply (concluding_change _ _ _ _ _ Hwf Hch'); try done; [by left|intros t Ht; unfold coalesce; row_fields; by rewrite Ht|by right].
  - open_change Hch Hg. unfold preview_due in Hg. rewrite !andb_true_iff, !bool_decide_eq_true in Hg.
    destruct Hg as [ [ [ [ [Hps Hl] Hst] _] _] _]. apply (lifecycle_change _ _ _ _ _ Hwf Hch'); try done; row_fields.
    + by left.
    + destruct (pv_lifecycle (at_preview old)); try done; by auto.
    + intros _. pose proof (row_check_attempts _ (wf_check _ Hwf)). unfold maxPreviewAttemptsCounter. lia.
  - open_change Hch Hg. unfold generating in Hg. rewrite !andb_true_iff, !bool_decide_eq_true in Hg.
    destruct Hg as [ [ [ [Hps Hl] _] Hst] _]. by apply (concluded_change _ _ _ _ _ Hwf Hch').
  - open_change Hch Hg. unfold generating in Hg. rewrite !andb_true_iff, !bool_decide_eq_true in Hg.
    destruct Hg as [ [ [Hps Hl] _] Hst]. apply (concluded_change _ _ _ _ _ Hwf Hch'); try done. row_fields. by destruct status.
  - open_change Hch Hg. unfold regenerable in Hg. rewrite !andb_true_iff, !orb_true_iff, !andb_true_iff, !bool_decide_eq_true in Hg.
    destruct Hg as [ [_ Hst] Hl]. apply (lifecycle_change _ _ _ _ _ Hwf Hch'); try done; row_fields.
    + by left.
    + right. by destruct Hl as [-> |[-> _] ].
  - open_change Hch Hg. unfold preview_expired in Hg. rewrite !andb_true_iff, !bool_decide_eq_true in Hg.
    destruct Hg as [ [Hl _] _]. pose proof (wf_preview _ Hwf) as Hw. rewrite Hl in Hw. cbn in Hw.
    apply (lifecycle_change _ _ _ _ _ Hwf Hch'); try done; row_fields.
    + pose proof (wf_stage _ Hwf) as Hsg. pose proof (wf_deleted _ Hwf). rewrite Hl in Hsg.
      destruct (at_status old); naive_solver.
    + right. by rewrite Hl.
    + intros Hn. pose proof (wf_preview_next _ Hwf Hn). congruence.
Qed.

Lemma created_wf g a : row_check (synced (g_tx g) both_set None (pending_row (tx_now (g_tx g)) a)) = true →
  row_wf (synced (g_tx g) both_set None (pending_row (tx_now (g_tx g)) a)).
Proof.
  intros Hr. constructor; cbn; auto; try done. split; [by intros _; left|done].
Qed.

Definition rows_wf (db : DB) : Prop := map_Forall (λ _ r, row_wf r) (attachments db).

Lemma perform_rows g req db db' : rows_wf db → sensible req → perform g req db = Some db' →
  rows_wf db' ∧
  ∀ id old, attachments db !! id = Some old → ∃ new, attachments db' !! id = Some new ∧ (new = old ∨ evolves old new).
Proof.
  intros Hwf Hs Hp. pose proof (perform_effect _ _ _ _ Hp) as He. split.
  - intros id r Hr. specialize (He id). unfold row_effect in He. destruct (attachments db !! id) as [old|] eqn:Hold.
    + destruct He as (new & Hn & Hx). rewrite Hr in Hn. injection Hn as <-.
      destruct Hx as [->|(_ & sets & f & Hch & -> & Hc & _)]; [by apply (Hwf id)|].
      by apply (change_preserves g req old sets f (Hwf id _ Hold)).
    + destruct He as [He|(a & _ & _ & He & Hc & _)]; rewrite Hr in He; [done|]. injection He as ->. by apply created_wf.
  - intros id old Hold. specialize (He id). unfold row_effect in He. rewrite Hold in He.
    destruct He as (new & Hn & Hx). exists new. split; [done|].
    destruct Hx as [->|(_ & sets & f & Hch & -> & Hc & _)]; [by left|right].
    by apply (change_preserves g req old sets f (Hwf id _ Hold)).
Qed.

(** ** Histories *)

Definition requested (db db' : DB) : Prop := ∃ g req, sensible req ∧ perform g req db = Some db'.

(** What a row can still become, in any number of requests. *)
Definition status_after (s s' : Status) : bool :=
  bool_decide (s = s') ||
  match s, s' with
  | StatusPendingUpload, (StatusPendingScan | StatusClean | StatusRejected | StatusFailed) => true
  | StatusPendingScan, (StatusClean | StatusRejected) => true
  | StatusClean, StatusRejected => true
  | _, _ => false
  end.

Record later (old new : Row) : Prop := {
  lt_file : at_file new = at_file old;
  lt_content : ∀ c, at_content old = Some c → at_content new = Some c;
  lt_status : status_after (at_status old) (at_status new) = true;
  lt_deleted : ∀ t, at_deleted_at old = Some t → at_deleted_at new = Some t }.

#[export] Instance later_refl : Reflexive later.
Proof. intros r. constructor; auto. by destruct (at_status r). Qed.
#[export] Instance later_trans : Transitive later.
Proof.
  intros r r' r'' [] []. constructor; [congruence|auto| |auto].
  by destruct (at_status r), (at_status r'), (at_status r'').
Qed.

Lemma evolves_later old new : evolves old new → later old new.
Proof. intros []. constructor; auto. by destruct (at_status old), (at_status new). Qed.

Lemma history db db' : rows_wf db → rtc requested db db' →
  rows_wf db' ∧ ∀ id old, attachments db !! id = Some old → ∃ new, attachments db' !! id = Some new ∧ later old new.
Proof.
  intros Hwf Hr. induction Hr as [|db1 db2 db3 (g & req & Hs & Hp) _ IH]; [split; [done|]; intros id old ->; by eexists|].
  destruct (perform_rows _ _ _ _ Hwf Hs Hp) as [Hwf2 He]. destruct (IH Hwf2) as [Hwf3 He3]. split; [done|].
  intros id old Hold. destruct (He _ _ Hold) as (new & Hn & Hx). destruct (He3 _ _ Hn) as (new' & Hn' & Hl).
  exists new'. split; [done|]. etrans; [|done]. destruct Hx as [->|Hx]; [done|by apply evolves_later].
Qed.

(** ** Theorems *)

(** C35. Whatever requests are sent, in any order, from a database whose rows are in
    order: the rows stay in order; no row is lost and none changes what file it is,
    where it belongs or, once stored, its bytes' size, key and name; its status only
    moves forward, so a rejected file is rejected for good, an approved one is not
    sent back to the queue and a failed upload is never served; and a removal is final,
    at the moment it first happened. *)
Theorem stored_files_move_forward db db' id old : rows_wf db → rtc requested db db' → attachments db !! id = Some old →
  rows_wf db' ∧ ∃ new, attachments db' !! id = Some new ∧ at_file new = at_file old ∧
    (∀ c, at_content old = Some c → at_content new = Some c) ∧
    status_after (at_status old) (at_status new) = true ∧
    (at_status old = StatusRejected → at_status new = StatusRejected) ∧
    (at_status old = StatusFailed → at_status new = StatusFailed ∧ at_content new = None) ∧
    (∀ t, at_deleted_at old = Some t → at_deleted_at new = Some t).
Proof.
  intros Hwf Hr Hold. destruct (history _ _ Hwf Hr) as [Hwf' He]. split; [done|].
  destruct (He _ _ Hold) as (new & Hn & []). exists new. split_and!; try done.
  - intros E. rewrite E in lt_status0. by destruct (at_status new).
  - intros E. rewrite E in lt_status0. assert (at_status new = StatusFailed) as En by (by destruct (at_status new)).
    split; [done|]. apply (wf_content _ (Hwf' _ _ Hn)). by right.
Qed.


Lemma fresh_scan_commit policy at_ old new : require_fresh_scan false policy at_ old new = Ok () → at_status new = StatusClean →
  (∀ o, old = Some o → at_status o = StatusClean → sc_proof (at_scan o) ≠ sc_proof (at_scan new)) →
  ∀ p, policy = Some p → sp_enabled p = true →
  ∃ age e, sp_max_age_seconds p = Some age ∧ 0 < age ∧ sc_proof (at_scan new) = Some e ∧ fresh_evidence age at_ e = true.
Proof.
  intros H Hc Hch p -> Hen. revert H. unfold require_fresh_scan. rewrite (bool_decide_eq_false_2 (at_status new ≠ StatusClean)) by (rewrite Hc; tauto).
  assert (Hskip : (match old with Some _ => true | None => false end && negb false &&
     match old with Some o => bool_decide (at_status o = StatusClean) | None => false end &&
     negb match old with Some o => bool_decide (sc_proof (at_scan new) ≠ sc_proof (at_scan o)) | None => true end) = false).
  { destruct old as [o|]; [|done]. destruct (decide (at_status o = StatusClean)) as [E|E].
    - rewrite (bool_decide_eq_true_2 (_ ≠ _)); [by rewrite andb_false_r|]. specialize (Hch _ eq_refl E). congruence.
    - rewrite (bool_decide_eq_false_2 (at_status o = StatusClean)) by done. done. }
  cbv zeta. rewrite Hskip, Hen. cbn [negb]. intros (age & Ha & H)%bind_Ok. unfold require_active_signature_policy in Ha. rewrite Hen in Ha.
  cbn [negb] in Ha. destruct (sp_max_age_seconds p) as [a|]; [|done]. destruct (sp_approval_reference p); [|done].
  destruct (_ || _) eqn:Ho; [done|]. injection Ha as ->. destruct (sc_proof (at_scan new)) as [e|]; [|done].
  destruct (negb (fresh_evidence age at_ e)) eqn:Hf; [done|]. apply negb_false_iff in Hf.
  apply orb_false_iff in Ho as [ [Ho _]%orb_false_iff _]. exists age, e. split_and!; [done|lia|done|done].
Qed.

(** C36. A file becomes downloadable only by a verdict: the row turns clean by
    [MarkScanClean] on a row that was waiting for it, or by an upload that ends where
    no scan is asked for; and while the signature policy is enabled, by either way only
    with a proof that is fresh at the commit, by the policy's own age. *)
Theorem approvals_are_earned g req db db' id new : perform g req db = Some db' →
  attachments db' !! id = Some new → at_status new = StatusClean →
  let old := attachments db !! id in
  (∀ o, old = Some o → at_status o ≠ StatusClean) →
  (∃ o, old = Some o ∧
     ((∃ ws evidence, req = ReqMarkScanClean id ws evidence ∧ at_status o = StatusPendingScan ∧ live o = true ∧
                      sc_policy_version (at_scan o) <= FilePolicy.Version) ∨
      (∃ u, req = ReqMarkUploaded u ∧ ua_ID u = id ∧ ua_Status u = StatusClean ∧ at_status o = StatusPendingUpload))) ∧
  ∀ p, signature_policy db = Some p → sp_enabled p = true →
    ∃ age e, sp_max_age_seconds p = Some age ∧ 0 < age ∧ sc_proof (at_scan new) = Some e ∧
             fresh_evidence age (tx_commit (g_tx g)) e = true.
Proof.
  intros Hp Hn Hst. cbv zeta. intros Hold. pose proof (perform_effect _ _ _ _ Hp id) as He. unfold row_effect in He.
  destruct (attachments db !! id) as [old|] eqn:Eo.
  - specialize (Hold _ eq_refl). destruct He as (new' & Hn' & Hx). rewrite Hn in Hn'. injection Hn' as <-.
    destruct Hx as [->|(Ht & sets & f & Hch & -> & Hc & _ & Hf)]; [done|].
    assert (Es : at_status (f old) = StatusClean) by (revert Hst; unfold synced; by destruct (sets_preview sets)).
    split.
    + exists old. split; [done|]. destruct req; open_change Hch Hg; row_fields; try done; cbn [touched] in Ht.
      * right. exists u. apply andb_true_iff in Hg as [Hup%bool_decide_eq_true _]. done.
      * left. pose proof (approvable_status _ Hg) as Ha. unfold approvable in Hg. rewrite !andb_true_iff, Z.leb_le in Hg.
        subst. exists workspaceID. eexists. naive_solver.
      * left. pose proof (approvable_status _ Hg) as Ha. unfold approvable in Hg. rewrite !andb_true_iff, Z.leb_le in Hg.
        subst. exists workspaceID. eexists. naive_solver.
    + eapply (fresh_scan_commit _ _ _ _ Hf); [done|]. by intros o [= <-] ?.
  - destruct He as [He|(a & _ & _ & He & _)]; rewrite Hn in He; [done|]. injection He as ->. done.
Qed.

(** ** An example: a file uploaded, approved with a proof, previewed and removed *)

Definition toy_tx (t : Time) : Tx := {| tx_now := t; tx_clock := t + 1; tx_commit := t + 2 |}.
Definition toy_given (t : Time) : Given := {| g_locked := λ _, false; g_new_id := λ k, "job of " +:+ k; g_tx := toy_tx t |}.
Definition toy_policy : SignaturePolicy :=
  {| sp_enabled := true; sp_max_age_seconds := Some 86400; sp_approval_reference := Some "CHG-1" |}.
Definition toy_db : DB :=
  {| attachments := ∅; preview_pages := ∅; cleanup_jobs := ∅; signature_policy := Some toy_policy;
     message_attachments := ∅; message_status := ∅ |}.
Definition toy_new : NewAttachment :=
  {| na_PolicyVersion := 1; na_ID := "a"; na_WorkspaceID := "w"; na_UploaderID := "u";
     na_Destination := {| Destination_Kind := DestinationKindChannel; Destination_ID := "c" |};
     na_Filename := str_bytes "f.png"; na_DeclaredMIME := str_bytes "image/png"; na_StorageObjectKey := StorageObjectKey "a";
     na_EnvelopeVersion := 1; na_KeyWrapVersion := 2; na_DraftExpiresAt := None; na_AudioKind := "";
     na_DeclaredDurationMs := 0 |}.
Definition toy_uploaded : UploadedAttachment :=
  {| ua_PolicyVersion := 1; ua_FormatID := IDPNG; ua_ID := "a"; ua_Status := StatusPendingScan;
     ua_PreviewStatus := PreviewStatusPending; ua_DetectedMIME := "image/png"; ua_Size := 3; ua_CiphertextSize := 60;
     ua_WrappedDEK := [1]; ua_KEKKeyID := "k1" |}.
Definition toy_binding (o : string) : Binding :=
  {| bd_ObjectID := o; bd_Size := 9; bd_WrappedDEK := [2]; bd_KEKKeyID := "k1"; bd_EnvelopeVersion := 1; bd_KeyWrapVersion := 2 |}.
Definition toy_result (attempt : Z) : PreviewResult :=
  {| pr_AttachmentID := "a"; pr_ClaimAttempt := attempt; pr_binding := toy_binding "p1"; pr_PageCount := 2;
     pr_ExtraPages := [{| pp_PageNumber := 2; pp_binding := toy_binding "p2"; pp_ContentType := "" |}]; pr_ContentType := "" |}.

(** Requests one after the other, one hour apart from noon. *)
Fixpoint perform_all (t : Time) (reqs : list request) (db : DB) : option DB :=
  match reqs with
  | [] => Some db
  | req :: reqs => db' ← perform (toy_given t) req db; perform_all (t + Hour) reqs db'
  end.

Lemma perform_all_requested t reqs db db' : Forall sensible reqs → perform_all t reqs db = Some db' → rtc requested db db'.
Proof.
  intros Hs. revert t db. induction Hs as [|req reqs Hreq _ IH]; intros t db; cbn [perform_all]; [by intros [= ->]|].
  destruct (perform _ _ db) as [db1|] eqn:Hp; [|done]. intros H. eapply rtc_l; [|by eapply IH]. by exists (toy_given t), req.
Qed.

Definition toy_start : list request := [ReqCreatePending toy_new; ReqMarkUploaded toy_uploaded].
Definition toy_approve : request := ReqMarkScanClean "a" "w" (Some toy_evidence).
Definition toy_scanned : DB := default toy_db (perform_all (12 * Hour) toy_start toy_db).
Definition toy_clean : DB := default toy_db (perform (toy_given (14 * Hour)) toy_approve toy_scanned).
Definition toy_more : list request :=
  [ReqClaimDuePreviews 1 (75 * Second); ReqMarkPreviewReady (toy_result 1); ReqMarkScanRejected "a" "w"; ReqMarkAttachmentDeleted "a" "w"].
Definition toy_row (db : DB) : Row := default (pending_row 0 toy_new) (attachments db !! "a").

Lemma toy_rows_wf : rows_wf toy_scanned ∧ rows_wf toy_clean.
Proof.
  assert (rows_wf toy_db) as H0 by apply map_Forall_empty.
  assert (perform_all (12 * Hour) toy_start toy_db = Some toy_scanned) as H1 by (vm_compute; reflexivity).
  assert (perform (toy_given (14 * Hour)) toy_approve toy_scanned = Some toy_clean) as H2 by (vm_compute; reflexivity).
  assert (rows_wf toy_scanned) as Hs.
  { eapply (history toy_db); [done|]. eapply perform_all_requested; [|done]. repeat constructor. }
  split; [done|]. by apply (perform_rows _ _ _ _ Hs (I : sensible toy_approve) H2).
Qed.

Lemma stored_files_move_forward_witness :
  ∃ db', perform_all (15 * Hour) toy_more toy_clean = Some db' ∧
    attachments toy_clean !! "a" = Some (toy_row toy_clean) ∧ at_status (toy_row toy_clean) = StatusClean ∧
    ∃ new, attachments db' !! "a" = Some new ∧ at_status new = StatusRejected ∧ at_file new = at_file (toy_row toy_clean).
Proof.
  destruct (perform_all (15 * Hour) toy_more toy_clean) as [db'|] eqn:Hp; [|vm_compute in Hp; discriminate].
  exists db'. assert (Hrow : attachments toy_clean !! "a" = Some (toy_row toy_clean)) by (vm_compute; reflexivity).
  split_and!; [done|done|vm_compute; reflexivity|].
  destruct (stored_files_move_forward toy_clean db' "a" (toy_row toy_clean)) as (_ & new & Hn & Hf & _).
  - apply toy_rows_wf.
  - eapply perform_all_requested; [|done]. repeat constructor.
  - done.
  - exists new. split_and!; [done| |done]. revert Hn. vm_compute in Hp. injection Hp as <-. vm_compute. by intros [= <-].
Defined.


Lemma approvals_are_earned_witness :
  perform (toy_given (14 * Hour)) toy_approve toy_scanned = Some toy_clean ∧
  ∃ age e, sp_max_age_seconds toy_policy = Some age ∧ sc_proof (at_scan (toy_row toy_clean)) = Some e ∧
           fresh_evidence age (14 * Hour + 2) e = true.
Proof.
  assert (H2 : perform (toy_given (14 * Hour)) toy_approve toy_scanned = Some toy_clean) by (vm_compute; reflexivity).
  split; [done|].
  destruct (approvals_are_earned (toy_given (14 * Hour)) toy_approve toy_scanned toy_clean "a" (toy_row toy_clean))
    as [_ H]; [done|vm_compute; reflexivity|vm_compute; reflexivity| |].
  - intros o Ho. vm_compute in Ho. injection Ho as <-. vm_compute. discriminate.
  - destruct (H toy_policy) as (age & e & H1 & _ & H3 & H4); [vm_compute; reflexivity|done|].
    exists age, e. split; [exact H1|]. split; [exact H3|exact H4].
Defined.
