(* ===== verification/AttachmentReads.v ===== *)
(** * Who may read a stored file, and what a reader is given

    [services/file-service/internal/storage/authorizer.go], the authorized read and
    the listings of attachment_store.go, the session contract of
    [libs/go/platform/authsession], and the reading half of
    [internal/service/attachment_service.go]: metadata, listings, downloads and
    previews.

    The tables of sessions, workspaces, channels and conversations belong to other
    services: they are a record the queries read. *)

From stdpp Require Import prelude gmap strings sorting.
From Stdlib Require Import ZArith Lia.
From S2P Require Import Prelude GoStrings Utf8 Codec FilePolicy FileDomain Envelope AttachmentRange Uploads Signatures Attachments AttachmentRows.
Local Open Scope Z_scope.

(** ** The tables read *)

Record SessionRow := { ss_user_id : string; ss_revoked : bool; ss_idle_expires_at : Time; ss_absolute_expires_at : option Time }.
Record UserRow := { us_status : string; us_deleted : bool }.
Record WorkspaceRow := { ws_status : string; ws_max_upload_bytes : Z }.
Record WorkspaceMemberRow := { wm_status : string; wm_role : string }.
Record ChannelRow := { ch_workspace_id : string; ch_status : string; ch_type : string }.
Record ConversationRow := { dc_workspace_id : string; dc_status : string }.

Record Directory := {
  user_sessions : gmap string SessionRow; users : gmap string UserRow; workspaces : gmap string WorkspaceRow;
  workspace_members : gmap (string * string) WorkspaceMemberRow; channels : gmap string ChannelRow;
  channel_members : gset (string * string); dm_conversations : gmap string ConversationRow;
  dm_members : gmap (string * string) string }.

(** [authsession.ActiveSessionCTE]: when the session ends, if it is active. *)
Definition ActiveSessionCTE (now : Time) (dir : Directory) (sessionID userID : string) : option Time :=
  match user_sessions dir !! sessionID, users dir !! userID with
  | Some s, Some u =>
      if (ss_user_id s == userID) && negb (ss_revoked s) && (now <? ss_idle_expires_at s) &&
         match ss_absolute_expires_at s with None => true | Some t => now <? t end &&
         (us_status u == "active") && negb (us_deleted u)
      then Some (match ss_absolute_expires_at s with None => ss_idle_expires_at s | Some t => Z.min (ss_idle_expires_at s) t end)
      else None
  | _, _ => None
  end.

Definition active_member (dir : Directory) (workspaceID userID : string) : bool :=
  match workspace_members dir !! (workspaceID, userID) with Some m => wm_status m == "active" | None => false end.
Definition active_workspace (dir : Directory) (workspaceID : string) : option WorkspaceRow :=
  match workspaces dir !! workspaceID with Some w => if ws_status w == "active" then Some w else None | None => None end.

(** The function [chat.channel_visible_to_user] (migration 000022 of the chat schema). *)
Definition channel_visible_to_user (dir : Directory) (channelID userID : string) : bool :=
  match channels dir !! channelID with
  | Some c =>
      match workspace_members dir !! (ch_workspace_id c, userID) with
      | Some m => (wm_status m == "active") &&
          (((channelID, userID) ∈? channel_members dir) ||
           ((wm_role m ∈? ["owner"; "admin"; "moderator"; "member"]) && (ch_type c == "public")))
      | None => false
      end
  | None => false
  end.

(** ** The destination of an upload or a listing *)

Definition channelDestinationQuery (dir : Directory) (channelID userID : string) : option Uploads.AuthorizedDestination :=
  c ← channels dir !! channelID;
  w ← active_workspace dir (ch_workspace_id c);
  if active_member dir (ch_workspace_id c) userID && (ch_status c == "active") && channel_visible_to_user dir channelID userID
  then Some {| ad_ID := channelID; ad_WorkspaceID := ch_workspace_id c; ad_MaxUploadBytes := ws_max_upload_bytes w |}
  else None.
Definition dmDestinationQuery (dir : Directory) (conversationID userID : string) : option Uploads.AuthorizedDestination :=
  c ← dm_conversations dir !! conversationID;
  w ← active_workspace dir (dc_workspace_id c);
  if active_member dir (dc_workspace_id c) userID && bool_decide (dm_members dir !! (conversationID, userID) = Some "active") &&
     (dc_status c == "active")
  then Some {| ad_ID := conversationID; ad_WorkspaceID := dc_workspace_id c; ad_MaxUploadBytes := ws_max_upload_bytes w |}
  else None.

Definition AuthorizeDestination (now : Time) (dir : Directory) (d : Destination) (userID sessionID : string)
  : result Uploads.AuthorizedDestination :=
  guard! DestinationKind_Valid (Destination_Kind d) else ErrWrap "invalid destination kind" FileDomain.ErrInvalidInput ;;
  match ActiveSessionCTE now dir sessionID userID with
  | None => Fail FileDomain.ErrUnauthorized
  | Some _ =>
      match (if Destination_Kind d == DestinationKindChannel then channelDestinationQuery dir (Destination_ID d) userID
             else dmDestinationQuery dir (Destination_ID d) userID) with
      | None => Fail FileDomain.ErrNotFound
      | Some a => Ok a
      end
  end.

(** ** The authorized read of one row *)

Record StoredAttachment := {
  sa_ID : string; sa_WorkspaceID : string; sa_Kind : string; sa_Status : Status; sa_Filename : list Z;
  sa_DeclaredMIME : list Z; sa_DetectedMIME : string; sa_Size : Z; sa_StorageObjectKey : string; sa_EnvelopeVersion : Z;
  sa_WrappedDEK : bytes; sa_KEKKeyID : string; sa_KeyWrapVersion : Z; sa_CreatedAt : Time; sa_SessionExpiresAt : Time;
  sa_AudioKind : string; sa_DeclaredDurationMs : Z; sa_PreviewStatus : PreviewStatus; sa_PreviewObjectID : string;
  sa_PreviewSize : Z; sa_PreviewWrappedDEK : bytes; sa_PreviewKEKKeyID : string; sa_PreviewEnvelopeVersion : Z;
  sa_PreviewKeyWrapVersion : Z; sa_PreviewPageCount : Z; sa_PreviewContentType : string }.

(** The two [EXISTS] of [authorizedAttachmentQuery]. *)
Definition reachable_channel (dir : Directory) (workspaceID channelID userID : string) : bool :=
  match channels dir !! channelID with
  | Some c =>
      match active_workspace dir (ch_workspace_id c) with Some _ => true | None => false end &&
      active_member dir (ch_workspace_id c) userID && (ch_workspace_id c == workspaceID) && (ch_status c == "active") &&
      channel_visible_to_user dir channelID userID
  | None => false
  end.
Definition reachable_dm (dir : Directory) (workspaceID conversationID userID : string) : bool :=
  match dm_conversations dir !! conversationID with
  | Some c =>
      match active_workspace dir (dc_workspace_id c) with Some _ => true | None => false end &&
      active_member dir (dc_workspace_id c) userID &&
      bool_decide (dm_members dir !! (conversationID, userID) = Some "active") &&
      (dc_workspace_id c == workspaceID) && (dc_status c == "active")
  | None => false
  end.

Definition stored_attachment (id : string) (expires : Time) (r : Row) : StoredAttachment :=
  let p := at_preview r in
  {| sa_ID := id; sa_WorkspaceID := at_WorkspaceID (at_file r); sa_Kind := Destination_Kind (at_Destination (at_file r));
     sa_Status := at_status r; sa_Filename := at_Filename (at_file r); sa_DeclaredMIME := at_DeclaredMIME (at_file r);
     sa_DetectedMIME := match at_content r with Some c => ct_DetectedMIME c | None => "" end;
     sa_Size := match at_content r with Some c => ct_Size c | None => 0 end;
     sa_StorageObjectKey := at_StorageObjectKey (at_file r); sa_EnvelopeVersion := at_EnvelopeVersion (at_file r);
     sa_WrappedDEK := match at_content r with Some c => ct_WrappedDEK c | None => [] end;
     sa_KEKKeyID := match at_content r with Some c => ct_KEKKeyID c | None => "" end;
     sa_KeyWrapVersion := at_KeyWrapVersion (at_file r); sa_CreatedAt := at_CreatedAt (at_file r);
     sa_SessionExpiresAt := expires; sa_AudioKind := default "" (at_AudioKind (at_file r));
     sa_DeclaredDurationMs := default 0 (at_DeclaredDurationMs (at_file r)); sa_PreviewStatus := pv_status p;
     sa_PreviewObjectID := match pv_binding p with Some b => bd_ObjectID b | None => "" end;
     sa_PreviewSize := match pv_binding p with Some b => bd_Size b | None => 0 end;
     sa_PreviewWrappedDEK := match pv_binding p with Some b => bd_WrappedDEK b | None => [] end;
     sa_PreviewKEKKeyID := match pv_binding p with Some b => bd_KEKKeyID b | None => "" end;
     sa_PreviewEnvelopeVersion := match pv_binding p with Some b => bd_EnvelopeVersion b | None => 0 end;
     sa_PreviewKeyWrapVersion := match pv_binding p with Some b => bd_KeyWrapVersion b | None => 0 end;
     sa_PreviewPageCount := pv_page_count p; sa_PreviewContentType := pv_content_type p |}.

Definition GetAuthorized (now : Time) (dir : Directory) (db : DB) (attachmentID userID sessionID : string)
  : result StoredAttachment :=
  match ActiveSessionCTE now dir sessionID userID with
  | None => Fail FileDomain.ErrUnauthorized
  | Some expires =>
      match attachments db !! attachmentID with
      | Some r =>
          let d := at_Destination (at_file r) in
          let ws := at_WorkspaceID (at_file r) in
          if live r && not_withdrawn db attachmentID &&
             (((Destination_Kind d == DestinationKindChannel) && reachable_channel dir ws (Destination_ID d) userID) ||
              ((Destination_Kind d == DestinationKindDM) && reachable_dm dir ws (Destination_ID d) userID))
          then Ok (stored_attachment attachmentID expires r)
          else Fail FileDomain.ErrNotFound
      | None => Fail FileDomain.ErrNotFound
      end
  end.

(** ** The service *)

Section service.
Context {cipher : AEAD}.
(** [uuid.Parse], to the canonical text and to the bytes; SHA-256; the key ring. *)
Context (uuid_Parse : string → option string) (parse_uuid : string → option bytes) (sha256 : bytes → bytes).
Context (keys : option Keyring).
(** The object store, by key; whether the service was given all its dependencies. *)
Context (objects : string → ObjectStore) (Ready : bool).

Definition parsePrincipal (userID sessionID : string) : result (string * string) :=
  match uuid_Parse userID, uuid_Parse sessionID with
  | Some u, Some s => Ok (u, s)
  | _, _ => Fail FileDomain.ErrUnauthorized
  end.

Record AttachmentAuthInput := { ai_AttachmentID : string; ai_UserID : string; ai_SessionID : string }.

Definition authorizedAttachment (now : Time) (dir : Directory) (db : DB) (input : AttachmentAuthInput) : result StoredAttachment :=
  '(userID, sessionID) ← parsePrincipal (ai_UserID input) (ai_SessionID input);
  match uuid_Parse (ai_AttachmentID input) with
  | None => Fail FileDomain.ErrNotFound
  | Some id => GetAuthorized now dir db id userID sessionID
  end.

Definition downloadableAttachment (now : Time) (dir : Directory) (db : DB) (input : AttachmentAuthInput) : result StoredAttachment :=
  record ← authorizedAttachment now dir db input;
  guard! Downloadable (sa_Status record) else ErrNotDownloadable ;;
  Ok record.

(** An object as [openEncryptedObject] is given it, with its key in the store. *)
Definition contentObject (r : StoredAttachment) : string * encryptedObject :=
  (sa_StorageObjectKey r,
   {| eo_objectID := sa_ID r; eo_workspaceID := sa_WorkspaceID r; eo_size := sa_Size r; eo_wrappedDEK := sa_WrappedDEK r;
      eo_kekKeyID := sa_KEKKeyID r; eo_keyWrapVersion := sa_KeyWrapVersion r; eo_envelopeVersion := sa_EnvelopeVersion r |}).
Definition previewObject (r : StoredAttachment) : result (string * encryptedObject) :=
  match uuid_Parse (sa_PreviewObjectID r) with
  | None => Fail ErrPreviewUnavailable
  | Some previewID =>
      Ok (PreviewObjectKey previewID,
          {| eo_objectID := sa_PreviewObjectID r; eo_workspaceID := sa_WorkspaceID r; eo_size := sa_PreviewSize r;
             eo_wrappedDEK := sa_PreviewWrappedDEK r; eo_kekKeyID := sa_PreviewKEKKeyID r;
             eo_keyWrapVersion := sa_PreviewKeyWrapVersion r; eo_envelopeVersion := sa_PreviewEnvelopeVersion r |})
  end.
Definition documentPreviewPageObject (r : StoredAttachment) (page : Attachments.PreviewPage) : result (string * encryptedObject) :=
  let b := pp_binding page in
  match uuid_Parse (bd_ObjectID b) with
  | None => Fail ErrPreviewUnavailable
  | Some pageID =>
      Ok (PreviewObjectKey pageID,
          {| eo_objectID := bd_ObjectID b; eo_workspaceID := sa_WorkspaceID r; eo_size := bd_Size b;
             eo_wrappedDEK := bd_WrappedDEK b; eo_kekKeyID := bd_KEKKeyID b;
             eo_keyWrapVersion := bd_KeyWrapVersion b; eo_envelopeVersion := bd_EnvelopeVersion b |})
  end.

Record Opened := { op_Filename : list Z; op_ContentType : string; op_Size : Z; op_Object : string * encryptedObject }.

Definition contentType (r : StoredAttachment) : string :=
  if sa_DetectedMIME r == "" then DefaultContentType else sa_DetectedMIME r.

(** What the three routes open, before anything of the object is read; [Ready] is the
    constructor's check of the service's dependencies. *)
Definition download_object (now : Time) (dir : Directory) (db : DB) (input : AttachmentAuthInput) : result Opened :=
  guard! Ready else ErrDependenciesUnavailable ;;
  record ← downloadableAttachment now dir db input;
  Ok {| op_Filename := sa_Filename record; op_ContentType := contentType record; op_Size := sa_Size record;
        op_Object := contentObject record |}.
Definition preview_object (now : Time) (dir : Directory) (db : DB) (input : AttachmentAuthInput) : result Opened :=
  guard! Ready else ErrDependenciesUnavailable ;;
  record ← downloadableAttachment now dir db input;
  guard! Servable (sa_PreviewStatus record) else ErrPreviewUnavailable ;;
  object ← previewObject record;
  Ok {| op_Filename := sa_Filename record; op_ContentType := sa_PreviewContentType record;
        op_Size := sa_PreviewSize record; op_Object := object |}.
Definition preview_page_object (now : Time) (dir : Directory) (db db' : DB) (input : AttachmentAuthInput) (page : Z) : result Opened :=
  guard! Ready else ErrDependenciesUnavailable ;;
  record ← downloadableAttachment now dir db input;
  guard! Servable (sa_PreviewStatus record) else ErrPreviewUnavailable ;;
  guard! negb ((page <? 2) || (sa_PreviewPageCount record <? page)) else FileDomain.ErrNotFound ;;
  pageRecord ← GetPreviewPage (sa_ID record) page db';
  object ← documentPreviewPageObject record pageRecord;
  Ok {| op_Filename := sa_Filename record; op_ContentType := pp_ContentType pageRecord;
        op_Size := bd_Size (pp_binding pageRecord); op_Object := object |}.

(** The [Download] a caller is given: what it reads from, or why not.  The page query
    of [DocumentPreviewPage] is its own statement: [db'] is the state it sees. *)
Record Served := { sv_Filename : list Z; sv_ContentType : string; sv_Size : Z; sv_Content : rangeReader }.
Definition open_object (o : result Opened) : option (result Served) :=
  match o with
  | Fail e => Some (Fail e)
  | Ok o =>
      match openEncryptedObject parse_uuid sha256 (objects (fst (op_Object o))) keys (snd (op_Object o)) with
      | None => None
      | Some (Fail e) => Some (Fail e)
      | Some (Ok reader) =>
          Some (Ok {| sv_Filename := op_Filename o; sv_ContentType := op_ContentType o; sv_Size := op_Size o;
                      sv_Content := reader |})
      end
  end.
Definition Download now dir db input : option (result Served) := open_object (download_object now dir db input).
Definition Preview now dir db input : option (result Served) := open_object (preview_object now dir db input).
Definition DocumentPreviewPage now dir db db' input page : option (result Served) :=
  open_object (preview_page_object now dir db db' input page).

(** *** Metadata and listings *)

Record AttachmentView := {
  av_ID : string; av_Filename : list Z; av_ContentType : string; av_Size : Z; av_Status : string; av_PreviewStatus : string;
  av_PreviewPageCount : Z; av_PreviewContentType : string; av_DestinationKind : string; av_CreatedAt : Time;
  av_AudioKind : string; av_DurationMs : Z }.

Definition Metadata (now : Time) (dir : Directory) (db : DB) (input : AttachmentAuthInput) : result AttachmentView :=
  guard! Ready else ErrDependenciesUnavailable ;;
  record ← authorizedAttachment now dir db input;
  Ok {| av_ID := sa_ID record; av_Filename := sa_Filename record; av_ContentType := contentType record;
        av_Size := sa_Size record; av_Status := Status_text (sa_Status record);
        av_PreviewStatus := PreviewStatus_text (sa_PreviewStatus record); av_PreviewPageCount := sa_PreviewPageCount record;
        av_PreviewContentType := sa_PreviewContentType record; av_DestinationKind := sa_Kind record;
        av_CreatedAt := sa_CreatedAt record; av_AudioKind := sa_AudioKind record;
        av_DurationMs := sa_DeclaredDurationMs record |}.

(** The read sees [db], the statement after it [db']. *)
Definition RegenerateDocumentPreview (now : Time) (dir : Directory) (db : DB) (tx : Tx) (db' : DB)
    (input : AttachmentAuthInput) : result (unit * DB) :=
  guard! Ready else ErrDependenciesUnavailable ;;
  record ← authorizedAttachment now dir db input;
  Attachments.RegenerateDocumentPreview tx (sa_ID record) db'.

Record ListDestinationAttachmentsInput := {
  li_Destination : Destination; li_UserID : string; li_SessionID : string; li_Limit : Z; li_Before : string }.
Record AttachmentListPage := { al_Attachments : list AttachmentView; al_NextCursor : string }.

Definition listCursor (token : string) : result (option AttachmentListCursor) :=
  if token == "" then Ok None
  else cursor ← DecodeAttachmentListCursor uuid_Parse token; Ok (Some cursor).

Definition listedAttachmentView (kind : string) (record : ListedAttachment) : AttachmentView :=
  {| av_ID := la_ID record; av_Filename := la_Filename record;
     av_ContentType := if la_DetectedMIME record == "" then DefaultContentType else la_DetectedMIME record;
     av_Size := la_Size record; av_Status := Status_text (la_Status record);
     av_PreviewStatus := PreviewStatus_text (la_PreviewStatus record); av_PreviewPageCount := 0;
     av_PreviewContentType := ""; av_DestinationKind := kind; av_CreatedAt := la_CreatedAt record;
     av_AudioKind := la_AudioKind record; av_DurationMs := la_DeclaredDurationMs record |}.

(** Authorization sees [db]'s directory [dir]; the listing is a statement of its own. *)
Definition ListDestinationAttachments (now : Time) (dir : Directory) (db : DB) (input : ListDestinationAttachmentsInput)
  : result AttachmentListPage :=
  guard! Ready else ErrDependenciesUnavailable ;;
  match NewDestination uuid_Parse (Destination_Kind (li_Destination input)) (Destination_ID (li_Destination input)) with
  | Fail _ => Fail FileDomain.ErrNotFound
  | Ok destination =>
      before ← listCursor (li_Before input);
      '(userID, sessionID) ← parsePrincipal (li_UserID input) (li_SessionID input);
      authorized ← AuthorizeDestination now dir destination userID sessionID;
      page ← Attachments.ListDestinationAttachments
               {| lq_WorkspaceID := ad_WorkspaceID authorized;
                  lq_Destination := {| Destination_Kind := Destination_Kind destination; Destination_ID := ad_ID authorized |};
                  lq_Limit := NormalizeAttachmentListLimit (li_Limit input); lq_Before := before |} db;
      Ok {| al_Attachments := listedAttachmentView (Destination_Kind destination) <$> lp_Attachments page;
            al_NextCursor := match lp_Next page with Some c => EncodeAttachmentListCursor c | None => "" end |}
  end.

End service.


(** ** A stored file is read where its destination is open to the reader *)

Lemma reachable_channel_iff dir ws id user :
  reachable_channel dir ws id user = true ↔ ∃ a, channelDestinationQuery dir id user = Some a ∧ ad_WorkspaceID a = ws.
Proof.
  unfold reachable_channel, channelDestinationQuery.
  destruct (channels dir !! id) as [c|]; cbn [mbind option_bind]; [|split; [done|by intros (? & ? & ?)] ].
  destruct (active_workspace dir (ch_workspace_id c)) as [w|]; cbn [mbind option_bind andb]; [|split; [done|by intros (? & ? & ?)] ].
  destruct (active_member _ _ _), (ch_status c == "active"), (channel_visible_to_user _ _ _); cbn [andb];
    rewrite ?andb_false_r; try (split; [done|by intros (? & ? & ?)]). rewrite !andb_true_r, bool_decide_eq_true.
  split; [intros E; by eexists|]. by intros (a & [= <-] & E).
Qed.

Lemma reachable_dm_iff dir ws id user :
  reachable_dm dir ws id user = true ↔ ∃ a, dmDestinationQuery dir id user = Some a ∧ ad_WorkspaceID a = ws.
Proof.
  unfold reachable_dm, dmDestinationQuery.
  destruct (dm_conversations dir !! id) as [c|]; cbn [mbind option_bind]; [|split; [done|by intros (? & ? & ?)] ].
  destruct (active_workspace dir (dc_workspace_id c)) as [w|]; cbn [mbind option_bind andb]; [|split; [done|by intros (? & ? & ?)] ].
  destruct (active_member _ _ _), (bool_decide (dm_members dir !! _ = _)), (dc_status c == "active"); cbn [andb];
    rewrite ?andb_false_r; try (split; [done|by intros (? & ? & ?)]). rewrite !andb_true_r, bool_decide_eq_true.
  split; [intros E; by eexists|]. by intros (a & [= <-] & E).
Qed.

Lemma destination_reachable now dir d ws user session expires : ActiveSessionCTE now dir session user = Some expires →
  ((Destination_Kind d == DestinationKindChannel) && reachable_channel dir ws (Destination_ID d) user ||
   (Destination_Kind d == DestinationKindDM) && reachable_dm dir ws (Destination_ID d) user) = true ↔
  ∃ a, AuthorizeDestination now dir d user session = Ok a ∧ ad_WorkspaceID a = ws.
Proof.
  intros Ha. unfold AuthorizeDestination, DestinationKind_Valid. rewrite Ha, orb_true_iff, !andb_true_iff, !bool_decide_eq_true.
  rewrite reachable_channel_iff, reachable_dm_iff. destruct (decide (Destination_Kind d = DestinationKindChannel)) as [E|E].
  - rewrite (bool_decide_eq_true_2 (_ = _)) by done. cbn [orb].
    split; [intros [ [_ (a & -> & <-)]|[E' _] ]; [by eexists|by rewrite E in E']|].
    intros (a & H & <-). left. split; [done|]. destruct (channelDestinationQuery _ _ _); [|done]. injection H as ->. by eexists.
  - rewrite (bool_decide_eq_false_2 (_ = _)) by done. cbn [orb].
    destruct (decide (Destination_Kind d = DestinationKindDM)) as [E'|E'].
    + rewrite (bool_decide_eq_true_2 (_ = _)) by done.
      split; [intros [ [? _]|[_ (a & -> & <-)] ]; [done|by eexists]|].
      intros (a & H & <-). right. split; [done|]. destruct (dmDestinationQuery _ _ _); [|done]. injection H as ->. by eexists.
    + rewrite (bool_decide_eq_false_2 (_ = _)) by done. split; [by intros [ [? _]|[? _] ]|by intros (? & ? & _)].
Qed.

Lemma GetAuthorized_Ok now dir db id user session s :
  GetAuthorized now dir db id user session = Ok s ↔
  ∃ expires r a, ActiveSessionCTE now dir session user = Some expires ∧ attachments db !! id = Some r ∧
    live r = true ∧ not_withdrawn db id = true ∧
    AuthorizeDestination now dir (at_Destination (at_file r)) user session = Ok a ∧
    ad_WorkspaceID a = at_WorkspaceID (at_file r) ∧ s = stored_attachment id expires r.
Proof.
  unfold GetAuthorized. destruct (ActiveSessionCTE now dir session user) as [expires|] eqn:Ha;
    [|split; [done|by intros (? & ? & ? & ? & _)] ].
  destruct (attachments db !! id) as [r|]; [|split; [done|by intros (? & ? & ? & _ & ? & _)] ]. cbv zeta.
  pose proof (destination_reachable now dir (at_Destination (at_file r)) (at_WorkspaceID (at_file r)) user session expires Ha) as Hd.
  destruct (live r && not_withdrawn db id) eqn:Hl; [|].
  - apply andb_true_iff in Hl as [Hl Hw]. cbn [andb]. destruct (_ || _).
    + destruct (proj1 Hd eq_refl) as (a & Hok & Hws). split; [intros [= <-]; by exists expires, r, a|].
      intros (? & ? & ? & [= <-] & [= <-] & _ & _ & _ & _ & ->). done.
    + split; [done|]. intros (? & ? & a & _ & [= <-] & _ & _ & Hok & Hws & _). exfalso. assert (false = true) by (apply Hd; eauto). done.
  - cbn [andb]. split; [done|]. intros (? & ? & a & _ & [= <-] & H1 & H2 & _). by rewrite H1, H2 in Hl.
Qed.

(** C39. The one query that authorizes a read agrees with the one that authorizes an
    upload: a row is answered exactly to the callers the destination itself would be
    opened to, in the row's own workspace, while it is neither removed nor part of a
    message that no longer stands; and a refusal says only whether the session is alive,
    never which of the other reasons it was. *)
Theorem reads_follow_the_destination now dir db id user session :
  (∀ s, GetAuthorized now dir db id user session = Ok s ↔
     ∃ expires r a, ActiveSessionCTE now dir session user = Some expires ∧ attachments db !! id = Some r ∧
       live r = true ∧ not_withdrawn db id = true ∧
       AuthorizeDestination now dir (at_Destination (at_file r)) user session = Ok a ∧
       ad_WorkspaceID a = at_WorkspaceID (at_file r) ∧ s = stored_attachment id expires r) ∧
  (∀ e, GetAuthorized now dir db id user session = Fail e →
     e = if ActiveSessionCTE now dir session user then FileDomain.ErrNotFound else FileDomain.ErrUnauthorized).
Proof.
  split; [intros s; apply GetAuthorized_Ok|]. intros e. unfold GetAuthorized.
  destruct (ActiveSessionCTE _ _ _ _); [|by intros [= <-] ]. destruct (attachments db !! id); [|by intros [= <-] ].
  cbv zeta. destruct (_ && _); [done|]. by intros [= <-].
Qed.

(** ** What is served *)

Inductive route := RouteContent | RoutePreview | RoutePage (page : Z).

Definition route_object uuid_Parse (Ready : bool) (ro : route) now dir db db' input : result Opened :=
  match ro with
  | RouteContent => download_object uuid_Parse Ready now dir db input
  | RoutePreview => preview_object uuid_Parse Ready now dir db input
  | RoutePage page => preview_page_object uuid_Parse Ready now dir db db' input page
  end.

Lemma downloadable_Ok uuid_Parse now dir db input s : downloadableAttachment uuid_Parse now dir db input = Ok s →
  ∃ id user session r a expires, uuid_Parse (ai_AttachmentID input) = Some id ∧ uuid_Parse (ai_UserID input) = Some user ∧
    uuid_Parse (ai_SessionID input) = Some session ∧ ActiveSessionCTE now dir session user = Some expires ∧
    attachments db !! id = Some r ∧ live r = true ∧ not_withdrawn db id = true ∧ at_status r = StatusClean ∧
    AuthorizeDestination now dir (at_Destination (at_file r)) user session = Ok a ∧
    ad_WorkspaceID a = at_WorkspaceID (at_file r) ∧ s = stored_attachment id expires r.
Proof.
  unfold downloadableAttachment, authorizedAttachment, parsePrincipal. intros (s' & H & Hd)%bind_Ok.
  apply guard_Ok in Hd as [Hd [= <-] ]. apply bind_Ok in H as ([user session] & Hp & H).
  destruct (uuid_Parse (ai_UserID input)) as [u|]; [|done]. destruct (uuid_Parse (ai_SessionID input)) as [se|]; [|done].
  injection Hp as -> ->. destruct (uuid_Parse (ai_AttachmentID input)) as [id|]; [|done].
  apply GetAuthorized_Ok in H as (expires & r & a & ? & ? & ? & ? & ? & ? & ->).
  unfold Downloadable in Hd. apply bool_decide_eq_true in Hd. exists id, user, session, r, a, expires. done.
Qed.

(** The object each route opens, read off the row (and the page's row). *)
Definition named_object uuid_Parse (ro : route) (db' : DB) (id : string) (r : Row) (object : string * encryptedObject) : Prop :=
  let ws := at_WorkspaceID (at_file r) in
  let of_binding (b : Binding) := ∃ o, uuid_Parse (bd_ObjectID b) = Some o ∧ object =
    (PreviewObjectKey o, {| eo_objectID := bd_ObjectID b; eo_workspaceID := ws; eo_size := bd_Size b;
       eo_wrappedDEK := bd_WrappedDEK b; eo_kekKeyID := bd_KEKKeyID b; eo_keyWrapVersion := bd_KeyWrapVersion b;
       eo_envelopeVersion := bd_EnvelopeVersion b |}) in
  match ro with
  | RouteContent => ∃ c, at_content r = Some c ∧ object =
      (at_StorageObjectKey (at_file r),
       {| eo_objectID := id; eo_workspaceID := ws; eo_size := ct_Size c; eo_wrappedDEK := ct_WrappedDEK c;
          eo_kekKeyID := ct_KEKKeyID c; eo_keyWrapVersion := at_KeyWrapVersion (at_file r);
          eo_envelopeVersion := at_EnvelopeVersion (at_file r) |})
  | RoutePreview => pv_status (at_preview r) = PreviewStatusReady ∧ ∃ b, pv_binding (at_preview r) = Some b ∧ of_binding b
  | RoutePage n => pv_status (at_preview r) = PreviewStatusReady ∧ 2 <= n <= pv_page_count (at_preview r) ∧
      ∃ pg, preview_pages db' !! (id, n) = Some pg ∧ of_binding (pg_binding pg)
  end.

Lemma Servable_ready s : Servable s = true → s = PreviewStatusReady.
Proof. by destruct s. Qed.

Lemma ready_binding r : row_wf r → pv_status (at_preview r) = PreviewStatusReady → is_Some (pv_binding (at_preview r)).
Proof.
  intros Hwf Hr. pose proof (wf_check _ Hwf) as Hc. revert Hc. unfold row_check.
  rewrite !andb_true_iff. intros [ [ [_ Hb] _] _]. destruct (pv_binding (at_preview r)); [by eexists|].
  by apply bool_decide_eq_true in Hb.
Qed.

Lemma clean_content r : row_wf r → at_status r = StatusClean → is_Some (at_content r).
Proof.
  intros Hwf Hs. destruct (at_content r) eqn:E; [by eexists|]. apply (wf_content _ Hwf) in E as [E|E]; congruence.
Qed.

Lemma route_object_Ok uuid_Parse Ready ro now dir db db' input o : rows_wf db →
  route_object uuid_Parse Ready ro now dir db db' input = Ok o →
  ∃ id user session r a, uuid_Parse (ai_AttachmentID input) = Some id ∧ uuid_Parse (ai_UserID input) = Some user ∧
    uuid_Parse (ai_SessionID input) = Some session ∧ is_Some (ActiveSessionCTE now dir session user) ∧
    attachments db !! id = Some r ∧ live r = true ∧ not_withdrawn db id = true ∧ at_status r = StatusClean ∧
    AuthorizeDestination now dir (at_Destination (at_file r)) user session = Ok a ∧
    ad_WorkspaceID a = at_WorkspaceID (at_file r) ∧
    op_Filename o = at_Filename (at_file r) ∧ named_object uuid_Parse ro db' id r (op_Object o) ∧
    op_Size o = eo_size (op_Object o).2.
Proof.
  intros Hwf H.
  assert (∃ s, downloadableAttachment uuid_Parse now dir db input = Ok s) as [s Hd].
  { destruct ro; apply guard_Ok in H as [_ H]; apply bind_Ok in H as (s & Hs & _); by exists s. }
  pose proof (downloadable_Ok _ _ _ _ _ _ Hd) as (id & user & session & r & a & expires & ? & ? & ? & Ha & Hr & ? & ? & Hs & ? & ? & ->).
  exists id, user, session, r, a. do 3 (split; [done|]). split; [by rewrite Ha|].
  pose proof (Hwf _ _ Hr) as Hrw. do 6 (split; [done|]).
  destruct ro; cbn [route_object] in H; apply guard_Ok in H as [_ H]; rewrite Hd in H; cbn [mbind result_bind] in H.
  - injection H as <-. split; [done|]. split; [|done]. destruct (clean_content _ Hrw Hs) as [c Hc]. exists c. split; [done|].
    cbn. unfold contentObject, stored_attachment. cbn. by rewrite Hc.
  - apply guard_Ok in H as [Hp%Servable_ready H]. cbn in Hp. destruct (ready_binding _ Hrw Hp) as [b Hb].
    apply bind_Ok in H as (obj & Ho & [= <-]). unfold previewObject in Ho. cbn in Ho. rewrite Hb in Ho.
    destruct (uuid_Parse (bd_ObjectID b)) as [k|] eqn:Hk; [|done]. injection Ho as <-. split; [done|]. split.
    + split; [done|]. exists b. split; [done|]. by exists k.
    + cbn. by rewrite Hb.
  - apply guard_Ok in H as [Hp%Servable_ready H]. cbn in Hp. apply guard_Ok in H as [Hn H].
    apply bind_Ok in H as (pg & Hg & H). apply bind_Ok in H as (obj & Ho & [= <-]).
    unfold GetPreviewPage in Hg. cbn in Hg, Hn. destruct (preview_pages db' !! (id, page)) as [pr|] eqn:Hpg; [|done].
    injection Hg as <-. unfold documentPreviewPageObject in Ho. cbn in Ho.
    destruct (uuid_Parse (bd_ObjectID (pg_binding pr))) as [k|] eqn:Hk; [|done]. injection Ho as <-.
    split; [done|]. split; [|done]. cbn.
    apply negb_true_iff, orb_false_iff in Hn as [? ?]. split; [done|]. split; [lia|]. exists pr. split; [done|]. by exists k.
Qed.

(** C14. No byte of a file is opened for a reader who could not open its destination at
    that moment, nor before the scan has approved the file, nor after it was removed or
    its message withdrawn: of content, previews and pages alike.  What is opened is the
    object the row names: a preview only while it is published, a page only within the
    published count, each under its own identity. *)
Theorem only_approved_content_is_opened uuid_Parse Ready ro now dir db db' input o : rows_wf db →
  route_object uuid_Parse Ready ro now dir db db' input = Ok o →
  ∃ id user session r a, uuid_Parse (ai_AttachmentID input) = Some id ∧ uuid_Parse (ai_UserID input) = Some user ∧
    uuid_Parse (ai_SessionID input) = Some session ∧ is_Some (ActiveSessionCTE now dir session user) ∧
    attachments db !! id = Some r ∧ live r = true ∧ not_withdrawn db id = true ∧ at_status r = StatusClean ∧
    AuthorizeDestination now dir (at_Destination (at_file r)) user session = Ok a ∧
    ad_WorkspaceID a = at_WorkspaceID (at_file r) ∧
    op_Filename o = at_Filename (at_file r) ∧ named_object uuid_Parse ro db' id r (op_Object o) ∧
    op_Size o = eo_size (op_Object o).2.
Proof. apply route_object_Ok. Qed.

(** C15. Reads across a file's life.  However many requests have been performed since a
    row was seen, in whatever order: a file that was removed, rejected or failed is
    never opened again by anyone, and what a reader of its content is given is the object
    of the upload - the same key in the store, identity, length and sealed key - so the
    bytes uploaded are the only ones ever served under that identifier. *)
Theorem reads_never_go_back uuid_Parse Ready ro now dir db db1 db' input id old o : rows_wf db → rtc requested db db1 →
  attachments db !! id = Some old → uuid_Parse (ai_AttachmentID input) = Some id →
  route_object uuid_Parse Ready ro now dir db1 db' input = Ok o →
  live old = true ∧ at_status old ≠ StatusRejected ∧ at_status old ≠ StatusFailed ∧
  op_Filename o = at_Filename (at_file old) ∧
  (at_content old ≠ None → ro = RouteContent → named_object uuid_Parse RouteContent db' id old (op_Object o)).
Proof.
  intros Hwf Hr Hold Hid H. destruct (history _ _ Hwf Hr) as [Hwf1 He]. destruct (He _ _ Hold) as (new & Hn & []).
  apply (route_object_Ok _ _ _ _ _ _ _ _ _ Hwf1) in H as (id' & user & session & r & a & Hid' & _ & _ & _ & Hr1 & Hl & _ & Hs & _ & _ & Hf & Hobj & _).
  rewrite Hid in Hid'. injection Hid' as <-. rewrite Hn in Hr1. injection Hr1 as <-. split_and!.
  - unfold live in *. destruct (at_deleted_at old) as [t|] eqn:E; [|done]. by rewrite (lt_deleted _ eq_refl) in Hl.
  - intros E. rewrite E, Hs in lt_status. done.
  - intros E. rewrite E, Hs in lt_status. done.
  - by rewrite Hf, lt_file.
  - intros Hc ->. destruct (at_content old) as [c|] eqn:Ec; [|done]. destruct Hobj as (c' & Hc' & ->).
    rewrite (lt_content _ eq_refl) in Hc'. injection Hc' as <-. exists c. split; [done|]. by rewrite lt_file.
Qed.

(** ** An example: the reader of a previewed file in a public channel *)

Definition toy_directory : Directory :=
  {| user_sessions := {["s" := {| ss_user_id := "u"; ss_revoked := false; ss_idle_expires_at := 48 * Hour;
                                  ss_absolute_expires_at := Some (30 * Hour) |}]};
     users := {["u" := {| us_status := "active"; us_deleted := false |}]};
     workspaces := {["w" := {| ws_status := "active"; ws_max_upload_bytes := 1000 |}]};
     workspace_members := {[("w", "u") := {| wm_status := "active"; wm_role := "member" |}]};
     channels := {["c" := {| ch_workspace_id := "w"; ch_status := "active"; ch_type := "public" |}]};
     channel_members := ∅; dm_conversations := ∅; dm_members := ∅ |}.
Definition toy_preview : list request := [ReqClaimDuePreviews 1 (75 * Second); ReqMarkPreviewReady (toy_result 1)].
Definition toy_previewed : DB := default toy_db (perform_all (15 * Hour) toy_preview toy_clean).
Definition toy_input : AttachmentAuthInput := {| ai_AttachmentID := "a"; ai_UserID := "u"; ai_SessionID := "s" |}.
Definition toy_opened (ro : route) : result Opened :=
  route_object Some true ro (20 * Hour) toy_directory toy_previewed toy_previewed toy_input.

Lemma toy_previewed_requested : rtc requested toy_clean toy_previewed.
Proof.
  assert (H : perform_all (15 * Hour) toy_preview toy_clean = Some toy_previewed) by (vm_compute; reflexivity).
  apply (perform_all_requested (15 * Hour) toy_preview); [repeat constructor|exact H].
Qed.

Lemma toy_previewed_wf : rows_wf toy_previewed.
Proof. by apply (history toy_clean _ (proj2 toy_rows_wf) toy_previewed_requested). Qed.

Example toy_routes :
  (∃ o, toy_opened RouteContent = Ok o ∧ fst (op_Object o) = "nchat/attachments/a" ∧ op_Size o = 3) ∧
  (∃ o, toy_opened (RoutePage 2) = Ok o ∧ fst (op_Object o) = "nchat/previews/p2") ∧
  toy_opened (RoutePage 3) = Fail FileDomain.ErrNotFound ∧
  route_object Some true RouteContent (31 * Hour) toy_directory toy_previewed toy_previewed toy_input = Fail FileDomain.ErrUnauthorized ∧
  route_object Some true RouteContent (20 * Hour) toy_directory toy_scanned toy_scanned toy_input = Fail ErrNotDownloadable.
Proof. split_and!; [eexists; split_and!; vm_compute; reflexivity|eexists; split_and!; vm_compute; reflexivity|vm_compute; reflexivity..]. Qed.

Lemma only_approved_content_is_opened_witness :
  ∃ o, toy_opened RoutePreview = Ok o ∧ fst (op_Object o) = "nchat/previews/p1" ∧
    ∃ r, attachments toy_previewed !! "a" = Some r ∧ at_status r = StatusClean.
Proof.
  destruct (toy_opened RoutePreview) as [o|] eqn:Ho; [|vm_compute in Ho; discriminate].
  pose proof (only_approved_content_is_opened Some true RoutePreview (20 * Hour) toy_directory toy_previewed toy_previewed toy_input o
    toy_previewed_wf Ho) as (id & user & session & r & a & Hid & _ & _ & _ & Hr & _ & _ & Hs & _).
  injection Hid as <-. exists o. split; [reflexivity|]. split; [vm_compute in Ho; injection Ho as <-; reflexivity|].
  exists r. split; [exact Hr|exact Hs].
Defined.

Lemma reads_never_go_back_witness :
  ∃ o, toy_opened RouteContent = Ok o ∧ op_Filename o = str_bytes "f.png" ∧
    named_object Some RouteContent toy_previewed "a" (toy_row toy_clean) (op_Object o).
Proof.
  destruct (toy_opened RouteContent) as [o|] eqn:Ho; [|vm_compute in Ho; discriminate].
  pose proof (reads_never_go_back Some true RouteContent (20 * Hour) toy_directory toy_clean toy_previewed toy_previewed toy_input "a"
    (toy_row toy_clean) o (proj2 toy_rows_wf) toy_previewed_requested ltac:(vm_compute; reflexivity) eq_refl Ho)
    as (_ & _ & _ & Hf & Hobj).
  exists o. split; [reflexivity|]. split; [rewrite Hf; vm_compute; reflexivity|].
  apply Hobj; [vm_compute; discriminate|reflexivity].
Defined.
