(* ===== verification/AttachmentList.v ===== *)
(** * Listing the stored files of a destination, page after page

    The keyset pagination of [ListDestinationAttachments]
    ([services/file-service/internal/service/attachment_service.go] and
    [internal/storage/attachment_store.go]), followed by a client from token to token
    while the database goes on changing under it: what is shown, in which order, and
    that it ends. *)

From stdpp Require Import prelude gmap strings sorting.
From Stdlib Require Import ZArith Lia.
From S2P Require Import Prelude GoStrings Utf8 Codec FilePolicy FileDomain Cursors Envelope AttachmentRange Uploads Signatures Attachments AttachmentRows AttachmentReads.
Local Open Scope Z_scope.

(** ** The order of a listing *)

#[export] Instance before_trans : Transitive before.
Proof.
  intros [t1 i1] [t2 i2] [t3 i3] H1 H2. unfold before in *. cbn [fst snd] in *.
  destruct H1 as [?|(-> & Hle & Hne)], H2 as [?|(-> & Hle' & Hne')]; [left; lia|left; lia|left; lia|].
  right. split; [done|]. split; [by etrans|]. intros ->. apply Hne'. by apply (anti_symm String.le).
Qed.

Lemma before_irrefl x : ¬ before x x.
Proof. unfold before. intros [?|(_ & _ & ?)]; [lia|done]. Qed.

Lemma before_total x y : x = y ∨ before x y ∨ before y x.
Proof.
  destruct x as [t1 i1], y as [t2 i2]. unfold before. cbn [fst snd].
  destruct (Z.lt_total t1 t2) as [?|[->|?] ]; [auto| |auto].
  destruct (decide (i1 = i2)) as [->|Hne]; [auto|]. right. destruct (total String.le i1 i2); [left|right]; right; auto.
Qed.

#[export] Instance newest_first_trans : Transitive newest_first.
Proof.
  intros x y z. unfold newest_first. intros [->|H1] [E|H2]; rewrite <-?E; auto. right. by etrans.
Qed.
#[export] Instance newest_first_total : Total newest_first.
Proof. intros x y. unfold newest_first. destruct (before_total (stamp x) (stamp y)) as [->|[?|?] ]; auto. Qed.

Definition newer (x y : ListedAttachment) : Prop := before (stamp y) (stamp x).

Lemma newer_sorted l : NoDup (stamp <$> l) → StronglySorted newest_first l → StronglySorted newer l.
Proof.
  induction l as [|x l IH]; intros Hnd Hs; [constructor|]. cbn in Hnd. apply NoDup_cons in Hnd as [Hx Hnd].
  apply StronglySorted_inv in Hs as [Hs Hf]. constructor; [by apply IH|]. rewrite Forall_forall in *. intros y Hy.
  destruct (Hf _ Hy) as [E|H]; [|done]. destruct Hx. rewrite E. by apply list_elem_of_fmap_2.
Qed.

Lemma last_of_sorted l x y : StronglySorted newer l → last l = Some x → y ∈ l → y = x ∨ newer y x.
Proof.
  intros Hs (l' & ->)%last_Some [Hy|Hy%list_elem_of_singleton]%elem_of_app; [|auto].
  right. eapply StronglySorted_app_1_elem_of; [done|done|by apply list_elem_of_singleton].
Qed.

Lemma NormalizeAttachmentListLimit_range n : 1 <= NormalizeAttachmentListLimit n <= 50.
Proof.
  unfold NormalizeAttachmentListLimit, DefaultAttachmentListLimit, MaxAttachmentListLimit.
  destruct (n <=? 0) eqn:?; [lia|]. destruct (50 <? n) eqn:?; lia.
Qed.

(** ** One page *)

Definition listable_in (q : ListDestinationAttachmentsQuery) (db : DB) (id : string) (r : Row) : Prop :=
  attachments db !! id = Some r ∧ listable_row q db id r = true.

(** Everything a query could answer, in order. *)
Definition all_listed (q : ListDestinationAttachmentsQuery) (db : DB) : list ListedAttachment :=
  merge_sort newest_first ((λ kv, listed (fst kv) (snd kv)) <$>
    map_to_list (filter (λ kv, listable_row q db (fst kv) (snd kv) = true) (attachments db))).

Lemma elem_of_all_listed q db l : l ∈ all_listed q db ↔ ∃ id r, listable_in q db id r ∧ l = listed id r.
Proof.
  unfold all_listed. rewrite merge_sort_Permutation, list_elem_of_fmap. split.
  - intros ([id r] & -> & H). apply elem_of_map_to_list, map_lookup_filter_Some in H as [? ?]. by exists id, r.
  - intros (id & r & [? ?] & ->). exists (id, r). split; [done|]. by apply elem_of_map_to_list, map_lookup_filter_Some.
Qed.

Lemma all_listed_sorted q db : StronglySorted newer (all_listed q db).
Proof.
  apply newer_sorted; [|apply (StronglySorted_merge_sort newest_first)].
  unfold all_listed. rewrite merge_sort_Permutation. rewrite <-list_fmap_compose.
  apply NoDup_fmap_2_strong; [|apply NoDup_map_to_list].
  intros [i r] [j s] Hi%elem_of_map_to_list Hj%elem_of_map_to_list. unfold stamp. cbn. intros [= _ ->]. congruence.
Qed.

(** A page is a beginning of everything there is to list, and says how to go on. *)
Definition page_of (q : ListDestinationAttachmentsQuery) (db : DB) (p : ListedAttachmentPage) : Prop :=
  ∃ rest, all_listed q db = lp_Attachments p ++ rest ∧
    Z.of_nat (length (lp_Attachments p)) <= NormalizeAttachmentListLimit (lq_Limit q) ∧
    match lp_Next p with
    | None => rest = []
    | Some c => ∃ l, last (lp_Attachments p) = Some l ∧ (ac_CreatedAt c, ac_ID c) = stamp l
    end.

Lemma one_page q db : DestinationKind_Valid (Destination_Kind (lq_Destination q)) = true →
  ∃ p, Attachments.ListDestinationAttachments q db = Ok p ∧ page_of q db p.
Proof.
  intros Hk. unfold Attachments.ListDestinationAttachments. rewrite Hk. fold (all_listed q db).
  pose proof (NormalizeAttachmentListLimit_range (lq_Limit q)) as Hl. unfold page_of. revert Hl.
  generalize (NormalizeAttachmentListLimit (lq_Limit q)) as limit. intros limit Hl. eexists. split; [reflexivity|]. cbv zeta. unfold listedPage. rewrite length_take.
  destruct (Z.of_nat _ <=? limit) eqn:Hle.
  - apply Z.leb_le in Hle. exists []. cbn [lp_Attachments lp_Next]. rewrite app_nil_r, length_take.
    rewrite take_ge by lia. split; [done|]. split; [lia|done].
  - apply Z.leb_gt in Hle. rewrite take_take. replace (Z.to_nat limit `min` Z.to_nat (limit + 1))%nat with (Z.to_nat limit) by lia.
    exists (drop (Z.to_nat limit) (all_listed q db)). cbn [lp_Attachments lp_Next].
    rewrite take_drop, length_take. split; [done|]. split; [lia|].
    destruct (last (take (Z.to_nat limit) (all_listed q db))) as [l|] eqn:E; cbn; [by exists l|].
    apply last_None in E. apply (f_equal length) in E. rewrite length_take in E. cbn in E. lia.
Qed.

(** ** Following the tokens *)

Definition with_before (token : string) (input : ListDestinationAttachmentsInput) : ListDestinationAttachmentsInput :=
  {| li_Destination := li_Destination input; li_UserID := li_UserID input; li_SessionID := li_SessionID input;
     li_Limit := li_Limit input; li_Before := token |}.

Lemma AuthorizeDestination_ID now dir d user session a : AuthorizeDestination now dir d user session = Ok a →
  ad_ID a = Destination_ID d ∧ DestinationKind_Valid (Destination_Kind d) = true.
Proof.
  unfold AuthorizeDestination. intros [Hk H]%guard_Ok. split; [|done]. destruct (ActiveSessionCTE _ _ _ _); [|done].
  destruct (Destination_Kind d == DestinationKindChannel).
  - destruct (channelDestinationQuery _ _ _) as [a'|] eqn:Hq; [injection H as ->|done].
    apply bind_Some in Hq as (c & _ & Hq). apply bind_Some in Hq as (w & _ & Hq).
    destruct (_ && _); [by injection Hq as <-|done].
  - destruct (dmDestinationQuery _ _ _) as [a'|] eqn:Hq; [injection H as ->|done].
    apply bind_Some in Hq as (c & _ & Hq). apply bind_Some in Hq as (w & _ & Hq).
    destruct (_ && _); [by injection Hq as <-|done].
Qed.

Definition views (kind : string) (pages : list (list ListedAttachment)) : list (list AttachmentView) :=
  (λ page : list ListedAttachment, listedAttachmentView kind <$> page) <$> pages.

Section browse.
Context (uuid_Parse : string → option string).
(** The instant, the directory and the database each request finds. *)
Context (now : nat → Time) (dir : nat → Directory) (db : nat → DB).
Context (input : ListDestinationAttachmentsInput).

Definition request_page (k : nat) (token : string) : result AttachmentListPage :=
  AttachmentReads.ListDestinationAttachments uuid_Parse true (now k) (dir k) (db k) (with_before token input).

(** A client that asks for the next page until there is none; [None] when a request is
    refused, or there is no end within [fuel] pages. *)
Fixpoint browse (fuel k : nat) (token : string) : option (list (list AttachmentView)) :=
  match fuel with
  | O => None
  | S fuel =>
      match request_page k token with
      | Fail _ => None
      | Ok p => if al_NextCursor p == "" then Some [al_Attachments p]
                else cons (al_Attachments p) <$> browse fuel (S k) (al_NextCursor p)
      end
  end.

Context (d : Destination) (user session ws : string).
Hypothesis Hdestination : NewDestination uuid_Parse (Destination_Kind (li_Destination input)) (Destination_ID (li_Destination input)) = Ok d.
Hypothesis Hprincipal : parsePrincipal uuid_Parse (li_UserID input) (li_SessionID input) = Ok (user, session).
Hypothesis Hauthorized : ∀ k, ∃ a, AuthorizeDestination (now k) (dir k) d user session = Ok a ∧ ad_WorkspaceID a = ws.
(** PostgreSQL writes a [uuid] canonically, and the instants are those of the calendar. *)
Hypothesis Hcanonical : ∀ k id r, attachments (db k) !! id = Some r →
  RFC3339.printable (at_CreatedAt (at_file r)) ∧ uuid_Parse id = Some id.
Hypothesis Hfiles : ∀ j k id r, (j ≤ k)%nat → attachments (db j) !! id = Some r →
  ∃ r', attachments (db k) !! id = Some r' ∧ at_file r' = at_file r.

Definition query (c : option AttachmentListCursor) : ListDestinationAttachmentsQuery :=
  {| lq_WorkspaceID := ws; lq_Destination := d; lq_Limit := NormalizeAttachmentListLimit (li_Limit input); lq_Before := c |}.

Definition token (c : option AttachmentListCursor) : string :=
  match c with Some c => EncodeAttachmentListCursor c | None => "" end.

Definition good_cursor (c : option AttachmentListCursor) : Prop :=
  ∀ c', c = Some c' → RFC3339.printable (ac_CreatedAt c') ∧ uuid_Parse (ac_ID c') = Some (ac_ID c').

Lemma listCursor_token c : good_cursor c → listCursor uuid_Parse (token c) = Ok c.
Proof.
  destruct c as [c|]; [|done]. intros Hc. destruct (Hc _ eq_refl) as [Hp Hid]. unfold listCursor. cbn [token].
  unfold EncodeAttachmentListCursor. rewrite bool_decide_eq_false_2 by (by apply encode_stamped_not_empty).
  unfold DecodeAttachmentListCursor. rewrite split_encode, parse_stamp, Hid by done. by destruct c.
Qed.

Lemma d_valid : DestinationKind_Valid (Destination_Kind d) = true.
Proof. destruct (Hauthorized 0) as (a & Ha & _). by apply AuthorizeDestination_ID in Ha as [_ ?]. Qed.

Lemma request_page_Ok k c : good_cursor c →
  ∃ p, page_of (query c) (db k) p ∧
    request_page k (token c) = Ok {| al_Attachments := listedAttachmentView (Destination_Kind d) <$> lp_Attachments p;
                                     al_NextCursor := token (lp_Next p) |}.
Proof.
  intros Hc. destruct (one_page (query c) (db k) d_valid) as (p & Hp & Hpage). exists p. split; [done|].
  unfold request_page, AttachmentReads.ListDestinationAttachments, with_before. cbn [li_Destination li_UserID li_SessionID li_Limit li_Before].
  rewrite Hdestination, listCursor_token, Hprincipal by done. cbn [mbind result_bind].
  destruct (Hauthorized k) as (a & Ha & Hws). rewrite Ha. cbn [mbind result_bind].
  apply AuthorizeDestination_ID in Ha as [Hid _]. rewrite Hws, Hid.
  replace {| Destination_Kind := Destination_Kind d; Destination_ID := Destination_ID d |} with d by (by destruct d).
  fold (query c). by rewrite Hp.
Qed.

Definition older_than (c : option AttachmentListCursor) (x : Time * string) : Prop :=
  match c with None => True | Some c => before x (ac_CreatedAt c, ac_ID c) end.

Lemma listable_older c db' id r : listable_in (query c) db' id r ↔
  listable_in (query None) db' id r ∧ older_than c (stamp (listed id r)).
Proof.
  unfold listable_in, listable_row, older_than. cbn [query lq_Destination lq_WorkspaceID lq_Before]. rewrite andb_true_r, andb_true_iff.
  destruct c as [c|]; [rewrite bool_decide_eq_true|]; cbn; naive_solver.
Qed.

(** What the pages from the [k]-th request on contain, given the rows a listing could
    still meet. *)
Lemma browse_from fuel k c (S' : gset string) : good_cursor c →
  (∀ j id r, (k ≤ j)%nat → listable_in (query c) (db j) id r → id ∈ S') → (size S' < fuel)%nat →
  ∃ pages, browse fuel k (token c) = Some (fmap (listedAttachmentView (Destination_Kind d)) <$> pages) ∧
    Forall (λ p, Z.of_nat (length p) <= NormalizeAttachmentListLimit (li_Limit input)) pages ∧
    StronglySorted newer (mjoin pages) ∧
    (∀ l, l ∈ mjoin pages → ∃ j id r, listable_in (query c) (db j) id r ∧ l = listed id r) ∧
    (∀ id, (∀ j, (k ≤ j)%nat → ∃ r, listable_in (query c) (db j) id r) → ∃ l, l ∈ mjoin pages ∧ la_ID l = id).
Proof.
  revert k c S'. induction fuel as [|fuel IH]; intros k c S' Hc Hbound Hfuel; [lia|]. cbn [browse].
  destruct (request_page_Ok k c Hc) as (p & (rest & Hall & Hlen & Hnext) & ->). cbn [al_NextCursor al_Attachments].
  pose proof (all_listed_sorted (query c) (db k)) as Hsort. rewrite Hall in Hsort. apply StronglySorted_app in Hsort as (Hpr & Hps & Hrs).
  assert (Hsound : ∀ l, l ∈ lp_Attachments p → ∃ id r, listable_in (query c) (db k) id r ∧ l = listed id r).
  { intros l Hl. apply elem_of_all_listed. rewrite Hall. apply elem_of_app. by left. }
  assert (Hlen' : Z.of_nat (length (lp_Attachments p)) <= NormalizeAttachmentListLimit (li_Limit input)).
  { etrans; [exact Hlen|]. cbn [query lq_Limit]. pose proof (NormalizeAttachmentListLimit_range (li_Limit input)) as [H1 H2].
    unfold NormalizeAttachmentListLimit at 1. destruct (_ <=? 0) eqn:?; [lia|]. destruct (_ <? _) eqn:E; [|lia].
    unfold MaxAttachmentListLimit in *. lia. }
  destruct (lp_Next p) as [c'|] eqn:En.
  - destruct Hnext as (l & Hlast & Hstamp). cbn [token].
    assert (Hlin : l ∈ lp_Attachments p) by (by apply last_Some_elem_of).
    destruct (Hsound _ Hlin) as (lid & lr & Hlr & ->). pose proof Hlr as [Hrow _].
    destruct (Hcanonical _ _ _ Hrow) as [Hprint Hparse].
    assert (Hc' : good_cursor (Some c')).
    { unfold stamp in Hstamp. cbn in Hstamp. injection Hstamp as E1 E2. intros ? [= <-]. by rewrite E1, E2. }
    unfold EncodeAttachmentListCursor at 1. rewrite bool_decide_eq_false_2
      by (apply encode_stamped_not_empty; by destruct (Hc' _ eq_refl)).
    fold (EncodeAttachmentListCursor c'). change (EncodeAttachmentListCursor c') with (token (Some c')).
    apply listable_older in Hlr as [Hlr Holder].
    assert (Hmono : ∀ db' id r, listable_in (query (Some c')) db' id r → listable_in (query c) db' id r).
    { intros db' id r [H1 H2]%listable_older. apply listable_older. split; [done|]. cbn in H2. rewrite Hstamp in H2.
      destruct c as [c|]; [|done]. cbn in *. by etrans. }
    destruct (IH (S k) (Some c') (S' ∖ {[lid]}) Hc') as (pages & -> & Hl & Hs & Hsnd & Hcpl).
    + intros j id r Hj Hin. apply elem_of_difference. split; [apply (Hbound j id r); [lia|by apply Hmono]|].
      intros ->%elem_of_singleton. destruct (Hfiles k j lid lr) as (r' & Hr' & Hf); [lia|done|].
      apply listable_older in Hin as [ [Hr _] Hb]. rewrite Hr' in Hr. injection Hr as ->. cbn in Hb. rewrite Hstamp in Hb.
      unfold stamp in Hb. cbn in Hb. rewrite Hf in Hb. by apply before_irrefl in Hb.
    + assert (lid ∈ S') by (apply (Hbound k lid lr); [done|by apply listable_older]).
      assert (S' ∖ {[lid]} ⊂ S') by set_solver. pose proof (subset_size (S' ∖ {[lid]}) S' ltac:(done)). lia.
    + exists (lp_Attachments p :: pages). split; [done|]. split; [by constructor|]. cbn [mjoin list_join].
      assert (Hold : ∀ l', l' ∈ mjoin pages → newer (listed lid lr) l').
      { intros l' (j & id & r & [_ Hb]%listable_older & ->)%Hsnd. cbn in Hb. unfold newer. by rewrite Hstamp in Hb. }
      split_and!.
      * apply StronglySorted_app. split_and!; [|done|done]. intros x y Hx Hy%Hold.
        destruct (last_of_sorted _ _ _ Hps Hlast Hx) as [->|Hn]; [done|]. unfold newer in *. by etrans.
      * intros l' [Hl'|Hl']%elem_of_app; [destruct (Hsound _ Hl') as (id & r & ?); eauto|].
        destruct (Hsnd _ Hl') as (j & id & r & Hin & ->). exists j, id, r. auto.
      * intros id Hid. destruct (Hid k) as (r & Hr); [done|].
        assert (listed id r ∈ all_listed (query c) (db k)) as Hin by (apply elem_of_all_listed; eauto).
        rewrite Hall, elem_of_app in Hin. destruct Hin as [Hin|Hin]; [exists (listed id r); split; [apply elem_of_app; by left|done]|].
        pose proof (Hpr _ _ Hlin Hin) as Hbef.
        destruct (Hcpl id) as (l' & Hl' & E); [|exists l'; split; [apply elem_of_app; by right|done] ].
        intros j Hj. destruct (Hid j) as (r' & Hr'); [lia|]. exists r'. apply listable_older. apply listable_older in Hr' as [Hr' _].
        split; [done|]. cbn. rewrite Hstamp. destruct Hr as [Hr _], Hr' as [Hr' _].
        destruct (Hfiles k j id r) as (r'' & Hr'' & Hf); [lia|done|]. rewrite Hr' in Hr''. injection Hr'' as <-.
        unfold newer, stamp in Hbef. cbn in Hbef. unfold stamp. cbn. by rewrite Hf.
  - subst rest. cbn [token]. exists [lp_Attachments p]. cbn [mjoin list_join]. rewrite !app_nil_r in *.
    split_and!; [by rewrite bool_decide_eq_true_2|by constructor|done| |].
    + intros l Hl. destruct (Hsound _ Hl) as (id & r & ?). eauto.
    + intros id Hid. destruct (Hid k) as (r & Hr); [done|]. exists (listed id r). split; [|done].
      rewrite <-Hall. apply elem_of_all_listed. eauto.
Qed.

End browse.

Lemma newer_NoDup l : StronglySorted newer l → (∀ x y, x ∈ l → y ∈ l → la_ID x = la_ID y → stamp x = stamp y) →
  NoDup (la_ID <$> l).
Proof.
  induction 1 as [|x l Hs IH Hf]; intros Hid; cbn; [constructor|]. rewrite Forall_forall in Hf. constructor.
  - intros (y & E & Hy)%list_elem_of_fmap. specialize (Hf _ Hy). unfold newer in Hf.
    rewrite (Hid x y) in Hf; [by apply before_irrefl in Hf|by left|by right|done].
  - apply IH. intros y z Hy Hz. apply Hid; by right.
Qed.

(** C38. A client that follows the tokens of a listing it may read, while uploads, scans,
    previews and removals go on in any order, reaches the end of it within one page more
    than there are files: no page is longer than the limit; no file is shown twice, and
    every one is older than those before it; only files of the destination the reader
    was authorized for are shown, each as it stood when its page was read; and none is
    missed that could be listed throughout. *)
Theorem listings_page_through uuid_Parse now dir db input d user session ws (S' : gset string) :
  NewDestination uuid_Parse (Destination_Kind (li_Destination input)) (Destination_ID (li_Destination input)) = Ok d →
  parsePrincipal uuid_Parse (li_UserID input) (li_SessionID input) = Ok (user, session) →
  (∀ k, ∃ a, AuthorizeDestination (now k) (dir k) d user session = Ok a ∧ ad_WorkspaceID a = ws) →
  rows_wf (db 0%nat) → (∀ k, rtc requested (db k) (db (S k))) →
  (∀ k id r, attachments (db k) !! id = Some r → RFC3339.printable (at_CreatedAt (at_file r)) ∧ uuid_Parse id = Some id) →
  (∀ k, dom (attachments (db k)) ⊆ S') →
  ∃ pages : list (list ListedAttachment), let shown : list ListedAttachment := mjoin (M:=list) pages in
    browse uuid_Parse now dir db input (S (size S')) 0 "" = Some (views (Destination_Kind d) pages) ∧
    Forall (λ p, Z.of_nat (length p) <= NormalizeAttachmentListLimit (li_Limit input)) pages ∧
    StronglySorted newer shown ∧ NoDup (la_ID <$> (shown : list ListedAttachment)) ∧
    (∀ l, l ∈ shown → ∃ k id r, listable_in (query input d ws None) (db k) id r ∧ l = listed id r) ∧
    (∀ id, (∀ k, ∃ r, listable_in (query input d ws None) (db k) id r) → ∃ l, l ∈ shown ∧ la_ID l = id).
Proof.
  intros Hd Hp Ha Hwf Hreq Hcan Hdom.
  assert (Hruns : ∀ j k, (j ≤ k)%nat → rtc requested (db j) (db k)).
  { intros j k Hjk. induction Hjk as [|k _ IH]; [done|]. by etrans. }
  assert (Hfiles : ∀ j k id r, (j ≤ k)%nat → attachments (db j) !! id = Some r →
    ∃ r', attachments (db k) !! id = Some r' ∧ at_file r' = at_file r).
  { intros j k id r Hjk Hr. destruct (history _ _ Hwf (Hruns 0%nat j ltac:(lia))) as [Hwfj _].
    destruct (history _ _ Hwfj (Hruns j k Hjk)) as [_ H]. destruct (H _ _ Hr) as (r' & ? & []). by exists r'. }
  destruct (browse_from uuid_Parse now dir db input d user session ws Hd Hp Ha Hcan Hfiles (S (size S')) 0 None S')
    as (pages & Hb & Hlen & Hs & Hsnd & Hcpl); [done| |lia|].
  { intros j id r _ [Hr _]. apply (Hdom j). by apply elem_of_dom_2 in Hr. }
  exists pages. cbv zeta. split_and!; try done.
  2: { intros id H. apply Hcpl. by intros j _. }
  apply newer_NoDup; [done|].
  intros x y (j & id & r & [Hr _] & ->)%Hsnd (j' & id' & r' & [Hr' _] & ->)%Hsnd. cbn. intros <-.
  unfold stamp. cbn. f_equal. destruct (Nat.le_ge_cases j j') as [Hj|Hj].
  - destruct (Hfiles _ _ _ _ Hj Hr) as (? & E & <-). rewrite Hr' in E. by injection E as ->.
  - destruct (Hfiles _ _ _ _ Hj Hr') as (? & E & <-). rewrite Hr in E. by injection E as ->.
Qed.

(** ** An example: one file in a public channel *)

Definition toy_listing : ListDestinationAttachmentsInput :=
  {| li_Destination := {| Destination_Kind := DestinationKindChannel; Destination_ID := "c" |}; li_UserID := "u";
     li_SessionID := "s"; li_Limit := 0; li_Before := "" |}.
Definition toy_browse : option (list (list AttachmentView)) :=
  browse Some (λ _, 20 * Hour) (λ _, toy_directory) (λ _, toy_previewed) toy_listing 2 0 "".

Lemma listings_page_through_witness : ∃ pages, toy_browse = Some pages ∧
  ∃ shown : list ListedAttachment, NoDup (la_ID <$> shown) ∧ ∃ l, l ∈ shown ∧ la_ID l = "a".
Proof.
  destruct (listings_page_through Some (λ _, 20 * Hour) (λ _, toy_directory) (λ _, toy_previewed) toy_listing
    {| Destination_Kind := DestinationKindChannel; Destination_ID := "c" |} "u" "s" "w" {["a"]})
    as (pages & Hb & _ & _ & Hn & _ & Hc).
  - reflexivity.
  - reflexivity.
  - intros _. eexists. split; vm_compute; reflexivity.
  - exact toy_previewed_wf.
  - intros _. reflexivity.
  - intros _ id r Hr. split; [|reflexivity]. assert (Hall : map_Forall (λ _ r, at_CreatedAt (at_file r) = 12 * Hour) (attachments toy_previewed)).
    { apply map_Forall_to_list. vm_compute. repeat constructor. }
    rewrite (Hall _ _ Hr). split; vm_compute; discriminate.
  - intros _. apply (bool_decide_unpack _). vm_compute. exact I.
  - exists (views DestinationKindChannel pages). split; [exact Hb|].
    exists (mjoin (M:=list) pages). split; [exact Hn|]. apply Hc. intros _. exists (toy_row toy_previewed).
    split; vm_compute; reflexivity.
Defined.
