(* ===== verification/AttachmentObjects.v ===== *)
(** * What becomes of the objects of a preview

    The objects a preview leaves in the object store, the queue of removals that
    reclaims them ([services/file-service/internal/storage/object_cleanup_store.go]) and
    the worker that empties it ([internal/service/object_cleanup_service.go]): which
    statements hand an object over to the queue, and which do not. *)

From stdpp Require Import prelude gmap strings sorting.
From Stdlib Require Import ZArith Lia.
From S2P Require Import Prelude GoStrings Utf8 FilePolicy FileDomain Envelope Uploads Signatures Attachments AttachmentRows.
Local Open Scope Z_scope.

(** ** From published to queued *)

Lemma servable_iff r : servable r = true ↔
  pv_status (at_preview r) = PreviewStatusReady ∧ at_status r = StatusClean ∧ live r = true.
Proof. unfold servable. rewrite !andb_true_iff, !bool_decide_eq_true. tauto. Qed.

(** The requests that may end a publication; of these, the last two forget its object. *)
Definition ends_publication (req : request) : bool :=
  match req with
  | ReqMarkScanRejected _ _ | ReqMarkAttachmentDeleted _ _ | ReqExpireDuePreviews _ | ReqCancelDraft _ _ | ReqExpireDrafts _ => true
  | _ => false
  end.
Definition removes_draft (req : request) : bool :=
  match req with ReqCancelDraft _ _ | ReqExpireDrafts _ => true | _ => false end.

(** No other request's change applies to a published row, unless it leaves it so. *)
Lemma publication_kept g req old sets f : row_wf old → servable old = true → ends_publication req = false →
  change g req old = Some (sets, f) →
  servable (synced (g_tx g) sets (Some old) (f old)) = true ∧ object_of (synced (g_tx g) sets (Some old) (f old)) = object_of old.
Proof.
  intros Hwf (Hp & Hs & Hl)%servable_iff He Hch. pose proof (wf_preview _ Hwf) as Hw. rewrite Hp in Hw.
  destruct req; try discriminate He; open_change Hch Hg.
  - apply andb_true_iff in Hg as [Hg%bool_decide_eq_true _]. congruence.
  - apply bool_decide_eq_true in Hg. congruence.
  - split; [|done]. apply servable_iff. done.
  - split; [|done]. apply servable_iff. done.
  - unfold scan_due in Hg. rewrite !andb_true_iff, bool_decide_eq_true in Hg. destruct Hg as [ [ [? _] _] _]. congruence.
  - unfold preview_due in Hg. rewrite !andb_true_iff, bool_decide_eq_true in Hg. destruct Hg as [ [ [ [ [? _] _] _] _] _]. congruence.
  - unfold generating in Hg. rewrite !andb_true_iff, !bool_decide_eq_true in Hg. destruct Hg as [ [ [ [? _] _] _] _]. congruence.
  - unfold generating in Hg. rewrite !andb_true_iff, !bool_decide_eq_true in Hg. destruct Hg as [ [ [? _] _] _]. congruence.
  - unfold regenerable in Hg. rewrite !andb_true_iff, orb_true_iff, andb_true_iff, !bool_decide_eq_true in Hg.
    destruct Hg as [_ [Hg|[Hg _] ] ]; rewrite Hg in Hw; done.
  - split; [|done]. apply servable_iff. done.
Qed.

Lemma conclude_ready p : pv_status p = PreviewStatusReady → conclude_pending p = p.
Proof. unfold conclude_pending. by intros ->. Qed.

(** A removal or a rejection of a published row, by one of the two statements. *)
Lemma concluded_row_queued new_id g sets guard f id ws text db st db' old : row_wf old →
  lifecycle_statement new_id (g_tx g) sets guard f published_object id ws text db = Ok (st, db') →
  sets_preview sets = true → at_preview (f old) = conclude_pending (at_preview old) →
  attachments db !! id = Some old → pv_status (at_preview old) = PreviewStatusReady →
  ∀ o, object_of old = Some o → is_Some (cleanup_jobs db' !! PreviewObjectKey o).
Proof.
  intros Hwf H Hset Hf Hold Hp o Ho. unfold lifecycle_statement in H. rewrite Hold in H. destruct (_ && _); [|done].
  succeeded H. destruct (attachments x !! id) as [r'|] eqn:Hr'; [|done]. succeeded H. injection H as _ <-.
  apply row_update_Ok in Hs as [_ Hl]; [|apply NoDup_singleton]. rewrite Hl, Hold in Hr'. simpl in Hr'.
  rewrite bool_decide_eq_true_2 in Hr' by (by apply list_elem_of_singleton). injection Hr' as <-.
  destruct (synced_fields (g_tx g) sets old (f old) Hset) as (Ep & _).
  assert (He : pv_status (at_preview (f old)) = pv_status (at_preview old)) by (by rewrite Hf, (conclude_ready _ Hp)).
  destruct (moved_lifecycle (g_tx g) old _ He) as [M1 M2].
  pose proof (sync_spec (g_tx g).(tx_now) (Some (at_preview old)) (at_preview (f old))) as (_ & _ & _ & Qb & _).
  fold (moved (g_tx g) old (at_preview (f old))) in Qb. rewrite <-Ep in M1, Qb.
  assert (Hf' : at_preview (f old) = at_preview old) by (by rewrite Hf, (conclude_ready _ Hp)).
  rewrite Hf' in M1, Qb. rewrite (wf_preview _ Hwf), Hp in M1.
  rewrite (enqueue_jobs _ _ _ _ _ _ Hs0). destruct (cleanup_jobs x !! _); [done|]. rewrite bool_decide_eq_true_2; [done|].
  unfold published_object. rewrite M1, Qb. unfold object_of in Ho. destruct (pv_binding (at_preview old)) as [b|]; [|done].
  injection Ho as <-. by left.
Qed.

Lemma expired_row_queued g limit db db' id old o : perform g (ReqExpireDuePreviews limit) db = Some db' →
  attachments db !! id = Some old → preview_expired (tx_now (g_tx g)) old = true → object_of old = Some o →
  attachments db' !! id = attachments db !! id ∨ is_Some (cleanup_jobs db' !! PreviewObjectKey o).
Proof.
  intros H Hold Hexp Ho. cbn [perform] in H. unfold state_of in H.
  destruct (ExpireDuePreviews _ _ (g_tx g) limit db) as [ [? ?]|] eqn:Hc; [injection H as ->|done].
  unfold ExpireDuePreviews in Hc. succeeded Hc. injection Hc as _ <-.
  set (ids := batch _ _ _ _ _) in *. destruct (row_update_Ok _ _ _ _ _ _ (NoDup_batch _ _ _ _ _) Hs0) as [(_ & Hj & _) Hl].
  destruct (enqueue_frame _ _ _ _ _ Hs) as (He & _).
  destruct (decide (id ∈ ids)) as [Hin|Hin].
  - right. rewrite Hj. cbn [clear_pages set_pages cleanup_jobs]. rewrite (enqueue_jobs _ _ _ _ _ _ Hs).
    destruct (cleanup_jobs db !! _); [done|]. rewrite bool_decide_eq_true_2; [done|].
    unfold preview_keys. apply elem_of_app. left. apply list_elem_of_bind. exists id. split; [|exact Hin].
    rewrite Hold. cbn [mbind option_bind]. rewrite Ho. by left.
  - left. rewrite Hl. cbn [clear_pages set_pages attachments]. rewrite He, Hold. simpl. by rewrite bool_decide_eq_false_2.
Qed.

(** C40. No publication ends without its object being handed over: after any request but
    the removal of a draft, a preview that could be served is served still, from the
    same object, or that object is in the queue of removals. *)
Theorem publications_hand_over g req db db' id old o : rows_wf db → perform g req db = Some db' →
  removes_draft req = false → attachments db !! id = Some old → servable old = true → object_of old = Some o →
  (∃ new, attachments db' !! id = Some new ∧ servable new = true ∧ object_of new = Some o) ∨
  is_Some (cleanup_jobs db' !! PreviewObjectKey o).
Proof.
  intros Hwf Hp Hreq Hold Hserv Ho. pose proof (Hwf _ _ Hold) as Hrow.
  pose proof (perform_effect _ _ _ _ Hp id) as He. unfold row_effect in He. rewrite Hold in He.
  destruct He as (new & Hn & [->|(Ht & sets & f & Hch & -> & _)]); [left; by exists old|].
  destruct (ends_publication req) eqn:Hend.
  2:{ destruct (publication_kept _ _ _ _ _ Hrow Hserv Hend Hch) as [Hs Hob]. left. eexists. split; [exact Hn|]. by rewrite Hob. }
  apply servable_iff in Hserv as (Hready & Hclean & Hlive). destruct req; try discriminate; cbn [perform] in Hp; unfold state_of in Hp.
  - destruct (MarkScanRejected _ (g_tx g) id0 workspaceID db) as [ [? ?]|] eqn:Hc; [injection Hp as ->|done]. cbn [touched] in Ht. subst id0.
    unfold MarkScanRejected in Hc. succeeded Hc. right. eapply (concluded_row_queued _ g); [exact Hrow|exact Hc|done|done|done|done|done].
  - destruct (MarkAttachmentDeleted _ (g_tx g) id0 workspaceID db) as [ [? ?]|] eqn:Hc; [injection Hp as ->|done]. cbn [touched] in Ht. subst id0.
    unfold MarkAttachmentDeleted in Hc. succeeded Hc. right. eapply (concluded_row_queued _ g); [exact Hrow|exact Hc|done|done|done|done|done].
  - pose proof Hch as Hch'. open_change Hch' Hg.
    destruct (expired_row_queued g limit db db' id old o Hp Hold Hg Ho) as [E|Hq]; [|by right].
    left. exists old. rewrite E. split; [done|]. split; [|done]. by apply servable_iff.
Qed.

Definition toy_condemn : list request := [ReqClaimDuePreviews 1 (75 * Second); ReqMarkPreviewReady (toy_result 1); ReqMarkScanRejected "a" "w"].

Lemma publications_hand_over_witness :
  ∃ db' o, perform (toy_given (17 * Hour)) (ReqMarkScanRejected "a" "w")
             (default toy_db (perform_all (15 * Hour) (take 2 toy_condemn) toy_clean)) = Some db' ∧
    o = "p1" ∧ is_Some (cleanup_jobs db' !! PreviewObjectKey o).
Proof.
  set (db := default toy_db (perform_all (15 * Hour) (take 2 toy_condemn) toy_clean)).
  assert (Hdb : perform_all (15 * Hour) (take 2 toy_condemn) toy_clean = Some db) by (vm_compute; reflexivity).
  assert (Hwf : rows_wf db).
  { apply (history toy_clean db (proj2 toy_rows_wf)). apply (perform_all_requested (15 * Hour) (take 2 toy_condemn)); [repeat constructor|exact Hdb]. }
  destruct (perform (toy_given (17 * Hour)) (ReqMarkScanRejected "a" "w") db) as [db'|] eqn:Hp; [|vm_compute in Hp; discriminate].
  exists db', "p1". split; [reflexivity|]. split; [reflexivity|].
  destruct (publications_hand_over _ _ _ _ "a" (toy_row db) "p1" Hwf Hp) as [(new & Hn & Hs & _)|H];
    [reflexivity|vm_compute; reflexivity|vm_compute; reflexivity|vm_compute; reflexivity| |exact H].
  exfalso. vm_compute in Hp. injection Hp as <-. revert Hn Hs. vm_compute. intros [= <-]. discriminate.
Defined.

(** ** What is left behind *)

(** The second page's object of a preview whose file is removed: its row remains, and the
    queue does not have it; the expiry of previews passes over removed files. *)
Definition toy_removal : list request := take 2 toy_condemn ++ [ReqMarkAttachmentDeleted "a" "w"].

Example removed_pages_are_forgotten :
  ∃ db', perform_all (15 * Hour) toy_removal toy_clean = Some db' ∧ (∀ now, preview_expired now (toy_row db') = false) ∧
    (∃ p, preview_pages db' !! ("a", 2) = Some p ∧ bd_ObjectID (pg_binding p) = "p2") ∧
    is_Some (cleanup_jobs db' !! PreviewObjectKey "p1") ∧ cleanup_jobs db' !! PreviewObjectKey "p2" = None.
Proof.
  destruct (perform_all (15 * Hour) toy_removal toy_clean) as [db'|] eqn:H; [|vm_compute in H; discriminate].
  exists db'. split; [reflexivity|]. vm_compute in H. injection H as <-.
  split; [intros now; unfold preview_expired; apply andb_false_r|].
  split; [eexists; split; vm_compute; reflexivity|]. split; [eexists; vm_compute; reflexivity|vm_compute; reflexivity].
Qed.

(** A draft with a published preview is cancelled: the preview can no longer be served,
    and only the file's own object is queued. *)
Definition toy_draft : NewAttachment :=
  {| na_PolicyVersion := 1; na_ID := "a"; na_WorkspaceID := "w"; na_UploaderID := "u";
     na_Destination := na_Destination toy_new; na_Filename := na_Filename toy_new; na_DeclaredMIME := na_DeclaredMIME toy_new;
     na_StorageObjectKey := StorageObjectKey "a"; na_EnvelopeVersion := 1; na_KeyWrapVersion := 2;
     na_DraftExpiresAt := Some (36 * Hour); na_AudioKind := ""; na_DeclaredDurationMs := 0 |}.
Definition toy_cancelled : list request :=
  [ReqCreatePending toy_draft; ReqMarkUploaded toy_uploaded; toy_approve; ReqClaimDuePreviews 1 (75 * Second);
   ReqMarkPreviewReady (toy_result 1); ReqCancelDraft "a" "u"].

Example cancelled_previews_are_forgotten :
  ∃ db db', perform_all (12 * Hour) (take 5 toy_cancelled) toy_db = Some db ∧ servable (toy_row db) = true ∧
    perform_all (12 * Hour) toy_cancelled toy_db = Some db' ∧ servable (toy_row db') = false ∧
    object_of (toy_row db') = Some "p1" ∧ dom (cleanup_jobs db') = {[ StorageObjectKey "a" ]}.
Proof.
  destruct (perform_all (12 * Hour) (take 5 toy_cancelled) toy_db) as [db|] eqn:H; [|vm_compute in H; discriminate].
  destruct (perform_all (12 * Hour) toy_cancelled toy_db) as [db'|] eqn:H'; [|vm_compute in H'; discriminate].
  exists db, db'. vm_compute in H, H'. injection H as <-. injection H' as <-. split_and!; try reflexivity; vm_compute; reflexivity.
Qed.

(** The guard of a removal asks about covers only: the object of a page that is being
    served is not referenced. *)
Example served_pages_are_unreferenced :
  ∃ db, perform_all (15 * Hour) (take 2 toy_condemn) toy_clean = Some db ∧ servable (toy_row db) = true ∧
    (∃ p, preview_pages db !! ("a", 2) = Some p ∧ bd_ObjectID (pg_binding p) = "p2") ∧
    IsObjectReferenced (PreviewObjectKey "p1") db = true ∧ IsObjectReferenced (PreviewObjectKey "p2") db = false.
Proof.
  destruct (perform_all (15 * Hour) (take 2 toy_condemn) toy_clean) as [db|] eqn:H; [|vm_compute in H; discriminate].
  exists db. split; [reflexivity|]. vm_compute in H. injection H as <-. split; [reflexivity|].
  split; [eexists; split; vm_compute; reflexivity|]. split; vm_compute; reflexivity.
Qed.
