(* ===== verification/HubEvents.v ===== *)
(** * Events of the realtime gateway

    [services/chat-service/internal/ws]: event.go, the publishers of hub.go, typing.go,
    presence_lifecycle.go and call_protocol.go, and what a replica does with an event of
    the distributed bus before anybody is given it (the canonicalizers of hub.go,
    call_validation.go, typing.go and presence_compose.go); with the one producer outside
    the chat service, [services/file-service/internal/events/attachment_status.go].

    An event crosses the bus as JSON; the decoded event is the one encoded.  The pointers
    to payloads of [Event] are grouped in one record, [Blocks]. *)

From stdpp Require Import prelude gmap strings sorting.
From Stdlib Require Import ZArith Lia.
From S2P Require Import Prelude GoStrings Utf8 Codec Message Presence Calls FileDomain.
Local Open Scope Z_scope.

(** ** Types *)

Abbreviation TargetType := string (only parsing).
Definition TargetTypeChannel : TargetType := "channel".
Definition TargetTypeDM : TargetType := "dm".
Definition TargetTypeUser : TargetType := "user".

Abbreviation EventType := string (only parsing).
Definition EventTypeMessageCreated : EventType := "message.created".
Definition EventTypeMessageUpdated : EventType := "message.updated".
Definition EventTypeMessageBlocked : EventType := "message.blocked".
Definition EventTypeMessageLinkSafetyChanged : EventType := "message.link_safety_changed".
Definition EventTypeMessageLinkUpdated : EventType := "message.link_updated".
Definition EventTypeReactionUpdated : EventType := "reaction.updated".
Definition EventTypePinUpdated : EventType := "pin.updated".
Definition EventTypeMembersAdded : EventType := "members.added".
Definition EventTypeConversationAvailable : EventType := "conversation.available".
Definition EventTypeConversationUpdated : EventType := "conversation.updated".
Definition EventTypeConversationEvent : EventType := "conversation.event".
Definition EventTypeAcknowledgementUpdated : EventType := "message.acknowledgement_updated".
Definition EventTypeAttachmentStatus : EventType := "attachment.status".
Definition EventTypePresenceUpdated : EventType := "presence.updated".
Definition EventTypeCallRinging : EventType := "call.ringing".
Definition EventTypeCallAccepted : EventType := "call.accepted".
Definition EventTypeCallDeclined : EventType := "call.declined".
Definition EventTypeCallCancelled : EventType := "call.cancelled".
Definition EventTypeCallTimedOut : EventType := "call.timed_out".
Definition EventTypeCallEnded : EventType := "call.ended".
Definition EventTypeTypingUpdated : EventType := "typing.updated".
Definition EventTypePresenceSettingsChanged : EventType := "presence.settings_changed".
Definition CurrentEventSchemaVersion : Z := 1.

Definition MessageBlockedReasonMaliciousLink : string := "malicious_link".
Definition MessageBlockedReasonLinkCheckInconclusive : string := "link_check_inconclusive".

(** ** Payloads *)

Record MessageLinkSafetyPayload := { ls_MessageID : string; ls_State : string; ls_UpdatedAt : Time }.
Record LinkPreviewPayload := {
  lv_State : string; lv_Hostname : string; lv_SiteName : string; lv_Title : string; lv_Description : string;
  lv_ImageID : string; lv_ImageWidth : Z; lv_ImageHeight : Z }.
Record LinkPayload := {
  lk_Ordinal : Z; lk_TargetKey : string; lk_Text : string; lk_URL : string; lk_Hostname : string; lk_Safety : string;
  lk_Click : string; lk_Href : string; lk_UpdatedAt : Time; lk_Preview : option LinkPreviewPayload }.
Record MessageLinkUpdatePayload := { lu_MessageID : string; lu_Link : LinkPayload }.
Record NotificationPolicyPayload := {
  np_PolicyVersion : Z; np_InApp : string; np_Sound : string; np_WebPush : string; np_Reasons : list string;
  np_SoundClass : string; np_NamedUserIDs : list string; np_NamesEveryone : bool }.
Record MessageAttachmentPayload := {
  ma_ID : string; ma_Filename : string; ma_ContentType : string; ma_Size : Z; ma_Status : string; ma_PreviewStatus : string;
  ma_AudioKind : string; ma_DurationMs : Z }.
Record QuotePayload := {
  qp_ID : string; qp_AuthorID : string; qp_Body : string; qp_BodyFormat : string; qp_LinkSafetyState : string;
  qp_IsRemoved : bool; qp_DeletedAt : option Time; qp_CreatedAt : Time; qp_UpdatedAt : Time; qp_AuthorDisplayName : string }.
Record MessagePayload := {
  mp_ID : string; mp_WorkspaceID : string; mp_ChannelID : string; mp_DMConversationID : string; mp_SenderID : string;
  mp_SenderDisplayName : string; mp_SenderAvatarURL : string; mp_Kind : string; mp_BodyText : string; mp_BodyFormat : string;
  mp_Status : string; mp_Priority : string; mp_AcknowledgementRequired : bool; mp_PersistentNotifications : bool;
  mp_LinkSafetyState : string; mp_Links : list LinkPayload; mp_IsRemoved : bool; mp_CreatedAt : Time; mp_UpdatedAt : Time;
  mp_EditedAt : option Time; mp_DeletedAt : option Time; mp_Quoted : option QuotePayload; mp_ReplyToSenderID : string;
  mp_IsForwarded : bool; mp_Attachments : list MessageAttachmentPayload;
  mp_NotificationPolicy : option NotificationPolicyPayload; mp_HasReference : bool }.
Record MessageUpdatedPayload := {
  mu_MessageID : string; mu_ChannelID : string; mu_DMID : string; mu_Body : string; mu_BodyFormat : string;
  mu_LinkSafetyState : string; mu_Links : list LinkPayload; mu_EditedAt : Time; mu_EditCount : Z; mu_IsEdited : bool;
  mu_Status : string; mu_IsRemoved : bool; mu_DeletedAt : option Time; mu_UpdatedAt : Time }.
Record ReactionUserPayload := { ru_UserID : string; ru_DisplayName : string }.
Record ReactionPayload := { rp_Emoji : string; rp_Count : Z; rp_Users : list ReactionUserPayload }.
Record ReactionEventPayload := {
  re_MessageID : string; re_ActorUserID : string; re_Emoji : string; re_Added : bool; re_Reactions : list ReactionPayload }.
Record PinEventPayload := { pe_MessageID : string; pe_ActorUserID : string; pe_Pinned : bool }.
Record MembersAddedPayload := { me_ActorUserID : string; me_AddedCount : Z; me_MemberCount : Z }.
Record AttachmentStatusPayload := { as_AttachmentID : string; as_Status : string; as_UpdatedAt : string }.
Record PresencePayload := {
  pp_UserID : string; pp_State : string; pp_Availability : string; pp_Activity : string; pp_UpdatedAt : string }.
Record TypingEventPayload := { ty_UserID : string; ty_UserDisplayName : string; ty_IsTyping : bool; ty_UpdatedAt : string }.
Record CallEventPayload := {
  ce_ID : string; ce_RequestID : string; ce_CallerID : string; ce_CalleeID : string; ce_TargetType : string;
  ce_TargetID : string; ce_CallType : string; ce_Status : string; ce_Version : Z; ce_CreatedAt : Time;
  ce_OccurredAt : Time; ce_ExpiresAt : Time; ce_AcceptedAt : option Time; ce_EndedAt : option Time }.

Record Blocks := {
  Payload : option MessagePayload; MessageUpdate : option MessageUpdatedPayload; Reaction : option ReactionEventPayload;
  Pin : option PinEventPayload; Members : option MembersAddedPayload; Attachment : option AttachmentStatusPayload;
  Presence_ : option PresencePayload; LinkSafety_ : option MessageLinkSafetyPayload;
  LinkUpdate : option MessageLinkUpdatePayload; Typing : option TypingEventPayload; Call_ : option CallEventPayload }.
Record Event := {
  SchemaVersion : Z; Type_ : EventType; WorkspaceID : string; TargetType_ : TargetType; TargetID : string; MessageID : string;
  RecipientUserID : string; Reason : string; EventID : string; SourceInstanceID : string; CreatedAt : Time; blocks : Blocks }.

Definition no_blocks : Blocks := Build_Blocks None None None None None None None None None None None.

(** Assignments to one field. *)
Definition set_Payload v b := Build_Blocks v (MessageUpdate b) (Reaction b) (Pin b) (Members b) (Attachment b) (Presence_ b) (LinkSafety_ b) (LinkUpdate b) (Typing b) (Call_ b).
Definition set_MessageUpdate v b := Build_Blocks (Payload b) v (Reaction b) (Pin b) (Members b) (Attachment b) (Presence_ b) (LinkSafety_ b) (LinkUpdate b) (Typing b) (Call_ b).
Definition set_Reaction v b := Build_Blocks (Payload b) (MessageUpdate b) v (Pin b) (Members b) (Attachment b) (Presence_ b) (LinkSafety_ b) (LinkUpdate b) (Typing b) (Call_ b).
Definition set_Pin v b := Build_Blocks (Payload b) (MessageUpdate b) (Reaction b) v (Members b) (Attachment b) (Presence_ b) (LinkSafety_ b) (LinkUpdate b) (Typing b) (Call_ b).
Definition set_Members v b := Build_Blocks (Payload b) (MessageUpdate b) (Reaction b) (Pin b) v (Attachment b) (Presence_ b) (LinkSafety_ b) (LinkUpdate b) (Typing b) (Call_ b).
Definition set_Attachment v b := Build_Blocks (Payload b) (MessageUpdate b) (Reaction b) (Pin b) (Members b) v (Presence_ b) (LinkSafety_ b) (LinkUpdate b) (Typing b) (Call_ b).
Definition set_Presence v b := Build_Blocks (Payload b) (MessageUpdate b) (Reaction b) (Pin b) (Members b) (Attachment b) v (LinkSafety_ b) (LinkUpdate b) (Typing b) (Call_ b).
Definition set_LinkSafety v b := Build_Blocks (Payload b) (MessageUpdate b) (Reaction b) (Pin b) (Members b) (Attachment b) (Presence_ b) v (LinkUpdate b) (Typing b) (Call_ b).
Definition set_LinkUpdate v b := Build_Blocks (Payload b) (MessageUpdate b) (Reaction b) (Pin b) (Members b) (Attachment b) (Presence_ b) (LinkSafety_ b) v (Typing b) (Call_ b).
Definition set_Typing v b := Build_Blocks (Payload b) (MessageUpdate b) (Reaction b) (Pin b) (Members b) (Attachment b) (Presence_ b) (LinkSafety_ b) (LinkUpdate b) v (Call_ b).
Definition set_Call v b := Build_Blocks (Payload b) (MessageUpdate b) (Reaction b) (Pin b) (Members b) (Attachment b) (Presence_ b) (LinkSafety_ b) (LinkUpdate b) (Typing b) v.
Definition on_blocks (f : Blocks → Blocks) (e : Event) : Event :=
  Build_Event (SchemaVersion e) (Type_ e) (WorkspaceID e) (TargetType_ e) (TargetID e) (MessageID e) (RecipientUserID e) (Reason e)
    (EventID e) (SourceInstanceID e) (CreatedAt e) (f (blocks e)).
Definition set_SchemaVersion v e := Build_Event v (Type_ e) (WorkspaceID e) (TargetType_ e) (TargetID e) (MessageID e) (RecipientUserID e) (Reason e) (EventID e) (SourceInstanceID e) (CreatedAt e) (blocks e).
Definition set_WorkspaceID v e := Build_Event (SchemaVersion e) (Type_ e) v (TargetType_ e) (TargetID e) (MessageID e) (RecipientUserID e) (Reason e) (EventID e) (SourceInstanceID e) (CreatedAt e) (blocks e).
Definition set_TargetID v e := Build_Event (SchemaVersion e) (Type_ e) (WorkspaceID e) (TargetType_ e) v (MessageID e) (RecipientUserID e) (Reason e) (EventID e) (SourceInstanceID e) (CreatedAt e) (blocks e).
Definition set_MessageID v e := Build_Event (SchemaVersion e) (Type_ e) (WorkspaceID e) (TargetType_ e) (TargetID e) v (RecipientUserID e) (Reason e) (EventID e) (SourceInstanceID e) (CreatedAt e) (blocks e).
Definition set_RecipientUserID v e := Build_Event (SchemaVersion e) (Type_ e) (WorkspaceID e) (TargetType_ e) (TargetID e) (MessageID e) v (Reason e) (EventID e) (SourceInstanceID e) (CreatedAt e) (blocks e).
Definition set_EventID v e := Build_Event (SchemaVersion e) (Type_ e) (WorkspaceID e) (TargetType_ e) (TargetID e) (MessageID e) (RecipientUserID e) (Reason e) v (SourceInstanceID e) (CreatedAt e) (blocks e).

(** ** What an event may say *)

Definition isLinkTargetKey (key : string) : bool :=
  if negb (len key =? 32) then false
  else forallb (λ '(r, _), ((48 <=? r) && (r <=? 57)) || ((97 <=? r) && (r <=? 102))) (runes key).
Definition isKnownPreviewState (state : string) : bool :=
  state ∈? [LinkPreviewNone; LinkPreviewQueued; LinkPreviewFetching; LinkPreviewReady; LinkPreviewUnsupported; LinkPreviewFailed].
Definition isKnownLinkPayload (link : LinkPayload) : bool :=
  if negb (isLinkTargetKey (lk_TargetKey link)) then false
  else if negb (lk_Safety link ∈? [LinkSafetyPending; LinkSafetySafe; LinkSafetyMalicious; LinkSafetyUnknown]) then false
  else if negb (lk_Click link ∈? [LinkClickNone; LinkClickDirect; LinkClickInterstitial]) then false
  else if (lk_Href link != "") && (lk_Click link != LinkClickDirect) then false
  else match lk_Preview link with None => true | Some p => isKnownPreviewState (lv_State p) end.
Definition isKnownLinkSafetyState (state : string) : bool :=
  state ∈? [MessageLinkSafetySafe; MessageLinkSafetyInconclusive; MessageLinkSafetyMalicious].

Definition isCallEventType (t : EventType) : bool :=
  t ∈? [EventTypeCallRinging; EventTypeCallAccepted; EventTypeCallDeclined; EventTypeCallCancelled; EventTypeCallTimedOut;
        EventTypeCallEnded].
Definition callEventStatus (t : EventType) : CallStatus :=
  if t == EventTypeCallRinging then CallStatusRinging
  else if t == EventTypeCallAccepted then CallStatusActive
  else if t == EventTypeCallDeclined then CallStatusDeclined
  else if t == EventTypeCallCancelled then CallStatusCancelled
  else if t == EventTypeCallTimedOut then CallStatusTimedOut
  else if t == EventTypeCallEnded then CallStatusEnded
  else "".

(** The wire value of the coarse presence of [presence.go]. *)
Abbreviation PresenceStatus := string (only parsing).
Definition ws_PresenceOnline : PresenceStatus := "online".
Definition ws_PresenceAway : PresenceStatus := "away".
Definition ws_PresenceOffline : PresenceStatus := "offline".
Definition legacyStateFor (availability : PresenceAvailability) : PresenceStatus :=
  if availability ∈? [PresenceAvailable; PresenceBusy; PresenceDoNotDisturb] then ws_PresenceOnline
  else if availability ∈? [PresenceAway; PresenceBeRightBack] then ws_PresenceAway
  else ws_PresenceOffline.
Definition presenceStateValues : list string := [ws_PresenceOnline; ws_PresenceAway; ws_PresenceOffline].
Definition presenceAvailabilityValues : list string :=
  [""; PresenceAvailable; PresenceBusy; PresenceDoNotDisturb; PresenceBeRightBack; PresenceAway; PresenceOffline].
Definition presenceActivityValues : list string :=
  [""; PresenceActivityInCall; PresenceActivityInMeeting; PresenceActivityPresenting].
Definition validPresenceComposition (p : PresencePayload) : bool :=
  if negb (pp_Availability p ∈? presenceAvailabilityValues) then false
  else if negb (pp_Activity p ∈? presenceActivityValues) then false
  else if pp_Availability p == "" then pp_Activity p == ""
  else if legacyStateFor (pp_Availability p) != pp_State p then false
  else (pp_Activity p == "") || (pp_Availability p == PresenceBusy) || (pp_Availability p == PresenceDoNotDisturb).

Definition attachmentStatusValues : list string := ["pending_scan"; "clean"; "rejected"].
Definition attachmentUpdatedAtMaxLen : Z := 64.
Definition presenceUpdatedAtMaxLen : Z := 64.
Definition typingUpdatedAtMaxLen : Z := 64.
Definition typingUserDisplayNameMaxLen : nat := 128.
Definition sourceInstanceIDMaxLen : Z := 64.

(** [^[A-Za-z0-9._-]+$]. *)
Definition sourceInstanceIDRe (s : string) : bool :=
  (0 <? len s) && forallb (λ c, ((65 <=? c) && (c <=? 90)) || ((97 <=? c) && (c <=? 122)) || ((48 <=? c) && (c <=? 57)) ||
                               (c =? 46) || (c =? 95) || (c =? 45)) (str_bytes s).

Definition known_types : list EventType :=
  [EventTypeMessageBlocked; EventTypeMessageLinkSafetyChanged; EventTypeMessageLinkUpdated; EventTypeMessageCreated;
   EventTypeMessageUpdated; EventTypeReactionUpdated; EventTypePinUpdated; EventTypeMembersAdded;
   EventTypeConversationAvailable; EventTypeConversationUpdated; EventTypeConversationEvent; EventTypeAcknowledgementUpdated;
   EventTypeAttachmentStatus; EventTypePresenceUpdated; EventTypeTypingUpdated; EventTypePresenceSettingsChanged;
   EventTypeCallRinging; EventTypeCallAccepted; EventTypeCallDeclined; EventTypeCallCancelled; EventTypeCallTimedOut;
   EventTypeCallEnded].
Definition conversation_target (t : TargetType) : bool := (t == TargetTypeChannel) || (t == TargetTypeDM).

Section events.
(** [uuid.Parse] followed by [String]. *)
Context (uuid_Parse : string → option string).

(** ** An event from the bus *)

Definition canonicalizeRemoteEnvelope (e : Event) : option Event :=
  e ← (if SchemaVersion e =? 0 then Some (set_SchemaVersion CurrentEventSchemaVersion e)
       else if SchemaVersion e =? CurrentEventSchemaVersion then Some e else None);
  if negb (Type_ e ∈? known_types) then None
  else if negb (TargetType_ e ∈? [TargetTypeChannel; TargetTypeDM; TargetTypeUser]) then None
  else if SourceInstanceID e == "" then None
  else if sourceInstanceIDMaxLen <? len (SourceInstanceID e) then None
  else if negb (sourceInstanceIDRe (SourceInstanceID e)) then None
  else Some e.

Definition canonicalizeCoreIDs (e : Event) : option Event :=
  eid ← uuid_Parse (EventID e);
  wid ← uuid_Parse (WorkspaceID e);
  tid ← uuid_Parse (TargetID e);
  Some (set_TargetID tid (set_WorkspaceID wid (set_EventID eid e))).

Definition canonicalizeRecipientScopedIDs (e : Event) : option Event :=
  rid ← uuid_Parse (RecipientUserID e);
  Some (on_blocks (set_Presence None ∘ set_Members None ∘ set_Reaction None ∘ set_Pin None)
          (set_MessageID "" (set_RecipientUserID rid e))).

Definition isTargetScopedEventWithoutMessage (t : EventType) : bool :=
  t ∈? [EventTypeMembersAdded; EventTypeAttachmentStatus; EventTypePresenceUpdated; EventTypeTypingUpdated;
        EventTypeConversationUpdated].
Definition canonicalizeTargetScopedIDs (e : Event) : option Event :=
  if MessageID e != "" then None
  else if Type_ e == EventTypeConversationUpdated
       then Some (on_blocks (set_Reaction None ∘ set_Members None ∘ set_Pin None) e) else Some e.
Definition canonicalizeMessageScopedIDs (e : Event) : option Event :=
  mid ← uuid_Parse (MessageID e); Some (set_MessageID mid e).

Definition canonicalizeEventIDs (e : Event) : option Event :=
  e ← canonicalizeCoreIDs e;
  if (Type_ e == EventTypeConversationAvailable) || (Type_ e == EventTypePresenceSettingsChanged)
  then canonicalizeRecipientScopedIDs e
  else if RecipientUserID e != "" then None
  else if isTargetScopedEventWithoutMessage (Type_ e) then canonicalizeTargetScopedIDs e
  else if isCallEventType (Type_ e) then Some e
  else canonicalizeMessageScopedIDs e.

Definition canonicalizeReactionEvent (e : Event) : option Event :=
  match Reaction (blocks e) with
  | None => None
  | Some r =>
      if (re_MessageID r != MessageID e) || (re_Emoji r == "") || (64 <? Z.of_nat (length (re_Reactions r))) then None
      else
        _ ← uuid_Parse (re_ActorUserID r);
        if existsb (λ x, (rp_Emoji x == "") || (rp_Count x <=? 0)) (re_Reactions r) then None
        else Some (on_blocks (set_Reaction None) e)
  end.
Definition canonicalizeMembersEvent (e : Event) : option Event :=
  match Members (blocks e) with
  | None => None
  | Some m =>
      if (me_AddedCount m <=? 0) || (me_MemberCount m <? me_AddedCount m) then None
      else
        actor ← uuid_Parse (me_ActorUserID m);
        Some (on_blocks (set_Reaction None ∘ set_Pin None ∘
                set_Members (Some {| me_ActorUserID := actor; me_AddedCount := me_AddedCount m; me_MemberCount := me_MemberCount m |})) e)
  end.
Definition canonicalizePinEvent (e : Event) : option Event :=
  match Pin (blocks e) with
  | None => None
  | Some p =>
      if pe_MessageID p != MessageID e then None
      else if negb (conversation_target (TargetType_ e)) then None
      else
        actor ← uuid_Parse (pe_ActorUserID p);
        Some (on_blocks (set_Pin (Some {| pe_MessageID := pe_MessageID p; pe_ActorUserID := actor; pe_Pinned := pe_Pinned p |})) e)
  end.
Definition canonicalizeAttachmentEvent (e : Event) : option Event :=
  match Attachment (blocks e) with
  | None => None
  | Some a =>
      if negb (conversation_target (TargetType_ e)) then None
      else
        id ← uuid_Parse (as_AttachmentID a);
        if negb (as_Status a ∈? attachmentStatusValues) then None
        else if attachmentUpdatedAtMaxLen <? len (as_UpdatedAt a) then None
        else Some (on_blocks (set_Call None ∘ set_Members None ∘ set_Reaction None ∘ set_Pin None ∘ set_MessageUpdate None ∘
                     set_Payload None ∘
                     set_Attachment (Some {| as_AttachmentID := id; as_Status := as_Status a; as_UpdatedAt := as_UpdatedAt a |})) e)
  end.
Definition canonicalizePresenceEvent (e : Event) : option Event :=
  match Presence_ (blocks e) with
  | None => None
  | Some p =>
      if negb (conversation_target (TargetType_ e)) then None
      else
        id ← uuid_Parse (pp_UserID p);
        if negb (pp_State p ∈? presenceStateValues) then None
        else if negb (validPresenceComposition p) then None
        else if presenceUpdatedAtMaxLen <? len (pp_UpdatedAt p) then None
        else Some (on_blocks (set_Call None ∘ set_Attachment None ∘ set_Members None ∘ set_Reaction None ∘ set_Pin None ∘
                     set_MessageUpdate None ∘ set_Payload None ∘
                     set_Presence (Some {| pp_UserID := id; pp_State := pp_State p; pp_Availability := pp_Availability p;
                                           pp_Activity := pp_Activity p; pp_UpdatedAt := pp_UpdatedAt p |})) e)
  end.
(** [string([]rune(s)[:n])] when there are more than [n] runes. *)
Definition truncated_name (name : string) : string :=
  if (typingUserDisplayNameMaxLen <? length (runes name))%nat
  then bytes_str (encode_runes (take typingUserDisplayNameMaxLen (fst <$> runes name))) else name.
Definition canonicalizeTypingEvent (e : Event) : option Event :=
  match Typing (blocks e) with
  | None => None
  | Some t =>
      if negb (conversation_target (TargetType_ e)) then None
      else
        id ← uuid_Parse (ty_UserID t);
        if typingUpdatedAtMaxLen <? len (ty_UpdatedAt t) then None
        else Some (on_blocks (set_Call None ∘ set_Presence None ∘ set_Attachment None ∘ set_Members None ∘ set_Reaction None ∘
                     set_Pin None ∘ set_MessageUpdate None ∘ set_Payload None ∘
                     set_Typing (Some {| ty_UserID := id; ty_UserDisplayName := truncated_name (ty_UserDisplayName t);
                                         ty_IsTyping := ty_IsTyping t; ty_UpdatedAt := ty_UpdatedAt t |})) e)
  end.
Definition canonicalizePresenceSettingsEvent (e : Event) : option Event :=
  if (TargetType_ e != TargetTypeUser) || (RecipientUserID e != TargetID e) then None else Some e.

(** The identifiers of a call, each parsed, and where the event may be addressed. *)
Definition canonicalizeCallEvent (e : Event) : option Event :=
  let b := blocks e in
  match Call_ b with
  | None => None
  | Some c =>
      if (MessageID e != "") || match Payload b with Some _ => true | None => false end ||
         match MessageUpdate b with Some _ => true | None => false end || match Reaction b with Some _ => true | None => false end ||
         match Pin b with Some _ => true | None => false end then None
      else
        id ← uuid_Parse (ce_ID c);
        requestID ← uuid_Parse (ce_RequestID c);
        callerID ← uuid_Parse (ce_CallerID c);
        '(calleeID, targetID) ←
          (if TargetType_ e == TargetTypeUser then
             calleeID ← uuid_Parse (ce_CalleeID c);
             if (TargetID e != callerID) && (TargetID e != calleeID) then None else Some (calleeID, ce_TargetID c)
           else if conversation_target (TargetType_ e) then
             if ce_CalleeID c != "" then None
             else if ce_TargetType c != (if TargetType_ e == TargetTypeDM then CallTargetDM else CallTargetChannel) then None
             else
               targetID ← uuid_Parse (ce_TargetID c);
               if TargetID e != targetID then None else Some (ce_CalleeID c, targetID)
           else None);
        if negb (CallType_Valid (ce_CallType c)) || negb (CallStatus_Valid (ce_Status c)) || (ce_Version c <? 1) ||
           (callEventStatus (Type_ e) != ce_Status c) || time_IsZero (ce_CreatedAt c) || time_IsZero (ce_OccurredAt c) ||
           time_IsZero (ce_ExpiresAt c) then None
        else Some (on_blocks (set_Call (Some
               {| ce_ID := id; ce_RequestID := requestID; ce_CallerID := callerID; ce_CalleeID := calleeID;
                  ce_TargetType := ce_TargetType c; ce_TargetID := targetID; ce_CallType := ce_CallType c;
                  ce_Status := ce_Status c; ce_Version := ce_Version c; ce_CreatedAt := ce_CreatedAt c;
                  ce_OccurredAt := ce_OccurredAt c; ce_ExpiresAt := ce_ExpiresAt c; ce_AcceptedAt := ce_AcceptedAt c;
                  ce_EndedAt := ce_EndedAt c |})) e)
  end.

Definition typedPayloadCanonicalizers : list (EventType * (Event → option Event)) :=
  [(EventTypeReactionUpdated, canonicalizeReactionEvent); (EventTypePinUpdated, canonicalizePinEvent);
   (EventTypeMembersAdded, canonicalizeMembersEvent); (EventTypeAttachmentStatus, canonicalizeAttachmentEvent);
   (EventTypePresenceUpdated, canonicalizePresenceEvent); (EventTypeTypingUpdated, canonicalizeTypingEvent);
   (EventTypePresenceSettingsChanged, canonicalizePresenceSettingsEvent)].
Definition canonicalizeTypedPayload (e : Event) : option Event :=
  if isCallEventType (Type_ e) then canonicalizeCallEvent e
  else match map_get typedPayloadCanonicalizers (Type_ e) with Some step => step e | None => Some e end.

Definition canonicalizeLinkSafetyEvent (e : Event) : option Event :=
  match LinkSafety_ (blocks e) with
  | None => None
  | Some l =>
      if MessageID e == "" then None
      else if ls_MessageID l != MessageID e then None
      else if negb (isKnownLinkSafetyState (ls_State l)) then None
      else if time_IsZero (ls_UpdatedAt l) then None else Some e
  end.
Definition canonicalizeLinkUpdateEvent (e : Event) : option Event :=
  match LinkUpdate (blocks e) with
  | None => None
  | Some l =>
      if (MessageID e == "") || (lu_MessageID l != MessageID e) then None
      else if negb (isKnownLinkPayload (lu_Link l)) then None else Some e
  end.
Definition canonicalizeLinkEvents (e : Event) : option Event :=
  if Type_ e == EventTypeMessageLinkSafetyChanged then on_blocks (set_LinkUpdate None) <$> canonicalizeLinkSafetyEvent e
  else if Type_ e == EventTypeMessageLinkUpdated then on_blocks (set_LinkSafety None) <$> canonicalizeLinkUpdateEvent e
  else Some (on_blocks (set_LinkUpdate None ∘ set_LinkSafety None) e).

Definition stripUnrelatedBlocks (e : Event) : Event :=
  let e := on_blocks (set_MessageUpdate None ∘ set_Payload None) e in
  let e := if Type_ e != EventTypePresenceUpdated then on_blocks (set_Presence None) e else e in
  if Type_ e != EventTypeTypingUpdated then on_blocks (set_Typing None) e else e.

Definition canonicalizeRemoteEvent (e : Event) : option Event :=
  e ← canonicalizeRemoteEnvelope e;
  e ← canonicalizeEventIDs e;
  e ← canonicalizeTypedPayload e;
  e ← canonicalizeLinkEvents e;
  Some (stripUnrelatedBlocks e).

(** ** An event for the bus

    [eid] is the identifier drawn, [instance] the replica's. *)

Definition event_of (instance eid : string) (now : Time) (t : EventType) (ws : string) (tt : TargetType) (tid mid : string) (b : Blocks) : Event :=
  Build_Event CurrentEventSchemaVersion t ws tt tid mid "" "" eid instance now b.

(** What is broadcast here, and what is put on the bus. *)
Definition PublishMessageCreated instance eid now ws tt tid (payload : MessagePayload) : Event * Event :=
  let evt := event_of instance eid now EventTypeMessageCreated ws tt tid (mp_ID payload)
               (set_Payload (if negb (mp_HasReference payload) then Some payload else None) no_blocks) in
  (evt, on_blocks (set_Payload None) evt).
Definition PublishMessageUpdated instance eid now ws tt tid (payload : MessageUpdatedPayload) : Event * Event :=
  let evt := event_of instance eid now EventTypeMessageUpdated ws tt tid (mu_MessageID payload)
               (set_MessageUpdate (Some payload) no_blocks) in
  (evt, on_blocks (set_MessageUpdate None) evt).
Record ReactionUpdate := {
  up_MessageID : string; up_TargetType : TargetType; up_TargetID : string; up_Added : bool; up_Reactions : list ReactionPayload }.
Definition PublishReactionUpdated instance eid now ws actor emoji (u : ReactionUpdate) : Event :=
  event_of instance eid now EventTypeReactionUpdated ws (up_TargetType u) (up_TargetID u) (up_MessageID u)
    (set_Reaction (Some {| re_MessageID := up_MessageID u; re_ActorUserID := actor; re_Emoji := emoji; re_Added := up_Added u;
                           re_Reactions := up_Reactions u |}) no_blocks).
Definition PublishPinUpdated instance eid now ws tt tid mid actor (pinned : bool) : Event :=
  event_of instance eid now EventTypePinUpdated ws tt tid mid
    (set_Pin (Some {| pe_MessageID := mid; pe_ActorUserID := actor; pe_Pinned := pinned |}) no_blocks).
Definition PublishMembersAdded instance eid now ws tt tid actor (addedCount memberCount : Z) : Event :=
  event_of instance eid now EventTypeMembersAdded ws tt tid ""
    (set_Members (Some {| me_ActorUserID := actor; me_AddedCount := addedCount; me_MemberCount := memberCount |}) no_blocks).
Definition PublishConversationUpdatedReliable instance eid now ws tt tid : option Event :=
  if (ws == "") || (tid == "") then None else Some (event_of instance eid now EventTypeConversationUpdated ws tt tid "" no_blocks).
Definition PublishConversationEvent instance eid now ws tt tid mid : option Event :=
  if (ws == "") || (tid == "") || (mid == "") then None
  else Some (event_of instance eid now EventTypeConversationEvent ws tt tid mid no_blocks).
Definition PublishAcknowledgementUpdated instance eid now ws tt tid mid : option Event :=
  if (ws == "") || (tid == "") || (mid == "") then None
  else Some (event_of instance eid now EventTypeAcknowledgementUpdated ws tt tid mid no_blocks).
Definition PublishConversationAvailable instance eid now ws tt tid user : option Event :=
  if user == "" then None
  else Some (set_RecipientUserID user (event_of instance eid now EventTypeConversationAvailable ws tt tid "" no_blocks)).
Definition PublishMessageLinkSafetyChanged instance eid now ws tt tid mid (state : string) (updatedAt : Time) : option Event :=
  if (ws == "") || (tid == "") || (mid == "") || negb (isKnownLinkSafetyState state) || time_IsZero updatedAt then None
  else Some (event_of instance eid now EventTypeMessageLinkSafetyChanged ws tt tid mid
         (set_LinkSafety (Some {| ls_MessageID := mid; ls_State := state; ls_UpdatedAt := updatedAt |}) no_blocks)).
Definition PublishMessageLinkUpdated instance eid now ws tt tid mid (link : LinkPayload) : option Event :=
  if (ws == "") || (tid == "") || (mid == "") || negb (isKnownLinkPayload link) then None
  else Some (event_of instance eid now EventTypeMessageLinkUpdated ws tt tid mid
         (set_LinkUpdate (Some {| lu_MessageID := mid; lu_Link := link |}) no_blocks)).
Definition PublishMessageBlocked instance eid now ws recipient mid reason : option Event :=
  if (ws == "") || (recipient == "") || (mid == "") || (reason == "") then None
  else Some (Build_Event CurrentEventSchemaVersion EventTypeMessageBlocked ws "" "" mid recipient reason eid instance now no_blocks).
Definition publishTypingUpdated instance eid now ws tt tid user name (isTyping : bool) : Event :=
  event_of instance eid now EventTypeTypingUpdated ws tt tid ""
    (set_Typing (Some {| ty_UserID := user; ty_UserDisplayName := name; ty_IsTyping := isTyping;
                         ty_UpdatedAt := bytes_str (RFC3339.Format now) |}) no_blocks).
(** The event [publishPresence] and [forgetSubject] send into one target. *)
Definition formatPresenceTime (at_ : Time) : string := if time_IsZero at_ then "" else bytes_str (RFC3339.Format at_).
Definition presencePayloadFor (user : string) (effective : EffectivePresence) (at_ : Time) : PresencePayload :=
  {| pp_UserID := user; pp_State := legacyStateFor (ep_Availability effective); pp_Availability := ep_Availability effective;
     pp_Activity := ep_Activity effective; pp_UpdatedAt := formatPresenceTime at_ |}.
Definition presenceEvent instance eid now ws tt tid (p : PresencePayload) : Event :=
  event_of instance eid now EventTypePresenceUpdated ws tt tid "" (set_Presence (Some p) no_blocks).
Definition presenceSettingsEvent instance eid now ws user : Event :=
  set_RecipientUserID user (event_of instance eid now EventTypePresenceSettingsChanged ws TargetTypeUser user "" no_blocks).

Definition callEventType (s : CallStatus) : option EventType :=
  if s == CallStatusRinging then Some EventTypeCallRinging
  else if s == CallStatusActive then Some EventTypeCallAccepted
  else if s == CallStatusDeclined then Some EventTypeCallDeclined
  else if s == CallStatusCancelled then Some EventTypeCallCancelled
  else if s == CallStatusTimedOut then Some EventTypeCallTimedOut
  else if s == CallStatusEnded then Some EventTypeCallEnded
  else None.
Definition callEventPayload (c : Call) : CallEventPayload :=
  {| ce_ID := call_ID c; ce_RequestID := call_RequestID c; ce_CallerID := call_CallerID c; ce_CalleeID := call_CalleeID c;
     ce_TargetType := call_TargetType c; ce_TargetID := call_TargetID c; ce_CallType := call_Type c; ce_Status := call_Status c;
     ce_Version := call_Version c; ce_CreatedAt := call_CreatedAt c; ce_OccurredAt := call_UpdatedAt c;
     ce_ExpiresAt := call_ExpiresAt c; ce_AcceptedAt := call_AcceptedAt c; ce_EndedAt := call_EndedAt c |}.
Definition newCallEvent instance eid (c : Call) (tt : TargetType) (tid : string) : option Event :=
  t ← callEventType (call_Status c);
  Some (event_of instance eid (call_UpdatedAt c) t (call_WorkspaceID c) tt tid "" (set_Call (Some (callEventPayload c)) no_blocks)).
(** The targets a call is announced to, in order. *)
Definition call_targets (c : Call) : list (TargetType * string) :=
  if IsResource c then [(call_TargetType c, call_TargetID c)]
  else [(TargetTypeUser, call_CallerID c); (TargetTypeUser, call_CalleeID c)].
Definition publishCall instance eid (c : Call) : list Event :=
  omap (λ '(t, tid), newCallEvent instance eid c t tid) (call_targets c).

(** *** file-service: events/attachment_status.go *)

Definition targetTypeFor (kind : string) : option TargetType :=
  if kind == DestinationKindChannel then Some TargetTypeChannel
  else if kind == DestinationKindDM then Some TargetTypeDM else None.
Definition validInstanceID (id : string) : bool :=
  if (id == "") || (64 <? len id) then false
  else forallb (λ '(r, _), ((65 <=? r) && (r <=? 90)) || ((97 <=? r) && (r <=? 122)) || ((48 <=? r) && (r <=? 57)) ||
                           (r =? 46) || (r =? 95) || (r =? 45)) (runes id).
Record AttachmentStatusChange := {
  sc_DestinationKind : string; sc_Status : string; sc_WorkspaceID : string; sc_DestinationID : string; sc_AttachmentID : string;
  sc_UpdatedAt : Time }.
(** The event, [None] for a change that is refused; the JSON carries every field given. *)
Definition attachment_event instance eid now (c : AttachmentStatusChange) : option Event :=
  tt ← targetTypeFor (sc_DestinationKind c);
  if negb (FileDomain.Status_Valid (sc_Status c)) then None
  else
    ws ← uuid_Parse (sc_WorkspaceID c);
    tid ← uuid_Parse (sc_DestinationID c);
    aid ← uuid_Parse (sc_AttachmentID c);
    Some (event_of instance eid now EventTypeAttachmentStatus ws tt tid ""
            (set_Attachment (Some {| as_AttachmentID := aid; as_Status := sc_Status c;
                                     as_UpdatedAt := bytes_str (RFC3339.Format (sc_UpdatedAt c)) |}) no_blocks)).

(** ** What the publishers put on the bus

    [canonical]: an identifier in the form [uuid.UUID.String] gives it. *)

Definition canonical (id : string) : Prop := uuid_Parse id = Some id.
Definition routed (eid ws : string) (tt : TargetType) (tid : string) : Prop :=
  canonical eid ∧ canonical ws ∧ conversation_target tt = true ∧ canonical tid.

(** What is left of the blocks of an event of each type: its own. *)
Definition own_blocks (t : EventType) (b : Blocks) : Blocks :=
  if t == EventTypePinUpdated then set_Pin (Pin b) no_blocks
  else if t == EventTypeMembersAdded then set_Members (Members b) no_blocks
  else if t == EventTypeAttachmentStatus then set_Attachment (Attachment b) no_blocks
  else if t == EventTypePresenceUpdated then set_Presence (Presence_ b) no_blocks
  else if t == EventTypeMessageLinkSafetyChanged then set_LinkSafety (LinkSafety_ b) no_blocks
  else if t == EventTypeMessageLinkUpdated then set_LinkUpdate (LinkUpdate b) no_blocks
  else if t == EventTypeTypingUpdated then
    set_Typing ((λ p, {| ty_UserID := ty_UserID p; ty_UserDisplayName := truncated_name (ty_UserDisplayName p);
                         ty_IsTyping := ty_IsTyping p; ty_UpdatedAt := ty_UpdatedAt p |}) <$> Typing b) no_blocks
  else if isCallEventType t then set_Call (Call_ b) no_blocks
  else no_blocks.
Definition as_received (e : Event) : Event := on_blocks (own_blocks (Type_ e)) e.

(** The events of the publishers, with what their callers give them: identifiers of
    rows, a conversation, an effective presence, a row of [chat.calls].  Not among them is
    [PublishMessageBlocked] ([blocked_messages_stay_local]). *)
Inductive published (instance : string) : Event → Prop :=
| published_created eid now ws tt tid p : routed eid ws tt tid → canonical (mp_ID p) →
    published instance (snd (PublishMessageCreated instance eid now ws tt tid p))
| published_updated eid now ws tt tid p : routed eid ws tt tid → canonical (mu_MessageID p) →
    published instance (snd (PublishMessageUpdated instance eid now ws tt tid p))
| published_reaction eid now ws actor emoji u : routed eid ws (up_TargetType u) (up_TargetID u) → canonical (up_MessageID u) →
    canonical actor → emoji ≠ "" → (length (up_Reactions u) <= 64)%nat →
    Forall (λ r, rp_Emoji r ≠ "" ∧ 0 < rp_Count r) (up_Reactions u) →
    published instance (PublishReactionUpdated instance eid now ws actor emoji u)
| published_pin eid now ws tt tid mid actor pinned : routed eid ws tt tid → canonical mid → canonical actor →
    published instance (PublishPinUpdated instance eid now ws tt tid mid actor pinned)
| published_members eid now ws tt tid actor added members : routed eid ws tt tid → canonical actor → 0 < added <= members →
    published instance (PublishMembersAdded instance eid now ws tt tid actor added members)
| published_conversation eid now ws tt tid e : routed eid ws tt tid →
    PublishConversationUpdatedReliable instance eid now ws tt tid = Some e → published instance e
| published_event eid now ws tt tid mid e : routed eid ws tt tid → canonical mid →
    PublishConversationEvent instance eid now ws tt tid mid = Some e → published instance e
| published_acknowledgement eid now ws tt tid mid e : routed eid ws tt tid → canonical mid →
    PublishAcknowledgementUpdated instance eid now ws tt tid mid = Some e → published instance e
| published_available eid now ws tt tid user e : routed eid ws tt tid → canonical user →
    PublishConversationAvailable instance eid now ws tt tid user = Some e → published instance e
| published_safety eid now ws tt tid mid state at_ e : routed eid ws tt tid → canonical mid →
    PublishMessageLinkSafetyChanged instance eid now ws tt tid mid state at_ = Some e → published instance e
| published_link eid now ws tt tid mid link e : routed eid ws tt tid → canonical mid →
    PublishMessageLinkUpdated instance eid now ws tt tid mid link = Some e → published instance e
| published_typing eid now ws tt tid user name b : routed eid ws tt tid → canonical user →
    published instance (publishTypingUpdated instance eid now ws tt tid user name b)
| published_presence eid now ws tt tid user reach ctx at_ : routed eid ws tt tid → canonical user →
    pc_Activity ctx ∈ presenceActivityValues →
    published instance (presenceEvent instance eid now ws tt tid (presencePayloadFor user (ResolvePresence reach ctx) at_))
| published_settings eid now ws user : canonical eid → canonical ws → canonical user →
    published instance (presenceSettingsEvent instance eid now ws user)
| published_call eid c e : canonical eid → canonical (call_WorkspaceID c) → calls_check c = true →
    Forall canonical [call_ID c; call_RequestID c; call_CallerID c; call_TargetID c] →
    time_IsZero (call_CreatedAt c) || time_IsZero (call_UpdatedAt c) || time_IsZero (call_ExpiresAt c) = false →
    e ∈ publishCall instance eid c → published instance e
| published_attachment eid now c e : canonical eid → sc_Status c ∈ attachmentStatusValues →
    attachment_event instance eid now c = Some e → published instance e.

(** ** Lemmas *)

Lemma frac_digits_length k v : (length (RFC3339.frac_digits k v) <= k)%nat.
Proof. revert v. induction k as [|k IH]; intros v; cbn; [lia|]. case_match; cbn; [lia|]. specialize (IH (v mod 10 ^ Z.of_nat k)). lia. Qed.

Lemma len_bytes_str bs : len (bytes_str bs) = Z.of_nat (length bs).
Proof. unfold len. f_equal. unfold bytes_str. induction bs as [|b bs IH]; [done|]. cbn. by rewrite <-IH. Qed.

(** A printed time fits every bound the replicas put on one. *)
Lemma Format_length t : (64 <? len (bytes_str (RFC3339.Format t))) = false.
Proof.
  apply Z.ltb_ge. rewrite len_bytes_str. unfold RFC3339.Format. destruct (RFC3339.civil _) as [ [y m] d].
  rewrite !length_app. pose proof (frac_digits_length 9 ((t mod RFC3339.dayNs) mod 10 ^ 9)). cbn -[RFC3339.frac_digits Z.modulo Z.pow Z.eqb].
  case_match; cbn -[RFC3339.frac_digits Z.modulo Z.pow]; lia.
Qed.

Lemma presence_at_length t : (64 <? len (formatPresenceTime t)) = false.
Proof. unfold formatPresenceTime. case_match; [done|apply Format_length]. Qed.

(** Evaluate the tests whose operands are known. *)
Ltac decide_known :=
  repeat match goal with
  | |- context [@bool_decide ?P ?D] =>
      let v := eval vm_compute in (@bool_decide P D) in
      match v with true => idtac | false => idtac end; change (@bool_decide P D) with v
  end.

Definition source_ok (instance : string) : bool := (len instance <=? sourceInstanceIDMaxLen) && sourceInstanceIDRe instance.

Lemma source_ok_nonempty instance : source_ok instance = true → (instance == "") = false ∧ (sourceInstanceIDMaxLen <? len instance) = false.
Proof.
  unfold source_ok, sourceInstanceIDRe. intros H. apply andb_true_iff in H as [Hl H]. split; [|apply Z.ltb_ge; by apply Z.leb_le].
  apply bool_decide_eq_false_2. intros ->. done.
Qed.

Lemma envelope_ok e : SchemaVersion e = 1 → Type_ e ∈? known_types = true →
  TargetType_ e ∈? [TargetTypeChannel; TargetTypeDM; TargetTypeUser] = true → source_ok (SourceInstanceID e) = true →
  canonicalizeRemoteEnvelope e = Some e.
Proof.
  intros Hv Ht Htt Hs. destruct (source_ok_nonempty _ Hs) as [Hne Hl]. unfold source_ok in Hs. apply andb_true_iff in Hs as [_ Hs].
  unfold canonicalizeRemoteEnvelope. rewrite Hv. cbn [mbind option_bind Z.eqb Pos.eqb CurrentEventSchemaVersion]. by rewrite Ht, Htt, Hne, Hl, Hs.
Qed.

Lemma core_ids_ok e : canonical (EventID e) → canonical (WorkspaceID e) → canonical (TargetID e) → canonicalizeCoreIDs e = Some e.
Proof. unfold canonical, canonicalizeCoreIDs. intros -> -> ->. by destruct e. Qed.

Lemma conversation_known tt : conversation_target tt = true → tt ∈? [TargetTypeChannel; TargetTypeDM; TargetTypeUser] = true.
Proof.
  unfold conversation_target. intros H. apply bool_decide_eq_true_2. apply orb_true_iff in H as [H|H];
    apply bool_decide_eq_true_1 in H; subst; set_solver.
Qed.

(** The envelope and the route of an event of this instance are kept. *)
Lemma accepted_envelope instance eid now t ws tt tid mid recipient reason b :
  source_ok instance = true → t ∈? known_types = true → tt ∈? [TargetTypeChannel; TargetTypeDM; TargetTypeUser] = true →
  canonical eid → canonical ws → canonical tid →
  let e := Build_Event CurrentEventSchemaVersion t ws tt tid mid recipient reason eid instance now b in
  canonicalizeRemoteEvent e =
    (e ← (if (t == EventTypeConversationAvailable) || (t == EventTypePresenceSettingsChanged) then canonicalizeRecipientScopedIDs e
          else if recipient != "" then None
          else if isTargetScopedEventWithoutMessage t then canonicalizeTargetScopedIDs e
          else if isCallEventType t then Some e else canonicalizeMessageScopedIDs e);
     e ← canonicalizeTypedPayload e; e ← canonicalizeLinkEvents e; Some (stripUnrelatedBlocks e)).
Proof.
  intros Hs Ht Htt He Hw Hid e. unfold canonicalizeRemoteEvent, canonicalizeEventIDs. rewrite envelope_ok by done.
  cbn [mbind option_bind]. by rewrite core_ids_ok.
Qed.


Lemma settings_known : TargetTypeUser ∈? [TargetTypeChannel; TargetTypeDM; TargetTypeUser] = true.
Proof. reflexivity. Qed.

(** Run the pipeline on an event whose type is known, one stage after the other. *)
Ltac accept_step :=
  progress (unfold on_blocks, set_MessageID, set_RecipientUserID, compose;
    cbn [mbind option_bind fmap option_fmap option_map negb andb orb existsb fst snd MessageID Type_ WorkspaceID TargetType_ TargetID RecipientUserID Reason EventID
      SourceInstanceID CreatedAt SchemaVersion blocks set_Payload set_MessageUpdate set_Reaction set_Pin set_Members set_Attachment
      set_Presence set_LinkSafety set_LinkUpdate set_Typing set_Call no_blocks Payload MessageUpdate Reaction Pin Members
      Attachment Presence_ LinkSafety_ LinkUpdate Typing Call_ re_MessageID re_ActorUserID re_Emoji re_Added re_Reactions
      pe_MessageID pe_ActorUserID me_ActorUserID me_AddedCount me_MemberCount as_AttachmentID as_Status as_UpdatedAt
      pp_UserID pp_State pp_Availability pp_Activity pp_UpdatedAt ty_UserID ty_UserDisplayName ty_IsTyping ty_UpdatedAt
      ls_MessageID ls_State ls_UpdatedAt lu_MessageID lu_Link];
    decide_known;
    repeat match goal with
    | |- context [bool_decide (?x = ?x)] => rewrite (bool_decide_eq_true_2 (x = x) eq_refl)
    | H : ?x ≠ ?y |- context [bool_decide (?x = ?y)] => rewrite (bool_decide_eq_false_2 (x = y) H)
    | H : canonical _ |- _ => progress rewrite H
    | H : _ = true |- _ => progress rewrite H
    | H : _ = false |- _ => progress rewrite H
    end).
Ltac accept :=
  unfold as_received, own_blocks, PublishMessageCreated, PublishMessageUpdated, PublishReactionUpdated, PublishPinUpdated,
    PublishMembersAdded, publishTypingUpdated, presenceEvent, presenceSettingsEvent, event_of, on_blocks, set_RecipientUserID in *;
  cbn [snd Type_ WorkspaceID TargetType_ TargetID MessageID RecipientUserID Reason EventID SourceInstanceID CreatedAt SchemaVersion blocks];
  rewrite accepted_envelope by (done || by apply conversation_known);
  unfold isTargetScopedEventWithoutMessage, isCallEventType, canonicalizeTargetScopedIDs, canonicalizeMessageScopedIDs, canonicalizeRecipientScopedIDs;
  repeat accept_step;
  unfold canonicalizeTypedPayload, typedPayloadCanonicalizers, map_get, isCallEventType; repeat accept_step;
  unfold canonicalizeReactionEvent, canonicalizePinEvent, canonicalizeMembersEvent, canonicalizeAttachmentEvent, canonicalizePresenceEvent,
    canonicalizeTypingEvent, canonicalizePresenceSettingsEvent, typingUpdatedAtMaxLen, presenceUpdatedAtMaxLen, attachmentUpdatedAtMaxLen;
  repeat accept_step;
  unfold canonicalizeLinkEvents, canonicalizeLinkSafetyEvent, canonicalizeLinkUpdateEvent; repeat accept_step;
  unfold stripUnrelatedBlocks; repeat accept_step.


Lemma reactions_counted (rs : list ReactionPayload) : Forall (λ r, rp_Emoji r ≠ "" ∧ 0 < rp_Count r) rs →
  existsb (λ x, (rp_Emoji x == "") || (rp_Count x <=? 0)) rs = false.
Proof.
  induction 1 as [|r rs [He Hc] _ IH]; [done|]. cbn. rewrite IH, (bool_decide_eq_false_2 _ He), (proj2 (Z.leb_gt _ _) Hc). done.
Qed.

(** What a composed presence says of somebody passes the check of the replicas. *)
Lemma composed_presence_valid user reach ctx at_ : pc_Activity ctx ∈ presenceActivityValues →
  let p := presencePayloadFor user (ResolvePresence reach ctx) at_ in
  validPresenceComposition p = true ∧ pp_State p ∈? presenceStateValues = true.
Proof.
  intros Ha p.
  assert (Hav : ep_Availability (ResolvePresence reach ctx) ∈
    [PresenceOffline; PresenceDoNotDisturb; PresenceBusy; PresenceBeRightBack; PresenceAway; PresenceAvailable]).
  { unfold ResolvePresence. case_match; cbn [ep_Availability]; [set_solver|]. apply elem_of_cons. right. apply resolveAvailability_cases. }
  assert (Hac : ep_Activity (ResolvePresence reach ctx) ∈ presenceActivityValues ∧
     (ep_Activity (ResolvePresence reach ctx) ≠ "" → ep_Availability (ResolvePresence reach ctx) = PresenceBusy ∨
        ep_Availability (ResolvePresence reach ctx) = PresenceDoNotDisturb)).
  { unfold ResolvePresence. case_match; cbn [ep_Activity ep_Availability]; [split; [set_solver|done]|].
    unfold publicActivity. set (a := resolveAvailability _ _ _).
    destruct (bool_decide_reflect (a = PresenceBusy)); [by auto|].
    destruct (bool_decide_reflect (a = PresenceDoNotDisturb)); [by auto|]. cbn. split; [set_solver|done]. }
  subst p. unfold presencePayloadFor, validPresenceComposition. cbn [pp_Availability pp_Activity pp_State].
  revert Hav Hac. generalize (ep_Availability (ResolvePresence reach ctx)) (ep_Activity (ResolvePresence reach ctx)).
  intros av ac Hav [Hac Himp]. unfold presenceActivityValues in Hac.
  
  repeat match goal with H : _ ∈ _ :: _ |- _ => apply elem_of_cons in H as [->|H] | H : _ ∈ [] |- _ => by apply elem_of_nil in H end;
    first [by vm_compute | by destruct Himp].
Qed.


Lemma callEventType_spec s ty : callEventType s = Some ty →
  callEventStatus ty = s ∧ ty ∈ [EventTypeCallRinging; EventTypeCallAccepted; EventTypeCallDeclined; EventTypeCallCancelled;
    EventTypeCallTimedOut; EventTypeCallEnded].
Proof. unfold callEventType. intros H. go_cases; (split; [done|by apply (bool_decide_unpack _)]). Qed.

(** Where a row of [chat.calls] is announced: to both sides, or in the conversation. *)
Lemma call_targets_spec c t tid : calls_check c = true → (t, tid) ∈ call_targets c →
  (t = TargetTypeUser ∧ call_CalleeID c = call_TargetID c ∧ (tid = call_CallerID c ∨ tid = call_CalleeID c)) ∨
  (t = call_TargetType c ∧ (t = TargetTypeChannel ∨ t = TargetTypeDM) ∧ tid = call_TargetID c ∧ call_CalleeID c = "").
Proof.
  unfold calls_check, call_targets, IsResource. intros [_ [Hck|Hck]%orb_true_iff]%andb_true_iff Hin.
  - left. apply andb_true_iff in Hck as [ [ [Htt _]%andb_true_iff Hid]%andb_true_iff _]. go_simpl.
    revert Hin. rewrite Htt. decide_known. set_solver.
  - right. apply andb_true_iff in Hck as [Htt Hno]. go_simpl.
    assert (Hcase : call_TargetType c = CallTargetChannel ∨ call_TargetType c = CallTargetDM) by set_solver.
    revert Hin. destruct Hcase as [Hc|Hc]; rewrite Hc; decide_known; cbn [orb]; intros [= -> ->]%list_elem_of_singleton; auto.
Qed.

Lemma call_payload_ok e c : callEventStatus (Type_ e) = call_Status c → calls_check c = true → MessageID e = "" →
  blocks e = set_Call (Some (callEventPayload c)) no_blocks →
  Forall canonical [call_ID c; call_RequestID c; call_CallerID c; call_TargetID c] →
  time_IsZero (call_CreatedAt c) || time_IsZero (call_UpdatedAt c) || time_IsZero (call_ExpiresAt c) = false →
  (TargetType_ e, TargetID e) ∈ call_targets c → canonicalizeCallEvent e = Some e.
Proof.
  intros Hst Hck Hm Hb Hids Ht Hin.
  repeat match goal with H : Forall _ (_ :: _) |- _ => apply Forall_cons in H as [? H] end.
  destruct e as [sv ty ws t tid mid rid reason eid src at_ b]. cbn in *. subst mid b.
  assert (Hroute : (if t == TargetTypeUser then
       calleeID ← uuid_Parse (call_CalleeID c);
       if (tid != call_CallerID c) && (tid != calleeID) then None else Some (calleeID, call_TargetID c)
     else if conversation_target t then
       if call_CalleeID c != "" then None
       else if call_TargetType c != (if t == TargetTypeDM then CallTargetDM else CallTargetChannel) then None
       else targetID ← uuid_Parse (call_TargetID c); if tid != targetID then None else Some (call_CalleeID c, targetID)
     else None) = Some (call_CalleeID c, call_TargetID c)).
  { destruct (call_targets_spec c t tid Hck Hin) as [(-> & Hce & Htid)|(Ht' & Hcase & -> & ->)].
    - decide_known. rewrite Hce, H2. cbn [mbind option_bind].
      destruct Htid as [->| ->]; rewrite ?Hce, (bool_decide_eq_true_2 _ eq_refl); cbn; [done|]. by rewrite andb_false_r.
    - rewrite <-Ht'. destruct Hcase as [->| ->]; decide_known; cbn; rewrite H2; cbn; by rewrite (bool_decide_eq_true_2 _ eq_refl). }
  unfold calls_check in Hck. apply andb_true_iff in Hck as [ [ [Hty Hsv]%andb_true_iff Hv]%andb_true_iff _].
  assert (Hv' : (call_Version c <? 1) = false) by (apply Z.ltb_lt in Hv; apply Z.ltb_ge; lia).
  apply orb_false_iff in Ht as [ [Ht1 Ht2]%orb_false_iff Ht3].
  unfold canonicalizeCallEvent, callEventPayload, on_blocks.
  cbn -[bool_decide callEventStatus CallType_Valid CallStatus_Valid conversation_target time_IsZero Z.ltb].
  decide_known. cbn [negb orb]. rewrite H, H0, H1. cbn [mbind option_bind] in Hroute |- *. rewrite Hroute. cbn [mbind option_bind].
  by rewrite Hty, Hsv, Hv', Ht1, Ht2, Ht3, Hst, (bool_decide_eq_true_2 _ eq_refl).
Qed.

Lemma accepted_call instance eid c t tid e : source_ok instance = true → canonical eid → canonical (call_WorkspaceID c) →
  calls_check c = true → Forall canonical [call_ID c; call_RequestID c; call_CallerID c; call_TargetID c] →
  time_IsZero (call_CreatedAt c) || time_IsZero (call_UpdatedAt c) || time_IsZero (call_ExpiresAt c) = false →
  (t, tid) ∈ call_targets c → newCallEvent instance eid c t tid = Some e → canonicalizeRemoteEvent e = Some (as_received e).
Proof.
  intros Hs He Hw Hck Hids Ht Hin Hn. unfold newCallEvent in Hn. apply bind_Some in Hn as (ty & [Hst Hty]%callEventType_spec & [= <-]).
  pose proof (call_payload_ok (event_of instance eid (call_UpdatedAt c) ty (call_WorkspaceID c) t tid "" (set_Call (Some (callEventPayload c)) no_blocks))
    c Hst Hck eq_refl eq_refl Hids Ht Hin) as Hcall. unfold event_of in Hcall.
  assert (t ∈? [TargetTypeChannel; TargetTypeDM; TargetTypeUser] = true ∧ canonical tid) as [Hkt Hid].
  { repeat match goal with H : Forall _ (_ :: _) |- _ => apply Forall_cons in H as [? H] end.
    destruct (call_targets_spec c t tid Hck Hin) as [(-> & Hce & [->| ->])|(_ & [->| ->] & -> & _)]; (split; [done|]); congruence. }
  repeat match goal with H : _ ∈ _ :: _ |- _ => apply elem_of_cons in H as [->|H] | H : _ ∈ [] |- _ => by apply elem_of_nil in H end.
  all: unfold as_received, own_blocks, event_of, on_blocks;
    cbn [snd Type_ WorkspaceID TargetType_ TargetID MessageID RecipientUserID Reason EventID SourceInstanceID CreatedAt SchemaVersion blocks];
    rewrite accepted_envelope by done; unfold isTargetScopedEventWithoutMessage, isCallEventType; decide_known;
    cbn [negb orb mbind option_bind]; unfold canonicalizeTypedPayload, isCallEventType; cbn [Type_]; decide_known;
    rewrite Hcall; cbn [mbind option_bind]; unfold canonicalizeLinkEvents; repeat accept_step;
    unfold stripUnrelatedBlocks; by repeat accept_step.
Qed.
Lemma accepted_presence instance eid now ws tt tid p : source_ok instance = true → routed eid ws tt tid → canonical (pp_UserID p) →
  validPresenceComposition p = true → pp_State p ∈? presenceStateValues = true → (64 <? len (pp_UpdatedAt p)) = false →
  let e := presenceEvent instance eid now ws tt tid p in canonicalizeRemoteEvent e = Some (as_received e).
Proof. intros Hs (?&?&?&?) Hu Hv Hst Hl e. subst e. destruct p. cbn [pp_UserID pp_State pp_UpdatedAt] in Hu, Hst, Hl. accept. done. Qed.


(** ** What a replica accepts *)

(** A presence, a typing state and a call a replica passes on. *)
Definition presence_ok (p : PresencePayload) : Prop :=
  (∃ u, uuid_Parse u = Some (pp_UserID p)) ∧ pp_State p ∈ presenceStateValues ∧ validPresenceComposition p = true ∧
  len (pp_UpdatedAt p) <= 64.
Definition typing_ok (t : TypingEventPayload) : Prop :=
  (∃ u, uuid_Parse u = Some (ty_UserID t)) ∧ len (ty_UpdatedAt t) <= 64 ∧ ∃ name, ty_UserDisplayName t = truncated_name name.
Definition call_ok (e : Event) (c : CallEventPayload) : Prop :=
  ce_Status c = callEventStatus (Type_ e) ∧ CallType_Valid (ce_CallType c) = true ∧ 1 <= ce_Version c ∧
  (TargetType_ e = TargetTypeUser → TargetID e = ce_CallerID c ∨ TargetID e = ce_CalleeID c) ∧
  (TargetType_ e ≠ TargetTypeUser → ce_CalleeID c = "" ∧ ce_TargetID c = TargetID e ∧ ce_TargetType c = TargetType_ e).

(** What the typed step leaves: the envelope and the links as they are. *)
Definition typed_spec (e e' : Event) : Prop :=
  ∃ b, e' = on_blocks (λ _, b) e ∧ LinkSafety_ b = LinkSafety_ (blocks e) ∧ LinkUpdate b = LinkUpdate (blocks e) ∧
    (Type_ e = EventTypePresenceUpdated → ∃ p, Presence_ b = Some p ∧ presence_ok p) ∧
    (Type_ e = EventTypeTypingUpdated → ∃ t, Typing b = Some t ∧ typing_ok t) ∧
    (isCallEventType (Type_ e) = true → ∃ c, Call_ b = Some c ∧ call_ok e c).


(** Walk to the value of a computation that gave one. *)
Ltac succeed_opt H :=
  repeat match type of H with
      | (if ?b then None else _) = _ => let E := fresh "E" in destruct b eqn:E; [discriminate H|]
      | (?m ≫= _) = Some _ => let x := fresh "x" in let Hx := fresh "Hx" in apply bind_Some in H as (x & Hx & H)
      | (match ?m with Some _ => _ | None => None end) = _ => let E := fresh "E" in destruct m eqn:E; [|discriminate H]
      end.

Lemma call_step e e' : canonicalizeCallEvent e = Some e' →
  ∃ c, e' = on_blocks (set_Call (Some c)) e ∧ call_ok e c.
Proof.
  unfold canonicalizeCallEvent. destruct (Call_ (blocks e)) as [c|]; [|done].
  destruct (negb _ || _ || _ || _ || _); [done|]. intros H.
  apply bind_Some in H as (id & _ & H). apply bind_Some in H as (rq & _ & H). apply bind_Some in H as (cl & _ & H).
  apply bind_Some in H as ([ce tg] & Hr & H). match type of H with (if ?b then _ else _) = _ => destruct b eqn:Hb; [done|] end.
  injection H as <-. eexists. split; [reflexivity|]. unfold call_ok. cbn [ce_Status ce_CallType ce_Version ce_CallerID ce_CalleeID ce_TargetID ce_TargetType].
  rewrite !orb_false_iff, !negb_false_iff in Hb. destruct Hb as ((((((Hty & _) & Hv) & Hst) & _) & _) & _).
  apply Z.ltb_ge in Hv. apply bool_decide_eq_true_1 in Hst. split_and!; try done.
  - intros Ht. rewrite (bool_decide_eq_true_2 _ Ht) in Hr. apply bind_Some in Hr as (x & _ & Hr). case_match eqn:E; [done|].
    simplify_eq. apply andb_false_iff in E as [E|E]; go_simpl; auto.
  - intros Ht. rewrite (bool_decide_eq_false_2 _ Ht) in Hr. unfold conversation_target in Hr.
    destruct (bool_decide_reflect (TargetType_ e = TargetTypeDM)) as [Hd|Hd]; [|destruct (bool_decide_reflect (TargetType_ e = TargetTypeChannel)) as [Hc|Hc]; [|done] ];
      rewrite ?orb_true_r in Hr; cbn [orb] in Hr; repeat (case_match; [done|]); go_simpl;
      apply bind_Some in Hr as (x & _ & Hr); repeat (case_match; [done|]); go_simpl; by rewrite ?Hd, ?Hc.
Qed.

Lemma typed_other e f : isCallEventType (Type_ e) = false → Type_ e ≠ EventTypePresenceUpdated → Type_ e ≠ EventTypeTypingUpdated →
  LinkSafety_ (f (blocks e)) = LinkSafety_ (blocks e) → LinkUpdate (f (blocks e)) = LinkUpdate (blocks e) → typed_spec e (on_blocks f e).
Proof. intros Hc Hp Ht Hl Hu. exists (f (blocks e)). split_and!; [by destruct e|done|done|done|done|]. by rewrite Hc. Qed.

Lemma typed_same e : isCallEventType (Type_ e) = false → Type_ e ≠ EventTypePresenceUpdated → Type_ e ≠ EventTypeTypingUpdated → typed_spec e e.
Proof. intros Hc Hp Ht. pose proof (typed_other e id Hc Hp Ht eq_refl eq_refl) as H. by destruct e. Qed.

Lemma typed_presence e f p : Type_ e = EventTypePresenceUpdated → LinkSafety_ (f (blocks e)) = LinkSafety_ (blocks e) →
  LinkUpdate (f (blocks e)) = LinkUpdate (blocks e) → Presence_ (f (blocks e)) = Some p → presence_ok p → typed_spec e (on_blocks f e).
Proof. intros Ht Hl Hu Hp Hok. exists (f (blocks e)). rewrite Ht. split_and!; [by destruct e|done|done|by exists p|done|done]. Qed.

Lemma typed_typing e f t : Type_ e = EventTypeTypingUpdated → LinkSafety_ (f (blocks e)) = LinkSafety_ (blocks e) →
  LinkUpdate (f (blocks e)) = LinkUpdate (blocks e) → Typing (f (blocks e)) = Some t → typing_ok t → typed_spec e (on_blocks f e).
Proof. intros Ht Hl Hu Hp Hok. exists (f (blocks e)). rewrite Ht. split_and!; [by destruct e|done|done|done|by exists t|done]. Qed.

Lemma typed_step e e' : canonicalizeTypedPayload e = Some e' → typed_spec e e'.
Proof.
  unfold canonicalizeTypedPayload. destruct (isCallEventType (Type_ e)) eqn:Hcall.
  - intros (c & -> & Hc)%call_step. exists (set_Call (Some c) (blocks e)). split_and!; try done; try (by intros Ht; rewrite Ht in Hcall).
    intros _. by exists c.
  - destruct (map_get typedPayloadCanonicalizers (Type_ e)) as [step|] eqn:Hm.
    + apply map_get_elem_of in Hm. unfold typedPayloadCanonicalizers in Hm. intros H.
      repeat match goal with H : _ ∈ _ :: _ |- _ => apply elem_of_cons in H as [ [= Ht ->]|H] | H : _ ∈ [] |- _ => by apply elem_of_nil in H end;
        [unfold canonicalizeReactionEvent in H|unfold canonicalizePinEvent in H|unfold canonicalizeMembersEvent in H
        |unfold canonicalizeAttachmentEvent in H|unfold canonicalizePresenceEvent in H|unfold canonicalizeTypingEvent in H
        |unfold canonicalizePresenceSettingsEvent in H]. 
      all: succeed_opt H; injection H as <-.
      1-4: by apply typed_other; [|rewrite Ht; discriminate..| |].
      * eapply typed_presence; [done|reflexivity|reflexivity|reflexivity|].
        go_simpl. split; [by eexists|]. split; [done|]. split; [done|by apply Z.ltb_ge].
      * eapply typed_typing; [done|reflexivity|reflexivity|reflexivity|].
        split; [by eexists|]. split; [by apply Z.ltb_ge|by eexists].
      * apply typed_same; [done|rewrite Ht; discriminate..].
    + injection 1 as <-. apply typed_same; [done|intros Ht..]; by rewrite Ht in Hm.
Qed.

Lemma links_step e e' : canonicalizeLinkEvents e = Some e' →
  ∃ b, e' = on_blocks (λ _, b) e ∧ Presence_ b = Presence_ (blocks e) ∧ Typing b = Typing (blocks e) ∧ Call_ b = Call_ (blocks e) ∧
    (∀ l, LinkSafety_ b = Some l → Type_ e = EventTypeMessageLinkSafetyChanged ∧ ls_MessageID l = MessageID e ∧ isKnownLinkSafetyState (ls_State l) = true) ∧
    (∀ l, LinkUpdate b = Some l → Type_ e = EventTypeMessageLinkUpdated ∧ lu_MessageID l = MessageID e ∧ isKnownLinkPayload (lu_Link l) = true).
Proof.
  unfold canonicalizeLinkEvents. destruct (bool_decide_reflect (Type_ e = EventTypeMessageLinkSafetyChanged)) as [Ht|Ht];
    [|destruct (bool_decide_reflect (Type_ e = EventTypeMessageLinkUpdated)) as [Ht'|Ht'] ].
  - intros (e1 & H & ->)%fmap_Some. unfold canonicalizeLinkSafetyEvent in H. succeed_opt H. injection H as <-. go_simpl.
    exists (set_LinkUpdate None (blocks e)). split_and!; [by destruct e|done..| |done]. cbn. intros l [= <-]%(eq_trans (eq_sym E)). done.
  - intros (e1 & H & ->)%fmap_Some. unfold canonicalizeLinkUpdateEvent in H. succeed_opt H. injection H as <-. go_simpl.
    exists (set_LinkSafety None (blocks e)). split_and!; [by destruct e|done..|]. cbn. intros l0 [= <-]%(eq_trans (eq_sym E)). done.
  - intros [= <-]. exists (set_LinkUpdate None (set_LinkSafety None (blocks e))). by split_and!; [destruct e|..].
Qed.

Lemma envelope_step e e' : canonicalizeRemoteEnvelope e = Some e' →
  e' = set_SchemaVersion CurrentEventSchemaVersion e ∧ Type_ e ∈ known_types ∧
  TargetType_ e ∈ [TargetTypeChannel; TargetTypeDM; TargetTypeUser] ∧ source_ok (SourceInstanceID e) = true.
Proof.
  unfold canonicalizeRemoteEnvelope. intros (e1 & He1 & H)%bind_Some.
  assert (e1 = set_SchemaVersion CurrentEventSchemaVersion e) as ->.
  { destruct e as [v]. cbn in He1. destruct (Z.eqb_spec v 0); [by injection He1 as <-|].
    destruct (Z.eqb_spec v CurrentEventSchemaVersion) as [->|]; [by injection He1 as <-|done]. }
  succeed_opt H. injection H as <-. cbn [SourceInstanceID TargetType_ Type_ set_SchemaVersion] in *.
  apply negb_false_iff, bool_decide_eq_true_1 in E, E0. apply negb_false_iff in E3. split_and!; [done..|].
  unfold source_ok. rewrite E3, andb_true_r. apply Z.leb_le. by apply Z.ltb_ge.
Qed.

(** The identifiers of an event from the bus, each parsed; only the two hints for one
    user name a recipient. *)
Definition ids_spec (e e' : Event) : Prop :=
  uuid_Parse (EventID e) = Some (EventID e') ∧ uuid_Parse (WorkspaceID e) = Some (WorkspaceID e') ∧
  uuid_Parse (TargetID e) = Some (TargetID e') ∧
  (if (Type_ e == EventTypeConversationAvailable) || (Type_ e == EventTypePresenceSettingsChanged)
   then uuid_Parse (RecipientUserID e) = Some (RecipientUserID e') ∧ MessageID e' = ""
   else RecipientUserID e = "" ∧ RecipientUserID e' = "" ∧
        (MessageID e' = MessageID e ∨ uuid_Parse (MessageID e) = Some (MessageID e'))).

Lemma ids_step e e' : canonicalizeEventIDs e = Some e' →
  ids_spec e e' ∧ Type_ e' = Type_ e ∧ TargetType_ e' = TargetType_ e ∧ SourceInstanceID e' = SourceInstanceID e ∧
  SchemaVersion e' = SchemaVersion e.
Proof.
  unfold canonicalizeEventIDs, ids_spec, canonicalizeCoreIDs. intros (e1 & He1 & H)%bind_Some. succeed_opt He1. injection He1 as <-.
  cbn [Type_ set_TargetID set_WorkspaceID set_EventID RecipientUserID] in H.
  destruct ((Type_ e == EventTypeConversationAvailable) || _).
  { unfold canonicalizeRecipientScopedIDs in H. succeed_opt H. by injection H as <-. }
  succeed_opt H. apply negb_false_iff, bool_decide_eq_true_1 in E.
  destruct (isTargetScopedEventWithoutMessage _).
  { unfold canonicalizeTargetScopedIDs in H. succeed_opt H. case_bool_decide; injection H as <-; cbn; split_and!; auto. }
  destruct (isCallEventType _); [injection H as <-; cbn; split_and!; auto|].
  unfold canonicalizeMessageScopedIDs in H. succeed_opt H. injection H as <-. cbn. split_and!; auto.
Qed.

Lemma strip_step e : ∃ b, stripUnrelatedBlocks e = on_blocks (λ _, b) e ∧ Payload b = None ∧ MessageUpdate b = None ∧
  LinkSafety_ b = LinkSafety_ (blocks e) ∧ LinkUpdate b = LinkUpdate (blocks e) ∧ Call_ b = Call_ (blocks e) ∧
  (∀ p, Presence_ b = Some p → Type_ e = EventTypePresenceUpdated ∧ Presence_ (blocks e) = Some p) ∧
  (∀ t, Typing b = Some t → Type_ e = EventTypeTypingUpdated ∧ Typing (blocks e) = Some t).
Proof.
  exists (blocks (stripUnrelatedBlocks e)). destruct e as [sv ty ws t tid mid rid reason eid src at_ b]. unfold stripUnrelatedBlocks, on_blocks.
  cbn [Type_ blocks]. destruct (bool_decide_reflect (ty = EventTypePresenceUpdated)) as [->|Hp];
    [|destruct (bool_decide_reflect (ty = EventTypeTypingUpdated)) as [->|Ht] ]; decide_known; cbn [negb Type_ blocks]; decide_known;
    rewrite ?(bool_decide_eq_false_2 (ty = EventTypeTypingUpdated)) by done; cbn [negb blocks];
    (split; [reflexivity|]); cbn; split_and!; try done; intros x Hx; try discriminate Hx; by split.
Qed.


(** ** What does not cross

    [message.blocked] names a recipient and no target: no other replica accepts it, so an
    author connected elsewhere is never told. *)
Lemma blocked_messages_stay_local instance eid now ws recipient mid reason e :
  PublishMessageBlocked instance eid now ws recipient mid reason = Some e → canonicalizeRemoteEvent e = None.
Proof. unfold PublishMessageBlocked. case_match; [done|]. by intros [= <-]. Qed.

(** A reaction on a message that has more than 64 distinct ones: the aggregates are
    counted before they are dropped. *)
Lemma crowded_reactions_stay_local instance eid now ws actor emoji u : (64 < length (up_Reactions u))%nat →
  canonicalizeRemoteEvent (PublishReactionUpdated instance eid now ws actor emoji u) = None.
Proof.
  intros Hn. destruct (canonicalizeRemoteEvent _) as [e'|] eqn:H; [|done]. exfalso. unfold canonicalizeRemoteEvent in H.
  apply bind_Some in H as (e1 & (-> & _)%envelope_step & H). apply bind_Some in H as (e2 & Hids & H).
  assert (Hb : Reaction (blocks e2) = Reaction (blocks (PublishReactionUpdated instance eid now ws actor emoji u)) ∧ Type_ e2 = EventTypeReactionUpdated).
  { unfold canonicalizeEventIDs, canonicalizeCoreIDs in Hids. apply bind_Some in Hids as (e3 & He3 & Hids). succeed_opt He3. injection He3 as <-.
    revert Hids. unfold isTargetScopedEventWithoutMessage, isCallEventType. decide_known. cbn [orb negb].
    unfold canonicalizeMessageScopedIDs. intros Hids. succeed_opt Hids. by injection Hids as <-. }
  destruct Hb as [Hb Ht]. apply bind_Some in H as (e3 & H & _). unfold canonicalizeTypedPayload in H. rewrite Ht in H.
  change (canonicalizeReactionEvent e2 = Some e3) in H. unfold canonicalizeReactionEvent in H. rewrite Hb in H.
  cbn [PublishReactionUpdated event_of blocks set_Reaction Reaction re_Reactions] in H.
  replace (64 <? Z.of_nat (length (up_Reactions u))) with true in H by (symmetry; apply Z.ltb_lt; lia). by rewrite orb_true_r in H.
Qed.
End events.

(** ** Examples *)

Definition toy_uuid (s : string) : option string := if s == "" then None else Some s.
Definition toy_call : Call :=
  {| call_ID := "call"; call_WorkspaceID := "ws"; call_RequestID := "request"; call_CallerID := "ana"; call_CalleeID := "bia";
     call_TargetType := "user"; call_TargetID := "bia"; call_Type := "video"; call_Status := "ringing"; call_Version := 1;
     call_CreatedAt := 5; call_UpdatedAt := 5; call_ExpiresAt := 50; call_AcceptedAt := None; call_EndedAt := None |}.

Definition toy_ring : Event :=
  event_of "node-1" "event" 5 EventTypeCallRinging "ws" TargetTypeUser "bia" "" (set_Call (Some (callEventPayload toy_call)) no_blocks).


Definition toy_typing : Event :=
  set_SchemaVersion 0 (publishTypingUpdated "node-1" "event" 7 "ws" TargetTypeDM "dm" "ana" "Ana" true).

(** "Nothing else may ride along": an attachment status, a call and a reason do. *)
Definition toy_rider : Event :=
  Build_Event 1 EventTypeConversationAvailable "ws" TargetTypeDM "dm" "" "bia" "any reason" "event" "node-1" 7
    (set_Attachment (Some {| as_AttachmentID := "file"; as_Status := "clean"; as_UpdatedAt := "now" |})
      (set_Call (Some (callEventPayload toy_call)) no_blocks)).
Example riders_survive : canonicalizeRemoteEvent toy_uuid toy_rider = Some toy_rider.
Proof. reflexivity. Qed.

(** A message event addressed to a user is accepted too; such an event is delivered to the
    sessions of that user without a subscription or an authorization. *)
Example user_addressed_messages_pass :
  let e := Build_Event 1 EventTypeMessageCreated "ws" TargetTypeUser "bia" "message" "" "" "event" "node-1" 7 no_blocks in
  canonicalizeRemoteEvent toy_uuid e = Some e.
Proof. reflexivity. Qed.
