(* ===== verification/Hub.v ===== *)
(** * The hub of the realtime gateway

    [services/chat-service/internal/ws]: the state the hub keeps about connections and
    subscriptions (hub.go), the gaps it owes them (sync_recovery.go), the outboxes
    (client.go), and every operation on that state.  Each operation that runs under
    [h.mu] is one function; HubRuns.v interleaves them.

    A [*Client] is a pointer: [cl_ref] tells two clients apart, and the mutable part of
    a client (its outbox and whether it is closed) is kept by reference.  What the
    operations set going after they release the lock in the presence and typing
    components is not part of this state. *)

From stdpp Require Import prelude gmap strings.
From Stdlib Require Import ZArith Lia.
From S2P Require Import Prelude GoStrings Codec HubEvents.
Local Open Scope Z_scope.

(** ** Targets *)

Record targetKey := { tk_workspaceID : string; tk_targetType : TargetType; tk_targetID : string }.
#[export] Instance targetKey_eq_dec : EqDecision targetKey.
Proof. solve_decision. Defined.

Definition NUL : Ascii.ascii := Ascii.zero.
Definition targetKey_String (k : targetKey) : string :=
  tk_workspaceID k +:+ String NUL (tk_targetType k +:+ String NUL (tk_targetID k)).
(** [strings.SplitN(key, NUL, 3)] gives three parts where there are two separators. *)
Definition parseTargetKey (key : string) : option targetKey :=
  '(ws, rest) ← Cut NUL key;
  '(ty, id) ← Cut NUL rest;
  if (ws == "") || (ty == "") || (id == "") then None
  else Some {| tk_workspaceID := ws; tk_targetType := ty; tk_targetID := id |}.
Definition broadcastTargetKey (e : Event) : string :=
  targetKey_String {| tk_workspaceID := WorkspaceID e; tk_targetType := TargetType_ e; tk_targetID := TargetID e |}.

(** [fnv.New32a] over the bytes of the key, modulo the number of partitions. *)
Definition broadcastWorkerCount : nat := 4.
Definition broadcastWorkerQueueCapacity : nat := 256.
Definition fnv32a (bs : list Z) : Z := foldl (λ h b, (Z.lxor h b * 16777619) mod 2 ^ 32) 2166136261 bs.
Definition broadcastPartition (key : string) (partitionCount : nat) : nat :=
  Z.to_nat (fnv32a (str_bytes key) mod Z.of_nat partitionCount).

(** ** Clients and requests *)

Record Client := { cl_ref : nat; cl_id : string; cl_userID : string; cl_workspaceID : string }.
#[export] Instance Client_eq_dec : EqDecision Client.
Proof. solve_decision. Defined.

Record syncRequiredResponse := { sr_TargetType : TargetType; sr_TargetID : string }.
(** The JSON documents that are queued: the encoding of an event broadcast to a target,
    with the number the dispatcher gave it, an event routed to a user, and the signal of
    a gap. *)
Inductive Frame :=
| EventFrame (seq : nat) (key data : string)
| UserFrame (data : string)
| SyncFrame (r : syncRequiredResponse).

Record broadcastSubscription := { bs_client : Client; bs_generation : Z }.
#[export] Instance broadcastSubscription_eq_dec : EqDecision broadcastSubscription.
Proof. solve_decision. Defined.
Record broadcastReq := { br_event : Event; br_data : string; br_remote : bool; br_seq : nat }.
Record revokeSubscriptionReq := { rv_client : Client; rv_key : string; rv_generation : Z }.
Record pendingGap := { pg_subscription : broadcastSubscription; pg_key : string }.
#[export] Instance pendingGap_eq_dec : EqDecision pendingGap.
Proof. solve_decision. Defined.

(** ** State *)

Record Hub := {
  clients : gmap string Client;
  subs : gmap string (gset string);
  clientSubs : gmap string (gset string);
  subscriptionGenerations : gmap string (gmap string Z);
  nextSubscriptionGeneration : Z;
  pendingSync : gmap string (gmap string Z);
  typingActive : gmap string (gset string);
  outbox : gmap nat (list Frame);
  closed : gset nat;
  syncSignal : bool;
  unregister : list Client;
  quit : bool }.

Definition set_registry (cs : gmap string Client) sb csb gens next (pend : gmap string (gmap string Z)) typ (h : Hub) : Hub :=
  Build_Hub cs sb csb gens next pend typ (outbox h) (closed h) (syncSignal h) (unregister h) (quit h).
Definition set_pendingSync v h :=
  set_registry (clients h) (subs h) (clientSubs h) (subscriptionGenerations h) (nextSubscriptionGeneration h) v (typingActive h) h.
Definition set_typingActive v h :=
  set_registry (clients h) (subs h) (clientSubs h) (subscriptionGenerations h) (nextSubscriptionGeneration h) (pendingSync h) v h.
Definition set_world ob cl sig un qt (h : Hub) : Hub :=
  Build_Hub (clients h) (subs h) (clientSubs h) (subscriptionGenerations h) (nextSubscriptionGeneration h) (pendingSync h)
    (typingActive h) ob cl sig un qt.
Definition set_outbox v h := set_world v (closed h) (syncSignal h) (unregister h) (quit h) h.
Definition set_closed v h := set_world (outbox h) v (syncSignal h) (unregister h) (quit h) h.
Definition set_syncSignal v h := set_world (outbox h) (closed h) v (unregister h) (quit h) h.
Definition set_unregister v h := set_world (outbox h) (closed h) (syncSignal h) v (quit h) h.
Definition set_quit v h := set_world (outbox h) (closed h) (syncSignal h) (unregister h) v h.

Definition initial_hub : Hub := Build_Hub ∅ ∅ ∅ ∅ 0 ∅ ∅ ∅ ∅ false [] false.

(** ** client.go *)

Definition outboxSize : nat := 256.
Definition outbox_of (h : Hub) (c : Client) : list Frame := default [] (outbox h !! cl_ref c).
(** [None]: the outbox is full. *)
Definition enqueue (c : Client) (data : Frame) (h : Hub) : option Hub :=
  if (length (outbox_of h c) <? outboxSize)%nat
  then Some (set_outbox (<[cl_ref c := outbox_of h c ++ [data]]> (outbox h)) h) else None.
Definition close (c : Client) (h : Hub) : Hub := set_closed ({[cl_ref c]} ∪ closed h) h.
Definition is_closed (h : Hub) (c : Client) : bool := bool_decide (cl_ref c ∈ closed h).

(** ** Connections *)

(** [h.clients[c.id] == c]. *)
Definition registered (h : Hub) (c : Client) : bool := bool_decide (clients h !! cl_id c = Some c).

(** Reads of a map of maps or sets, a missing one being empty. *)
Definition keys_of (m : gmap string (gset string)) (k : string) : gset string := default ∅ (m !! k).
Definition gens_of (m : gmap string (gmap string Z)) (k : string) : gmap string Z := default ∅ (m !! k).

Definition addClient (c : Client) (h : Hub) : bool * Hub :=
  match clients h !! cl_id c with
  | Some _ => (false, h)
  | None =>
      (true, set_registry (<[cl_id c := c]> (clients h)) (subs h) (<[cl_id c := ∅]> (clientSubs h))
               (<[cl_id c := ∅]> (subscriptionGenerations h)) (nextSubscriptionGeneration h) (pendingSync h) (typingActive h) h)
  end.

(** [delete(set, id)] for the sets of the keys given, an emptied set leaving the map. *)
Definition drop_subscriber (id : string) (keys : gset string) (m : gmap string (gset string)) : gmap string (gset string) :=
  map_imap (λ key set,
    if bool_decide (key ∈ keys) then (let set := set ∖ {[id]} in if bool_decide (set = ∅) then None else Some set)
    else Some set) m.

Definition removeClient (c : Client) (h : Hub) : option Client * Hub :=
  if negb (registered h c) then (None, h)
  else
    let id := cl_id c in
    (Some c, set_registry (delete id (clients h)) (drop_subscriber id (keys_of (clientSubs h) id) (subs h))
       (delete id (clientSubs h)) (delete id (subscriptionGenerations h)) (nextSubscriptionGeneration h)
       (delete id (pendingSync h)) (delete id (typingActive h)) h).

Definition clearClients (h : Hub) : list Client * Hub :=
  (snd <$> map_to_list (clients h), set_registry ∅ ∅ ∅ ∅ (nextSubscriptionGeneration h) ∅ ∅ h).

(** ** Subscriptions *)

Definition ErrClientNotRegistered : error := ErrNew "client not registered".
Definition errSubscriptionReplaced : error := ErrNew "ws: subscription replaced since the authorization check".
Definition uint64 (z : Z) : Z := z mod 2 ^ 64.

(** An authorized request; [cancelled] is the error of its context. *)
Definition handleSubscribe (cancelled : option error) (c : Client) (tt : TargetType) (id : string) (h : Hub) : option error * Hub :=
  let key := targetKey_String {| tk_workspaceID := cl_workspaceID c; tk_targetType := tt; tk_targetID := id |} in
  match cancelled with
  | Some err => (Some err, h)
  | None =>
      if negb (registered h c) then (Some ErrClientNotRegistered, h)
      else
        let '(next, gens) :=
          if bool_decide (key ∈ keys_of (clientSubs h) (cl_id c))
          then (nextSubscriptionGeneration h, subscriptionGenerations h)
          else let next := uint64 (nextSubscriptionGeneration h + 1) in
               (next, <[cl_id c := <[key := next]> (gens_of (subscriptionGenerations h) (cl_id c))]> (subscriptionGenerations h)) in
        (None, set_registry (clients h) (<[key := {[cl_id c]} ∪ keys_of (subs h) key]> (subs h))
                 (<[cl_id c := {[key]} ∪ keys_of (clientSubs h) (cl_id c)]> (clientSubs h)) gens next (pendingSync h) (typingActive h) h)
  end.

Definition subscriptionGeneration (h : Hub) (c : Client) (key : string) : Z :=
  default 0 (gens_of (subscriptionGenerations h) (cl_id c) !! key).

Definition forgetGapLocked (id key : string) (h : Hub) : Hub :=
  match pendingSync h !! id with
  | None => h
  | Some gaps =>
      let gaps := delete key gaps in
      set_pendingSync (if bool_decide (gaps = ∅) then delete id (pendingSync h) else <[id := gaps]> (pendingSync h)) h
  end.

(** [delete(m[id], key)] of a map of sets, the emptied set leaving the map. *)
Definition forget_key (id key : string) (m : gmap string (gset string)) : gmap string (gset string) :=
  match m !! id with
  | None => m
  | Some s => if bool_decide (s ∖ {[key]} = ∅) then delete id m else <[id := s ∖ {[key]}]> m
  end.

Definition revokeSubscription (c : Client) (key : string) (h : Hub) : bool * Hub :=
  if negb (registered h c) then (false, h)
  else
    let id := cl_id c in
    let h' := set_registry (clients h) (drop_subscriber id {[key]} (subs h))
                (alter (λ s, s ∖ {[key]}) id (clientSubs h)) (alter (delete key) id (subscriptionGenerations h))
                (nextSubscriptionGeneration h) (pendingSync h) (typingActive h) h in
    let h' := forgetGapLocked id key h' in
    let typing := bool_decide (key ∈ keys_of (typingActive h') id) in
    (true, if typing then set_typingActive (forget_key id key (typingActive h')) h' else h').

(** [applyRevocation] reads the generation and then revokes: two critical sections. *)
Definition revocation_replaced (h : Hub) (req : revokeSubscriptionReq) : bool :=
  (rv_generation req != 0) && (subscriptionGeneration h (rv_client req) (rv_key req) != rv_generation req).
Definition applyRevocation (cancelled : option error) (req : revokeSubscriptionReq) (h : Hub) : option error * Hub :=
  match cancelled with
  | Some err => (Some err, h)
  | None =>
      if revocation_replaced h req then (Some errSubscriptionReplaced, h)
      else let '(revoked, h') := revokeSubscription (rv_client req) (rv_key req) h in
           (if revoked then None else Some ErrClientNotRegistered, h')
  end.

(** ** Broadcasts *)

Definition broadcastSnapshot (key : string) (h : Hub) : list broadcastSubscription :=
  omap (λ id,
    c ← clients h !! id; g ← gens_of (subscriptionGenerations h) id !! key;
    Some {| bs_client := c; bs_generation := g |}) (elements (keys_of (subs h) key)).

Definition subscriptionIsCurrentLocked (s : broadcastSubscription) (key : string) (h : Hub) : bool :=
  let c := bs_client s in
  if negb (registered h c) then false
  else if negb (bool_decide (cl_id c ∈ keys_of (subs h) key)) then false
  else if negb (bool_decide (key ∈ keys_of (clientSubs h) (cl_id c))) then false
  else subscriptionGeneration h c key == bs_generation s.

Definition gapIsPendingLocked (s : broadcastSubscription) (key : string) (h : Hub) : bool :=
  match gens_of (pendingSync h) (cl_id (bs_client s)) !! key with
  | None => false
  | Some g => (g == bs_generation s) && subscriptionIsCurrentLocked s key h
  end.

(** [false]: there was a gap and the outbox is full. *)
Definition signalGapLocked (s : broadcastSubscription) (key : string) (h : Hub) : bool * Hub :=
  if negb (gapIsPendingLocked s key h) then (true, h)
  else
    let h := forgetGapLocked (cl_id (bs_client s)) key h in
    match parseTargetKey key with
    | None => (true, h)
    | Some target =>
        match enqueue (bs_client s) (SyncFrame {| sr_TargetType := tk_targetType target; sr_TargetID := tk_targetID target |}) h with
        | None => (false, h)
        | Some h => (true, h)
        end
    end.

(** [expired]: the context of the check has ended.  The result: queued, outbox full. *)
Definition enqueueAuthorizedBroadcast (expired : bool) (s : broadcastSubscription) (key : string) (data : Frame) (h : Hub)
    : bool * bool * Hub :=
  if expired || quit h || negb (subscriptionIsCurrentLocked s key h) then (false, false, h)
  else match enqueue (bs_client s) data h with
  | None => (false, true, h)
  | Some h => let '(signalled, h) := signalGapLocked s key h in (true, negb signalled, h)
  end.

(** The first half of [recordGap], under the lock; the second sends the signal. *)
Definition recordGap (s : broadcastSubscription) (key : string) (h : Hub) : bool * Hub :=
  let recorded := subscriptionIsCurrentLocked s key h in
  if recorded then
    let id := cl_id (bs_client s) in
    (true, set_pendingSync (<[id := <[key := bs_generation s]> (gens_of (pendingSync h) id)]> (pendingSync h)) h)
  else (false, h).
Definition send_signal (h : Hub) : Hub := set_syncSignal true h.

Definition pendingGaps (h : Hub) : list pendingGap :=
  '(id, keys) ← map_to_list (pendingSync h);
  match clients h !! id with
  | None => []
  | Some c => (λ '(key, g), {| pg_subscription := {| bs_client := c; bs_generation := g |}; pg_key := key |}) <$> map_to_list keys
  end.

(** ** Re-checks *)

Inductive recheckOutcome := recheckAllowed | recheckDenied | recheckTimeout | recheckError | recheckClientClosed.
#[export] Instance recheckOutcome_eq_dec : EqDecision recheckOutcome.
Proof. solve_decision. Defined.

(** [closed] is [c.ctx.Err() != nil]. *)
Definition classifyRecheck (closed allowed : bool) (err : option error) : recheckOutcome :=
  match err with
  | None => if allowed then recheckAllowed else recheckDenied
  | Some err =>
      if closed then recheckClientClosed
      else if errors_Is err context_DeadlineExceeded then recheckTimeout else recheckError
  end.
Definition recheck_withheld (o : recheckOutcome) : bool := (o == recheckTimeout) || (o == recheckError).

(** Whether the person a presence is about is looked up again before it is delivered. *)
Definition presence_subject (e : Event) : option string :=
  if Type_ e != EventTypePresenceUpdated then None
  else match Presence_ (blocks e) with
  | None => None
  | Some p => if pp_State p == ws_PresenceOffline then None else Some (pp_UserID p)
  end.

(** ** Events routed to a user

    Each session of the user in the workspace; the slow ones are left to be dropped. *)
Definition sessions_of (ws user : string) (h : Hub) : list Client :=
  filter (λ c, cl_workspaceID c = ws ∧ cl_userID c = user) (snd <$> map_to_list (clients h)).
Definition offer (data : Frame) (acc : list Client * Hub) (c : Client) : list Client * Hub :=
  match enqueue c data (snd acc) with Some h => (fst acc, h) | None => (fst acc ++ [c], snd acc) end.
Definition handleUserBroadcast (r : broadcastReq) (h : Hub) : list Client * Hub :=
  foldl (offer (UserFrame (br_data r))) ([], h) (sessions_of (WorkspaceID (br_event r)) (TargetID (br_event r)) h).
Definition deliverToLocalUserSessions (e : Event) (data : string) (h : Hub) : Hub :=
  if (RecipientUserID e == "") || quit h then h
  else snd (foldl (offer (UserFrame data)) ([], h) (sessions_of (WorkspaceID e) (RecipientUserID e) h)).

(** ** Typing *)

Definition clientHasSubscription (c : Client) (key : string) (h : Hub) : bool := bool_decide (key ∈ keys_of (clientSubs h) (cl_id c)).
Definition clientTypingKeys (c : Client) (h : Hub) : gset string := keys_of (typingActive h) (cl_id c).
Definition touchTypingState (c : Client) (key : string) (h : Hub) : Hub :=
  set_typingActive (<[cl_id c := {[key]} ∪ keys_of (typingActive h) (cl_id c)]> (typingActive h)) h.
Definition clearTypingState (c : Client) (key : string) (h : Hub) : bool * Hub :=
  match typingActive h !! cl_id c with
  | None => (false, h)
  | Some targets => (bool_decide (key ∈ targets), set_typingActive (forget_key (cl_id c) key (typingActive h)) h)
  end.
