(* ===== verification/HubFacts.v ===== *)
(** * The registry of the hub

    The invariant of the maps [h.mu] protects, and that every operation preserves it. *)

From stdpp Require Import prelude gmap strings.
From Stdlib Require Import ZArith Lia.
From S2P Require Import Prelude GoStrings Codec HubEvents Hub.
Local Open Scope Z_scope.

(** ** Targets *)

Lemma parse_targetKey k : NUL ∉ String.list_ascii_of_string (tk_workspaceID k) → NUL ∉ String.list_ascii_of_string (tk_targetType k) →
  tk_workspaceID k ≠ "" → tk_targetType k ≠ "" → tk_targetID k ≠ "" → parseTargetKey (targetKey_String k) = Some k.
Proof.
  intros H1 H2 H3 H4 H5. unfold parseTargetKey, targetKey_String. rewrite Cut_app by done. cbn [mbind option_bind].
  rewrite Cut_app by done. cbn [mbind option_bind]. rewrite !bool_decide_eq_false_2 by done. by destruct k.
Qed.

Lemma parse_inv key k : parseTargetKey key = Some k → targetKey_String k = key.
Proof.
  assert (Hcut : ∀ s a b, Cut NUL s = Some (a, b) → s = a +:+ String NUL b).
  { induction s as [|c s IH]; intros a b; cbn [Cut]; [done|]. case_decide as Hc; [by intros [= <- <-]; subst c|].
    destruct (Cut NUL s) as [ [a' b']|] eqn:E; [|done]. intros [= <- <-]. by rewrite (IH _ _ eq_refl). }
  unfold parseTargetKey. intros ([ws rest] & H1 & H)%bind_Some. apply bind_Some in H as ([ty id] & H2 & H). case_match; [done|].
  injection H as <-. unfold targetKey_String. cbn. apply Hcut in H1, H2. by subst.
Qed.

(** ** Maps of maps *)

Lemma keys_of_insert m k s k' : keys_of (<[k := s]> m) k' = if decide (k = k') then s else keys_of m k'.
Proof. unfold keys_of. case_decide as H; [subst; by rewrite lookup_insert_eq|by rewrite lookup_insert_ne]. Qed.
Lemma keys_of_delete m k k' : keys_of (delete k m) k' = if decide (k = k') then ∅ else keys_of m k'.
Proof. unfold keys_of. case_decide as H; [subst; by rewrite lookup_delete_eq|by rewrite lookup_delete_ne]. Qed.
Lemma keys_of_alter f m k k' : f ∅ = ∅ → keys_of (alter f k m) k' = if decide (k = k') then f (keys_of m k') else keys_of m k'.
Proof.
  intros Hf. unfold keys_of. case_decide as H; [subst; rewrite lookup_alter_eq|by rewrite lookup_alter_ne].
  by destruct (m !! k').
Qed.
Lemma keys_of_drop id keys m key : keys_of (drop_subscriber id keys m) key =
  if decide (key ∈ keys) then keys_of m key ∖ {[id]} else keys_of m key.
Proof.
  unfold keys_of, drop_subscriber. rewrite map_lookup_imap. destruct (m !! key) as [s|]; cbn; [|case_decide; set_solver].
  case_decide as H; [rewrite (bool_decide_eq_true_2 _ H)|by rewrite (bool_decide_eq_false_2 _ H)].
  cbn. case_bool_decide; cbn; set_solver.
Qed.
Lemma gens_of_insert m k s k' : gens_of (<[k := s]> m) k' = if decide (k = k') then s else gens_of m k'.
Proof. unfold gens_of. case_decide as H; [subst; by rewrite lookup_insert_eq|by rewrite lookup_insert_ne]. Qed.
Lemma gens_of_delete m k k' : gens_of (delete k m) k' = if decide (k = k') then ∅ else gens_of m k'.
Proof. unfold gens_of. case_decide as H; [subst; by rewrite lookup_delete_eq|by rewrite lookup_delete_ne]. Qed.
Lemma gens_of_alter_delete (key : string) m k k' :
  gens_of (alter (delete key) k m) k' = if decide (k = k') then delete key (gens_of m k') else gens_of m k'.
Proof.
  unfold gens_of. case_decide as H; [subst; rewrite lookup_alter_eq|by rewrite lookup_alter_ne].
  destruct (m !! k'); cbn; [done|]. by rewrite delete_empty.
Qed.

(** ** The invariant *)

Definition gen (h : Hub) (id key : string) : option Z := gens_of (subscriptionGenerations h) id !! key.
Definition gap (h : Hub) (id key : string) : option Z := gens_of (pendingSync h) id !! key.

Record hub_wf (h : Hub) : Prop := {
  wf_id : ∀ id c, clients h !! id = Some c → cl_id c = id;
  wf_clientSubs : ∀ id, is_Some (clientSubs h !! id) ↔ is_Some (clients h !! id);
  wf_generations : ∀ id, is_Some (subscriptionGenerations h !! id) ↔ is_Some (clients h !! id);
  wf_both_ways : ∀ id key, id ∈ keys_of (subs h) key ↔ key ∈ keys_of (clientSubs h) id;
  wf_no_empty : ∀ key s, subs h !! key = Some s → s ≠ ∅;
  wf_gen : ∀ id key, key ∈ keys_of (clientSubs h) id ↔ is_Some (gen h id key);
  wf_range : ∀ id key g, gen h id key = Some g → 0 < g <= nextSubscriptionGeneration h;
  wf_unique : ∀ id key id' key' g, gen h id key = Some g → gen h id' key' = Some g → id = id' ∧ key = key';
  wf_next : 0 <= nextSubscriptionGeneration h < 2 ^ 64;
  wf_gap : ∀ id key g, gap h id key = Some g → gen h id key = Some g;
  wf_gaps : ∀ id gaps, pendingSync h !! id = Some gaps → gaps ≠ ∅;
  wf_outbox : ∀ c, (length (outbox_of h c) <= outboxSize)%nat
}.

Lemma initial_hub_wf : hub_wf initial_hub.
Proof.
  assert (Hg : ∀ id key, gen initial_hub id key = None) by done.
  split; try done.
  - intros id. split; intros [? [=] ].
  - intros id. split; intros [? [=] ].
  - intros id key. rewrite Hg. split; [set_solver|intros [? [=] ] ].
  - intros c. unfold outbox_of, outboxSize. cbn. rewrite lookup_empty. cbn. lia.
Qed.

(** The registry is only read or left alone. *)
Definition same_registry (h h' : Hub) : Prop :=
  clients h' = clients h ∧ subs h' = subs h ∧ clientSubs h' = clientSubs h ∧
  subscriptionGenerations h' = subscriptionGenerations h ∧ nextSubscriptionGeneration h' = nextSubscriptionGeneration h.

Lemma same_registry_wf h h' : hub_wf h → same_registry h h' →
  (∀ id key g, gap h' id key = Some g → gen h id key = Some g) → (∀ id gaps, pendingSync h' !! id = Some gaps → gaps ≠ ∅) →
  (∀ c, (length (outbox_of h' c) <= outboxSize)%nat) → hub_wf h'.
Proof.
  intros [] (Hc & Hs & Hcs & Hg & Hn) Hgap Hgaps Hob. split; unfold gen in *; rewrite ?Hc, ?Hs, ?Hcs, ?Hg, ?Hn; eauto.
Qed.

Lemma registered_true h c : registered h c = true ↔ clients h !! cl_id c = Some c.
Proof. unfold registered. by rewrite bool_decide_eq_true. Qed.

(** ** The operations preserve it *)

Lemma addClient_wf c h : hub_wf h → hub_wf (snd (addClient c h)).
Proof.
  intros W. unfold addClient. destruct (clients h !! cl_id c) as [c'|] eqn:Hc; [done|]. destruct W.
  assert (Hk : keys_of (clientSubs h) (cl_id c) = ∅).
  { unfold keys_of. destruct (clientSubs h !! cl_id c) eqn:E; [|done]. destruct (proj1 (wf_clientSubs0 (cl_id c))) as [? ?]; [by eexists|congruence]. }
  assert (Hg : gens_of (subscriptionGenerations h) (cl_id c) = ∅).
  { unfold gens_of. destruct (subscriptionGenerations h !! cl_id c) eqn:E; [|done]. destruct (proj1 (wf_generations0 (cl_id c))) as [? ?]; [by eexists|congruence]. }
  assert (Hgen : ∀ id key, gen (snd (true, set_registry (<[cl_id c := c]> (clients h)) (subs h) (<[cl_id c := ∅]> (clientSubs h))
               (<[cl_id c := ∅]> (subscriptionGenerations h)) (nextSubscriptionGeneration h) (pendingSync h) (typingActive h) h)) id key = gen h id key).
  { intros id key. unfold gen. cbn. rewrite gens_of_insert. case_decide as Hid; [subst; by rewrite Hg|done]. }
  split; try setoid_rewrite Hgen; cbn; try done.
  - intros id c'. rewrite lookup_insert_Some. intros [ [<- <-]|[_ ?] ]; eauto.
  - intros id. rewrite !lookup_insert_is_Some. specialize (wf_clientSubs0 id). tauto.
  - intros id. rewrite !lookup_insert_is_Some. specialize (wf_generations0 id). tauto.
  - intros id key. rewrite keys_of_insert. case_decide as Hid; [subst; by rewrite wf_both_ways0, Hk|done].
  - intros id key. rewrite keys_of_insert. rewrite <-wf_gen0. case_decide as Hid; [subst; by rewrite Hk|done].
Qed.

Lemma gen_registered h id key g : hub_wf h → gen h id key = Some g → is_Some (clients h !! id).
Proof.
  intros [] Hg. apply wf_generations0. unfold gen, gens_of in Hg. destruct (subscriptionGenerations h !! id) eqn:E; [by eexists|].
  cbn in Hg. by rewrite lookup_empty in Hg.
Qed.

Lemma drop_subscriber_nonempty id keys m : (∀ key s, m !! key = Some s → s ≠ ∅) →
  ∀ key s, drop_subscriber id keys m !! key = Some s → s ≠ ∅.
Proof.
  intros Hm key s. unfold drop_subscriber. rewrite map_lookup_imap. intros (s' & Hs' & H)%bind_Some.
  case_bool_decide; [cbn in H; case_bool_decide; [done|]; by injection H as <-|]. injection H as <-. eauto.
Qed.

Lemma removeClient_gen c h id key : gen (snd (removeClient c h)) id key =
  if decide (registered h c = true ∧ cl_id c = id) then None else gen h id key.
Proof.
  unfold removeClient. destruct (registered h c); cbn; [|by rewrite decide_False by (by intros [? _])].
  unfold gen. cbn. rewrite gens_of_delete. destruct (decide (cl_id c = id)) as [->|Hne].
  - by rewrite decide_True.
  - by rewrite decide_False by (by intros [_ ?]).
Qed.

Lemma removeClient_wf c h : hub_wf h → hub_wf (snd (removeClient c h)).
Proof.
  intros W. unfold removeClient. destruct (registered h c) eqn:Hc; [|done]. apply registered_true in Hc.
  pose proof (gen_registered h) as Hreg. destruct W. split; cbn.
  - intros id c' [_ ?]%lookup_delete_Some. eauto.
  - intros id. rewrite !lookup_delete_is_Some, wf_clientSubs0. tauto.
  - intros id. rewrite !lookup_delete_is_Some, wf_generations0. tauto.
  - intros id key. rewrite keys_of_drop, keys_of_delete. specialize (wf_both_ways0 id key) as Hb.
    destruct (decide (cl_id c = id)) as [->|Hne].
    + case_decide as Hk; [set_solver|]. rewrite Hb. set_solver.
    + case_decide as Hk; set_solver.
  - apply drop_subscriber_nonempty. done.
  - intros id key. unfold gen. cbn. rewrite keys_of_delete, gens_of_delete. case_decide; [|apply wf_gen0].
    split; [set_solver|]. rewrite lookup_empty. by intros [? ?].
  - intros id key g. unfold gen. cbn. rewrite gens_of_delete. case_decide; [by rewrite lookup_empty|apply wf_range0].
  - intros id key id' key' g. unfold gen. cbn. rewrite !gens_of_delete. do 2 (case_decide; [by rewrite lookup_empty|]). apply wf_unique0.
  - done.
  - intros id key g. unfold gap, gen. cbn. rewrite !gens_of_delete. case_decide; [by rewrite lookup_empty|apply wf_gap0].
  - intros id gaps [_ ?]%lookup_delete_Some. eauto.
  - done.
Qed.

Lemma clearClients_wf h : hub_wf h → hub_wf (snd (clearClients h)).
Proof.
  intros W. assert (Hg : ∀ id key, gen (snd (clearClients h)) id key = None) by done. destruct W.
  split; cbn; try done.
  - intros id. split; intros [? [=] ].
  - intros id. split; intros [? [=] ].
  - intros id key. rewrite Hg. split; [set_solver|intros [? [=] ] ].
Qed.

Lemma forgetGapLocked_gap id key h id' key' :
  gap (forgetGapLocked id key h) id' key' = if decide (id = id' ∧ key = key') then None else gap h id' key'.
Proof.
  unfold forgetGapLocked, gap. destruct (pendingSync h !! id) as [gaps|] eqn:E.
  - cbn. case_bool_decide as He.
    + rewrite gens_of_delete. destruct (decide (id = id')) as [<-|Hne]; [|by rewrite decide_False by tauto].
      assert (Hk : delete key gaps !! key' = None) by (by rewrite He, lookup_empty).
      unfold gens_of. rewrite E. cbn. case_decide as Hd; [done|]. destruct (decide (key = key')); [tauto|].
      by rewrite lookup_delete_ne in Hk.
    + rewrite gens_of_insert. destruct (decide (id = id')) as [<-|Hne]; [|by rewrite decide_False by tauto].
      unfold gens_of. rewrite E. cbn. destruct (decide (key = key')) as [<-|Hk].
      * by rewrite lookup_delete_eq, decide_True.
      * by rewrite lookup_delete_ne, decide_False by tauto.
  - case_decide as Hd; [destruct Hd as [<- <-]; unfold gens_of; by rewrite E|done].
Qed.

Lemma forgetGapLocked_registry id key h : same_registry h (forgetGapLocked id key h).
Proof. unfold forgetGapLocked. by destruct (pendingSync h !! id). Qed.

Lemma forgetGapLocked_gaps id key h : (∀ id gaps, pendingSync h !! id = Some gaps → gaps ≠ ∅) →
  ∀ id' gaps, pendingSync (forgetGapLocked id key h) !! id' = Some gaps → gaps ≠ ∅.
Proof.
  intros Hg id' gaps. unfold forgetGapLocked. destruct (pendingSync h !! id) as [old|] eqn:E; [|apply Hg].
  cbn. case_bool_decide; [intros [_ ?]%lookup_delete_Some; eauto|]. intros [ [_ <-]|[_ ?] ]%lookup_insert_Some; eauto.
Qed.

Lemma forgetGapLocked_world id key h :
  outbox (forgetGapLocked id key h) = outbox h ∧ closed (forgetGapLocked id key h) = closed h ∧
  syncSignal (forgetGapLocked id key h) = syncSignal h ∧ unregister (forgetGapLocked id key h) = unregister h ∧
  quit (forgetGapLocked id key h) = quit h ∧ typingActive (forgetGapLocked id key h) = typingActive h.
Proof. unfold forgetGapLocked. by destruct (pendingSync h !! id). Qed.

Lemma forgetGapLocked_wf id key h : hub_wf h → hub_wf (forgetGapLocked id key h).
Proof.
  intros W. apply (same_registry_wf h); [done|apply forgetGapLocked_registry|..].
  - intros id' key' g. rewrite forgetGapLocked_gap. case_decide; [done|apply W].
  - apply forgetGapLocked_gaps, W.
  - intros c. unfold outbox_of. destruct (forgetGapLocked_world id key h) as [-> _]. apply W.
Qed.

(** What a revocation does to the generations and the gaps. *)
Lemma revokeSubscription_gen c key h id key' : gen (snd (revokeSubscription c key h)) id key' =
  if decide (registered h c = true ∧ cl_id c = id ∧ key = key') then None else gen h id key'.
Proof.
  unfold revokeSubscription. destruct (registered h c); cbn; [|by rewrite decide_False by (by intros [? _])].
  set (h1 := set_registry _ _ _ _ _ _ _ _). assert (Hr : same_registry h1 (forgetGapLocked (cl_id c) key h1)) by apply forgetGapLocked_registry.
  destruct Hr as (_ & _ & _ & Hg & _).
  assert (Hgen : gen h1 id key' = if decide (cl_id c = id ∧ key = key') then None else gen h id key').
  { unfold gen, h1. cbn. rewrite gens_of_alter_delete. destruct (decide (cl_id c = id)) as [<-|]; [|by rewrite decide_False by tauto].
    destruct (decide (key = key')) as [<-|]; [by rewrite lookup_delete_eq, decide_True|by rewrite lookup_delete_ne, decide_False by tauto]. }
  assert (H : gen (forgetGapLocked (cl_id c) key h1) id key' = gen h1 id key') by (unfold gen; by rewrite Hg).
  destruct (bool_decide _); [change (gen (forgetGapLocked (cl_id c) key h1) id key' =
    if decide (true = true ∧ cl_id c = id ∧ key = key') then None else gen h id key')|]; rewrite H, Hgen;
    (destruct (decide (cl_id c = id ∧ key = key')); [by rewrite decide_True|by rewrite decide_False by tauto]).
Qed.

Lemma revokeSubscription_gap c key h id key' : gap (snd (revokeSubscription c key h)) id key' =
  if decide (registered h c = true ∧ cl_id c = id ∧ key = key') then None else gap h id key'.
Proof.
  unfold revokeSubscription. destruct (registered h c); cbn; [|by rewrite decide_False by (by intros [? _])].
  set (h1 := set_registry _ _ _ _ _ _ _ _).
  pose proof (forgetGapLocked_gap (cl_id c) key h1 id key') as H.
  destruct (bool_decide _); [change (gap (forgetGapLocked (cl_id c) key h1) id key' =
    if decide (true = true ∧ cl_id c = id ∧ key = key') then None else gap h id key')|]; rewrite H;
    (destruct (decide (cl_id c = id ∧ key = key')); [by rewrite decide_True|by rewrite decide_False by tauto]).
Qed.

Lemma revokeSubscription_world c key h : let h' := snd (revokeSubscription c key h) in
  clients h' = clients h ∧ outbox h' = outbox h ∧ closed h' = closed h ∧ syncSignal h' = syncSignal h ∧ unregister h' = unregister h ∧
  quit h' = quit h ∧ nextSubscriptionGeneration h' = nextSubscriptionGeneration h.
Proof.
  unfold revokeSubscription. destruct (registered h c); [|done]. cbn.
  set (h1 := set_registry _ _ _ _ _ _ _ _). destruct (forgetGapLocked_world (cl_id c) key h1) as (? & ? & ? & ? & ? & ?).
  destruct (forgetGapLocked_registry (cl_id c) key h1) as (? & ? & ? & ? & ?).
  destruct (bool_decide _); cbn; split_and!; try done.
Qed.

Lemma is_Some_alter {A} (f : A → A) (m : gmap string A) k k' : is_Some (alter f k m !! k') ↔ is_Some (m !! k').
Proof. destruct (decide (k = k')) as [<-|]; [rewrite lookup_alter_eq, fmap_is_Some; done|by rewrite lookup_alter_ne]. Qed.

Lemma revokeSubscription_wf c key h : hub_wf h → hub_wf (snd (revokeSubscription c key h)).
Proof.
  intros W. assert (Hfix : ∀ typ h', hub_wf h' → hub_wf (set_typingActive typ h')) by (intros ?? []; split; done).
  unfold revokeSubscription. destruct (registered h c) eqn:Hc; [|done]. apply registered_true in Hc. cbn [negb snd].
  set (h1 := set_registry (clients h) _ _ _ _ _ _ _). enough (W1 : hub_wf (forgetGapLocked (cl_id c) key h1)) by (destruct (bool_decide _); auto).
  assert (Hgen : ∀ id key', gen h1 id key' = if decide (cl_id c = id ∧ key = key') then None else gen h id key').
  { intros id key'. unfold gen, h1. cbn. rewrite gens_of_alter_delete. destruct (decide (cl_id c = id)) as [<-|]; [|by rewrite decide_False by tauto].
    destruct (decide (key = key')) as [<-|]; [by rewrite lookup_delete_eq, decide_True|by rewrite lookup_delete_ne, decide_False by tauto]. }
  destruct W. pose proof (forgetGapLocked_registry (cl_id c) key h1) as (Hcl & Hsu & Hcs & Hge & Hne).
  destruct (forgetGapLocked_world (cl_id c) key h1) as (Hob & _).
  split; unfold gen; rewrite ?Hcl, ?Hsu, ?Hcs, ?Hge, ?Hne; change (gens_of (subscriptionGenerations h1)) with (λ id, gens_of (subscriptionGenerations h1) id); cbn.
  - done.
  - intros id. by rewrite is_Some_alter.
  - intros id. by rewrite is_Some_alter.
  - intros id key'. rewrite keys_of_drop, keys_of_alter by set_solver. specialize (wf_both_ways0 id key').
    destruct (decide (cl_id c = id)) as [<-|], (decide (key' ∈ _)); set_solver.
  - by apply drop_subscriber_nonempty.
  - intros id key'. rewrite keys_of_alter by set_solver. change (gens_of _ id !! key') with (gen h1 id key'). rewrite Hgen. specialize (wf_gen0 id key').
    destruct (decide (cl_id c = id)) as [<-|]; [|by rewrite decide_False by tauto].
    destruct (decide (key = key')) as [<-|]; [rewrite decide_True by done; split; [set_solver|by intros [? ?] ]|rewrite decide_False by tauto; set_solver].
  - intros id key' g. change (gens_of _ id !! key') with (gen h1 id key'). rewrite Hgen. case_decide; [done|apply wf_range0].
  - intros id key' id' key'' g. change (gens_of _ id !! key') with (gen h1 id key'). change (gens_of _ id' !! key'') with (gen h1 id' key'').
    rewrite !Hgen. do 2 (case_decide; [done|]). apply wf_unique0.
  - done.
  - intros id key' g. rewrite forgetGapLocked_gap. change (gens_of _ id !! key') with (gen h1 id key'). rewrite Hgen.
    case_decide; [done|]. apply wf_gap0.
  - by apply forgetGapLocked_gaps.
  - intros c'. unfold outbox_of. rewrite Hob. apply wf_outbox0.
Qed.

(** A subscription keeps its generation, or is given one that no subscription ever had. *)
Lemma handleSubscribe_gen cancelled c ty tid h id key : hub_wf h → nextSubscriptionGeneration h + 1 < 2 ^ 64 →
  let '(err, h') := handleSubscribe cancelled c ty tid h in
  let key0 := targetKey_String {| tk_workspaceID := cl_workspaceID c; tk_targetType := ty; tk_targetID := tid |} in
  gen h' id key =
    if decide (err = None ∧ cl_id c = id ∧ key0 = key ∧ gen h id key = None) then Some (nextSubscriptionGeneration h + 1) else gen h id key.
Proof.
  intros W Hn. unfold handleSubscribe. destruct cancelled; [by rewrite decide_False by (by intros [? _])|].
  destruct (registered h c); cbn [negb]; [|by rewrite decide_False by (by intros [? _])].
  set (key0 := targetKey_String _). case_bool_decide as Hk.
  - apply (wf_gen h W) in Hk. unfold gen. cbn. rewrite decide_False; [done|]. intros (_ & <- & <- & Hno).
    destruct Hk as [g Hg]. unfold gen in Hg. congruence.
  - unfold gen. cbn. rewrite gens_of_insert. destruct (decide (cl_id c = id)) as [<-|]; [|by rewrite decide_False by tauto].
    destruct (decide (key0 = key)) as [<-|]; [|by rewrite lookup_insert_ne, decide_False by tauto].
    rewrite lookup_insert_eq. pose proof (wf_next h W). rewrite decide_True.
    + f_equal. apply Z.mod_small. lia.
    + split_and!; try done. destruct (gen h (cl_id c) key0) as [g|] eqn:E; [|done]. exfalso. apply Hk, (wf_gen h W). by eexists.
Qed.

Lemma handleSubscribe_world cancelled c ty tid h : let h' := snd (handleSubscribe cancelled c ty tid h) in
  clients h' = clients h ∧ pendingSync h' = pendingSync h ∧ typingActive h' = typingActive h ∧ outbox h' = outbox h ∧
  closed h' = closed h ∧ syncSignal h' = syncSignal h ∧ unregister h' = unregister h ∧ quit h' = quit h.
Proof. unfold handleSubscribe. destruct cancelled; [done|]. destruct (negb _); [done|]. by case_bool_decide. Qed.

Lemma handleSubscribe_wf cancelled c ty tid h : hub_wf h → nextSubscriptionGeneration h + 1 < 2 ^ 64 →
  hub_wf (snd (handleSubscribe cancelled c ty tid h)).
Proof.
  intros W Hn. pose proof (λ id key, handleSubscribe_gen cancelled c ty tid h id key W Hn) as Hgen.
  pose proof (handleSubscribe_world cancelled c ty tid h) as (Hc & Hp & _ & Ho & _).
  revert Hgen Hc Hp Ho. unfold handleSubscribe. destruct cancelled; [done|]. destruct (registered h c) eqn:Hreg; cbn [negb]; [|done].
  set (key0 := targetKey_String _). intros Hgen _ _ _. apply registered_true in Hreg.
  assert (Hin : is_Some (clients h !! cl_id c)) by by eexists.
  assert (Huint : uint64 (nextSubscriptionGeneration h + 1) = nextSubscriptionGeneration h + 1)
    by (pose proof (wf_next h W); apply Z.mod_small; lia).
  case_bool_decide as Hk; cbn [snd] in *.
  - assert (Hgen' : ∀ id key, gen (set_registry (clients h) (<[key0:={[cl_id c]} ∪ keys_of (subs h) key0]> (subs h))
       (<[cl_id c:={[key0]} ∪ keys_of (clientSubs h) (cl_id c)]> (clientSubs h)) (subscriptionGenerations h)
       (nextSubscriptionGeneration h) (pendingSync h) (typingActive h) h) id key = gen h id key) by done.
    destruct W; split; cbn; try setoid_rewrite Hgen'; try done.
    + intros id. rewrite lookup_insert_is_Some'. naive_solver.
    + intros id key. rewrite !keys_of_insert. specialize (wf_both_ways0 id key). repeat case_decide; set_solver.
    + intros key s [ [_ <-]|[_ ?] ]%lookup_insert_Some; [set_solver|eauto].
    + intros id key. rewrite keys_of_insert, <-wf_gen0. case_decide; set_solver.
  - assert (Hno : gen h (cl_id c) key0 = None).
    { destruct (gen h (cl_id c) key0) as [g|] eqn:E; [|done]. exfalso. apply Hk, (wf_gen h W). by eexists. }
    assert (Hgen' : ∀ id key, gen (set_registry (clients h) (<[key0:={[cl_id c]} ∪ keys_of (subs h) key0]> (subs h))
       (<[cl_id c:={[key0]} ∪ keys_of (clientSubs h) (cl_id c)]> (clientSubs h))
       (<[cl_id c:=<[key0:=uint64 (nextSubscriptionGeneration h + 1)]> (gens_of (subscriptionGenerations h) (cl_id c))]> (subscriptionGenerations h))
       (uint64 (nextSubscriptionGeneration h + 1)) (pendingSync h) (typingActive h) h) id key =
       if decide (cl_id c = id ∧ key0 = key) then Some (nextSubscriptionGeneration h + 1) else gen h id key).
    { intros id key. rewrite Hgen. destruct (decide (cl_id c = id ∧ key0 = key)) as [ [<- <-]|Hne];
        [by rewrite decide_True|by rewrite decide_False by tauto]. }
    destruct W; split; cbn; try setoid_rewrite Hgen'; rewrite ?Huint; try done; try lia.
    + intros id. rewrite lookup_insert_is_Some'. naive_solver.
    + intros id. rewrite lookup_insert_is_Some'. naive_solver.
    + intros id key. rewrite !keys_of_insert. specialize (wf_both_ways0 id key). repeat case_decide; set_solver.
    + intros key s [ [_ <-]|[_ ?] ]%lookup_insert_Some; [set_solver|eauto].
    + intros id key. rewrite keys_of_insert. specialize (wf_gen0 id key).
      destruct (decide (cl_id c = id ∧ key0 = key)) as [ [<- <-]|Hne]; [rewrite decide_True by done; split; [by eexists|set_solver]|].
      rewrite <-wf_gen0. case_decide; set_solver.
    + intros id key g. case_decide; [intros [= <-]; lia|]. intros Hg%wf_range0. lia.
    + intros id key id' key' g. pose proof (wf_range0 id key g) as R. pose proof (wf_range0 id' key' g) as R'.
      case_decide as D; [destruct D as [<- <-]|]; (case_decide as D'; [destruct D' as [<- <-]|]); [done|..|apply wf_unique0];
        intros Ha Hb; exfalso; simplify_eq; [specialize (R' Hb)|specialize (R Ha)]; lia.
    + intros id key g Hg%wf_gap0. rewrite decide_False; [done|]. intros [<- <-]. congruence.
Qed.

(** ** Outboxes and gaps *)

Lemma enqueue_Some c f h h' : enqueue c f h = Some h' →
  h' = set_outbox (<[cl_ref c := outbox_of h c ++ [f]]> (outbox h)) h ∧ (length (outbox_of h c) < outboxSize)%nat.
Proof. unfold enqueue. case_match eqn:E; [|done]. intros [= <-]. split; [done|by apply Nat.ltb_lt]. Qed.

Lemma outbox_enqueued c f h c' : outbox_of (set_outbox (<[cl_ref c := outbox_of h c ++ [f]]> (outbox h)) h) c' =
  if decide (cl_ref c = cl_ref c') then outbox_of h c ++ [f] else outbox_of h c'.
Proof. unfold outbox_of. cbn. case_decide as E; [by rewrite <-E, lookup_insert_eq|by rewrite lookup_insert_ne]. Qed.

Lemma enqueue_wf c f h h' : hub_wf h → enqueue c f h = Some h' → hub_wf h'.
Proof.
  intros W [-> Hl]%enqueue_Some. apply (same_registry_wf h); [done|done|apply W|apply W|].
  intros c'. rewrite outbox_enqueued. case_decide; [rewrite length_app; cbn; lia|apply W].
Qed.

Lemma current_gen s key h : hub_wf h → 0 < bs_generation s →
  subscriptionIsCurrentLocked s key h = true ↔
    clients h !! cl_id (bs_client s) = Some (bs_client s) ∧ gen h (cl_id (bs_client s)) key = Some (bs_generation s).
Proof.
  intros W Hpos. unfold subscriptionIsCurrentLocked, subscriptionGeneration. set (c := bs_client s).
  change (gens_of (subscriptionGenerations h) (cl_id c) !! key) with (gen h (cl_id c) key).
  destruct (registered h c) eqn:Hr; cbn [negb].
  - apply registered_true in Hr. pose proof (wf_both_ways h W (cl_id c) key) as Hb. pose proof (wf_gen h W (cl_id c) key) as Hg.
    destruct (gen h (cl_id c) key) as [g|]; cbn.
    + assert (Hk : key ∈ keys_of (clientSubs h) (cl_id c)) by (apply Hg; by eexists).
      rewrite (bool_decide_eq_true_2 _ (proj2 Hb Hk)), (bool_decide_eq_true_2 _ Hk). cbn. rewrite bool_decide_eq_true. split; [by intros ->|by intros [_ [= ->] ] ].
    + assert (Hk : key ∉ keys_of (clientSubs h) (cl_id c)) by (intros Hk; by destruct (proj1 Hg Hk)).
      rewrite (bool_decide_eq_false_2 (key ∈ _) Hk). cbn. split; [by case_bool_decide|by intros [_ ?] ].
  - split; [done|]. intros [Hc _]. unfold registered in Hr. by rewrite bool_decide_eq_false in Hr.
Qed.

Lemma gap_pending s key h : hub_wf h → 0 < bs_generation s →
  gapIsPendingLocked s key h = true ↔
    clients h !! cl_id (bs_client s) = Some (bs_client s) ∧ gap h (cl_id (bs_client s)) key = Some (bs_generation s).
Proof.
  intros W Hpos. unfold gapIsPendingLocked. change (gens_of (pendingSync h) (cl_id (bs_client s)) !! key) with (gap h (cl_id (bs_client s)) key).
  destruct (gap h (cl_id (bs_client s)) key) as [g|] eqn:Hg; [|split; [done|by intros [_ ?] ] ].
  rewrite andb_true_iff, bool_decide_eq_true, current_gen by done. split.
  - by intros [-> [? _] ].
  - intros [Hc [= ->] ]. split; [done|]. split; [done|]. by apply W.
Qed.

(** A gap recorded, and nothing else. *)
Lemma recordGap_gap s key h id key' : gap (snd (recordGap s key h)) id key' =
  if decide (subscriptionIsCurrentLocked s key h = true ∧ cl_id (bs_client s) = id ∧ key = key') then Some (bs_generation s) else gap h id key'.
Proof.
  unfold recordGap. destruct (subscriptionIsCurrentLocked s key h); [|by rewrite decide_False by (by intros [? _])].
  unfold gap. cbn. rewrite gens_of_insert. destruct (decide (cl_id (bs_client s) = id)) as [<-|]; [|by rewrite decide_False by tauto].
  destruct (decide (key = key')) as [<-|]; [by rewrite lookup_insert_eq, decide_True|by rewrite lookup_insert_ne, decide_False by tauto].
Qed.

Lemma recordGap_registry s key h : same_registry h (snd (recordGap s key h)).
Proof. unfold recordGap. by destruct (subscriptionIsCurrentLocked s key h). Qed.

Lemma recordGap_wf s key h : hub_wf h → 0 < bs_generation s → hub_wf (snd (recordGap s key h)).
Proof.
  intros W Hpos. apply (same_registry_wf h); [done|apply recordGap_registry|..].
  - intros id key' g. rewrite recordGap_gap. case_decide as D; [|apply W]. destruct D as (Hcur & <- & <-).
    intros [= <-]. by apply current_gen in Hcur as [_ ?].
  - unfold recordGap. destruct (subscriptionIsCurrentLocked s key h); [|apply W]. cbn. intros id gaps [ [_ <-]|[_ ?] ]%lookup_insert_Some.
    + apply insert_non_empty.
    + by eapply wf_gaps.
  - unfold recordGap. destruct (subscriptionIsCurrentLocked s key h); apply W.
Qed.

(** What the signal of a gap does. *)
Lemma signalGapLocked_spec s key h ok h' : signalGapLocked s key h = (ok, h') →
  (gapIsPendingLocked s key h = false ∧ ok = true ∧ h' = h) ∨
  (gapIsPendingLocked s key h = true ∧
   let h1 := forgetGapLocked (cl_id (bs_client s)) key h in
   ((parseTargetKey key = None ∧ ok = true ∧ h' = h1) ∨
    (∃ t, parseTargetKey key = Some t ∧ ok = false ∧ h' = h1 ∧ (length (outbox_of h (bs_client s)) >= outboxSize)%nat) ∨
    (∃ t, parseTargetKey key = Some t ∧ ok = true ∧
       enqueue (bs_client s) (SyncFrame {| sr_TargetType := tk_targetType t; sr_TargetID := tk_targetID t |}) h1 = Some h'))).
Proof.
  unfold signalGapLocked. destruct (gapIsPendingLocked s key h); cbn [negb]; [|intros [= <- <-]; by left].
  intros H. right. split; [done|]. cbv zeta. destruct (parseTargetKey key) as [t|]; [|injection H as <- <-; by left].
  right. destruct (enqueue _ _ _) eqn:E; injection H as <- <-; [right; by exists t|]. left. exists t. split_and!; try done.
  unfold enqueue in E. case_match eqn:Hl; [done|]. apply Nat.ltb_ge in Hl. unfold outbox_of in *.
  destruct (forgetGapLocked_world (cl_id (bs_client s)) key h) as (Ho & _). rewrite Ho in Hl. lia.
Qed.

Lemma signalGapLocked_wf s key h : hub_wf h → hub_wf (snd (signalGapLocked s key h)).
Proof.
  intros W. destruct (signalGapLocked s key h) as [ok h'] eqn:E. cbn. pose proof (forgetGapLocked_wf (cl_id (bs_client s)) key h W) as W1.
  apply signalGapLocked_spec in E as [(_ & _ & ->)|[_ [(_ & _ & ->)|[(t & _ & _ & -> & _)|(t & _ & _ & He)] ] ] ]; try done.
  by eapply enqueue_wf.
Qed.

Lemma enqueueAuthorizedBroadcast_wf expired s key data h : hub_wf h → hub_wf (snd (enqueueAuthorizedBroadcast expired s key data h)).
Proof.
  intros W. unfold enqueueAuthorizedBroadcast. case_match; [done|]. destruct (enqueue _ data h) as [h1|] eqn:E; [|done].
  pose proof (signalGapLocked_wf s key h1 (enqueue_wf _ _ _ _ W E)) as W'. by destruct (signalGapLocked s key h1).
Qed.

Lemma offer_wf data h l acc : hub_wf h → hub_wf (snd (foldl (offer data) (acc, h) l)).
Proof.
  revert h acc. induction l as [|c l IH]; intros h acc W; [done|]. cbn. unfold offer at 2. cbn.
  destruct (enqueue c data h) eqn:E; apply IH; [by eapply enqueue_wf|done].
Qed.

Lemma set_world_wf ob cl sig un qt h : hub_wf h → (∀ r, (length (default [] (ob !! r)) <= outboxSize)%nat) → hub_wf (set_world ob cl sig un qt h).
Proof. intros W Ho. apply (same_registry_wf h); [done|done|apply W|apply W|]. intros c. apply Ho. Qed.
