(* ===== verification/HubRuns.v ===== *)
(** * The goroutines of the hub

    [services/chat-service/internal/ws]: the interleaving of the goroutine of [run], the
    broadcast workers, the recovery of gaps and the connections over the state of Hub.v.
    A step is one critical section of [h.mu], one channel operation or one answer of the
    authorizer; between two of them a goroutine is at a point of its code.

    What comes from outside is any request at any time: registrations, subscriptions
    already authorized, revocations a client asks for, events, lost connections, and
    whatever the authorizer answers. *)

From stdpp Require Import prelude gmap strings functions.
From Stdlib Require Import ZArith Lia.
From S2P Require Import Prelude GoStrings Codec HubEvents Hub HubFacts.
Local Open Scope Z_scope.

(** ** Where a goroutine is *)

(** A broadcast worker: [handleBroadcast] and [deliverToSubscription]. *)
Inductive Point :=
| WIdle
| WBegin (r : broadcastReq)
| WLoop (r : broadcastReq) (todo : list broadcastSubscription)
| WAsk (r : broadcastReq) (s : broadcastSubscription) (todo : list broadcastSubscription)
| WAct (r : broadcastReq) (s : broadcastSubscription) (todo : list broadcastSubscription) (o : recheckOutcome)
| WNotify (r : broadcastReq) (todo : list broadcastSubscription)
| WWait (r : broadcastReq) (s : broadcastSubscription) (todo : list broadcastSubscription)
| WDrop (r : broadcastReq) (slow : list Client) (todo : list broadcastSubscription)
| WClose (r : broadcastReq) (c : Client) (slow : list Client) (todo : list broadcastSubscription).
Record Worker := { w_queue : list broadcastReq; w_point : Point }.

(** [runSyncRecovery], [drainGaps], [recoverGaps] and [recoverGap]; [res] is [resolved]. *)
Inductive Recovery :=
| RSleep
| RTimer
| RLoop (todo : list pendingGap) (res : bool)
| RAsk (g : pendingGap) (todo : list pendingGap) (res : bool)
| RAct (g : pendingGap) (todo : list pendingGap) (res : bool) (o : recheckOutcome)
| RWait (g : pendingGap) (todo : list pendingGap) (res : bool)
| RDrop (c : Client) (todo : list pendingGap) (res : bool)
| RClose (c : Client) (todo : list pendingGap) (res : bool).

(** [run]: between two requests, between the halves of [applyRevocation], and before the
    connection of a client that was removed is closed. *)
Inductive Waiter := FromClient | FromWorker (i : nat) | FromRecovery.
Inductive Goroutine := HIdle | HRevoke (req : revokeSubscriptionReq) (from : Waiter) | HClose (c : Client) | HStopped.

Record Sys := { hub : Hub; goroutine : Goroutine; workers : nat → Worker; recovery : Recovery; dispatched : nat }.
Definition with_hub h σ := Build_Sys h (goroutine σ) (workers σ) (recovery σ) (dispatched σ).
Definition with_goroutine g σ := Build_Sys (hub σ) g (workers σ) (recovery σ) (dispatched σ).
Definition with_recovery p σ := Build_Sys (hub σ) (goroutine σ) (workers σ) p (dispatched σ).
Definition at_point (i : nat) (p : Point) σ :=
  Build_Sys (hub σ) (goroutine σ) (<[i := {| w_queue := w_queue (workers σ i); w_point := p |}]> (workers σ)) (recovery σ) (dispatched σ).
Definition with_worker (i : nat) (w : Worker) σ :=
  Build_Sys (hub σ) (goroutine σ) (<[i := w]> (workers σ)) (recovery σ) (dispatched σ).
Definition point σ (i : nat) : Point := w_point (workers σ i).

Definition initial : Sys := Build_Sys initial_hub HIdle (λ _, {| w_queue := []; w_point := WIdle |}) RSleep 0.

Definition key_of (r : broadcastReq) : string := broadcastTargetKey (br_event r).
Definition frame_of (r : broadcastReq) (data : string) : Frame := EventFrame (br_seq r) (key_of r) data.
Definition partition_of (r : broadcastReq) : nat := broadcastPartition (key_of r) broadcastWorkerCount.

(** The revocation a denial asks for. *)
Definition denial (s : broadcastSubscription) (key : string) : revokeSubscriptionReq :=
  {| rv_client := bs_client s; rv_key := key; rv_generation := bs_generation s |}.

(** A goroutine that waits for the hub, and the request it waits for. *)
Definition waits (σ : Sys) (from : Waiter) (req : revokeSubscriptionReq) : Prop :=
  match from with
  | FromClient => rv_generation req = 0
  | FromWorker i => ∃ r s todo, point σ i = WWait r s todo ∧ req = denial s (key_of r)
  | FromRecovery => ∃ g todo res, recovery σ = RWait g todo res ∧ req = denial (pg_subscription g) (pg_key g)
  end.
Definition resume (from : Waiter) (σ : Sys) : Sys :=
  match from with
  | FromClient => σ
  | FromWorker i => match point σ i with WWait r _ todo => at_point i (WLoop r todo) σ | _ => σ end
  | FromRecovery => match recovery σ with RWait _ todo res => with_recovery (RLoop todo res) σ | _ => σ end
  end.

(** What is observed. *)
Inductive Label :=
| LAnswered (i : nat) (r : broadcastReq) (s : broadcastSubscription) (o : recheckOutcome)
| LEnqueued (i : nat) (r : broadcastReq) (s : broadcastSubscription)
| LRechecked (g : pendingGap) (o : recheckOutcome)
| LSignalled (s : broadcastSubscription) (key : string).

(** The signal an operation queued, if the gap was there and is not any more, and the
    outbox had room. *)
Definition signalled (s : broadcastSubscription) (key : string) (h : Hub) (ok : bool) : list Label :=
  if gapIsPendingLocked s key h && ok && match parseTargetKey key with Some _ => true | None => false end
  then [LSignalled s key] else [].

(** What a worker does with the answer about a recipient: where it goes on, the state, and
    what is observed.  [deadline]: the time for the check has run out by now; [data] is the
    encoding for the recipient. *)
Definition act (i : nat) (deadline : bool) (data : string) (r : broadcastReq) (s : broadcastSubscription)
    (todo : list broadcastSubscription) (o : recheckOutcome) (h : Hub) : Point * Hub * list Label :=
  let c := bs_client s in
  match o with
  | recheckAllowed =>
      let '(queued, full, h') := enqueueAuthorizedBroadcast (deadline || is_closed h c) s (key_of r) (frame_of r data) h in
      (if full then WDrop r [c] todo else WLoop r todo, h',
       if queued then LEnqueued i r s :: signalled s (key_of r) h (negb full) else [])
  | recheckDenied => (WWait r s todo, h, [])
  | recheckClientClosed => (WLoop r todo, h, [])
  | recheckTimeout | recheckError =>
      let '(recorded, h') := recordGap s (key_of r) h in
      (if recorded then WNotify r todo else WLoop r todo, h', [])
  end.

Definition recover (g : pendingGap) (todo : list pendingGap) (res : bool) (o : recheckOutcome) (h : Hub)
    : Recovery * Hub * list Label :=
  let s := pg_subscription g in
  match o with
  | recheckAllowed =>
      let '(ok, h') := signalGapLocked s (pg_key g) h in
      (if ok then RLoop todo res else RDrop (bs_client s) todo res, h', signalled s (pg_key g) h ok)
  | recheckDenied => (RWait g todo res, h, [])
  | recheckClientClosed => (RLoop todo res, h, [])
  | recheckTimeout | recheckError => (RLoop todo false, h, [])
  end.

(** [h.Unregister]: the channel holds 64, and a hub that stops takes nothing any more. *)
Definition unregisterCapacity : nat := 64.
Inductive hands_over (c : Client) (h : Hub) : Hub → Prop :=
| handed_over : (length (unregister h) < unregisterCapacity)%nat → hands_over c h (set_unregister (unregister h ++ [c]) h)
| not_taken : quit h = true → hands_over c h h.

(** *** Steps *)

Inductive step (σ : Sys) : list Label → Sys → Prop :=
(* the hub goroutine *)
| step_register c : goroutine σ = HIdle →
    step σ [] (if quit (hub σ) then σ
               else let '(ok, h) := addClient c (hub σ) in with_hub (if ok then h else close c h) σ)
| step_unregister c rest : goroutine σ = HIdle → unregister (hub σ) = c :: rest →
    step σ [] (let '(removed, h) := removeClient c (set_unregister rest (hub σ)) in
               with_goroutine (match removed with Some c => HClose c | None => HIdle end) (with_hub h σ))
| step_closed c : goroutine σ = HClose c → step σ [] (with_goroutine HIdle (with_hub (close c (hub σ)) σ))
| step_subscribe cancelled c ty id : goroutine σ = HIdle →
    step σ [] (with_hub (snd (handleSubscribe cancelled c ty id (hub σ))) σ)
| step_revocation from req : goroutine σ = HIdle → waits σ from req →
    step σ [] (if revocation_replaced (hub σ) req then resume from σ else with_goroutine (HRevoke req from) σ)
| step_revoke from req : goroutine σ = HRevoke req from →
    step σ [] (resume from (with_goroutine HIdle (with_hub (snd (revokeSubscription (rv_client req) (rv_key req) (hub σ))) σ)))
| step_shutdown : step σ [] (with_hub (set_quit true (hub σ)) σ)
| step_stop : goroutine σ = HIdle → quit (hub σ) = true →
    step σ [] (let '(cs, h) := clearClients (hub σ) in
               with_goroutine HStopped (with_hub (set_closed (list_to_set (cl_ref <$> cs) ∪ closed h) h) σ))
| step_released from req : quit (hub σ) = true → waits σ from req → step σ [] (resume from σ)
(* the dispatcher and the workers *)
| step_dispatch r : br_seq r = dispatched σ → (length (w_queue (workers σ (partition_of r))) < broadcastWorkerQueueCapacity)%nat →
    let w := workers σ (partition_of r) in
    let σ' := with_worker (partition_of r) {| w_queue := w_queue w ++ [r]; w_point := w_point w |} σ in
    step σ [] (Build_Sys (hub σ') (goroutine σ') (workers σ') (recovery σ') (S (dispatched σ)))
| step_take i r rest : point σ i = WIdle → w_queue (workers σ i) = r :: rest →
    step σ [] (with_worker i {| w_queue := rest; w_point := WBegin r |} σ)
| step_user i r : point σ i = WBegin r → TargetType_ (br_event r) = TargetTypeUser →
    step σ [] (let '(slow, h) := handleUserBroadcast r (hub σ) in at_point i (WDrop r slow []) (with_hub h σ))
| step_invisible i r user : point σ i = WBegin r → TargetType_ (br_event r) ≠ TargetTypeUser →
    presence_subject (br_event r) = Some user → step σ [] (at_point i WIdle σ)
| step_snapshot i r todo : point σ i = WBegin r → TargetType_ (br_event r) ≠ TargetTypeUser →
    todo ≡ₚ broadcastSnapshot (key_of r) (hub σ) → step σ [] (at_point i (WLoop r todo) σ)
| step_end i r : point σ i = WLoop r [] → step σ [] (at_point i WIdle σ)
| step_next i r s todo : point σ i = WLoop r (s :: todo) →
    step σ [] (at_point i (if subscriptionIsCurrentLocked s (key_of r) (hub σ) then WAsk r s todo else WLoop r todo) σ)
| step_answer i r s todo allowed err : point σ i = WAsk r s todo →
    let o := classifyRecheck (is_closed (hub σ) (bs_client s)) allowed err in
    step σ [LAnswered i r s o] (at_point i (WAct r s todo o) σ)
| step_act i r s todo o deadline data p h ls : point σ i = WAct r s todo o →
    act i deadline data r s todo o (hub σ) = (p, h, ls) → step σ ls (at_point i p (with_hub h σ))
| step_notify i r todo : point σ i = WNotify r todo →
    step σ [] (at_point i (WLoop r todo) (with_hub (send_signal (hub σ)) σ))
| step_drop i r c slow todo h : point σ i = WDrop r (c :: slow) todo → hands_over c (hub σ) h →
    step σ [] (at_point i (WClose r c slow todo) (with_hub h σ))
| step_dropped i r todo : point σ i = WDrop r [] todo → step σ [] (at_point i (WLoop r todo) σ)
| step_close i r c slow todo : point σ i = WClose r c slow todo →
    step σ [] (at_point i (WDrop r slow todo) (with_hub (close c (hub σ)) σ))
(* the recovery of gaps *)
| step_wake : recovery σ = RSleep → syncSignal (hub σ) = true →
    step σ [] (with_recovery RTimer (with_hub (set_syncSignal false (hub σ)) σ))
| step_pass todo : recovery σ = RTimer → todo ≡ₚ pendingGaps (hub σ) → step σ [] (with_recovery (RLoop todo true) σ)
| step_passed res : recovery σ = RLoop [] res → step σ [] (with_recovery (if res then RSleep else RTimer) σ)
| step_gap g todo res : recovery σ = RLoop (g :: todo) res →
    step σ [] (with_recovery
      (if gapIsPendingLocked (pg_subscription g) (pg_key g) (hub σ) && match parseTargetKey (pg_key g) with Some _ => true | None => false end
       then RAsk g todo res else RLoop todo res) σ)
| step_recheck g todo res allowed err : recovery σ = RAsk g todo res →
    let o := classifyRecheck (is_closed (hub σ) (bs_client (pg_subscription g))) allowed err in
    step σ [LRechecked g o] (with_recovery (RAct g todo res o) σ)
| step_recover g todo res o p h ls : recovery σ = RAct g todo res o →
    recover g todo res o (hub σ) = (p, h, ls) → step σ ls (with_recovery p (with_hub h σ))
| step_recovery_drop c todo res h : recovery σ = RDrop c todo res → hands_over c (hub σ) h →
    step σ [] (with_recovery (RClose c todo res) (with_hub h σ))
| step_recovery_close c todo res : recovery σ = RClose c todo res →
    step σ [] (with_recovery (RLoop todo res) (with_hub (close c (hub σ)) σ))
(* connections and other callers *)
| step_sent c f rest : outbox_of (hub σ) c = f :: rest →
    step σ [] (with_hub (set_outbox (<[cl_ref c := rest]> (outbox (hub σ))) (hub σ)) σ)
| step_lost c : step σ [] (with_hub (close c (hub σ)) σ)
| step_leave c h : hands_over c (hub σ) h → step σ [] (with_hub h σ)
| step_hint e data : step σ [] (with_hub (deliverToLocalUserSessions e data (hub σ)) σ)
| step_touch c key : step σ [] (with_hub (touchTypingState c key (hub σ)) σ)
| step_clear c key : step σ [] (with_hub (snd (clearTypingState c key (hub σ))) σ).

(** Runs from the start of the hub: how many steps, and what was observed, in order. *)
Inductive run : nat → list Label → Sys → Prop :=
| run_initial : run 0 [] initial
| run_step n tr σ ls σ' : run n tr σ → step σ ls σ' → run (S n) (tr ++ ls) σ'.
