(* ===== verification/HubExample.v ===== *)
(** * A small run of the hub

    One connection subscribed to one channel, and messages broadcast to it: concrete runs
    for the theorems of HubDelivery.v, HubOrder.v and HubGaps.v. *)

From stdpp Require Import prelude gmap strings functions.
From Stdlib Require Import ZArith Lia.
From S2P Require Import Prelude GoStrings Codec HubEvents Hub HubFacts HubRuns.
Local Open Scope Z_scope.

Lemma step_acts σ i r s todo o deadline data : point σ i = WAct r s todo o →
  let '(p, h, ls) := act i deadline data r s todo o (hub σ) in step σ ls (at_point i p (with_hub h σ)).
Proof. intros Hp. destruct (act _ _ _ _ _ _ _ _) as [ [p h] ls] eqn:E. by eapply step_act. Qed.

Lemma point_at_self i p σ : point (at_point i p σ) i = p.
Proof. unfold point, at_point. cbn. by rewrite fn_lookup_insert. Qed.

Definition toy_client : Client := {| cl_ref := 1; cl_id := "client"; cl_userID := "ana"; cl_workspaceID := "ws" |}.
Definition toy_request (seq : nat) : broadcastReq :=
  {| br_event := Build_Event 1 EventTypeMessageCreated "ws" TargetTypeChannel "channel" "message" "" "" "event" "node-1" 7 no_blocks;
     br_data := "{}"; br_remote := false; br_seq := seq |}.
Definition toy_subscription : broadcastSubscription := {| bs_client := toy_client; bs_generation := 1 |}.
Definition toy_worker : nat := partition_of (toy_request 0).
Definition toy_key : string := key_of (toy_request 0).

(** A request dispatched and brought to the check of its one recipient. *)
Definition toy_queued (seq : nat) (σ : Sys) : Sys :=
  let σ' := with_worker toy_worker {| w_queue := [toy_request seq]; w_point := WIdle |} σ in
  Build_Sys (hub σ') (goroutine σ') (workers σ') (recovery σ') (S (dispatched σ)).
Definition toy_asking (seq : nat) (σ : Sys) : Sys :=
  at_point toy_worker (WAsk (toy_request seq) toy_subscription [])
    (at_point toy_worker (WLoop (toy_request seq) [toy_subscription])
      (with_worker toy_worker {| w_queue := []; w_point := WBegin (toy_request seq) |} (toy_queued seq σ))).
Definition toy_answered (seq : nat) (o : recheckOutcome) (σ : Sys) : Sys :=
  at_point toy_worker (WAct (toy_request seq) toy_subscription [] o) (toy_asking seq σ).
Definition toy_connected : Sys := let '(ok, h) := addClient toy_client (hub initial) in with_hub (if ok then h else close toy_client h) initial.
Definition toy_subscribed : Sys :=
  with_hub (snd (handleSubscribe None toy_client TargetTypeChannel "channel" (hub toy_connected))) toy_connected.

Lemma run_quiet n tr σ σ' : run n tr σ → step σ [] σ' → run (S n) tr σ'.
Proof. intros Hr Hs. rewrite <-(app_nil_r tr). by eapply run_step. Qed.

Lemma toy_run_subscribed : run 2 [] toy_subscribed.
Proof.
  eapply run_quiet; [|by apply step_subscribe]. eapply run_quiet; [apply run_initial|]. by apply (step_register initial toy_client).
Qed.

Lemma toy_worker_of seq : partition_of (toy_request seq) = toy_worker.
Proof. reflexivity. Qed.

Lemma toy_run_asking n tr seq σ : run n tr σ → dispatched σ = seq → workers σ toy_worker = {| w_queue := []; w_point := WIdle |} →
  broadcastSnapshot toy_key (hub σ) = [toy_subscription] → subscriptionIsCurrentLocked toy_subscription toy_key (hub σ) = true →
  run (4 + n) tr (toy_asking seq σ).
Proof.
  intros Hrun Hd Hw Hsnap Hcur.
  assert (Hq : run (1 + n) tr (toy_queued seq σ)).
  { eapply run_quiet; [exact Hrun|]. pose proof (step_dispatch σ (toy_request seq) (eq_sym Hd)) as Hst. cbv zeta in Hst.
    rewrite toy_worker_of, Hw in Hst. apply Hst. cbn. unfold broadcastWorkerQueueCapacity. lia. }
  assert (Hwq : workers (toy_queued seq σ) toy_worker = {| w_queue := [toy_request seq]; w_point := WIdle |})
    by (unfold toy_queued, with_worker; cbn [workers]; by rewrite fn_lookup_insert).
  set (σ1 := with_worker toy_worker {| w_queue := []; w_point := WBegin (toy_request seq) |} (toy_queued seq σ)).
  assert (H1 : run (2 + n) tr σ1).
  { eapply run_quiet; [exact Hq|]. apply step_take; unfold point; by rewrite Hwq. }
  set (σ2 := at_point toy_worker (WLoop (toy_request seq) [toy_subscription]) σ1).
  assert (H2 : run (3 + n) tr σ2).
  { eapply run_quiet; [exact H1|]. apply step_snapshot; [unfold point, σ1, with_worker; cbn [workers]; by rewrite fn_lookup_insert|discriminate|].
    change (key_of (toy_request seq)) with toy_key. change (hub σ1) with (hub σ). by rewrite Hsnap. }
  eapply run_quiet; [exact H2|].
  assert (Hp : point σ2 toy_worker = WLoop (toy_request seq) [toy_subscription]) by (unfold point, σ2, at_point; cbn [workers]; by rewrite fn_lookup_insert).
  pose proof (step_next σ2 toy_worker (toy_request seq) toy_subscription [] Hp) as Hst.
  change (key_of (toy_request seq)) with toy_key in Hst. change (hub σ2) with (hub σ) in Hst. by rewrite Hcur in Hst.
Qed.

(** The authorizer answers [o]; [allowed] and [err] are what it returns. *)
Lemma toy_run_answered n tr seq σ o allowed err : run n tr (toy_asking seq σ) → classifyRecheck (is_closed (hub σ) toy_client) allowed err = o →
  run (S n) (tr ++ [LAnswered toy_worker (toy_request seq) toy_subscription o]) (toy_answered seq o σ).
Proof.
  intros Hrun <-. eapply run_step; [exact Hrun|].
  exact (step_answer (toy_asking seq σ) toy_worker (toy_request seq) toy_subscription [] allowed err (point_at_self _ _ _)).
Qed.

(** What the worker does with the answer. *)
Definition toy_act (seq : nat) (o : recheckOutcome) (σ : Sys) : Point * Hub * list Label :=
  act toy_worker false "{}" (toy_request seq) toy_subscription [] o (hub σ).
Definition toy_acted (seq : nat) (o : recheckOutcome) (σ : Sys) : Sys :=
  at_point toy_worker (fst (fst (toy_act seq o σ))) (with_hub (snd (fst (toy_act seq o σ))) (toy_answered seq o σ)).
Lemma toy_step_acted seq o σ : step (toy_answered seq o σ) (snd (toy_act seq o σ)) (toy_acted seq o σ).
Proof.
  assert (Hp : point (toy_answered seq o σ) toy_worker = WAct (toy_request seq) toy_subscription [] o) by apply point_at_self.
  eapply step_act; [exact Hp|]. change (hub (toy_answered seq o σ)) with (hub σ). by rewrite <-!surjective_pairing.
Qed.

(** An event delivered; an event withheld; and a denial that reaches the hub. *)
Definition toy_before : Sys := toy_answered 0 recheckAllowed toy_subscribed.
Definition toy_trace (o : recheckOutcome) : list Label := [LAnswered toy_worker (toy_request 0) toy_subscription o].
Lemma toy_run_before o allowed err : classifyRecheck false allowed err = o → run 7 (toy_trace o) (toy_answered 0 o toy_subscribed).
Proof.
  intros Ho. apply (toy_run_answered 6 [] 0 _ o allowed err); [|exact Ho].
  apply toy_run_asking; [apply toy_run_subscribed|by vm_compute|by vm_compute|by vm_compute|by vm_compute].
Qed.

Lemma toy_run_acted o allowed err : classifyRecheck false allowed err = o →
  run 8 (toy_trace o ++ snd (toy_act 0 o toy_subscribed)) (toy_acted 0 o toy_subscribed).
Proof. intros Ho. eapply run_step; [by eapply toy_run_before|apply toy_step_acted]. Qed.

(** The hub has taken up the revocation of a denied subscription. *)
Definition toy_revoking : Sys := with_goroutine (HRevoke (denial toy_subscription toy_key) (FromWorker toy_worker)) (toy_acted 0 recheckDenied toy_subscribed).
Lemma toy_run_revoking : run 9 (toy_trace recheckDenied) toy_revoking.
Proof.
  eapply run_quiet; [by apply (toy_run_acted recheckDenied false None)|].
  pose proof (step_revocation (toy_acted 0 recheckDenied toy_subscribed) (FromWorker toy_worker) (denial toy_subscription toy_key) eq_refl) as Hst.
  replace (revocation_replaced _ _) with false in Hst by (by vm_compute). apply Hst.
  exists (toy_request 0), toy_subscription, []. split; [apply point_at_self|done].
Qed.

(** Two events delivered. *)
Definition toy_idle : Sys := at_point toy_worker WIdle (toy_acted 0 recheckAllowed toy_subscribed).
Definition toy_two : list Label :=
  ((toy_trace recheckAllowed ++ snd (toy_act 0 recheckAllowed toy_subscribed)) ++ [LAnswered toy_worker (toy_request 1) toy_subscription recheckAllowed]) ++
  snd (toy_act 1 recheckAllowed toy_idle).
Lemma toy_run_two : run 15 toy_two (toy_acted 1 recheckAllowed toy_idle).
Proof.
  eapply run_step; [|apply toy_step_acted]. apply (toy_run_answered 13 _ 1 _ recheckAllowed true None); [|done].
  apply (toy_run_asking 9); [|by vm_compute|by vm_compute|by vm_compute|by vm_compute].
  eapply run_quiet; [by apply (toy_run_acted recheckAllowed true None)|]. apply (step_end _ toy_worker (toy_request 0)). apply point_at_self.
Qed.
