(* ===== verification/HubCalm.v ===== *)
(** * What a step can change for a subscription

    A subscription once gone never comes back, and a gap is kept until it is signalled or
    its subscription goes: per operation, and for every step of a run. *)

From stdpp Require Import prelude gmap strings functions.
From Stdlib Require Import ZArith Lia.
From S2P Require Import Prelude GoStrings Codec HubEvents Hub HubFacts HubRuns.
Local Open Scope Z_scope.

(** ** One operation *)

(** Nothing happens to a gap but: those of [lost] may be dropped, those of [new] appear. *)
Record calm (lost new : broadcastSubscription → string → Prop) (h h' : Hub) : Prop := {
  calm_next : nextSubscriptionGeneration h <= nextSubscriptionGeneration h';
  calm_current : ∀ s key, 0 < bs_generation s <= nextSubscriptionGeneration h →
    subscriptionIsCurrentLocked s key h' = true → subscriptionIsCurrentLocked s key h = true;
  calm_kept : ∀ s key, 0 < bs_generation s <= nextSubscriptionGeneration h → subscriptionIsCurrentLocked s key h' = true →
    gapIsPendingLocked s key h = true → gapIsPendingLocked s key h' = true ∨ lost s key;
  calm_new : ∀ s key, 0 < bs_generation s <= nextSubscriptionGeneration h →
    gapIsPendingLocked s key h' = true → gapIsPendingLocked s key h = true ∨ new s key;
  calm_closed : closed h ⊆ closed h';
  calm_quit : quit h = true → quit h' = true }.
Definition none (s : broadcastSubscription) (key : string) : Prop := False.

Lemma calm_intro lost new h h' : hub_wf h → hub_wf h' →
  nextSubscriptionGeneration h <= nextSubscriptionGeneration h' →
  (∀ id c, clients h' !! id = Some c → clients h !! id = Some c ∨ clients h !! id = None) →
  (∀ id key g, g <= nextSubscriptionGeneration h → gen h' id key = Some g → gen h id key = Some g) →
  (∀ s key, clients h !! cl_id (bs_client s) = Some (bs_client s) → gap h' (cl_id (bs_client s)) key = Some (bs_generation s) →
     gap h (cl_id (bs_client s)) key = Some (bs_generation s) ∨ new s key) →
  (∀ s key, clients h !! cl_id (bs_client s) = Some (bs_client s) → gen h' (cl_id (bs_client s)) key = Some (bs_generation s) → gap h (cl_id (bs_client s)) key = Some (bs_generation s) →
     gap h' (cl_id (bs_client s)) key = Some (bs_generation s) ∨ lost s key) →
  closed h ⊆ closed h' → (quit h = true → quit h' = true) → calm lost new h h'.
Proof.
  intros W W' Hn Hc Hg Hnew Hkept Hcl Hq.
  assert (Hcur : ∀ s key, 0 < bs_generation s <= nextSubscriptionGeneration h →
    clients h' !! cl_id (bs_client s) = Some (bs_client s) → gen h' (cl_id (bs_client s)) key = Some (bs_generation s) →
    clients h !! cl_id (bs_client s) = Some (bs_client s) ∧ gen h (cl_id (bs_client s)) key = Some (bs_generation s)).
  { intros s key Hr Hcs Hgs. apply Hg in Hgs; [|lia]. split; [|done]. destruct (Hc _ _ Hcs) as [?|Hno]; [done|].
    destruct (gen_registered h _ _ _ W Hgs) as [? ?]. congruence. }
  split; try done.
  - intros s key Hr. rewrite !current_gen by (done || lia). intros [? ?]. by apply Hcur.
  - intros s key Hr. rewrite !gap_pending, current_gen by (done || lia). intros [? ?] [? ?]. destruct (Hkept s key); [done..| |]; auto.
  - intros s key Hr. rewrite !gap_pending by (done || lia). intros [Hcs Hgs].
    destruct (Hcur s key Hr Hcs) as [? ?]; [by apply W'|]. destruct (Hnew s key); [done..| |]; auto.
Qed.

(** The operations that leave the registry and the gaps alone. *)
Lemma calm_same h h' : hub_wf h → hub_wf h' → same_registry h h' → pendingSync h' = pendingSync h →
  closed h ⊆ closed h' → (quit h = true → quit h' = true) → calm none none h h'.
Proof.
  intros W W' (Hc & _ & _ & Hg & Hn) Hp Hcl Hq. apply calm_intro; unfold gap, gen; rewrite ?Hc, ?Hg, ?Hn, ?Hp; eauto; lia.
Qed.

Lemma calm_refl h : hub_wf h → calm none none h h.
Proof. intros W. by apply calm_same. Qed.

Lemma calm_addClient c h : hub_wf h → calm none none h (snd (addClient c h)).
Proof.
  intros W. pose proof (addClient_wf c h W) as W'. revert W'. unfold addClient. destruct (clients h !! cl_id c) as [c'|] eqn:Hc; [intros; by apply calm_refl|].
  cbn. intros W'. apply calm_intro; try done; try (intros; by left).
  - intros id c'. cbn. intros [ [<- <-]|[_ ?] ]%lookup_insert_Some; auto.
  - intros id key g _. unfold gen. cbn. rewrite gens_of_insert. case_decide; [by rewrite lookup_empty|done].
Qed.

Lemma calm_removeClient c h : hub_wf h → calm none none h (snd (removeClient c h)).
Proof.
  intros W. pose proof (removeClient_wf c h W) as W'. revert W'. pose proof (removeClient_gen c h) as Hgen. revert Hgen.
  unfold removeClient. destruct (registered h c) eqn:Hr; cbn [negb snd]; [|intros; by apply calm_refl]. intros Hgen W'.
  apply calm_intro; try done; try (intros; by left).
  - cbn. intros id c' [_ ?]%lookup_delete_Some. auto.
  - intros id key g _. rewrite Hgen. destruct (decide _); [intros [=]|auto].
  - intros s key _. unfold gap. cbn. rewrite gens_of_delete. destruct (decide (cl_id c = _)); [rewrite lookup_empty; intros [=]|auto].
  - intros s key _. rewrite Hgen. unfold gap. cbn. rewrite gens_of_delete. destruct (decide (cl_id c = _)), (decide (_ ∧ _)); naive_solver.
Qed.

Lemma calm_clearClients h : hub_wf h → calm none none h (snd (clearClients h)).
Proof. intros W. pose proof (clearClients_wf h W) as W'. apply calm_intro; try done; intros; by left. Qed.

Lemma calm_handleSubscribe cancelled c ty id h : hub_wf h → nextSubscriptionGeneration h + 1 < 2 ^ 64 →
  calm none none h (snd (handleSubscribe cancelled c ty id h)) ∧
  nextSubscriptionGeneration (snd (handleSubscribe cancelled c ty id h)) <= nextSubscriptionGeneration h + 1.
Proof.
  intros W Hn. pose proof (handleSubscribe_wf cancelled c ty id h W Hn) as W'.
  pose proof (λ id' key, handleSubscribe_gen cancelled c ty id h id' key W Hn) as Hgen.
  destruct (handleSubscribe_world cancelled c ty id h) as (Hc & Hp & _ & _ & Hcl & _ & _ & Hq).
  assert (Hnext : nextSubscriptionGeneration h <= nextSubscriptionGeneration (snd (handleSubscribe cancelled c ty id h)) <= nextSubscriptionGeneration h + 1).
  { unfold handleSubscribe. destruct cancelled; [cbn; lia|]. destruct (negb _); [cbn; lia|]. pose proof (wf_next h W).
    case_bool_decide; cbn; [lia|]. unfold uint64. rewrite Z.mod_small; lia. }
  split; [|lia]. destruct (handleSubscribe cancelled c ty id h) as [err h']. cbn [snd] in *.
  apply calm_intro; unfold gap; rewrite ?Hc, ?Hp, ?Hcl, ?Hq; auto; [lia|].
  intros id' key g Hg. rewrite Hgen. case_decide; [intros [= <-]; lia|done].
Qed.

Lemma calm_revokeSubscription c key h : hub_wf h → calm none none h (snd (revokeSubscription c key h)).
Proof.
  intros W. pose proof (revokeSubscription_wf c key h W) as W'.
  destruct (revokeSubscription_world c key h) as (Hc & _ & Hcl & _ & _ & Hq & Hn).
  apply calm_intro; rewrite ?Hc, ?Hcl, ?Hq, ?Hn; auto; try lia.
  - intros id key' g _. rewrite revokeSubscription_gen. by case_decide.
  - intros s key' _. rewrite revokeSubscription_gap. case_decide; auto; done.
  - intros s key' _. rewrite revokeSubscription_gen, revokeSubscription_gap. case_decide; auto; done.
Qed.

Lemma calm_recordGap s key h : hub_wf h → 0 < bs_generation s → calm none (λ s' key', s' = s ∧ key' = key) h (snd (recordGap s key h)).
Proof.
  intros W Hpos. pose proof (recordGap_wf s key h W Hpos) as W'. destruct (recordGap_registry s key h) as (Hc & _ & _ & Hg & Hn).
  apply calm_intro; try done; unfold gen; rewrite ?Hc, ?Hg, ?Hn; auto; try lia.
  - intros s' key' Hcs. rewrite recordGap_gap. case_decide as D; [|by left]. destruct D as (Hcur & Hid & <-). intros [= Hgs].
    right. split; [|done]. apply current_gen in Hcur as [Hcs' _]; [|done..]. rewrite Hid, Hcs in Hcs'. destruct s, s'; cbn in *; congruence.
  - intros s' key' _ Hg' Hgap. left. rewrite recordGap_gap. case_decide as D; [|done]. destruct D as (Hcur & Hid & <-).
    apply current_gen in Hcur as [_ Hgen]; [|done..]. rewrite Hid in Hgen. unfold gen in Hgen. congruence.
  - unfold recordGap. by destruct (subscriptionIsCurrentLocked s key h).
  - unfold recordGap. by destruct (subscriptionIsCurrentLocked s key h).
Qed.

(** The registry and the gaps of a state after an enqueue are those before it. *)
Lemma enqueue_same c f h h' : enqueue c f h = Some h' →
  same_registry h h' ∧ pendingSync h' = pendingSync h ∧ closed h' = closed h ∧ quit h' = quit h ∧ syncSignal h' = syncSignal h ∧
  unregister h' = unregister h.
Proof. by intros [-> _]%enqueue_Some. Qed.

Lemma signalGapLocked_same s key h : let h' := snd (signalGapLocked s key h) in
  same_registry h h' ∧ closed h' = closed h ∧ quit h' = quit h ∧ syncSignal h' = syncSignal h ∧ unregister h' = unregister h ∧
  ∀ id key', gap h' id key' = if decide (gapIsPendingLocked s key h = true ∧ cl_id (bs_client s) = id ∧ key = key') then None else gap h id key'.
Proof.
  destruct (signalGapLocked s key h) as [ok h'] eqn:E. cbn. apply signalGapLocked_spec in E as [(Hp & _ & ->)|[Hp E] ].
  - rewrite Hp. split_and!; done.
  - set (h1 := forgetGapLocked (cl_id (bs_client s)) key h) in *. cbv zeta in E.
    destruct (forgetGapLocked_world (cl_id (bs_client s)) key h) as (_ & Hcl & Hsi & Hun & Hq & _).
    pose proof (forgetGapLocked_registry (cl_id (bs_client s)) key h) as Hr.
    assert (same_registry h1 h' ∧ pendingSync h' = pendingSync h1 ∧ closed h' = closed h1 ∧ quit h' = quit h1 ∧ syncSignal h' = syncSignal h1 ∧
      unregister h' = unregister h1) as (Hr' & Hp' & Hcl' & Hq' & Hsi' & Hun').
    { destruct E as [(_ & _ & ->)|[(t & _ & _ & -> & _)|(t & _ & _ & He)] ]; [done|done|]. by eapply enqueue_same. }
    fold h1 in Hr, Hcl, Hsi, Hun, Hq. rewrite Hp. split_and!; try congruence.
    + destruct Hr as (? & ? & ? & ? & ?), Hr' as (? & ? & ? & ? & ?). split_and!; congruence.
    + intros id key'. unfold gap at 1. rewrite Hp'. change (gens_of (pendingSync h1) id !! key') with (gap h1 id key').
      unfold h1. rewrite forgetGapLocked_gap. destruct (decide (_ = id ∧ _)); [by rewrite decide_True|by rewrite decide_False by tauto].
Qed.

Lemma calm_signalGapLocked s key h : hub_wf h → calm (λ s' key', s' = s ∧ key' = key) none h (snd (signalGapLocked s key h)).
Proof.
  intros W. pose proof (signalGapLocked_wf s key h W) as W'.
  destruct (signalGapLocked_same s key h) as ((Hc & _ & _ & Hg & Hn) & Hcl & Hq & _ & _ & Hgap).
  apply calm_intro; try done; unfold gen; rewrite ?Hc, ?Hg, ?Hn, ?Hcl, ?Hq; auto; try lia.
  - intros s' key' _. rewrite Hgap. destruct (decide _); [intros [=]|auto].
  - intros s' key' Hcs _ Hgs. rewrite Hgap. destruct (decide _) as [(Hp & Hid & <-)|]; [|auto]. right. split; [|done].
    unfold gapIsPendingLocked in Hp. change (gens_of (pendingSync h) (cl_id (bs_client s)) !! key) with (gap h (cl_id (bs_client s)) key) in Hp.
    rewrite Hid, Hgs in Hp. apply andb_true_iff in Hp as [Hgg Hcur]. apply bool_decide_eq_true_1 in Hgg.
    unfold subscriptionIsCurrentLocked in Hcur. destruct (registered h (bs_client s)) eqn:Hr; [|done]. apply registered_true in Hr.
    rewrite Hid, Hcs in Hr. injection Hr as Hr. destruct s as [c1 g1], s' as [c2 g2]. cbn in *. by subst.
Qed.

Lemma calm_enqueueAuthorizedBroadcast expired s key data h : hub_wf h →
  calm (λ s' key', s' = s ∧ key' = key) none h (snd (enqueueAuthorizedBroadcast expired s key data h)).
Proof.
  intros W. unfold enqueueAuthorizedBroadcast.
  assert (Hany : calm (λ s' key', s' = s ∧ key' = key) none h h).
  { destruct (calm_refl h W) as []. split; try done; auto. }
  destruct (expired || quit h || _); [done|]. destruct (enqueue _ data h) as [h1|] eqn:E; [|done].
  pose proof (calm_signalGapLocked s key h1 (enqueue_wf _ _ _ _ W E)) as Hs.
  destruct (enqueue_same _ _ _ _ E) as ((Hc & Hsu & Hcs & Hg & Hn) & Hp & Hcl & Hq & _).
  assert (Hcur : ∀ s key, subscriptionIsCurrentLocked s key h1 = subscriptionIsCurrentLocked s key h)
    by (intros; unfold subscriptionIsCurrentLocked, registered, subscriptionGeneration; by rewrite Hc, Hsu, Hcs, Hg).
  assert (Hpend : ∀ s key, gapIsPendingLocked s key h1 = gapIsPendingLocked s key h)
    by (intros; unfold gapIsPendingLocked; by rewrite Hcur, Hp).
  destruct (signalGapLocked s key h1) as [ok h2] eqn:E2. cbn [snd] in *. destruct Hs as [Hs1 Hs2 Hs3 Hs4 Hs5 Hs6].
  setoid_rewrite Hcur in Hs2. setoid_rewrite Hpend in Hs3. setoid_rewrite Hpend in Hs4. rewrite Hn in Hs1, Hs2, Hs3, Hs4. rewrite Hcl in Hs5. rewrite Hq in Hs6.
  by split.
Qed.

(** Queueing for the sessions of a user touches outboxes only. *)
Lemma offers_same data l acc h : let h' := snd (foldl (offer data) (acc, h) l) in
  same_registry h h' ∧ pendingSync h' = pendingSync h ∧ closed h' = closed h ∧ quit h' = quit h ∧ syncSignal h' = syncSignal h ∧
  unregister h' = unregister h.
Proof.
  revert h acc. induction l as [|c l IH]; intros h acc; [done|]. cbn [foldl].
  destruct (enqueue c data h) as [h1|] eqn:E.
  - replace (offer data (acc, h) c) with (acc, h1) by (unfold offer; cbn; by rewrite E).
    destruct (enqueue_same _ _ _ _ E) as ((? & ? & ? & ? & ?) & ? & ? & ? & ? & ?).
    destruct (IH h1 acc) as ((? & ? & ? & ? & ?) & ? & ? & ? & ? & ?). split_and!; (split_and!; congruence) || congruence.
  - replace (offer data (acc, h) c) with (acc ++ [c], h) by (unfold offer; cbn; by rewrite E). apply IH.
Qed.

Lemma offered_wf data l acc h : hub_wf h → hub_wf (snd (foldl (offer data) (acc, h) l)).
Proof. apply offer_wf. Qed.

(** ** Snapshots *)

Lemma elem_of_broadcastSnapshot s key h : hub_wf h →
  s ∈ broadcastSnapshot key h ↔ 0 < bs_generation s ∧ subscriptionIsCurrentLocked s key h = true.
Proof.
  intros W. unfold broadcastSnapshot. rewrite list_elem_of_omap. split.
  - intros (id & Hid & H). apply bind_Some in H as (c & Hc & H). apply bind_Some in H as (g & Hg & [= <-]).
    pose proof (wf_id h W id c Hc) as Hcid. change (gens_of (subscriptionGenerations h) id !! key) with (gen h id key) in Hg.
    destruct (wf_range h W id key g Hg) as [Hpos _]. cbn. split; [done|]. apply current_gen; [done..|]. cbn. by rewrite Hcid.
  - intros [Hpos Hcur]. apply current_gen in Hcur as [Hc Hg]; [|done..]. exists (cl_id (bs_client s)). split.
    + apply elem_of_elements, W, (wf_gen h W). by eexists.
    + rewrite Hc. cbn [mbind option_bind]. change (gens_of (subscriptionGenerations h) (cl_id (bs_client s)) !! key) with (gen h (cl_id (bs_client s)) key).
      rewrite Hg. cbn. by destruct s.
Qed.

Lemma elem_of_pendingGaps g h : hub_wf h →
  g ∈ pendingGaps h ↔ 0 < bs_generation (pg_subscription g) ∧ gapIsPendingLocked (pg_subscription g) (pg_key g) h = true.
Proof.
  intros W. unfold pendingGaps. rewrite list_elem_of_bind. split.
  - intros ([id keys] & Hg & Hid). apply elem_of_map_to_list in Hid. destruct (clients h !! id) as [c|] eqn:Hc; [|by apply elem_of_nil in Hg].
    apply list_elem_of_fmap in Hg as ([key n] & -> & Hk). apply elem_of_map_to_list in Hk. cbn.
    assert (Hgap : gap h id key = Some n) by (unfold gap, gens_of; by rewrite Hid).
    destruct (wf_range h W id key n (wf_gap h W id key n Hgap)) as [Hpos _]. split; [done|].
    apply gap_pending; [done..|]. cbn. by rewrite (wf_id h W id c Hc).
  - intros [Hpos Hp]. apply gap_pending in Hp as [Hc Hgap]; [|done..]. destruct g as [ [c n] key]. cbn in *.
    unfold gap, gens_of in Hgap. destruct (pendingSync h !! cl_id c) as [keys|] eqn:E; [|cbn in Hgap; by rewrite lookup_empty in Hgap]. cbn in Hgap.
    exists (cl_id c, keys). split; [|by apply elem_of_map_to_list]. rewrite Hc. apply list_elem_of_fmap. exists (key, n). split; [done|]. by apply elem_of_map_to_list.
Qed.

(** ** Steps *)

Definition point_subs (p : Point) : list broadcastSubscription :=
  match p with
  | WLoop _ todo | WNotify _ todo | WDrop _ _ todo | WClose _ _ _ todo => todo
  | WAsk _ s todo | WAct _ s todo _ | WWait _ s todo => s :: todo
  | WIdle | WBegin _ => []
  end.
Definition recovery_gaps (p : Recovery) : list pendingGap :=
  match p with
  | RSleep | RTimer => []
  | RLoop todo _ | RDrop _ todo _ | RClose _ todo _ => todo
  | RAsk g todo _ | RAct g todo _ _ | RWait g todo _ => g :: todo
  end.

(** Every subscription a goroutine holds had its generation. *)
Definition issued (h : Hub) (s : broadcastSubscription) : Prop := 0 < bs_generation s <= nextSubscriptionGeneration h.
Record sys_wf (σ : Sys) : Prop := {
  sys_hub : hub_wf (hub σ);
  sys_points : ∀ i s, s ∈ point_subs (point σ i) → issued (hub σ) s;
  sys_gaps : ∀ g, g ∈ recovery_gaps (recovery σ) → issued (hub σ) (pg_subscription g) }.

(** The client is about to be disconnected by a goroutine that found its outbox full. *)
Definition dropped_at (c : Client) (p : Point) : Prop :=
  match p with WDrop _ slow _ => c ∈ slow | WClose _ c' slow _ => c = c' ∨ c ∈ slow | _ => False end.
Definition dropping (σ : Sys) (c : Client) : Prop :=
  (∃ i, dropped_at c (point σ i)) ∨ match recovery σ with RDrop c' _ _ | RClose c' _ _ => c = c' | _ => False end.

Definition gap_lost (ls : list Label) (σ' : Sys) (s : broadcastSubscription) (key : string) : Prop :=
  LSignalled s key ∈ ls ∨ dropping σ' (bs_client s) ∨ parseTargetKey key = None.
Definition gap_new (σ' : Sys) (s : broadcastSubscription) (key : string) : Prop :=
  ∃ i r todo, point σ' i = WNotify r todo.

Lemma calm_weaken (lost new lost' new' : broadcastSubscription → string → Prop) h h' : calm lost new h h' →
  (∀ s key, gapIsPendingLocked s key h = true → lost s key → lost' s key) → (∀ s key, new s key → new' s key) → calm lost' new' h h'.
Proof. intros [] Hl Hn. split; try done; intros s key Hr; [intros Hc Hp; destruct (calm_kept0 s key Hr Hc Hp)|intros Hp; destruct (calm_new0 s key Hr Hp)]; eauto. Qed.

Lemma calm_none lost new h h' : calm none none h h' → calm lost new h h'.
Proof. intros H. by eapply calm_weaken. Qed.

Lemma hub_resume from σ : hub (resume from σ) = hub σ.
Proof. destruct from as [|i|]; cbn; [done|by destruct (point σ i)|by destruct (recovery σ)]. Qed.

(** Changes outside the registry and the gaps. *)
Lemma world_change ob cl sig un qt h : hub_wf h → (∀ r, (length (default [] (ob !! r)) <= outboxSize)%nat) → closed h ⊆ cl →
  (quit h = true → qt = true) → hub_wf (set_world ob cl sig un qt h) ∧ calm none none h (set_world ob cl sig un qt h).
Proof. intros W Ho Hc Hq. pose proof (set_world_wf ob cl sig un qt h W Ho). split; [done|]. by apply calm_same. Qed.

Lemma outbox_bound h r : hub_wf h → (length (default [] (outbox h !! r)) <= outboxSize)%nat.
Proof. intros W. exact (wf_outbox h W {| cl_ref := r; cl_id := ""; cl_userID := ""; cl_workspaceID := "" |}). Qed.

Lemma typing_change v h : hub_wf h → hub_wf (set_typingActive v h) ∧ calm none none h (set_typingActive v h).
Proof. intros W. assert (hub_wf (set_typingActive v h)) by (destruct W; by split). split; [done|]. by apply calm_same. Qed.

Lemma close_change c h : hub_wf h → hub_wf (close c h) ∧ calm none none h (close c h).
Proof. intros W. apply world_change; [done|by intros; apply outbox_bound|set_solver|done]. Qed.

Lemma hands_over_change c h h' : hub_wf h → hands_over c h h' → hub_wf h' ∧ calm none none h h'.
Proof.
  intros W [_|_]; [|split; [done|by apply calm_refl] ]. apply world_change; [done|by intros; apply outbox_bound|set_solver|done].
Qed.

Lemma offers_change data l acc h : hub_wf h → let h' := snd (foldl (offer data) (acc, h) l) in hub_wf h' ∧ calm none none h h'.
Proof.
  intros W h'. pose proof (offer_wf data h l acc W) as W'. destruct (offers_same data l acc h) as (Hr & Hp & Hc & Hq & _).
  split; [done|]. apply calm_same; try done; subst h'; by rewrite ?Hc, ?Hq.
Qed.

Lemma calm_trans h1 h2 h3 : calm none none h1 h2 → calm none none h2 h3 → calm none none h1 h3.
Proof.
  intros [] []. split; try (intros; eauto; lia).
  - intros s key Hr H. apply calm_current0; [done|]. apply calm_current1; [lia|done].
  - intros s key Hr H3 H1. destruct (calm_kept0 s key Hr) as [H2|[] ]; [apply calm_current1; [lia|done]|done|]. apply calm_kept1; [lia|done..].
  - intros s key Hr H3. destruct (calm_new1 s key) as [H2|[] ]; [lia|done|]. by apply calm_new0.
  - set_solver.
Qed.

(** The state of the hub after a step. *)
Definition hub_change (ls : list Label) (σ' : Sys) (h h' : Hub) : Prop :=
  hub_wf h' ∧ nextSubscriptionGeneration h' <= nextSubscriptionGeneration h + 1 ∧ calm (gap_lost ls σ') (gap_new σ') h h'.

Lemma change_calm ls σ' h h' : hub_wf h' → nextSubscriptionGeneration h' <= nextSubscriptionGeneration h + 1 → calm none none h h' → hub_change ls σ' h h'.
Proof. intros W Hn Hc. split_and!; [done..|by apply calm_none]. Qed.
Lemma change_same ls σ' h h' : nextSubscriptionGeneration h' = nextSubscriptionGeneration h → hub_wf h' ∧ calm none none h h' → hub_change ls σ' h h'.
Proof. intros Hn [W Hc]. apply change_calm; [done|lia|done]. Qed.

Lemma point_at i p σ : point (at_point i p σ) i = p.
Proof. unfold point, at_point. cbn. by rewrite fn_lookup_insert. Qed.
Lemma point_at_ne i j p σ : i ≠ j → point (at_point i p σ) j = point σ j.
Proof. intros H. unfold point, at_point. cbn. by rewrite fn_lookup_insert_ne. Qed.

Lemma signalled_label s key h ok : gapIsPendingLocked s key h = true → ok = true → parseTargetKey key ≠ None → LSignalled s key ∈ signalled s key h ok.
Proof. intros Hp -> Hk. unfold signalled. rewrite Hp. destruct (parseTargetKey key); [|done]. cbn. set_solver. Qed.

Lemma act_change i deadline data r s todo o σ p h' ls : sys_wf σ → point σ i = WAct r s todo o →
  act i deadline data r s todo o (hub σ) = (p, h', ls) → hub_change ls (at_point i p (with_hub h' σ)) (hub σ) h'.
Proof.
  intros W Hp Ha. pose proof (sys_hub σ W) as Wh. assert (Hs : 0 < bs_generation s) by (apply (sys_points σ W i s); rewrite Hp; set_solver).
  assert (Hrefl : ∀ ls σ', hub_change ls σ' (hub σ) (hub σ)) by (intros; apply change_same; [done|split; [done|by apply calm_refl] ]).
  assert (Hrec : ∀ b h1, recordGap s (key_of r) (hub σ) = (b, h1) → p = (if b then WNotify r todo else WLoop r todo) → h' = h1 → ls = [] →
    hub_change ls (at_point i p (with_hub h' σ)) (hub σ) h').
  { intros b h1 E -> -> ->. pose proof (recordGap_wf s (key_of r) (hub σ) Wh Hs) as W'. pose proof (calm_recordGap s (key_of r) (hub σ) Wh Hs) as Hc.
    destruct (recordGap_registry s (key_of r) (hub σ)) as (_ & _ & _ & _ & Hn). rewrite E in W', Hc, Hn. cbn [snd] in *.
    destruct b; [|assert (h1 = hub σ) as -> by (unfold recordGap in E; by destruct (subscriptionIsCurrentLocked s (key_of r) (hub σ)); simplify_eq); apply Hrefl].
    split_and!; [done|lia|]. eapply calm_weaken; [done|by intros ??? []|]. intros s' key' _. exists i, r, todo. apply point_at. }
  destruct o; cbn in Ha; try (injection Ha as <- <- <-; apply Hrefl).
  - destruct (enqueueAuthorizedBroadcast _ _ _ _ _) as [ [queued full] h1] eqn:E. injection Ha as <- <- <-.
    pose proof (enqueueAuthorizedBroadcast_wf (deadline || is_closed (hub σ) (bs_client s)) s (key_of r) (frame_of r data) (hub σ) Wh) as W'.
    pose proof (calm_enqueueAuthorizedBroadcast (deadline || is_closed (hub σ) (bs_client s)) s (key_of r) (frame_of r data) (hub σ) Wh) as Hc.
    rewrite E in W', Hc. cbn [snd] in *. unfold enqueueAuthorizedBroadcast in E.
    destruct (_ || _ || _); [injection E as <- <- <-; apply Hrefl|]. destruct (enqueue _ _ _) as [h2|] eqn:E2; [|injection E as <- <- <-; apply Hrefl].
    destruct (signalGapLocked s (key_of r) h2) as [ok h3] eqn:E3. injection E as <- <- <-. rewrite negb_involutive in *.
    split_and!; [done| |].
    + pose proof (signalGapLocked_same s (key_of r) h2) as Hsame. rewrite E3 in Hsame. destruct Hsame as ((_ & _ & _ & _ & Hn) & _).
      destruct (enqueue_same _ _ _ _ E2) as ((_ & _ & _ & _ & Hn2) & _). cbn in *. lia.
    + eapply calm_weaken; [done| |by intros ?? []]. intros s' key' Hpend [-> ->]. unfold gap_lost.
      destruct (parseTargetKey (key_of r)) eqn:Ek; [|by auto]. destruct ok; [left; right; apply signalled_label; [done..|by rewrite Ek]|].
      right; left; left. exists i. cbn [negb]. rewrite point_at. cbn. set_solver.
  - destruct (recordGap s (key_of r) (hub σ)) as [b h1] eqn:E. injection Ha as <- <- <-. by eapply Hrec.
  - destruct (recordGap s (key_of r) (hub σ)) as [b h1] eqn:E. injection Ha as <- <- <-. by eapply Hrec.
Qed.

Lemma recover_change g todo res o σ p h' ls : sys_wf σ → recovery σ = RAct g todo res o →
  recover g todo res o (hub σ) = (p, h', ls) → hub_change ls (with_recovery p (with_hub h' σ)) (hub σ) h'.
Proof.
  intros W Hp Ha. pose proof (sys_hub σ W) as Wh.
  assert (Hrefl : ∀ ls σ', hub_change ls σ' (hub σ) (hub σ)) by (intros; apply change_same; [done|split; [done|by apply calm_refl] ]).
  destruct o; cbn in Ha; try (injection Ha as <- <- <-; apply Hrefl).
  destruct (signalGapLocked _ _ _) as [ok h1] eqn:E. injection Ha as <- <- <-.
  pose proof (signalGapLocked_wf (pg_subscription g) (pg_key g) (hub σ) Wh) as W'.
  pose proof (calm_signalGapLocked (pg_subscription g) (pg_key g) (hub σ) Wh) as Hc.
  pose proof (signalGapLocked_same (pg_subscription g) (pg_key g) (hub σ)) as Hsame. rewrite E in W', Hc, Hsame. cbn [snd] in *.
  destruct Hsame as ((_ & _ & _ & _ & Hn) & _). split_and!; [done|lia|].
  eapply calm_weaken; [done| |by intros ?? []]. intros s' key' Hpend [-> ->]. unfold gap_lost.
  destruct (parseTargetKey (pg_key g)) eqn:Ek; [|by auto]. destruct ok; [left; apply signalled_label; [done..|by rewrite Ek]|].
  right; left; right. reflexivity.
Qed.

Lemma step_change σ ls σ' : step σ ls σ' → sys_wf σ → nextSubscriptionGeneration (hub σ) + 1 < 2 ^ 64 → hub_change ls σ' (hub σ) (hub σ').
Proof.
  intros Hst W Hn. pose proof (sys_hub σ W) as Wh.
  assert (Hrefl : ∀ ls σ', hub_change ls σ' (hub σ) (hub σ)) by (intros; apply change_same; [done|split; [done|by apply calm_refl] ]).
  destruct Hst; cbn [hub with_hub with_goroutine with_recovery at_point with_worker]; try apply Hrefl.
  - destruct (quit (hub σ)); [apply Hrefl|]. pose proof (addClient_wf c (hub σ) Wh) as W'. pose proof (calm_addClient c (hub σ) Wh) as Hc.
    assert (Hnext : nextSubscriptionGeneration (snd (addClient c (hub σ))) = nextSubscriptionGeneration (hub σ)) by (unfold addClient; by case_match).
    destruct (addClient c (hub σ)) as [ok h]. cbn in *. destruct ok; [by apply change_same|].
    apply change_same; [done|]. destruct (close_change c h W') as [? Hc2]. split; [done|]. by eapply calm_trans.
  - assert (Hq : hub_wf (set_unregister rest (hub σ)) ∧ calm none none (hub σ) (set_unregister rest (hub σ)))
      by (apply world_change; [done|by intros; apply outbox_bound|done..]). destruct Hq as [Wq Hcq].
    pose proof (removeClient_wf c _ Wq) as W'. pose proof (calm_removeClient c _ Wq) as Hc.
    assert (Hnext : nextSubscriptionGeneration (snd (removeClient c (set_unregister rest (hub σ)))) = nextSubscriptionGeneration (hub σ))
      by (unfold removeClient; by destruct (negb _)).
    destruct (removeClient c _) as [removed h]. cbn in *. apply change_same; [done|]. split; [done|]. by eapply calm_trans.
  - apply change_same; [done|]. by apply close_change.
  - destruct (calm_handleSubscribe cancelled c ty id (hub σ) Wh Hn) as [Hc Hle]. apply change_calm; [by apply handleSubscribe_wf|done|done].
  - destruct (revocation_replaced (hub σ) req); [rewrite hub_resume; apply Hrefl|apply Hrefl].
  - rewrite hub_resume. cbn. apply change_same; [|split; [by apply revokeSubscription_wf|by apply calm_revokeSubscription] ].
    by destruct (revokeSubscription_world (rv_client req) (rv_key req) (hub σ)) as (_ & _ & _ & _ & _ & _ & ?).
  - apply change_same; [done|]. apply world_change; [done|by intros; apply outbox_bound|done..].
  - pose proof (clearClients_wf _ Wh) as W'. pose proof (calm_clearClients _ Wh) as Hc.
    assert (Hnext : nextSubscriptionGeneration (snd (clearClients (hub σ))) = nextSubscriptionGeneration (hub σ)) by done.
    destruct (clearClients (hub σ)) as [cs h]. cbn in *. apply change_same; [done|].
    assert (Hcl : hub_wf (set_closed (list_to_set (cl_ref <$> cs) ∪ closed h) h) ∧ calm none none h (set_closed (list_to_set (cl_ref <$> cs) ∪ closed h) h))
      by (apply world_change; [done|by intros; apply outbox_bound|set_solver|done]).
    destruct Hcl as [? ?]. split; [done|]. by eapply calm_trans.
  - rewrite hub_resume. apply Hrefl.
  - pose proof (offers_change (UserFrame (br_data r)) (sessions_of (WorkspaceID (br_event r)) (TargetID (br_event r)) (hub σ)) [] (hub σ) Wh) as Ho.
    destruct (offers_same (UserFrame (br_data r)) (sessions_of (WorkspaceID (br_event r)) (TargetID (br_event r)) (hub σ)) [] (hub σ)) as ((_ & _ & _ & _ & Hnx) & _).
    unfold handleUserBroadcast. destruct (foldl _ _ _) as [slow h]. by apply change_same.
  - by eapply act_change.
  - apply change_same; [done|]. apply world_change; [done|by intros; apply outbox_bound|done..].
  - apply change_same; [by destruct H0|by eapply hands_over_change].
  - apply change_same; [done|]. by apply close_change.
  - apply change_same; [done|]. apply world_change; [done|by intros; apply outbox_bound|done..].
  - by eapply recover_change.
  - apply change_same; [by destruct H0|by eapply hands_over_change].
  - apply change_same; [done|]. by apply close_change.
  - apply change_same; [done|]. apply world_change; [done| |done..]. intros q. pose proof (outbox_bound (hub σ)) as Hb.
    destruct (decide (cl_ref c = q)) as [<-|]; [rewrite lookup_insert_eq|by rewrite lookup_insert_ne; auto].
    specialize (Hb (cl_ref c) Wh). unfold outbox_of in H. rewrite H in Hb. cbn in *. lia.
  - apply change_same; [done|]. by apply close_change.
  - apply change_same; [by destruct H|by eapply hands_over_change].
  - unfold deliverToLocalUserSessions. destruct (_ || _); [apply Hrefl|].
    apply change_same; [|by apply offers_change]. by apply offers_same.
  - apply change_same; [done|]. by apply typing_change.
  - unfold clearTypingState. destruct (typingActive (hub σ) !! cl_id c); [|apply Hrefl]. apply change_same; [done|]. by apply typing_change.
Qed.

(** ** Reachable states *)

Lemma resume_point from σ j : point (resume from σ) j = point σ j ∨
  ∃ r s todo, from = FromWorker j ∧ point σ j = WWait r s todo ∧ point (resume from σ) j = WLoop r todo.
Proof.
  destruct from as [|i|]; cbn; [by left| |by left; destruct (recovery σ)].
  destruct (point σ i) eqn:E; try by left. destruct (decide (i = j)) as [<-|Hne]; [|left; by rewrite point_at_ne].
  right. do 3 eexists. split; [done|]. split; [done|]. by rewrite point_at.
Qed.

Lemma resume_recovery from σ : recovery (resume from σ) = recovery σ ∨
  ∃ g todo res, from = FromRecovery ∧ recovery σ = RWait g todo res ∧ recovery (resume from σ) = RLoop todo res.
Proof.
  destruct from as [|i|]; cbn; [by left|left; by destruct (point σ i)|].
  destruct (recovery σ) eqn:E; try (by left). right. by do 3 eexists.
Qed.

(** Where a worker holds the subscriptions it may still reach. *)
Lemma step_points σ ls σ' : step σ ls σ' → sys_wf σ →
  ∀ j s, s ∈ point_subs (point σ' j) → s ∈ point_subs (point σ j) ∨ issued (hub σ) s.
Proof.
  intros Hst W j s.
  assert (Hres : ∀ from σ0, point σ0 j = point σ j → s ∈ point_subs (point (resume from σ0) j) → s ∈ point_subs (point σ j)).
  { intros from σ0 H0. destruct (resume_point from σ0 j) as [->|(r & s0 & todo & _ & Hw & ->)]; [by rewrite H0|].
    rewrite <-H0, Hw. cbn. set_solver. }
  assert (Hat : ∀ i p σ0, (∀ k, point σ0 k = point σ k) → (s ∈ point_subs p → s ∈ point_subs (point σ i) ∨ issued (hub σ) s) →
    s ∈ point_subs (point (at_point i p σ0) j) → s ∈ point_subs (point σ j) ∨ issued (hub σ) s).
  { intros i p σ0 H0 Hp. destruct (decide (i = j)) as [<-|Hne]; [by rewrite point_at|]. rewrite point_at_ne, H0 by done. by left. }
  destruct Hst; try (intros Hin; by left).
  - destruct (quit (hub σ)); [by left|]. destruct (addClient _ _). by left.
  - destruct (removeClient _ _). by left.
  - destruct (revocation_replaced _ _); [left; by eapply Hres|by left].
  - left. eapply Hres; [|eassumption]. done.
  - left. eapply Hres; [|eassumption]. done.
  - intros Hin. left. unfold point, with_worker in *. cbn in Hin. subst w. revert Hin.
    destruct (decide (partition_of r = j)) as [<-|]; [by rewrite fn_lookup_insert|by rewrite fn_lookup_insert_ne].
  - unfold point, with_worker. cbn. destruct (decide (i = j)) as [<-|]; [rewrite fn_lookup_insert; cbn; set_solver|rewrite fn_lookup_insert_ne by done; by left].
  - destruct (handleUserBroadcast _ _). apply Hat; [done|]. cbn. set_solver.
  - apply Hat; [done|]. cbn. set_solver.
  - apply Hat; [done|]. cbn. intros Hin. right. rewrite H1 in Hin. apply elem_of_broadcastSnapshot in Hin as [Hpos Hcur]; [|apply W].
    apply current_gen in Hcur as [_ Hg]; [|apply W|done]. by eapply wf_range; [apply W|].
  - apply Hat; [done|]. cbn. set_solver.
  - apply Hat; [done|]. rewrite H. destruct (subscriptionIsCurrentLocked _ _ _); cbn; set_solver.
  - apply Hat; [done|]. rewrite H. cbn. set_solver.
  - apply Hat; [done|]. rewrite H. left. revert H1. destruct o; cbn in H0; repeat case_match; simplify_eq; cbn; set_solver.
  - apply Hat; [done|]. rewrite H. cbn. set_solver.
  - apply Hat; [done|]. rewrite H. cbn. set_solver.
  - apply Hat; [done|]. rewrite H. cbn. set_solver.
  - apply Hat; [done|]. rewrite H. cbn. set_solver.
Qed.

Lemma step_gaps σ ls σ' : step σ ls σ' → sys_wf σ →
  ∀ g, g ∈ recovery_gaps (recovery σ') → g ∈ recovery_gaps (recovery σ) ∨ issued (hub σ) (pg_subscription g).
Proof.
  intros Hst W g.
  assert (Hres : ∀ from σ0, recovery σ0 = recovery σ → g ∈ recovery_gaps (recovery (resume from σ0)) → g ∈ recovery_gaps (recovery σ)).
  { intros from σ0 H0. destruct (resume_recovery from σ0) as [->|(g0 & todo & res & _ & Hw & ->)]; [by rewrite H0|]. rewrite <-H0, Hw. cbn. set_solver. }
  destruct Hst; try (intros Hin; by left).
  - destruct (quit (hub σ)); [by left|]. destruct (addClient _ _). by left.
  - destruct (removeClient _ _). by left.
  - destruct (revocation_replaced _ _); [left; by eapply Hres|by left].
  - left. eapply Hres; [|eassumption]. done.
  - left. eapply Hres; [|eassumption]. done.
  - destruct (handleUserBroadcast _ _). by left.
  - cbn. set_solver.
  - cbn. intros Hin. right. rewrite H0 in Hin. apply elem_of_pendingGaps in Hin as [Hpos Hp]; [|apply W].
    apply gap_pending in Hp as [_ Hg]; [|apply W|done]. by eapply wf_range, wf_gap; [apply W|apply W|].
  - destruct res; cbn; set_solver.
  - rewrite H. cbn. destruct (_ && _); cbn; set_solver.
  - rewrite H. cbn. set_solver.
  - rewrite H. cbn. intros Hin. left. revert Hin. destruct o; cbn in H0; repeat case_match; simplify_eq; cbn; set_solver.
  - rewrite H. cbn. set_solver.
  - rewrite H. cbn. set_solver.
Qed.

Lemma step_wf σ ls σ' : step σ ls σ' → sys_wf σ → nextSubscriptionGeneration (hub σ) + 1 < 2 ^ 64 → sys_wf σ'.
Proof.
  intros Hst W Hn. destruct (step_change _ _ _ Hst W Hn) as (W' & _ & Hc). pose proof (calm_next _ _ _ _ Hc) as Hle.
  split; [done|..].
  - intros i s Hin. destruct (step_points _ _ _ Hst W i s Hin) as [Hold|Hnew]; [apply (sys_points σ W) in Hold|]; unfold issued in *; lia.
  - intros g Hin. destruct (step_gaps _ _ _ Hst W g Hin) as [Hold|Hnew]; [apply (sys_gaps σ W) in Hold|]; unfold issued in *; lia.
Qed.

(** In fewer than 2^64 steps no generation is used twice. *)
Lemma run_wf n tr σ : run n tr σ → Z.of_nat n < 2 ^ 64 → sys_wf σ ∧ nextSubscriptionGeneration (hub σ) <= Z.of_nat n.
Proof.
  induction 1 as [|n tr σ ls σ' _ IH Hst]; intros Hn.
  - split; [|done]. split; [apply initial_hub_wf|intros i s Hin; by apply elem_of_nil in Hin|intros g Hin; by apply elem_of_nil in Hin].
  - destruct IH as [W Hle]; [lia|]. split; [eapply step_wf; [done..|lia]|].
    destruct (step_change _ _ _ Hst W ltac:(lia)) as (_ & Hx & _). lia.
Qed.
