(* ===== verification/HubWorkers.v ===== *)
(** * The steps of one goroutine

    A step of HubRuns.v moves at most one goroutine.  What it does to one worker and to
    the recovery of gaps, without the rest of the system: the case analyses of
    HubDelivery.v, HubOrder.v and HubGaps.v go over these. *)

From stdpp Require Import prelude gmap strings functions.
From Stdlib Require Import ZArith Lia.
From S2P Require Import Prelude GoStrings Codec HubEvents Hub HubFacts HubRuns HubCalm.
Local Open Scope Z_scope.

(** The worker whose step a label shows. *)
Definition worker_of (l : Label) : option nat :=
  match l with LAnswered i _ _ _ | LEnqueued i _ _ => Some i | LRechecked _ _ | LSignalled _ _ => None end.

(** A worker in the middle of a request, and the hub before and after: what happens to the
    hub while a request is resumed is of no matter here. *)
Inductive moves (j : nat) (h : Hub) : Point → list Label → Point → Hub → Prop :=
| m_user r slow h' : moves j h (WBegin r) [] (WDrop r slow []) h'
| m_invisible r : moves j h (WBegin r) [] WIdle h
| m_snapshot r todo : todo ≡ₚ broadcastSnapshot (key_of r) h → moves j h (WBegin r) [] (WLoop r todo) h
| m_end r : moves j h (WLoop r []) [] WIdle h
| m_next r s todo : subscriptionIsCurrentLocked s (key_of r) h = true → moves j h (WLoop r (s :: todo)) [] (WAsk r s todo) h
| m_skip r s todo : subscriptionIsCurrentLocked s (key_of r) h = false → moves j h (WLoop r (s :: todo)) [] (WLoop r todo) h
| m_answer r s todo allowed err : let o := classifyRecheck (is_closed h (bs_client s)) allowed err in
    moves j h (WAsk r s todo) [LAnswered j r s o] (WAct r s todo o) h
| m_act r s todo o deadline data p h' ls : act j deadline data r s todo o h = (p, h', ls) → moves j h (WAct r s todo o) ls p h'
| m_notify r todo : moves j h (WNotify r todo) [] (WLoop r todo) (send_signal h)
| m_resume r s todo h' : moves j h (WWait r s todo) [] (WLoop r todo) h'
| m_drop r c slow todo h' : hands_over c h h' → moves j h (WDrop r (c :: slow) todo) [] (WClose r c slow todo) h'
| m_dropped r todo : moves j h (WDrop r [] todo) [] (WLoop r todo) h
| m_close r c slow todo : moves j h (WClose r c slow todo) [] (WDrop r slow todo) (close c h).

Inductive worker_step (σ : Sys) (j : nat) (ls : list Label) (h' : Hub) : Worker → Prop :=
| ws_same : (∀ l, l ∈ ls → worker_of l ≠ Some j) → worker_step σ j ls h' (workers σ j)
| ws_queued r : ls = [] → br_seq r = dispatched σ → partition_of r = j →
    worker_step σ j ls h' {| w_queue := w_queue (workers σ j) ++ [r]; w_point := point σ j |}
| ws_take r rest : ls = [] → point σ j = WIdle → w_queue (workers σ j) = r :: rest → worker_step σ j ls h' {| w_queue := rest; w_point := WBegin r |}
| ws_move p : moves j (hub σ) (point σ j) ls p h' → worker_step σ j ls h' {| w_queue := w_queue (workers σ j); w_point := p |}.

Lemma act_labels i deadline data r s todo o h p h' ls : act i deadline data r s todo o h = (p, h', ls) →
  ls = [] ∨ (o = recheckAllowed ∧ ∃ full, ls = LEnqueued i r s :: signalled s (key_of r) h full).
Proof.
  intros Ha. destruct o; cbn in Ha; try (injection Ha as _ _ <-; by left).
  - destruct (enqueueAuthorizedBroadcast _ _ _ _ _) as [ [ [] full] h1]; injection Ha as _ _ <-; [right; split; [done|by eexists]|by left].
  - destruct (recordGap _ _ _). injection Ha as _ _ <-. by left.
  - destruct (recordGap _ _ _). injection Ha as _ _ <-. by left.
Qed.

Lemma elem_of_signalled l s key h ok : l ∈ signalled s key h ok → l = LSignalled s key.
Proof. unfold signalled. destruct (_ && _ && _); set_solver. Qed.

Lemma act_worker_of i deadline data r s todo o h p h' ls l : act i deadline data r s todo o h = (p, h', ls) → l ∈ ls → worker_of l = Some i ∨ worker_of l = None.
Proof.
  intros Ha Hl. apply act_labels in Ha as [->|(_ & full & ->)]; [by apply elem_of_nil in Hl|].
  apply elem_of_cons in Hl as [->|Hl]; [by left|]. apply elem_of_signalled in Hl as ->. by right.
Qed.

(** A worker resumed by the hub, or not. *)
Lemma resume_worker σ σ0 from j h' : workers σ0 = workers σ → worker_step σ j [] h' (workers (resume from σ0) j).
Proof.
  intros H0. destruct from as [|i|]; cbn.
  - rewrite H0. apply ws_same. set_solver.
  - unfold point. rewrite H0. destruct (w_point (workers σ i)) eqn:E; try (rewrite H0; apply ws_same; set_solver).
    unfold at_point. cbn. rewrite H0. destruct (decide (i = j)) as [<-|Hne]; [|rewrite fn_lookup_insert_ne by done; apply ws_same; set_solver].
    rewrite fn_lookup_insert. apply ws_move. unfold point. rewrite E. apply m_resume.
  - destruct (recovery σ0); cbn; rewrite H0; apply ws_same; set_solver.
Qed.

Lemma at_worker σ σ0 i j ls p h' : workers σ0 = workers σ → moves i (hub σ) (point σ i) ls p h' → (∀ l, l ∈ ls → worker_of l = Some i ∨ worker_of l = None) →
  worker_step σ j ls h' (workers (at_point i p σ0) j).
Proof.
  intros H0 Hm Hl. unfold at_point. cbn. rewrite H0. destruct (decide (i = j)) as [<-|Hne].
  - rewrite fn_lookup_insert. by apply ws_move.
  - rewrite fn_lookup_insert_ne by done. apply ws_same. intros l Hin. destruct (Hl l Hin) as [->| ->]; congruence.
Qed.

Lemma recover_labels g todo res o h p h' ls l : recover g todo res o h = (p, h', ls) → l ∈ ls → l = LSignalled (pg_subscription g) (pg_key g).
Proof.
  intros Ha Hl. destruct o; cbn in Ha; try (injection Ha as _ _ <-; by apply elem_of_nil in Hl).
  destruct (signalGapLocked _ _ _). injection Ha as _ _ <-. by eapply elem_of_signalled.
Qed.

Lemma step_worker σ ls σ' : step σ ls σ' → ∀ j, worker_step σ j ls (hub σ') (workers σ' j).
Proof.
  intros Hst j. assert (Hsame : ∀ h', worker_step σ j [] h' (workers σ j)) by (intros; apply ws_same; set_solver).
  destruct Hst; try apply Hsame;
    try (apply at_worker; [done|match goal with H : point _ _ = _ |- _ => rewrite H end; by econstructor|intros l Hl; cbn in *; set_solver]).
  - destruct (quit (hub σ)); [done|]. by destruct (addClient _ _).
  - by destruct (removeClient _ _).
  - destruct (revocation_replaced _ _); [by apply resume_worker|done].
  - by apply resume_worker.
  - by apply resume_worker.
  - cbn. subst w. destruct (decide (partition_of r = j)) as [<-|Hne]; [rewrite fn_lookup_insert; by apply ws_queued|by rewrite fn_lookup_insert_ne].
  - cbn. destruct (decide (i = j)) as [<-|Hne]; [rewrite fn_lookup_insert; by apply (ws_take _ _ _ _ r)|by rewrite fn_lookup_insert_ne].
  - destruct (handleUserBroadcast _ _). apply at_worker; [done|rewrite H; by econstructor|set_solver].
  - apply at_worker; [done| |set_solver]. rewrite H. destruct (subscriptionIsCurrentLocked _ _ _) eqn:E; by constructor.
  - apply at_worker; [done|rewrite H; eapply m_act; exact H0|]. intros l. by eapply act_worker_of.
  - cbn; apply ws_same. intros l ->%list_elem_of_singleton. done.
  - cbn; apply ws_same. intros l Hl. by rewrite (recover_labels _ _ _ _ _ _ _ _ _ H0 Hl).
Qed.

(** Its point, where only that matters. *)
Lemma step_point σ ls σ' j : step σ ls σ' →
  (point σ' j = point σ j ∧ ∀ l, l ∈ ls → worker_of l ≠ Some j) ∨
  (∃ r rest, ls = [] ∧ point σ j = WIdle ∧ w_queue (workers σ j) = r :: rest ∧ point σ' j = WBegin r) ∨
  moves j (hub σ) (point σ j) ls (point σ' j) (hub σ').
Proof.
  intros Hst. pose proof (step_worker _ _ _ Hst j) as Hw. unfold point in *. destruct Hw as [Hl|r -> _ _|r rest -> Hi Hq|p Hm]; cbn; auto.
  - left. split; [done|set_solver].
  - right; left. by exists r, rest.
Qed.

(** The recovery of gaps. *)
Inductive recovery_moves (h : Hub) : Recovery → list Label → Recovery → Hub → Prop :=
| rm_wake : syncSignal h = true → recovery_moves h RSleep [] RTimer (set_syncSignal false h)
| rm_pass todo : todo ≡ₚ pendingGaps h → recovery_moves h RTimer [] (RLoop todo true) h
| rm_passed res : recovery_moves h (RLoop [] res) [] (if res then RSleep else RTimer) h
| rm_gap g todo res : recovery_moves h (RLoop (g :: todo) res) [] (RAsk g todo res) h
| rm_skip g todo res : (gapIsPendingLocked (pg_subscription g) (pg_key g) h = false ∨ parseTargetKey (pg_key g) = None) →
    recovery_moves h (RLoop (g :: todo) res) [] (RLoop todo res) h
| rm_recheck g todo res allowed err : let o := classifyRecheck (is_closed h (bs_client (pg_subscription g))) allowed err in
    recovery_moves h (RAsk g todo res) [LRechecked g o] (RAct g todo res o) h
| rm_recover g todo res o p h' ls : recover g todo res o h = (p, h', ls) → recovery_moves h (RAct g todo res o) ls p h'
| rm_resume g todo res h' : recovery_moves h (RWait g todo res) [] (RLoop todo res) h'
| rm_drop c todo res h' : hands_over c h h' → recovery_moves h (RDrop c todo res) [] (RClose c todo res) h'
| rm_close c todo res : recovery_moves h (RClose c todo res) [] (RLoop todo res) (close c h).

Lemma step_recovery σ ls σ' : step σ ls σ' → recovery σ' = recovery σ ∨ recovery_moves (hub σ) (recovery σ) ls (recovery σ') (hub σ').
Proof.
  assert (Hres : ∀ from σ0 h', recovery σ0 = recovery σ → recovery (resume from σ0) = recovery σ ∨ recovery_moves (hub σ) (recovery σ) [] (recovery (resume from σ0)) h').
  { intros from σ0 h' H0. destruct (resume_recovery from σ0) as [->|(g & todo & res & _ & Hw & ->)]; [by left|]. right. rewrite <-H0, Hw. constructor. }
  destruct 1; cbn [recovery with_hub with_goroutine with_recovery at_point with_worker]; try (by left);
    try (right; match goal with H : recovery _ = _ |- _ => rewrite H end; by econstructor).
  - destruct (quit (hub σ)); [by left|]. destruct (addClient _ _). by left.
  - destruct (removeClient _ _). by left.
  - destruct (revocation_replaced _ _); [by apply Hres|by left].
  - by apply Hres.
  - by apply Hres.
  - destruct (handleUserBroadcast _ _). by left.
  - right. rewrite H. destruct (gapIsPendingLocked _ _ _) eqn:E1; cbn; [|apply rm_skip; by left].
    destruct (parseTargetKey (pg_key g)) eqn:E2; [apply rm_gap|apply rm_skip; by right].
Qed.
