(* ===== verification/HubDelivery.v ===== *)
(** * What the hub guarantees about deliveries

    Over every interleaving of the goroutines of HubRuns.v: which subscription an event is
    queued for and on what authority, what may end a subscription, what becomes of an
    event that was withheld, and in which order events arrive. *)

From stdpp Require Import prelude gmap strings functions.
From Stdlib Require Import ZArith Lia.
From S2P Require Import Prelude GoStrings Codec HubEvents Hub HubFacts HubRuns HubExample HubCalm HubWorkers.
Local Open Scope Z_scope.

(** ** Which steps touch the registry *)

Definition registry_step (σ σ' : Sys) : Prop :=
  let h := hub σ in let h' := hub σ' in
  same_registry h h' ∨
  (goroutine σ = HIdle ∧
   ((∃ c, quit h = false ∧ h' = (if fst (addClient c h) then snd (addClient c h) else close c (snd (addClient c h)))) ∨
    (∃ c rest, unregister h = c :: rest ∧ h' = snd (removeClient c (set_unregister rest h))) ∨
    (∃ cancelled c ty id, h' = snd (handleSubscribe cancelled c ty id h)) ∨
    (quit h = true ∧ ∀ id, clients h' !! id = None))) ∨
  (∃ req from, goroutine σ = HRevoke req from ∧ goroutine σ' = HIdle ∧ h' = snd (revokeSubscription (rv_client req) (rv_key req) h)).

Lemma act_registry i deadline data r s todo o h p h' ls : act i deadline data r s todo o h = (p, h', ls) → same_registry h h'.
Proof.
  intros Ha. destruct o; cbn in Ha; try (by injection Ha as <- <- <-).
  - destruct (enqueueAuthorizedBroadcast _ _ _ _ _) as [ [queued full] h1] eqn:E. injection Ha as <- <- <-.
    unfold enqueueAuthorizedBroadcast in E. destruct (_ || _ || _); [by injection E as <- <- <-|].
    destruct (enqueue _ _ _) as [h2|] eqn:E2; [|by injection E as <- <- <-].
    pose proof (signalGapLocked_same s (key_of r) h2) as Hs. destruct (signalGapLocked _ _ _) as [ok h3]. injection E as <- <- <-.
    destruct (enqueue_same _ _ _ _ E2) as ((? & ? & ? & ? & ?) & _). destruct Hs as ((? & ? & ? & ? & ?) & _). cbn in *. split_and!; congruence.
  - pose proof (recordGap_registry s (key_of r) h). destruct (recordGap _ _ _). by injection Ha as <- <- <-.
  - pose proof (recordGap_registry s (key_of r) h). destruct (recordGap _ _ _). by injection Ha as <- <- <-.
Qed.

Lemma recover_registry g todo res o h p h' ls : recover g todo res o h = (p, h', ls) → same_registry h h'.
Proof.
  intros Ha. destruct o; cbn in Ha; try (by injection Ha as <- <- <-).
  pose proof (signalGapLocked_same (pg_subscription g) (pg_key g) h) as (Hs & _). destruct (signalGapLocked _ _ _). by injection Ha as <- <- <-.
Qed.

Lemma resume_goroutine from σ : goroutine (resume from σ) = goroutine σ.
Proof. destruct from as [|i|]; cbn; [done|by destruct (point σ i)|by destruct (recovery σ)]. Qed.

Lemma step_registry σ ls σ' : step σ ls σ' → registry_step σ σ'.
Proof.
  intros Hst. unfold registry_step.
  destruct Hst; cbn [hub with_hub with_goroutine with_recovery at_point with_worker]; rewrite ?hub_resume;
    try (left; by repeat split); try (left; by eapply act_registry); try (left; by eapply recover_registry).
  - destruct (quit (hub σ)) eqn:Hq; [left; by repeat split|]. right; left. split; [done|]. left. exists c. split; [done|]. destruct (addClient c (hub σ)) as [ok h]. reflexivity.
  - right; left. split; [done|]. right; left. exists c, rest. split; [done|]. by destruct (removeClient _ _).
  - right; left. split; [done|]. right; right; left. by do 4 eexists.
  - destruct (revocation_replaced _ _); rewrite ?hub_resume; left; by repeat split.
  - right; right. exists req, from. by rewrite resume_goroutine.
  - right; left. split; [done|]. right; right; right. split; [done|]. done.
  - destruct (offers_same (UserFrame (br_data r)) (sessions_of (WorkspaceID (br_event r)) (TargetID (br_event r)) (hub σ)) [] (hub σ)) as (Hr & _).
    unfold handleUserBroadcast. destruct (foldl _ _ _). by left.
  - left. by destruct H0.
  - left. by destruct H0.
  - left. by destruct H.
  - left. unfold deliverToLocalUserSessions. destruct (_ || _); [by repeat split|]. by apply offers_same.
  - left. unfold clearTypingState. destruct (typingActive _ !! _); by repeat split.
Qed.

(** ** The answers behind the points *)

(** What a goroutine acts on is an answer that was given. *)
Record answers (tr : list Label) (σ : Sys) : Prop := {
  answer_act : ∀ i r s todo o, point σ i = WAct r s todo o → LAnswered i r s o ∈ tr;
  answer_wait : ∀ i r s todo, point σ i = WWait r s todo → LAnswered i r s recheckDenied ∈ tr;
  answer_recover : ∀ g todo res o, recovery σ = RAct g todo res o → LRechecked g o ∈ tr;
  answer_recovery_wait : ∀ g todo res, recovery σ = RWait g todo res → LRechecked g recheckDenied ∈ tr;
  answer_revoke : ∀ req from, goroutine σ = HRevoke req from →
    match from with
    | FromClient => rv_generation req = 0
    | FromWorker i => ∃ r s, 0 < bs_generation s ∧ LAnswered i r s recheckDenied ∈ tr ∧ req = denial s (key_of r)
    | FromRecovery => ∃ g, 0 < bs_generation (pg_subscription g) ∧ LRechecked g recheckDenied ∈ tr ∧ req = denial (pg_subscription g) (pg_key g)
    end ∧ revocation_replaced (hub σ) req = false }.

(** Where a point with an answer comes from. *)
Lemma act_not_stuck i deadline data r s todo o h p h' ls : act i deadline data r s todo o h = (p, h', ls) →
  (∀ r' s' todo' o', p ≠ WAct r' s' todo' o') ∧ (∀ r' s' todo', p = WWait r' s' todo' → o = recheckDenied ∧ r' = r ∧ s' = s ∧ todo' = todo).
Proof.
  intros Ha. destruct o; cbn in Ha; try (injection Ha as <- <- <-; split; congruence).
  - destruct (enqueueAuthorizedBroadcast _ _ _ _ _) as [ [queued full] h1]. injection Ha as <- <- <-. destruct full; split; congruence.
  - injection Ha as <- <- <-. split; [congruence|]. intros ??? [= -> -> ->]. done.
  - destruct (recordGap _ _ _) as [ [] h1]; injection Ha as <- <- <-; split; congruence.
  - destruct (recordGap _ _ _) as [ [] h1]; injection Ha as <- <- <-; split; congruence.
Qed.

Lemma step_act_point σ ls σ' j r s todo o : step σ ls σ' → point σ' j = WAct r s todo o →
  (point σ j = WAct r s todo o ∧ ∀ l, l ∈ ls → worker_of l ≠ Some j) ∨ ls = [LAnswered j r s o].
Proof.
  intros Hst Hp. destruct (step_point _ _ _ j Hst) as [ [He Hl]|[(? & ? & _ & _ & _ & He)|Hm] ]; rewrite Hp in *; [left; by split|done|].
  right. inversion Hm; subst; [done|]. match goal with H : act _ _ _ _ _ _ _ _ = _ |- _ => rename H into Ha end. apply act_not_stuck in Ha as [Ha _]. by destruct (Ha _ _ _ _ eq_refl).
Qed.

Lemma step_wait_point σ ls σ' j r s todo : step σ ls σ' → point σ' j = WWait r s todo →
  point σ j = WWait r s todo ∨ point σ j = WAct r s todo recheckDenied.
Proof.
  intros Hst Hp. destruct (step_point _ _ _ j Hst) as [ [He _]|[(? & ? & _ & _ & _ & He)|Hm] ]; rewrite Hp in *; [by left|done|].
  right. inversion Hm; subst. match goal with H : act _ _ _ _ _ _ _ _ = _ |- _ => rename H into Ha end. apply act_not_stuck in Ha as [_ Ha]. by destruct (Ha _ _ _ eq_refl) as (-> & -> & -> & ->).
Qed.

Lemma step_recovery_point σ ls σ' : step σ ls σ' →
  (∀ g todo res o, recovery σ' = RAct g todo res o → recovery σ = RAct g todo res o ∨ LRechecked g o ∈ ls) ∧
  (∀ g todo res, recovery σ' = RWait g todo res → recovery σ = RWait g todo res ∨ recovery σ = RAct g todo res recheckDenied).
Proof.
  intros Hst.
  assert (Hact : ∀ g todo res o h p h' ls', recover g todo res o h = (p, h', ls') →
    (∀ g' todo' res' o', p ≠ RAct g' todo' res' o') ∧ (∀ g' todo' res', p = RWait g' todo' res' → o = recheckDenied ∧ g' = g ∧ todo' = todo ∧ res' = res)).
  { intros g todo res o h p h' ls' Ha. destruct o; cbn in Ha; try (injection Ha as <- <- <-; split; [congruence|]; intros ??? E; by simplify_eq).
    destruct (signalGapLocked _ _ _) as [ [] h1]; injection Ha as <- <- <-; split; congruence. }
  split; intros g todo res; [intros o|]; intros Hp; (destruct (step_recovery _ _ _ Hst) as [He|Hm]; rewrite Hp in *; [by left|right]).
  - inversion Hm as [| |[]| | | | | | |]; subst; [set_solver|]. match goal with H : recover _ _ _ _ _ = _ |- _ => rename H into Ha end. apply Hact in Ha as [Ha _]. by destruct (Ha _ _ _ _ eq_refl).
  - inversion Hm as [| |[]| | | | | | |]; subst. match goal with H : recover _ _ _ _ _ = _ |- _ => rename H into Ha end. apply Hact in Ha as [_ Ha]. by destruct (Ha _ _ _ eq_refl) as (-> & -> & -> & ->).
Qed.

Lemma step_goroutine σ ls σ' req from : step σ ls σ' → goroutine σ' = HRevoke req from →
  (goroutine σ = HRevoke req from ∧ same_registry (hub σ) (hub σ')) ∨
  (waits σ from req ∧ hub σ' = hub σ ∧ revocation_replaced (hub σ) req = false).
Proof.
  intros Hst Hg. pose proof (step_registry _ _ _ Hst) as Hr.
  assert (Hkeep : goroutine σ = HRevoke req from → goroutine σ = HRevoke req from ∧ same_registry (hub σ) (hub σ')).
  { intros H0. split; [done|]. destruct Hr as [?|[ [? _]|(? & ? & _ & ? & _)] ]; [done|congruence|congruence]. }
  clear Hr. revert Hkeep Hg.
  destruct Hst; cbn [goroutine with_hub with_goroutine with_recovery at_point with_worker]; rewrite ?resume_goroutine; intros Hkeep Hg;
    try (left; by apply Hkeep); try (rewrite ?H in Hg; discriminate Hg).
  - exfalso. destruct (quit (hub σ)); [|destruct (addClient _ _)]; cbn in Hg; rewrite H in Hg; discriminate Hg.
  - exfalso. destruct (removeClient _ _) as [ [] ]; discriminate Hg.
  - destruct (revocation_replaced _ _) eqn:E; [rewrite resume_goroutine, H in Hg; discriminate Hg|]. injection Hg as -> ->. by right.
  - left. apply Hkeep. by destruct (handleUserBroadcast _ _).
Qed.

Lemma replaced_same h h' req : same_registry h h' → revocation_replaced h' req = revocation_replaced h req.
Proof. intros (_ & _ & _ & Hg & _). unfold revocation_replaced, subscriptionGeneration. by rewrite Hg. Qed.

Lemma run_answers n tr σ : run n tr σ → Z.of_nat n < 2 ^ 64 → answers tr σ.
Proof.
  induction 1 as [|n tr σ ls σ' Hrun IH Hst]; intros Hn; [by split|]. destruct IH as [Ha Hw Hr Hrw Hg]; [lia|].
  destruct (run_wf _ _ _ Hrun ltac:(lia)) as [W _].
  assert (Hin : ∀ l, l ∈ tr → l ∈ tr ++ ls) by set_solver. assert (Hin' : ∀ l, l ∈ ls → l ∈ tr ++ ls) by set_solver.
  destruct (step_recovery_point _ _ _ Hst) as [Hra Hrb].
  split.
  - intros i r s todo o Hp. destruct (step_act_point _ _ _ _ _ _ _ _ Hst Hp) as [ [? _]| ->]; [eauto|set_solver].
  - intros i r s todo Hp. destruct (step_wait_point _ _ _ _ _ _ _ Hst Hp) as [?|?]; eauto.
  - intros g todo res o Hp. destruct (Hra _ _ _ _ Hp) as [?|?]; eauto.
  - intros g todo res Hp. destruct (Hrb _ _ _ Hp) as [?|?]; eauto.
  - intros req from Hgo. destruct (step_goroutine _ _ _ _ _ Hst Hgo) as [ [Hold Hsame]|(Hwait & -> & Hrep) ].
    + destruct (Hg _ _ Hold) as [H1 H2]. rewrite (replaced_same _ _ _ Hsame). split; [|done].
      destruct from; [done| |]; naive_solver.
    + split; [|done]. destruct from as [|i|]; [done| |].
      * destruct Hwait as (r & s & todo & Hp & ->). exists r, s. split; [|eauto]. apply (sys_points σ W i). rewrite Hp. cbn. set_solver.
      * destruct Hwait as (g & todo & res & Hp & ->). exists g. split; [|eauto]. apply (sys_gaps σ W). rewrite Hp. cbn. set_solver.
Qed.

(** A denial that reaches the hub in time is about the subscription that is held. *)
Lemma denial_about h s s' key : 0 < bs_generation s' → bs_client s = bs_client s' → gen h (cl_id (bs_client s)) key = Some (bs_generation s) →
  revocation_replaced h (denial s' key) = false → s' = s.
Proof.
  destruct s as [c g], s' as [c' g']. cbn. intros Hpos <-. unfold revocation_replaced, subscriptionGeneration, gen. cbn. intros ->. cbn.
  intros [H|H]%andb_false_iff; apply negb_false_iff, bool_decide_eq_true_1 in H; [lia|congruence].
Qed.


