(* ===== verification/HubOrder.v ===== *)
(** * What is queued, on what authority, and in which order

    The events in the outboxes against the events the workers queued; the answer behind
    each of them; and the order of the events of one target. *)

From stdpp Require Import prelude gmap strings functions sorting.
From Stdlib Require Import ZArith Lia Sorted.
From S2P Require Import Prelude GoStrings Codec HubEvents Hub HubFacts HubRuns HubExample HubCalm HubWorkers HubDelivery.
Local Open Scope Z_scope.

(** ** The outboxes *)

Definition event_frame (f : Frame) : option (nat * string) :=
  match f with EventFrame seq key _ => Some (seq, key) | UserFrame _ | SyncFrame _ => None end.
Definition events_at (h : Hub) (ref : nat) : list (nat * string) := omap event_frame (default [] (outbox h !! ref)).
(** The events a trace shows queued for a connection. *)
Definition queued_for (ref : nat) (l : Label) : option (nat * string) :=
  match l with LEnqueued _ r s => if decide (cl_ref (bs_client s) = ref) then Some (br_seq r, key_of r) else None | _ => None end.

Lemma enqueue_events c f h h' ref : enqueue c f h = Some h' →
  events_at h' ref = events_at h ref ++ (if decide (cl_ref c = ref) then option_list (event_frame f) else []).
Proof.
  intros [-> _]%enqueue_Some. unfold events_at. cbn. destruct (decide (cl_ref c = ref)) as [<-|Hne].
  - rewrite lookup_insert_eq. cbn. rewrite omap_app. done.
  - rewrite lookup_insert_ne by done. by rewrite app_nil_r.
Qed.

Lemma signalGapLocked_events s key h ref : events_at (snd (signalGapLocked s key h)) ref = events_at h ref.
Proof.
  destruct (signalGapLocked s key h) as [ok h'] eqn:E. cbn.
  apply signalGapLocked_spec in E as [(_ & _ & ->)|[_ E] ]; [done|]. cbv zeta in E.
  destruct (forgetGapLocked_world (cl_id (bs_client s)) key h) as (Ho & _).
  assert (Hf : events_at (forgetGapLocked (cl_id (bs_client s)) key h) ref = events_at h ref) by (unfold events_at; by rewrite Ho).
  destruct E as [(_ & _ & ->)|[(t & _ & _ & -> & _)|(t & _ & _ & He)] ]; [done..|].
  rewrite (enqueue_events _ _ _ _ ref He), Hf. destruct (decide _); by rewrite app_nil_r.
Qed.

Lemma offers_events data l acc h ref : events_at (snd (foldl (offer (UserFrame data)) (acc, h) l)) ref = events_at h ref.
Proof.
  revert acc h. induction l as [|c l IH]; intros acc h; [done|]. cbn. unfold offer at 2. cbn.
  destruct (enqueue c (UserFrame data) h) as [h'|] eqn:E; rewrite IH; [|done].
  rewrite (enqueue_events _ _ _ _ ref E). cbn. destruct (decide _); by rewrite app_nil_r.
Qed.

Lemma signalled_queued ref s key h ok : omap (queued_for ref) (signalled s key h ok) = [].
Proof. unfold signalled. by destruct (_ && _ && _). Qed.

Lemma act_events i deadline data r s todo o h p h' ls ref : act i deadline data r s todo o h = (p, h', ls) →
  events_at h' ref = events_at h ref ++ omap (queued_for ref) ls.
Proof.
  intros Ha. destruct o; cbn in Ha; try (injection Ha as _ <- <-; by rewrite app_nil_r).
  - unfold enqueueAuthorizedBroadcast in Ha. destruct (_ || _ || _); [injection Ha as _ <- <-; by rewrite app_nil_r|].
    destruct (enqueue _ _ _) as [h1|] eqn:E; [|injection Ha as _ <- <-; by rewrite app_nil_r].
    pose proof (signalGapLocked_events s (key_of r) h1 ref) as Hs. destruct (signalGapLocked s (key_of r) h1) as [ok h2]. injection Ha as _ <- <-.
    cbn [snd omap list_omap] in *. rewrite Hs, (enqueue_events _ _ _ _ ref E). cbn. rewrite signalled_queued. by destruct (decide _).
  - destruct (recordGap s (key_of r) h) as [b h1] eqn:E. injection Ha as _ <- <-. rewrite app_nil_r. unfold events_at.
    unfold recordGap in E. destruct (subscriptionIsCurrentLocked s (key_of r) h); by injection E as _ <-.
  - destruct (recordGap s (key_of r) h) as [b h1] eqn:E. injection Ha as _ <- <-. rewrite app_nil_r. unfold events_at.
    unfold recordGap in E. destruct (subscriptionIsCurrentLocked s (key_of r) h); by injection E as _ <-.
Qed.

(** What was waiting and what is queued now is sent or still waits, in this order. *)
Lemma step_events σ ls σ' ref : step σ ls σ' →
  ∃ sent, sent ++ events_at (hub σ') ref = events_at (hub σ) ref ++ omap (queued_for ref) ls.
Proof.
  assert (Hsame : ∀ h, events_at h ref = events_at (hub σ) ref → ∃ sent, sent ++ events_at h ref = events_at (hub σ) ref ++ omap (queued_for ref) []).
  { intros h ->. exists []. by rewrite app_nil_r. }
  destruct 1; cbn [hub with_hub with_goroutine with_recovery at_point with_worker]; rewrite ?hub_resume; try (by apply Hsame).
  - apply Hsame. destruct (quit (hub σ)); [done|]. unfold addClient. by destruct (clients (hub σ) !! cl_id c).
  - apply Hsame. unfold removeClient. by destruct (negb _).
  - apply Hsame. unfold events_at. by destruct (handleSubscribe_world cancelled c ty id (hub σ)) as (_ & _ & _ & -> & _).
  - apply Hsame. destruct (revocation_replaced _ _); by rewrite ?hub_resume.
  - cbn. apply Hsame. unfold events_at. by destruct (revokeSubscription_world (rv_client req) (rv_key req) (hub σ)) as (_ & -> & _).
  - pose proof (offers_events (br_data r) (sessions_of (WorkspaceID (br_event r)) (TargetID (br_event r)) (hub σ)) [] (hub σ) ref) as Ho.
    unfold handleUserBroadcast. destruct (foldl _ _ _) as [slow h]. by apply Hsame.
  - exists []. by eapply act_events.
  - apply Hsame. by destruct H0.
  - replace (omap (queued_for ref) ls) with (@nil (nat * string)).
    + apply Hsame. destruct o; cbn in H0; try (by injection H0 as _ <- _).
      pose proof (signalGapLocked_events (pg_subscription g) (pg_key g) (hub σ) ref). destruct (signalGapLocked _ _ _). by injection H0 as _ <- _.
    + destruct o; cbn in H0; try (by injection H0 as _ _ <-). destruct (signalGapLocked _ _ _). injection H0 as _ _ <-. by rewrite signalled_queued.
  - apply Hsame. by destruct H0.
  - destruct (decide (cl_ref c = ref)) as [<-|Hne].
    + exists (option_list (event_frame f)). unfold events_at. cbn. rewrite lookup_insert_eq. unfold outbox_of in H. rewrite H. cbn.
      rewrite app_nil_r. by destruct f.
    + apply Hsame. unfold events_at. cbn. by rewrite lookup_insert_ne.
  - apply Hsame. by destruct H.
  - apply Hsame. unfold deliverToLocalUserSessions. destruct (_ || _); [done|]. apply offers_events.
  - apply Hsame. unfold clearTypingState. by destruct (typingActive (hub σ) !! cl_id c).
Qed.

(** The events that wait in an outbox are the last ones queued for it. *)
Lemma run_events n tr σ ref : run n tr σ → ∃ sent, sent ++ events_at (hub σ) ref = omap (queued_for ref) tr.
Proof.
  induction 1 as [|n tr σ ls σ' _ [sent IH] Hst]; [by exists []|]. destruct (step_events _ _ _ ref Hst) as [more Hm].
  exists (sent ++ more). by rewrite omap_app, <-IH, <-!app_assoc, Hm.
Qed.

(** ** The authority *)

Lemma act_enqueued i deadline data r s todo o h p h' ls i' r' s' : act i deadline data r s todo o h = (p, h', ls) → LEnqueued i' r' s' ∈ ls →
  (i' = i ∧ r' = r ∧ s' = s) ∧ o = recheckAllowed ∧ subscriptionIsCurrentLocked s (key_of r) h = true ∧ quit h = false ∧
  is_closed h (bs_client s) = false ∧ (p = WLoop r todo ∨ p = WDrop r [bs_client s] todo).
Proof.
  intros Ha Hin. assert (Hl : (i' = i ∧ r' = r ∧ s' = s) ∧ o = recheckAllowed).
  { destruct (act_labels _ _ _ _ _ _ _ _ _ _ _ Ha) as [->|(-> & full & ->)]; [by apply elem_of_nil in Hin|]. split; [|done].
    apply elem_of_cons in Hin as [ [= -> -> ->]|Hin]; [done|]. by apply elem_of_signalled in Hin. }
  destruct Hl as [He ->]. split; [exact He|]. split; [done|]. clear He. cbn in Ha. unfold enqueueAuthorizedBroadcast in Ha.
  destruct (deadline || is_closed h (bs_client s) || quit h || negb (subscriptionIsCurrentLocked s (key_of r) h)) eqn:E.
  - injection Ha as _ _ <-. by apply elem_of_nil in Hin.
  - apply orb_false_iff in E as [ [ [_ ->]%orb_false_iff ->]%orb_false_iff ->%negb_false_iff]. split_and!; [done..|].
    destruct (enqueue _ _ _); [|injection Ha as _ _ <-; by apply elem_of_nil in Hin]. destruct (signalGapLocked _ _ _) as [ [] ?]; injection Ha as <- _ _; auto.
Qed.

Lemma step_enqueued σ ls σ' i r s : step σ ls σ' → LEnqueued i r s ∈ ls →
  ∃ todo, point σ i = WAct r s todo recheckAllowed ∧ subscriptionIsCurrentLocked s (key_of r) (hub σ) = true ∧ quit (hub σ) = false ∧
    is_closed (hub σ) (bs_client s) = false ∧ (point σ' i = WLoop r todo ∨ point σ' i = WDrop r [bs_client s] todo).
Proof.
  intros Hst Hin. destruct (step_point _ _ _ i Hst) as [ [_ Hl]|[(? & ? & -> & _)|Hm] ]; [by destruct (Hl _ Hin)|by apply elem_of_nil in Hin|].
  inversion Hm; subst; try (by apply elem_of_nil in Hin); [by apply list_elem_of_singleton in Hin|].
  match goal with H : act _ _ _ _ _ _ _ _ = _ |- _ => rename H into Ha end.
  destruct (act_enqueued _ _ _ _ _ _ _ _ _ _ _ _ _ _ Ha Hin) as ((_ & <- & <-) & -> & Hcur & Hq & Hc & Hp). eauto 10.
Qed.

(** A worker that acts on an answer acts on the last one it was given. *)
Definition last_word (tr : list Label) (i : nat) (l : Label) : Prop :=
  ∃ pre mid, tr = pre ++ l :: mid ∧ ∀ l', l' ∈ mid → worker_of l' ≠ Some i.

Lemma run_last_word n tr σ i r s todo o : run n tr σ → point σ i = WAct r s todo o → last_word tr i (LAnswered i r s o).
Proof.
  intros Hrun. revert r s todo o. induction Hrun as [|n tr σ ls σ' _ IH Hst]; intros r s todo o Hp; [discriminate|].
  destruct (step_act_point _ _ _ _ _ _ _ _ Hst Hp) as [ [Hold Hl]| ->].
  - destruct (IH _ _ _ _ Hold) as (pre & mid & -> & Hm). exists pre, (mid ++ ls). split; [by rewrite <-app_assoc|]. set_solver.
  - exists tr, []. split; [done|set_solver].
Qed.



(** ** The order *)

(** The request a worker is in the middle of, with the recipients left, and those it has
    not begun. *)
Definition begun (p : Point) : option broadcastReq :=
  match p with
  | WIdle | WBegin _ => None
  | WLoop r _ | WAsk r _ _ | WAct r _ _ _ | WNotify r _ | WWait r _ _ | WDrop r _ _ | WClose r _ _ _ => Some r
  end.
Definition begins (p : Point) : list broadcastReq := match p with WBegin r => [r] | _ => [] end.
Definition ahead (w : Worker) : list broadcastReq := begins (w_point w) ++ w_queue w.
Definition requests (w : Worker) : list broadcastReq := option_list (begun (w_point w)) ++ ahead w.
Definition earlier (r r' : broadcastReq) : Prop := (br_seq r < br_seq r')%nat.

(** An event queued for a subscription comes before all a worker has left for it. *)
Definition precedes (w : Worker) (r : broadcastReq) (s : broadcastSubscription) : Prop :=
  (∀ r', r' ∈ ahead w → earlier r r') ∧
  (∀ r', begun (w_point w) = Some r' → earlier r r' ∨ (r = r' ∧ bs_client s ∉ bs_client <$> point_subs (w_point w))).
Record ordered (tr : list Label) (next i : nat) (w : Worker) : Prop := {
  order_requests : StronglySorted earlier (requests w);
  order_partition : ∀ r, r ∈ requests w → partition_of r = i ∧ (br_seq r < next)%nat;
  order_todo : NoDup (bs_client <$> point_subs (w_point w));
  order_done : ∀ r s, LEnqueued i r s ∈ tr → partition_of r = i ∧ (br_seq r < next)%nat ∧ precedes w r s }.

(** No client is twice in a snapshot. *)
Lemma omap_keyed_NoDup {A B K} (f : A → option B) (k : B → K) (back : K → A) (l : list A) : (∀ a b, f a = Some b → back (k b) = a) → NoDup l → NoDup (k <$> omap f l).
Proof.
  intros Hf. induction 1 as [|a l Hin Hnd IH]; cbn; [constructor|]. destruct (f a) as [b|] eqn:E; [|done]. cbn. constructor; [|done].
  intros (b' & Hk & (a' & Ha' & Hb')%list_elem_of_omap)%list_elem_of_fmap. apply Hin.
  by rewrite <-(Hf _ _ E), Hk, (Hf _ _ Hb').
Qed.

Lemma snapshot_NoDup key h : hub_wf h → NoDup (bs_client <$> broadcastSnapshot key h).
Proof.
  intros W. apply (omap_keyed_NoDup _ _ cl_id); [|apply NoDup_elements].
  intros id s Hs. apply bind_Some in Hs as (c & Hc & Hs). apply bind_Some in Hs as (g & _ & [= <-]). by apply (wf_id h W).
Qed.

(** What a move leaves of the requests and the recipients. *)
Lemma act_next i deadline data r s todo o h p h' ls : act i deadline data r s todo o h = (p, h', ls) →
  begun p = Some r ∧ begins p = [] ∧ (point_subs p = todo ∨ point_subs p = s :: todo ∧ ls = []).
Proof.
  intros Ha. destruct o; cbn in Ha; try (injection Ha as <- <- <-; cbn; auto).
  - destruct (enqueueAuthorizedBroadcast _ _ _ _ _) as [ [queued [] ] h1]; injection Ha as <- _ _; cbn; auto.
  - destruct (recordGap _ _ _) as [ [] h1]; injection Ha as <- _ _; cbn; auto.
  - destruct (recordGap _ _ _) as [ [] h1]; injection Ha as <- _ _; cbn; auto.
Qed.

Lemma moves_request j h p ls p' h' : moves j h p ls p' h' →
  p' = WIdle ∨ ∃ r, (begun p = Some r ∧ begins p = [] ∨ p = WBegin r) ∧ begun p' = Some r ∧ begins p' = [].
Proof.
  intros Hm. destruct Hm; try (by left); right; exists r; (split; [by (left + right)|]); try done.
  by apply act_next in H as (? & ? & _).
Qed.

Lemma moves_todo j h p ls p' h' : moves j h p ls p' h' →
  (∃ r, p = WBegin r ∧ (point_subs p' = [] ∨ point_subs p' ≡ₚ broadcastSnapshot (key_of r) h)) ∨ point_subs p' `sublist_of` point_subs p.
Proof.
  intros Hm. destruct Hm; try (left; eexists; split; [done|]; by (left + right)); right; cbn; try (by repeat constructor).
  apply act_next in H as (_ & _ & [->|[-> _] ]); by repeat constructor.
Qed.

Lemma step_dispatched σ ls σ' : step σ ls σ' → dispatched σ' = S (dispatched σ) ∨
  (dispatched σ' = dispatched σ ∧ ∀ i, (length (w_queue (workers σ' i)) <= length (w_queue (workers σ i)))%nat).
Proof.
  assert (Hres : ∀ from σ0, dispatched σ0 = dispatched σ → workers σ0 = workers σ → dispatched (resume from σ0) = dispatched σ ∧
    ∀ i, (length (w_queue (workers (resume from σ0) i)) <= length (w_queue (workers σ i)))%nat).
  { intros from σ0 H0 Hw. destruct from as [|i|]; cbn; rewrite ?Hw; [done| |by destruct (recovery σ0); cbn; rewrite ?Hw].
    destruct (point σ0 i); cbn; rewrite Hw; split; try done. intros j.
    destruct (decide (i = j)) as [<-|Hne]; [by rewrite fn_lookup_insert|by rewrite fn_lookup_insert_ne]. }
  assert (Hat : ∀ i w, (length (w_queue w) <= length (w_queue (workers σ i)))%nat →
    ∀ j, (length (w_queue ((<[i := w]> (workers σ)) j)) <= length (w_queue (workers σ j)))%nat).
  { intros i w Hw j. destruct (decide (i = j)) as [<-|Hne]; [by rewrite fn_lookup_insert|by rewrite fn_lookup_insert_ne]. }
  destruct 1; try (by left); right; try done; try (split; [done|by apply Hat]).
  - destruct (quit (hub σ)); [done|]. by destruct (addClient _ _).
  - by destruct (removeClient _ _).
  - destruct (revocation_replaced _ _); [by apply Hres|done].
  - by apply Hres.
  - by apply Hres.
  - split; [done|]. apply Hat. rewrite H0. cbn. lia.
  - destruct (handleUserBroadcast _ _). split; [done|by apply Hat].
Qed.

(** ** Kept by a worker *)

Lemma ordered_same tr next next' i w ls : ordered tr next i w → (next <= next')%nat → (∀ l, l ∈ ls → worker_of l ≠ Some i) → ordered (tr ++ ls) next' i w.
Proof.
  intros [Hs Hp Ht Hd] Hn Hl. split; try done.
  - intros r Hr. destruct (Hp r Hr). split; [done|lia].
  - intros r s [Hin|Hin]%elem_of_app; [|by destruct (Hl _ Hin)]. destruct (Hd _ _ Hin) as (? & ? & ?). split_and!; [done|lia|done].
Qed.

Lemma ordered_queued tr next next' i w r : ordered tr next i w → (next < next')%nat → br_seq r = next → partition_of r = i →
  ordered tr next' i {| w_queue := w_queue w ++ [r]; w_point := w_point w |}.
Proof.
  intros [Hs Hp Ht Hd] Hn Hr Hi.
  assert (Hreq : requests {| w_queue := w_queue w ++ [r]; w_point := w_point w |} = requests w ++ [r]) by (unfold requests, ahead; cbn; by rewrite !app_assoc).
  split; rewrite ?Hreq; [| |done|].
  - apply StronglySorted_app_2; [|done|by repeat constructor]. intros y ? Hy ->%list_elem_of_singleton. destruct (Hp y Hy). unfold earlier. lia.
  - intros y [Hy| ->%list_elem_of_singleton]%elem_of_app; [destruct (Hp y Hy); split; [done|lia]|split; [done|lia] ].
  - intros r0 s Hin. destruct (Hd _ _ Hin) as (? & ? & Ha & Hb). split_and!; [done|lia|]. split; [|done].
    unfold ahead in *. cbn. intros y. rewrite app_assoc. intros [Hy| ->%list_elem_of_singleton]%elem_of_app; [by apply Ha|unfold earlier; lia].
Qed.

Lemma ordered_take tr next i w r rest : ordered tr next i w → w_point w = WIdle → w_queue w = r :: rest →
  ordered tr next i {| w_queue := rest; w_point := WBegin r |}.
Proof.
  destruct w as [q p]. cbn. intros [Hs Hp Ht Hd] -> ->. split; [exact Hs|exact Hp|constructor|].
  intros r0 s Hin. destruct (Hd _ _ Hin) as (? & ? & Ha & Hb). split_and!; [done..|]. by split.
Qed.

Lemma moves_enqueued i h p ls p' h' r s : moves i h p ls p' h' → LEnqueued i r s ∈ ls →
  ∃ todo, p = WAct r s todo recheckAllowed ∧ begun p' = Some r ∧ begins p' = [] ∧ point_subs p' = todo.
Proof.
  intros Hm Hin. inversion Hm; subst; try (by apply elem_of_nil in Hin); try (by apply list_elem_of_singleton in Hin).
  match goal with H : act _ _ _ _ _ _ _ _ = _ |- _ => rename H into Ha end.
  destruct (act_enqueued _ _ _ _ _ _ _ _ _ _ _ _ _ _ Ha Hin) as ((_ & <- & <-) & -> & _ & _ & _ & [->| ->]); by eexists.
Qed.

Lemma moves_requests i h p ls p' h' q : moves i h p ls p' h' →
  ahead {| w_queue := q; w_point := p' |} = q ∧
  ∃ pre, requests {| w_queue := q; w_point := p |} = pre ++ requests {| w_queue := q; w_point := p' |}.
Proof.
  intros Hm. unfold requests, ahead. cbn. destruct (moves_request _ _ _ _ _ _ Hm) as [->|(r & Hp & Hb & ->)]; cbn; (split; [done|]).
  - eexists. by rewrite app_assoc.
  - exists []. rewrite Hb. by destruct Hp as [ [-> ->]| ->].
Qed.

Lemma ordered_move h h' tr next i w ls p' : hub_wf h → ordered tr next i w → moves i h (w_point w) ls p' h' →
  ordered (tr ++ ls) next i {| w_queue := w_queue w; w_point := p' |}.
Proof.
  destruct w as [q p]. cbn [w_queue w_point]. intros W [Hs Hp Ht Hd] Hm. destruct (moves_requests i h p ls p' h' q Hm) as [Hah [pre Hreq] ].
  rewrite Hreq in Hs, Hp. pose proof (moves_todo _ _ _ _ _ _ Hm) as Htodo. cbn in Ht. split.
  - by eapply StronglySorted_app_1_r.
  - intros r Hr. apply Hp. set_solver.
  - cbn. destruct Htodo as [(r & _ & [->|Hperm])|Hsub]; [constructor|rewrite Hperm; by apply snapshot_NoDup|].
    eapply sublist_NoDup; [done|]. by apply fmap_sublist.
  - intros r s [Hin|Hin]%elem_of_app.
    + destruct (Hd _ _ Hin) as (? & ? & Ha & Hb). split_and!; try done. split; rewrite ?Hah; cbn in *.
      * intros r' Hr'. apply Ha. unfold ahead. cbn. set_solver.
      * intros r' Hr'. destruct (moves_request _ _ _ _ _ _ Hm) as [->|(r'' & Hcur & Hb' & _)]; [done|]. rewrite Hb' in Hr'. injection Hr' as ->.
        destruct Hcur as [ [Hcur _]| ->]; [|left; apply Ha; unfold ahead; cbn; set_solver].
        destruct (Hb _ Hcur) as [?|[-> Hno] ]; [by left|]. right. split; [done|]. destruct Htodo as [(? & -> & _)|Hsub]; [done|].
        intros Hin'. apply Hno. eapply elem_of_sublist; [exact Hin'|]. by apply fmap_sublist.
    + destruct (moves_enqueued _ _ _ _ _ _ _ _ Hm Hin) as (todo & -> & Hb' & Hbe & Hto).
      assert (Hcons : pre ++ requests {| w_queue := q; w_point := p' |} = r :: q) by (by rewrite <-Hreq).
      rewrite Hcons in Hs, Hp. destruct (Hp r ltac:(set_solver)) as [? ?]. split_and!; [done..|]. split.
      * rewrite Hah. intros r' Hr'. apply StronglySorted_inv in Hs as [_ Hs]. rewrite Forall_forall in Hs. by apply Hs.
      * cbn. rewrite Hb', Hto. intros r' [= ->]. right. split; [done|]. cbn in Ht. by apply NoDup_cons in Ht as [? _].
Qed.

Lemma run_ordered n tr σ i : run n tr σ → Z.of_nat n < 2 ^ 64 → ordered tr (dispatched σ) i (workers σ i).
Proof.
  induction 1 as [|n tr σ ls σ' Hrun IH Hst]; intros Hn.
  - split; cbn; [constructor|intros r Hr; by apply elem_of_nil in Hr|constructor|intros r s Hin; by apply elem_of_nil in Hin].
  - specialize (IH ltac:(lia)). destruct (run_wf _ _ _ Hrun ltac:(lia)) as [W _].
    assert (Hd : (dispatched σ <= dispatched σ')%nat) by (destruct (step_dispatched _ _ _ Hst) as [-> |[-> _] ]; lia).
    pose proof (step_worker _ _ _ Hst i) as Hw. remember (workers σ' i) as w' eqn:Ew. destruct Hw as [Hl|r -> Hr Hi|r rest -> Hp Hq|p Hm].
    + by eapply ordered_same.
    + rewrite app_nil_r. eapply ordered_queued; [done| |done..]. destruct (step_dispatched _ _ _ Hst) as [-> |[_ Hlen] ]; [lia|].
      specialize (Hlen i). rewrite <-Ew in Hlen. cbn in Hlen. rewrite length_app in Hlen. cbn in Hlen. lia.
    + rewrite app_nil_r. rewrite <-(app_nil_r tr). eapply ordered_same; [by eapply ordered_take|done|set_solver].
    + rewrite <-(app_nil_r (tr ++ ls)). eapply ordered_same; [eapply ordered_move; [apply W|done|exact Hm]|done|set_solver].
Qed.

(** The events of a target a trace shows queued for a client. *)
Definition delivered_to (c : Client) (key : string) (l : Label) : option nat :=
  match l with LEnqueued _ r s => if decide (bs_client s = c ∧ key_of r = key) then Some (br_seq r) else None | _ => None end.

Lemma elem_of_delivered c key (tr : list Label) q : q ∈ omap (delivered_to c key) tr → ∃ i r s, LEnqueued i r s ∈ tr ∧ bs_client s = c ∧ key_of r = key ∧ br_seq r = q.
Proof.
  intros (l & Hin & Hl)%list_elem_of_omap. destruct l; try discriminate Hl. cbn in Hl. destruct (decide _) as [ [? ?]|]; [|discriminate Hl].
  injection Hl as <-. by repeat eexists.
Qed.

Lemma step_delivered σ ls σ' c key : step σ ls σ' →
  omap (delivered_to c key) ls = [] ∨
  ∃ i r s todo, omap (delivered_to c key) ls = [br_seq r] ∧ point σ i = WAct r s todo recheckAllowed ∧ bs_client s = c ∧ key_of r = key.
Proof.
  intros Hst. assert (Hone : ls = [] ∨ (∃ l, ls = [l] ∧ delivered_to c key l = None) ∨ (∃ i r s h ok, ls = LEnqueued i r s :: signalled s (key_of r) h ok) ∨
    (∃ s k h ok, ls = signalled s k h ok)).
  { destruct Hst; try (by left); [right; left; by eexists|..].
    - apply act_labels in H0 as [->|(_ & full & ->)]; [by left|]. right; right; left. by repeat eexists.
    - right; left; by eexists.
    - destruct o; cbn in H0; try (injection H0 as _ _ <-; by left). destruct (signalGapLocked _ _ _). injection H0 as _ _ <-. right; right; right. by repeat eexists. }
  assert (Hsig : ∀ s k h ok, omap (delivered_to c key) (signalled s k h ok) = []) by (intros; unfold signalled; by destruct (_ && _ && _)).
  destruct Hone as [->|[(l & -> & Hl)|[(i & r & s & h & ok & ->)|(s & k & h & ok & ->)] ] ]; [by left|left; cbn; by rewrite Hl| |left; apply Hsig].
  cbn. rewrite Hsig. destruct (decide _) as [ [Hc Hk]|]; [|by left]. right.
  destruct (step_enqueued σ _ σ' i r s Hst ltac:(set_solver)) as (todo & Hp & _). by exists i, r, s, todo.
Qed.

(** C13. The events of one target reach a connection in the order they were dispatched, each
    at most once, whatever the interleaving of the workers: a target stays on one
    partition, its worker takes one request at a time, and no subscriber is twice in a
    snapshot. *)
Theorem targets_are_ordered n tr σ c key : run n tr σ → Z.of_nat n < 2 ^ 64 → StronglySorted lt (omap (delivered_to c key) tr).
Proof.
  induction 1 as [|n tr σ ls σ' Hrun IH Hst]; intros Hn; [constructor|]. specialize (IH ltac:(lia)). rewrite omap_app.
  destruct (step_delivered _ _ _ c key Hst) as [->|(i & r & s & todo & -> & Hp & Hc & Hk)]; [by rewrite app_nil_r|].
  apply StronglySorted_app_2; [|done|by repeat constructor]. intros q q' Hq ->%list_elem_of_singleton.
  destruct (elem_of_delivered _ _ _ _ Hq) as (i' & r' & s' & Hin & Hc' & Hk' & <-).
  destruct (run_ordered _ _ _ i Hrun ltac:(lia)) as [_ Hpart Htodo _]. destruct (run_ordered _ _ _ i' Hrun ltac:(lia)) as [_ _ _ Hdone].
  destruct (Hdone _ _ Hin) as (Hi' & _ & _ & Hb). unfold point in Hp. unfold requests in Hpart. rewrite Hp in Hpart, Htodo. cbn in Hpart.
  assert (Hii : i' = i). { rewrite <-Hi'. destruct (Hpart r ltac:(set_solver)) as [<- _]. unfold partition_of. by rewrite Hk, Hk'. }
  rewrite Hii, Hp in Hb. destruct (Hb r eq_refl) as [?|[_ Hno] ]; [done|]. exfalso. apply Hno. cbn. rewrite Hc', Hc. set_solver.
Qed.

Lemma targets_are_ordered_witness : omap (delivered_to toy_client toy_key) toy_two = [0; 1]%nat ∧ StronglySorted lt (omap (delivered_to toy_client toy_key) toy_two).
Proof.
  assert (Hd : omap (delivered_to toy_client toy_key) toy_two = [0; 1]%nat) by (vm_compute; reflexivity). split; [exact Hd|].
  apply (targets_are_ordered 15 _ _ _ _ toy_run_two). lia.
Defined.
