(* ===== verification/HubGaps.v ===== *)
(** * What becomes of an event that was withheld

    An event the authorizer gave no answer about is owed to its subscription: the gap is
    there until the client was told, and as long as it is there somebody attends to it. *)

From stdpp Require Import prelude gmap strings functions.
From Stdlib Require Import ZArith Lia.
From S2P Require Import Prelude GoStrings Codec HubEvents Hub HubFacts HubRuns HubExample HubCalm HubWorkers HubDelivery.
Local Open Scope Z_scope.

(** ** A gap is kept *)

Lemma step_dropping σ ls σ' c : step σ ls σ' → dropping σ c → dropping σ' c ∨ is_closed (hub σ') c = true.
Proof.
  assert (Hclosed : ∀ h c, is_closed (close c h) c = true) by (intros; unfold is_closed; apply bool_decide_eq_true_2; cbn; set_solver).
  intros Hst [ [i Hd]|Hr].
  - destruct (step_point _ _ _ i Hst) as [ [He _]|[(? & ? & _ & He & _)|Hm] ]; [left; left; exists i; by rewrite He|by rewrite He in Hd|].
    assert (Hp : dropped_at c (point σ' i) ∨ is_closed (hub σ') c = true); [|destruct Hp; [left; left; by exists i|by right] ].
    destruct Hm; cbn in Hd |- *; try done; [left; set_solver|by apply elem_of_nil in Hd|]. destruct Hd as [->|?]; auto.
  - destruct (step_recovery _ _ _ Hst) as [He|Hm]; [left; right; by rewrite He|].
    assert (Hp : match recovery σ' with RDrop c' _ _ | RClose c' _ _ => c = c' | _ => False end ∨ is_closed (hub σ') c = true);
      [|destruct Hp; [left; by right|by right] ].
    destruct Hm; cbn in Hr |- *; try done; subst; auto.
Qed.

(** Why nothing, or nothing more, is owed to a subscription of a target; and the debt. *)
Definition settled (σ : Sys) (s : broadcastSubscription) (key : string) : Prop :=
  quit (hub σ) = true ∨ is_closed (hub σ) (bs_client s) = true ∨ subscriptionIsCurrentLocked s key (hub σ) = false ∨ dropping σ (bs_client s).
Definition owed (σ : Sys) (s : broadcastSubscription) (key : string) : Prop := gapIsPendingLocked s key (hub σ) = true.

Lemma is_closed_mono h h' c : closed h ⊆ closed h' → is_closed h c = true → is_closed h' c = true.
Proof. unfold is_closed. rewrite !bool_decide_eq_true. set_solver. Qed.

Lemma step_settled σ ls σ' s key : step σ ls σ' → sys_wf σ → nextSubscriptionGeneration (hub σ) + 1 < 2 ^ 64 → issued (hub σ) s →
  settled σ s key → settled σ' s key.
Proof.
  intros Hst W Hn Hi. destruct (step_change _ _ _ Hst W Hn) as (_ & _ & [_ Hcur _ _ Hcl Hq]). unfold settled. intros [H|[H|[H|H] ] ].
  - left. auto.
  - right; left. by eapply is_closed_mono.
  - right; right; left. destruct (subscriptionIsCurrentLocked s key (hub σ')) eqn:E; [|done]. by rewrite (Hcur s key Hi E) in H.
  - destruct (step_dropping _ _ _ _ Hst H); auto.
Qed.

Lemma step_owed σ ls σ' s key : step σ ls σ' → sys_wf σ → nextSubscriptionGeneration (hub σ) + 1 < 2 ^ 64 → issued (hub σ) s →
  parseTargetKey key ≠ None → LSignalled s key ∉ ls → owed σ s key → owed σ' s key ∨ settled σ' s key.
Proof.
  intros Hst W Hn Hi Hk Hl Ho. destruct (step_change _ _ _ Hst W Hn) as (_ & _ & [_ _ Hkept _ _ _]). unfold owed, settled in *.
  destruct (subscriptionIsCurrentLocked s key (hub σ')) eqn:E; [|by auto].
  destruct (Hkept s key Hi E Ho) as [?|[?|[?|?] ] ]; auto 6; done.
Qed.

(** ** Withheld events *)

(** A worker was given this answer, and the client has not been told since. *)
Definition unsettled_answer (tr : list Label) (i : nat) (r : broadcastReq) (s : broadcastSubscription) (o : recheckOutcome) : Prop :=
  ∃ pre post, tr = pre ++ LAnswered i r s o :: post ∧ LSignalled s (key_of r) ∉ post.

Lemma unsettled_app tr ls i r s o : unsettled_answer (tr ++ ls) i r s o →
  (unsettled_answer tr i r s o ∧ LSignalled s (key_of r) ∉ ls) ∨ LAnswered i r s o ∈ ls.
Proof.
  intros (pre & post & He & Hno). apply app_eq_inv in He as [(k & -> & Hk)|(k & -> & ->)]; [|right; set_solver].
  destruct k as [|l k]; cbn in Hk; [right; subst; set_solver|]. injection Hk as <- ->. left. split; [|set_solver]. exists pre, k. split; [done|set_solver].
Qed.

Lemma step_answered σ ls σ' i r s o : step σ ls σ' → LAnswered i r s o ∈ ls →
  ∃ todo, point σ i = WAsk r s todo ∧ point σ' i = WAct r s todo o.
Proof.
  intros Hst Hin. destruct (step_point _ _ _ i Hst) as [ [_ Hl]|[(? & ? & -> & _)|Hm] ]; [by destruct (Hl _ Hin)|by apply elem_of_nil in Hin|].
  inversion Hm; subst; try (by apply elem_of_nil in Hin); [apply list_elem_of_singleton in Hin; injection Hin as -> -> ->; by eexists|].
  match goal with H : act _ _ _ _ _ _ _ _ = _ |- _ => apply act_labels in H as [->|(_ & full & ->)] end; [by apply elem_of_nil in Hin|].
  apply elem_of_cons in Hin as [?|Hin]; [done|by apply elem_of_signalled in Hin].
Qed.

Lemma issued_mono σ ls σ' s : step σ ls σ' → sys_wf σ → nextSubscriptionGeneration (hub σ) + 1 < 2 ^ 64 → issued (hub σ) s → issued (hub σ') s.
Proof. intros Hst W Hn. destruct (step_change _ _ _ Hst W Hn) as (_ & _ & [Hle _ _ _ _ _]). unfold issued. lia. Qed.

Lemma run_issued n tr σ i r s o : run n tr σ → Z.of_nat n < 2 ^ 64 → LAnswered i r s o ∈ tr → issued (hub σ) s.
Proof.
  induction 1 as [|n tr σ ls σ' Hrun IH Hst]; intros Hn Hin; [by apply elem_of_nil in Hin|]. destruct (run_wf _ _ _ Hrun ltac:(lia)) as [W Hle].
  eapply issued_mono; [done..|lia|]. apply elem_of_app in Hin as [Hin|Hin]; [apply IH; [lia|done]|].
  destruct (step_answered _ _ _ _ _ _ _ Hst Hin) as (todo & Hp & _). apply (sys_points σ W i). rewrite Hp. cbn. set_solver.
Qed.

Lemma step_withheld σ ls σ' i r s todo o : step σ ls σ' → sys_wf σ → recheck_withheld o = true → point σ i = WAct r s todo o →
  point σ' i = WAct r s todo o ∨ owed σ' s (key_of r) ∨ settled σ' s (key_of r).
Proof.
  intros Hst W Ho Hp. assert (Hs : 0 < bs_generation s) by (apply (sys_points σ W i); rewrite Hp; cbn; set_solver).
  destruct (step_point _ _ _ i Hst) as [ [He _]|[(? & ? & _ & He & _)|Hm] ]; rewrite Hp in *; [by left|done|]. right. unfold owed, settled.
  inversion Hm; subst. match goal with H : act _ _ _ _ _ _ _ _ = _ |- _ => rename H into Ha end.
  assert (Hrec : hub σ' = snd (recordGap s (key_of r) (hub σ))).
  { destruct o; try discriminate Ho; cbn in Ha; destruct (recordGap _ _ _) as [b h']; by injection Ha as _ <- _. }
  pose proof (recordGap_gap s (key_of r) (hub σ) (cl_id (bs_client s)) (key_of r)) as Hg.
  pose proof (recordGap_wf s (key_of r) (hub σ) (sys_hub σ W) Hs) as W'. rewrite <-Hrec in Hg, W'.
  destruct (subscriptionIsCurrentLocked s (key_of r) (hub σ)) eqn:E.
  - left. apply gap_pending; [done..|]. rewrite decide_True in Hg by done. split; [|done]. apply current_gen in E as [E _]; [|apply W|done].
    rewrite Hrec. destruct (recordGap_registry s (key_of r) (hub σ)) as (-> & _). done.
  - right; right; right; left. rewrite Hrec. unfold recordGap. by rewrite E.
Qed.

(** C12. An event withheld from a subscription, because the authorizer did not answer in time
    or failed, is not forgotten: as long as its client was not signalled the gap of its
    target since, either the worker is about to record the gap, or the gap is pending, or
    there is nobody to tell any more, the subscription or its connection being gone or
    going, or the hub stopping. *)
Theorem withheld_events_are_owed n tr σ i r s o : run n tr σ → Z.of_nat n < 2 ^ 64 →
  unsettled_answer tr i r s o → recheck_withheld o = true → parseTargetKey (key_of r) ≠ None →
  (∃ todo, point σ i = WAct r s todo o) ∨ owed σ s (key_of r) ∨ settled σ s (key_of r).
Proof.
  induction 1 as [|n tr σ ls σ' Hrun IH Hst]; intros Hn Hu Ho Hk.
  - destruct Hu as (pre & post & He & _). by destruct pre.
  - destruct (run_wf _ _ _ Hrun ltac:(lia)) as [W Hle].
    apply unsettled_app in Hu as [ [Hu Hls]|Hin]; [|destruct (step_answered _ _ _ _ _ _ _ Hst Hin) as (todo & _ & ?); by eauto].
    assert (Hi : issued (hub σ) s) by (destruct Hu as (? & ? & -> & _); eapply (run_issued _ _ _ i r s o); [done|lia|set_solver]).
    destruct (IH ltac:(lia) Hu Ho Hk) as [ [todo Hp]|[Howed|Hset] ].
    + destruct (step_withheld _ _ _ _ _ _ _ _ Hst W Ho Hp) as [?|?]; eauto.
    + right. eapply step_owed; [exact Hst|exact W|lia|done..].
    + right; right. eapply step_settled; [exact Hst|exact W|lia|done..].
Qed.

Definition toy_withheld : Sys := toy_acted 0 recheckTimeout toy_subscribed.
Lemma toy_run_withheld : run 8 (toy_trace recheckTimeout) toy_withheld.
Proof. apply (toy_run_acted recheckTimeout false (Some context_DeadlineExceeded)). by vm_compute. Qed.

Lemma withheld_events_are_owed_witness :
  (∃ todo, point toy_withheld toy_worker = WAct (toy_request 0) toy_subscription todo recheckTimeout) ∨
  owed toy_withheld toy_subscription toy_key ∨ settled toy_withheld toy_subscription toy_key.
Proof.
  assert (Hk : parseTargetKey toy_key ≠ None) by (vm_compute; discriminate).
  refine (withheld_events_are_owed 8 _ _ toy_worker (toy_request 0) toy_subscription recheckTimeout toy_run_withheld _ _ eq_refl Hk); [lia|].
  exists [], []. split; [reflexivity|]. apply not_elem_of_nil.
Defined.

(** ** Who attends to a gap *)

(** The recovery will come to the gap in the pass it is in, or begins another pass. *)
Definition attends (p : Recovery) (g : pendingGap) : Prop :=
  match p with
  | RSleep => False
  | RTimer => True
  | RLoop todo res | RDrop _ todo res | RClose _ todo res => res = false ∨ g ∈ todo
  | RAsk g' todo res | RAct g' todo res _ | RWait g' todo res => res = false ∨ g ∈ g' :: todo
  end.
Definition attended (σ : Sys) (g : pendingGap) : Prop :=
  syncSignal (hub σ) = true ∨ (∃ i r todo, point σ i = WNotify r todo) ∨ attends (recovery σ) g.

Lemma pending_issued s key h : hub_wf h → gapIsPendingLocked s key h = true → issued h s.
Proof.
  intros W. unfold gapIsPendingLocked. destruct (gens_of (pendingSync h) (cl_id (bs_client s)) !! key) as [g|] eqn:E; [|done].
  intros [Hg%bool_decide_eq_true_1 _]%andb_true_iff. subst g. eapply (wf_range h W), (wf_gap h W). exact E.
Qed.

Lemma pending_current s key h : gapIsPendingLocked s key h = true → subscriptionIsCurrentLocked s key h = true.
Proof. unfold gapIsPendingLocked. destruct (_ !! key); [|done]. by intros [_ ?]%andb_true_iff. Qed.

(** A gap of a state is about a subscription of the state before. *)
Lemma step_pending_issued σ ls σ' s key : step σ ls σ' → sys_wf σ → nextSubscriptionGeneration (hub σ) + 1 < 2 ^ 64 →
  gapIsPendingLocked s key (hub σ') = true → issued (hub σ) s.
Proof.
  intros Hst W Hn Hp. pose proof (step_wf _ _ _ Hst W Hn) as W'. pose proof (pending_issued _ _ _ (sys_hub σ' W') Hp) as Hi. unfold issued in *.
  assert (Hsame : nextSubscriptionGeneration (hub σ') = nextSubscriptionGeneration (hub σ) → 0 < bs_generation s <= nextSubscriptionGeneration (hub σ)) by (intros He; by rewrite He in Hi).
  destruct (step_registry _ _ _ Hst) as [(_ & _ & _ & _ & He)|[ [_ Hcase]|(req & from & _ & _ & Hh)] ].
  - by apply Hsame.
  - destruct Hcase as [(c & Hq & Hh)|[(c & rest & Hun & Hh)|[(cancelled & c & ty & id & Hh)|[Hq Hno] ] ] ].
    + apply Hsame. rewrite Hh. unfold addClient. by destruct (clients (hub σ) !! cl_id c).
    + apply Hsame. rewrite Hh. unfold removeClient. by destruct (negb _).
    + apply (pending_issued s key (hub σ)); [apply W|]. apply gap_pending; [apply W|apply Hi|].
      apply gap_pending in Hp as [Hc Hg]; [|apply W'|apply Hi]. destruct (handleSubscribe_world cancelled c ty id (hub σ)) as (Hcl & Hpe & _).
      rewrite Hh, Hcl in Hc. unfold gap in *. by rewrite Hh, Hpe in Hg.
    + apply gap_pending in Hp as [Hc _]; [|apply W'|apply Hi]. by rewrite Hno in Hc.
  - apply Hsame. rewrite Hh. by destruct (revokeSubscription_world (rv_client req) (rv_key req) (hub σ)) as (_ & _ & _ & _ & _ & _ & ->).
Qed.

Lemma step_signal σ ls σ' : step σ ls σ' → syncSignal (hub σ) = true → syncSignal (hub σ') = true ∨ recovery σ' = RTimer.
Proof.
  intros Hst Hs. destruct Hst; cbn [hub with_hub with_goroutine with_recovery at_point with_worker]; rewrite ?hub_resume; try (by left); try (by right).
  - left. destruct (quit (hub σ)); [done|]. unfold addClient. by destruct (clients (hub σ) !! cl_id c).
  - left. unfold removeClient. by destruct (negb _).
  - left. destruct (handleSubscribe_world cancelled c ty id (hub σ)) as (_ & _ & _ & _ & _ & -> & _). done.
  - left. destruct (revocation_replaced _ _); by rewrite ?hub_resume.
  - left. cbn. destruct (revokeSubscription_world (rv_client req) (rv_key req) (hub σ)) as (_ & _ & _ & -> & _). done.
  - left. destruct (offers_same (UserFrame (br_data r)) (sessions_of (WorkspaceID (br_event r)) (TargetID (br_event r)) (hub σ)) [] (hub σ)) as (_ & _ & _ & _ & Hx & _).
    unfold handleUserBroadcast. destruct (foldl _ _ _). cbn in *. congruence.
  - left. cbn. destruct o; cbn in H0; try (by injection H0 as _ <- _).
    + unfold enqueueAuthorizedBroadcast in H0. destruct (_ || _ || _); [by injection H0 as _ <- _|].
      destruct (enqueue _ _ _) as [h1|] eqn:E; [|by injection H0 as _ <- _]. destruct (enqueue_same _ _ _ _ E) as (_ & _ & _ & _ & Hx & _).
      destruct (signalGapLocked_same s (key_of r) h1) as (_ & _ & _ & Hy & _). destruct (signalGapLocked _ _ _). injection H0 as _ <- _. cbn in *. congruence.
    + unfold recordGap in H0. destruct (subscriptionIsCurrentLocked _ _ _); by injection H0 as _ <- _.
    + unfold recordGap in H0. destruct (subscriptionIsCurrentLocked _ _ _); by injection H0 as _ <- _.
  - left. by destruct H0.
  - left. cbn. destruct o; cbn in H0; try (by injection H0 as _ <- _).
    destruct (signalGapLocked_same (pg_subscription g) (pg_key g) (hub σ)) as (_ & _ & _ & Hy & _). destruct (signalGapLocked _ _ _). injection H0 as _ <- _. cbn in *. congruence.
  - left. by destruct H0.
  - left. by destruct H.
  - left. unfold deliverToLocalUserSessions. destruct (_ || _); [done|].
    match goal with |- context [foldl (offer ?f) ?a ?l] => destruct (offers_same (UserFrame data) l [] (hub σ)) as (_ & _ & _ & _ & Hx & _) end. cbn in *. congruence.
  - left. unfold clearTypingState. by destruct (typingActive (hub σ) !! cl_id c).
Qed.

(** While the recovery waits for the hub, the revocation is its own; and it takes a client
    for closed only when it is. *)
Record recovering (σ : Sys) : Prop := {
  recovering_revoke : ∀ req, goroutine σ = HRevoke req FromRecovery →
    quit (hub σ) = true ∨ ∃ g todo res, recovery σ = RWait g todo res ∧ req = denial (pg_subscription g) (pg_key g);
  recovering_closed : ∀ g todo res, recovery σ = RAct g todo res recheckClientClosed → is_closed (hub σ) (bs_client (pg_subscription g)) = true }.

Lemma step_resumed σ ls σ' g todo res : step σ ls σ' → recovery σ = RWait g todo res →
  recovery σ' = RWait g todo res ∨
  (recovery σ' = RLoop todo res ∧
   (quit (hub σ) = true ∨
    (goroutine σ' = HIdle ∧ hub σ' = hub σ ∧ revocation_replaced (hub σ) (denial (pg_subscription g) (pg_key g)) = true) ∨
    (goroutine σ' = HIdle ∧ ∃ req, goroutine σ = HRevoke req FromRecovery ∧ hub σ' = snd (revokeSubscription (rv_client req) (rv_key req) (hub σ))))).
Proof.
  intros Hst Hr.
  destruct Hst; cbn [hub goroutine recovery with_hub with_goroutine with_recovery at_point with_worker]; rewrite ?resume_goroutine, ?hub_resume; try (by left);
    try (match goal with H : recovery _ = _ |- _ => rewrite Hr in H; discriminate H end).
  - left. destruct (quit (hub σ)); [done|]. by destruct (addClient _ _).
  - left. by destruct (removeClient _ _).
  - destruct (revocation_replaced (hub σ) req) eqn:E; [|by left]. rewrite resume_goroutine, hub_resume.
    destruct (resume_recovery from σ) as [->|(g' & todo' & res' & -> & Hr' & ->)]; [by left|]. rewrite Hr in Hr'. injection Hr' as <- <- <-.
    right. split; [done|]. right; left. split_and!; [done..|]. destruct H0 as (g' & todo' & res' & Hr' & ->). rewrite Hr in Hr'. by injection Hr' as <- <- <-.
  - destruct (resume_recovery from (with_goroutine HIdle (with_hub (revokeSubscription (rv_client req) (rv_key req) (hub σ)).2 σ))) as [->|(g' & todo' & res' & -> & Hr' & ->)]; [by left|].
    cbn in Hr'. rewrite Hr in Hr'. injection Hr' as <- <- <-. right. split; [done|]. right; right. split; [done|]. by exists req.
  - destruct (resume_recovery from σ) as [->|(g' & todo' & res' & -> & Hr' & ->)]; [by left|]. rewrite Hr in Hr'. injection Hr' as <- <- <-. right. split; [done|by left].
  - left. by destruct (handleUserBroadcast _ _).
Qed.

Lemma recheck_closed h g allowed err : classifyRecheck (is_closed h (bs_client (pg_subscription g))) allowed err = recheckClientClosed →
  is_closed h (bs_client (pg_subscription g)) = true.
Proof. destruct err; cbn; [|by destruct allowed]. destruct (is_closed _ _); [done|]. by destruct (errors_Is _ _). Qed.

Lemma run_recovering n tr σ : run n tr σ → Z.of_nat n < 2 ^ 64 → recovering σ.
Proof.
  induction 1 as [|n tr σ ls σ' Hrun IH Hst]; intros Hn; [by split|]. destruct IH as [Hrev Hcl]; [lia|].
  destruct (run_wf _ _ _ Hrun ltac:(lia)) as [W Hle]. destruct (step_change _ _ _ Hst W ltac:(lia)) as (_ & _ & [_ _ _ _ Hc Hq]).
  assert (Hkeep : ∀ req, goroutine σ' = HRevoke req FromRecovery → (∃ g todo res, recovery σ = RWait g todo res ∧ req = denial (pg_subscription g) (pg_key g)) →
    quit (hub σ') = true ∨ ∃ g todo res, recovery σ' = RWait g todo res ∧ req = denial (pg_subscription g) (pg_key g)).
  { intros req Hg (g & todo & res & Hr & ->). destruct (step_resumed _ _ _ _ _ _ Hst Hr) as [?|[_ [?|[ [Hx _]|[Hx _] ] ] ] ]; [|auto|congruence..]. right. by do 3 eexists. }
  split.
  - intros req Hg. destruct (step_goroutine _ _ _ _ _ Hst Hg) as [ [Hold _]|(Hw & _) ]; [|by apply Hkeep]. destruct (Hrev _ Hold); [auto|by apply Hkeep].
  - intros g todo res Hp. destruct (step_recovery _ _ _ Hst) as [He|Hm]; rewrite Hp in *; [eapply is_closed_mono; [done|]; by eapply Hcl|].
    inversion Hm as [| |[]| | | | | | |]; subst.
    + eapply is_closed_mono; [done|]. by eapply recheck_closed.
    + match goal with H : recover _ _ _ ?o _ = _ |- _ => rename H into Ha; destruct o; cbn in Ha; try discriminate Ha end.
      destruct (signalGapLocked _ _ _) as [ [] ?]; discriminate Ha.
Qed.

(** A gap that is still there after its revocation was dealt with. *)
Lemma resumed_gap σ ls σ' g todo res : step σ ls σ' → sys_wf σ → nextSubscriptionGeneration (hub σ) + 1 < 2 ^ 64 → recovering σ →
  recovery σ = RWait g todo res → recovery σ' ≠ RWait g todo res →
  quit (hub σ) = true ∨ gapIsPendingLocked (pg_subscription g) (pg_key g) (hub σ') = false.
Proof.
  intros Hst W Hn [Hrev _] Hr Hne. pose proof (step_wf _ _ _ Hst W Hn) as W'.
  destruct (step_resumed _ _ _ _ _ _ Hst Hr) as [?|[_ [?|[(_ & Hh & Hrep)|(_ & req & Hg & Hh)] ] ] ]; [done|by left|right|].
  - rewrite Hh. destruct (gapIsPendingLocked _ _ _) eqn:E; [|done]. apply pending_current in E. unfold subscriptionIsCurrentLocked in E.
    do 3 (destruct (negb _); [done|]). apply bool_decide_eq_true_1 in E.
    unfold revocation_replaced in Hrep. apply andb_true_iff in Hrep as [_ Hrep%negb_true_iff%bool_decide_eq_false_1]. by destruct Hrep.
  - destruct (Hrev _ Hg) as [?|(g' & todo' & res' & Hr' & ->)]; [by left|]. rewrite Hr in Hr'. injection Hr' as <- <- <-. right.
    destruct (gapIsPendingLocked _ _ _) eqn:E; [|done]. exfalso. destruct (pending_issued _ _ _ (sys_hub σ' W') E) as [Hpos _].
    apply gap_pending in E as [Hc Hgap]; [|apply W'|done]. rewrite Hh in Hc, Hgap. rewrite revokeSubscription_gap in Hgap.
    destruct (revokeSubscription_world (bs_client (pg_subscription g)) (pg_key g) (hub σ)) as (Hcs & _). cbn in Hc, Hgap. rewrite Hcs in Hc.
    rewrite decide_True in Hgap; [discriminate Hgap|]. split_and!; [by apply registered_true|done..].
Qed.

(** A gap the signal was taken for is gone. *)
Lemma signalled_gap s key h : hub_wf h → gapIsPendingLocked s key (snd (signalGapLocked s key h)) = false.
Proof.
  intros W. destruct (gapIsPendingLocked s key (snd (signalGapLocked s key h))) eqn:E; [|done]. pose proof (signalGapLocked_wf s key h W) as W'.
  destruct (pending_issued _ _ _ W' E) as [Hpos _]. apply gap_pending in E as [Hc Hg]; [|done..].
  destruct (signalGapLocked_same s key h) as ((Hcs & _) & _ & _ & _ & _ & Hgap). rewrite Hgap in Hg. destruct (decide _) as [_|Hno]; [discriminate Hg|].
  exfalso. apply Hno. split; [|done]. apply gap_pending; [done..|]. by rewrite <-Hcs.
Qed.

Lemma step_attends σ ls σ' g : step σ ls σ' → sys_wf σ → nextSubscriptionGeneration (hub σ) + 1 < 2 ^ 64 → recovering σ →
  gapIsPendingLocked (pg_subscription g) (pg_key g) (hub σ) = true → gapIsPendingLocked (pg_subscription g) (pg_key g) (hub σ') = true →
  parseTargetKey (pg_key g) ≠ None → attends (recovery σ) g →
  attends (recovery σ') g ∨ quit (hub σ) = true ∨ is_closed (hub σ) (bs_client (pg_subscription g)) = true.
Proof.
  intros Hst W Hn R Hp Hp' Hk Ha. destruct (step_recovery _ _ _ Hst) as [->|Hm]; [by left|].
  pose proof (λ g todo res, resumed_gap _ _ _ g todo res Hst W Hn R) as Hres. pose proof (recovering_closed σ R) as Hcl.
  remember (recovery σ) as p eqn:Ep. remember (recovery σ') as p' eqn:Ep'. destruct Hm; cbn in Ha |- *; try (by left).
  - left. right. rewrite H. apply elem_of_pendingGaps; [apply W|]. split; [|done]. by apply (pending_issued _ (pg_key g) _ (sys_hub σ W)).
  - destruct Ha as [->|Ha]; [by left|by apply elem_of_nil in Ha].
  - destruct Ha as [?|[->|?]%elem_of_cons]; [by left; left| |by left; right]. exfalso. destruct H; congruence.
  - destruct o; cbn in H.
    + pose proof (signalled_gap (pg_subscription g0) (pg_key g0) (hub σ) (sys_hub σ W)) as Hgone. destruct (signalGapLocked _ _ _) as [ok h1]. injection H as <- <- _.
      left. destruct Ha as [?|[->|?]%elem_of_cons]; [destruct ok; by left|cbn in Hgone; congruence|destruct ok; by right].
    + injection H as <- _ _. by left.
    + injection H as <- _ _. by left; left.
    + injection H as <- _ _. by left; left.
    + injection H as <- _ _. destruct Ha as [?|[->|?]%elem_of_cons]; [by left; left| |by left; right]. right; right. by eapply Hcl.
  - destruct Ha as [?|[->|?]%elem_of_cons]; [by left; left| |by left; right]. right; left. destruct (Hres g0 todo res eq_refl); [done|done|congruence].
Qed.

Lemma step_attended σ ls σ' g : step σ ls σ' → sys_wf σ → nextSubscriptionGeneration (hub σ) + 1 < 2 ^ 64 → recovering σ →
  gapIsPendingLocked (pg_subscription g) (pg_key g) (hub σ) = true → gapIsPendingLocked (pg_subscription g) (pg_key g) (hub σ') = true →
  parseTargetKey (pg_key g) ≠ None → attended σ g →
  attended σ' g ∨ quit (hub σ) = true ∨ is_closed (hub σ) (bs_client (pg_subscription g)) = true.
Proof.
  intros Hst W Hn R Hp Hp' Hk [Hs|[(i & r & todo & Hi)|Ha] ]; unfold attended.
  - destruct (step_signal _ _ _ Hst Hs) as [?| ->]; auto. left; right; by right.
  - left. destruct (step_point _ _ _ i Hst) as [ [He _]|[(? & ? & _ & He & _)|Hm] ]; [|congruence|].
    + right; left. exists i, r, todo. by rewrite He.
    + rewrite Hi in Hm. inversion Hm; subst. by left.
  - destruct (step_attends _ _ _ g Hst W Hn R Hp Hp' Hk Ha); auto.
Qed.

(** C25. A pending gap is attended to: the signal of the recovery is set, or a worker is about
    to set it, or the recovery is at the gap or has it ahead, or it will make another pass
    because it could not settle everything in this one.  No gap waits for an event that
    may never come, as long as its connection is open and the hub is running. *)
Theorem gaps_are_attended n tr σ g : run n tr σ → Z.of_nat n < 2 ^ 64 →
  gapIsPendingLocked (pg_subscription g) (pg_key g) (hub σ) = true → parseTargetKey (pg_key g) ≠ None →
  quit (hub σ) = true ∨ is_closed (hub σ) (bs_client (pg_subscription g)) = true ∨ attended σ g.
Proof.
  induction 1 as [|n tr σ ls σ' Hrun IH Hst]; intros Hn Hp Hk; [discriminate Hp|].
  destruct (run_wf _ _ _ Hrun ltac:(lia)) as [W Hle]. destruct (step_change _ _ _ Hst W ltac:(lia)) as (_ & _ & [_ _ _ Hnew Hc Hq]).
  assert (Hi : issued (hub σ) (pg_subscription g)) by (eapply step_pending_issued; [exact Hst|exact W|lia|exact Hp]).
  destruct (Hnew _ _ Hi Hp) as [Hold|Hw]; [|right; right; right; by left].
  destruct (IH ltac:(lia) Hold Hk) as [?|[?|Ha] ]; [auto|right; left; by eapply is_closed_mono|].
  destruct (step_attended _ _ _ _ Hst W ltac:(lia) (run_recovering _ _ _ Hrun ltac:(lia)) Hold Hp Hk Ha) as [?|[?|?] ]; [auto|auto|].
  right; left. by eapply is_closed_mono.
Qed.

Lemma gaps_are_attended_witness :
  quit (hub toy_withheld) = true ∨ is_closed (hub toy_withheld) toy_client = true ∨ attended toy_withheld {| pg_subscription := toy_subscription; pg_key := toy_key |}.
Proof.
  assert (Hk : parseTargetKey toy_key ≠ None) by (vm_compute; discriminate).
  assert (Hp : gapIsPendingLocked toy_subscription toy_key (hub toy_withheld) = true) by (vm_compute; reflexivity).
  refine (gaps_are_attended 8 _ _ {| pg_subscription := toy_subscription; pg_key := toy_key |} toy_run_withheld _ Hp Hk). lia.
Defined.

(** ** Where an event is lost

    When the check was answered and its time runs out before the event is queued, the
    event is neither queued nor owed: no gap is recorded, though the subscription holds. *)
Lemma expired_answer_loses_event i data r s todo h :
  act i true data r s todo recheckAllowed h = (WLoop r todo, h, []).
Proof. reflexivity. Qed.

(** A connection removed between the check of its subscription and the record of its
    typing leaves the record behind, and nothing removes it again. *)
Lemma typing_outlives_connection c key h : hub_wf h → registered h c = true →
  let h' := touchTypingState c key (snd (removeClient c h)) in
  registered h' c = false ∧ key ∈ clientTypingKeys c h' ∧ removeClient c h' = (None, h').
Proof.
  intros W Hr. assert (Hno : registered (touchTypingState c key (snd (removeClient c h))) c = false).
  { unfold removeClient. rewrite Hr. unfold registered. cbn. rewrite lookup_delete_eq. by case_bool_decide. }
  cbv zeta. split; [exact Hno|]. split; [|unfold removeClient at 1; by rewrite Hno].
  unfold clientTypingKeys, touchTypingState. cbn. rewrite keys_of_insert, decide_True by done. set_solver.
Qed.
